(** * Route analysis services: a shallow embedding and its properties

    The development follows the Python services of [backend/services]:
    the road graph and the service area ([network_analyzer.py]), the zone
    classifiers ([service_area_analyzer.py], [locality_detector.py]), the
    map matcher ([map_matcher.py]) and the road attribute summary
    ([road_analyzer.py]).

    The values of Python floats are rationals ([Q]), and the sums and
    products of lengths go through an arithmetic ([Arith]) that may round
    them; dictionaries are [gmap] where only their content matters and
    association lists where the insertion order is observable; sets are
    [gset]; exceptions are the [Raise] outcome of [result]. *)

From Stdlib Require Import QArith Qround Qabs Qpower Lqa ZArith Lia Ascii String.
From stdpp Require Import base gmap list strings.

Open Scope Q_scope.

(** ** Python outcomes *)

Inductive exn :=
| ValueError | KeyError | IndexError | TypeError | ZeroDivisionError
| AttributeError | NotImplementedError | NetworkXError | NodeNotFound.

(** A call returns, raises, or (for the one unbounded loop of the model)
    exhausts the iteration budget it was given. *)
Inductive result (A : Type) :=
| Ok (a : A)
| Raise (e : exn)
| Fuel.
Arguments Ok {A} a.
Arguments Raise {A} e.
Arguments Fuel {A}.

#[global] Instance result_ret : MRet result := fun A a => Ok a.
#[global] Instance result_bind : MBind result := fun A B k r =>
  match r with
  | Ok a => k a
  | Raise e => Raise e
  | Fuel => Fuel
  end.

Definition is_ok {A} (r : result A) : bool :=
match r with Ok _ => true | _ => false end.

Definition Qltb (a b : Q) : bool := negb (Qle_bool b a).

(** [float('inf')] next to finite floats. *)
Inductive Qinf := Fin (q : Q) | Inf.

(** A projected coordinate pair. *)
Definition Coord : Type := Q * Q.

(** ** Float arithmetic

    [a + b] and [a * b] on floats round the exact result. The distances
    of the search and the lengths of the road summary are added and
    multiplied with [fadd] and [fmul]; the other operations on floats are
    taken without rounding. [Exact] is the arithmetic that does not round,
    and the one meant wherever none is named; [Binary64.arith] below
    rounds as Python does. *)
Class Arith := { fadd : Q -> Q -> Q; fmul : Q -> Q -> Q }.

#[global] Instance Exact : Arith := {| fadd := Qplus; fmul := Qmult |}.

(** What the search asks of an addition: it is monotone in the distance
    it extends, and adding a length that is not negative to zero or to a
    sum does not make it smaller. *)
Record AddLaws (arith : Arith) : Prop := {
  fadd_mono : forall x y w, x <= y -> fadd x w <= fadd y w;
  fadd_zero_le : forall w, 0 <= w -> 0 <= fadd 0 w;
  fadd_sum_le : forall a b w, 0 <= w -> fadd a b <= fadd (fadd a b) w
}.
Arguments fadd_mono {arith}.
Arguments fadd_zero_le {arith}.
Arguments fadd_sum_le {arith}.

(** ** networkx: [nx.Graph] and the bounded Dijkstra search *)

Module nx.

(** [Graph._adj]: node -> neighbour -> edge attributes. An [nx.Graph]
    keeps one attribute dictionary per unordered node pair. *)
Abbreviation Graph E := (gmap Z (gmap Z E)).

Section Graph.
Context {E : Type} {arith : Arith}.

Definition has_node (G : Graph E) (n : Z) : bool :=
  match G !! n with Some _ => true | None => false end.

Definition add_node (G : Graph E) (n : Z) : Graph E :=
  match G !! n with
  | Some _ => G
  | None => <[n := ∅]> G
  end.

(** [G.add_edge(u, v, **attr)]: both end nodes are created when
    missing; the attributes given replace those already stored for the
    pair, and the same dictionary is stored in both directions. *)
Definition add_edge (G : Graph E) (u v : Z) (e : E) : Graph E :=
  let G1 := add_node (add_node G u) v in
  let G2 := <[u := <[v := e]> (default ∅ (G1 !! u))]> G1 in
  <[v := <[u := e]> (default ∅ (G2 !! v))]> G2.

Definition nodes (G : Graph E) : gset Z := dom G.

Definition get_edge_data (G : Graph E) (u v : Z) : option E :=
  nbrs ← G !! u; nbrs !! v.

(** [G.edges(data=True)]: every edge once, reported from the end node
    that comes first. *)
Definition edges (G : Graph E) : list (Z * Z * E) :=
  '(u, nbrs) ← map_to_list G;
  '(v, e) ← map_to_list nbrs;
  if bool_decide (u ≤ v)%Z then [(u, v, e)] else [].

Definition number_of_edges (G : Graph E) : nat := length (edges G).

(** *** [_dijkstra_multisource] with a single source and a cutoff *)

(** Heap entries are the triples [(distance, count, node)]; the count
    is unique, so two entries are ordered by distance, then count. *)
Record item := Item { i_dist : Q; i_count : nat; i_node : Z }.

Definition item_lt (a b : item) : bool :=
  match i_dist a ?= i_dist b with
  | Lt => true
  | Eq => (i_count a <? i_count b)%nat
  | Gt => false
  end.

(** [heappop]: the least entry and the remaining ones. *)
Fixpoint heappop (fringe : list item) : option (item * list item) :=
  match fringe with
  | [] => None
  | x :: rest =>
      match heappop rest with
      | None => Some (x, [])
      | Some (m, rest') =>
          if item_lt m x then Some (m, x :: rest') else Some (x, rest)
      end
  end.

Definition heappush (fringe : list item) (x : item) : list item :=
  x :: fringe.

Record state := State {
  dist : gmap Z Q;      (* final distances *)
  seen : gmap Z Q;      (* best distance pushed so far *)
  fringe : list item;
  counter : nat
}.

Variable weight : E -> Q.
Variable cutoff : Q.

Definition push_seen (st : state) (u : Z) (vu_dist : Q) : state :=
  {| dist := dist st;
     seen := <[u := vu_dist]> (seen st);
     fringe := heappush (fringe st) (Item vu_dist (counter st) u);
     counter := S (counter st) |}.

(** One turn of [for u, e in G_succ[v].items()], [d_v] being [dist[v]]. *)
Definition relax (d_v : Q) (st : state) (ue : Z * E) : result state :=
  let vu_dist := fadd d_v (weight ue.2) in
  if Qltb cutoff vu_dist then Ok st
  else
    match dist st !! ue.1 with
    | Some u_dist =>
        if Qltb vu_dist u_dist then Raise ValueError else Ok st
    | None =>
        match seen st !! ue.1 with
        | None => Ok (push_seen st ue.1 vu_dist)
        | Some s_u =>
            if Qltb vu_dist s_u then Ok (push_seen st ue.1 vu_dist)
            else Ok st
        end
    end.

Fixpoint relax_all (d_v : Q) (st : state) (items : list (Z * E))
  : result state :=
  match items with
  | [] => Ok st
  | ue :: items' => st' ← relax d_v st ue; relax_all d_v st' items'
  end.

(** [while fringe: ...], one pop per unit of [fuel]. *)
Fixpoint dijkstra_loop (G : Graph E) (fuel : nat) (st : state)
  : result (gmap Z Q) :=
  match fuel with
  | O => Fuel
  | S fuel' =>
      match heappop (fringe st) with
      | None => Ok (dist st)
      | Some (it, rest) =>
          match dist st !! i_node it with
          | Some _ =>
              dijkstra_loop G fuel'
                {| dist := dist st; seen := seen st;
                   fringe := rest; counter := counter st |}
          | None =>
              match G !! i_node it with
              | None => Raise KeyError
              | Some nbrs =>
                  st' ← relax_all (i_dist it)
                         {| dist := <[i_node it := i_dist it]> (dist st);
                            seen := seen st;
                            fringe := rest;
                            counter := counter st |}
                         (map_to_list nbrs);
                  dijkstra_loop G fuel' st'
              end
          end
      end
  end.

(** Every pop but the first consumes a push, and pushes only happen
    while the neighbours of a node are scanned for the first time. *)
Definition degree_sum (G : Graph E) : nat :=
  sum_list_with (fun p : Z * gmap Z E => size p.2) (map_to_list G).

Definition dijkstra_fuel (G : Graph E) : nat := 2 + degree_sum G.

Definition init_state (source : Z) : state :=
  {| dist := ∅; seen := {[source := 0]};
     fringe := [Item 0 0 source]; counter := 1 |}.

(** [nx.single_source_dijkstra_path_length(G, source, cutoff, weight)] *)
Definition single_source_dijkstra_path_length
    (G : Graph E) (source : Z) : result (gmap Z Q) :=
  if has_node G source
  then dijkstra_loop G (dijkstra_fuel G) (init_state source)
  else Raise NodeNotFound.

End Graph.

(** A walk of the graph from [s], with its length: the weights of its
    edges added one by one, from [s] on, as the search adds them. *)
Inductive walk {E} {arith : Arith} (weight : E -> Q) (G : Graph E) (s : Z)
  : Z -> Q -> Prop :=
| walk_nil : is_Some (G !! s) -> walk weight G s s 0
| walk_snoc v u e l :
    walk weight G s v l ->
    get_edge_data G v u = Some e ->
    walk weight G s u (fadd l (weight e)).

(** [d] is the shortest-path distance from [s] to [t]: the least length
    of a walk. *)
Definition shortest {E} {arith : Arith} (weight : E -> Q) (G : Graph E)
    (s t : Z) (d : Q) : Prop :=
  (exists l, walk weight G s t l /\ l == d) /\
  (forall l, walk weight G s t l -> d <= l).

End nx.


(** ** Geometry kernel

    shapely, geopandas and scipy are used through a handful of operations.
    Their results on coordinates are not computed here: the services are
    embedded over any kernel providing them. *)

(** What [isinstance], [.coords] and [.geoms] reveal of a geometry. *)
Inductive shape :=
| LineString (coords : list Coord)
| MultiLineString (geoms : list (list Coord))
| OtherShape.

Class GeoKernel := {
  Geometry : Type;
  shape_of : Geometry -> shape;
  Point : Coord -> Geometry;
  (* geom.buffer(r) *)
  buffer : Geometry -> Q -> Geometry;
  (* a.intersects(b) *)
  intersects : Geometry -> Geometry -> bool;
  unary_union : list Geometry -> Geometry;
  centroid : Geometry -> Coord;
  (* Point(c).distance(geom) *)
  distance : Coord -> Geometry -> Q;
  (* geom.length *)
  geom_length : Geometry -> Q;
  (* geom.interpolate(fraction, normalized=True) *)
  interpolate : Geometry -> Q -> Coord;
  (* GeoDataFrame(geometry=[g], crs='EPSG:4326').to_crs(epsg=32614).geometry[0] *)
  to_crs : Geometry -> Geometry;
  (* the Euclidean distance reported by cKDTree.query *)
  norm : Coord -> Coord -> Q;
  (* gdf.sindex.intersection(geom.bounds): positions of the candidate rows *)
  sindex_intersection : list (option Geometry) -> Geometry -> list nat
}.

(** What the alignment of the map matcher asks of shapely besides: the
    lines of a multi-line ([geom.geoms]), and the point of a line nearest
    to a coordinate, [line.interpolate(line.project(Point(c)))], which is
    a point with a coordinate, an empty point, or an exception. *)
Inductive snapped := SnapAt (c : Coord) | SnapEmpty | SnapRaises.

Class SnapKernel `{GeoKernel} := {
  geoms_of : Geometry -> list Geometry;
  snap : Geometry -> Coord -> snapped
}.

(** [int(x)] on a float: truncation towards zero. *)
Definition py_int (x : Q) : Z := Z.quot (Qnum x) (Z.pos (Qden x)).

(** [round(x, n)] on an exact value: the nearest multiple of [10^-n], the
    even one when [x] lies halfway. *)
Definition round_half_even (x : Q) : Z :=
  let f := Qfloor x in
  let r := x - inject_Z f in
  match Qcompare r (1 # 2) with
  | Lt => f
  | Gt => (f + 1)%Z
  | Eq => if Z.even f then f else (f + 1)%Z
  end.

Definition py_round (x : Q) (ndigits : nat) : Q :=
  let p := (10 ^ Z.of_nat ndigits)%Z in
  inject_Z (round_half_even (x * inject_Z p)) / inject_Z p.

(** *** The arithmetic of Python floats

    A double has 53 significant bits, and a sum or a product is the
    double nearest to the exact result, the one with an even last bit
    when two are as near. The range of the exponent is not modelled:
    no result here is an infinity or loses bits as a subnormal. *)
Module Binary64.

(** [floor(log2(x))] for a positive [x]. *)
Definition ilog2 (x : Q) : Z :=
  let k := (Z.log2 (Qnum x) - Z.log2 (Z.pos (Qden x)))%Z in
  if Qle_bool (2 ^ k) x then k else (k - 1)%Z.

Definition round_pos (x : Q) : Q :=
  let e := (ilog2 x - 52)%Z in
  inject_Z (round_half_even (x / 2 ^ e)) * 2 ^ e.

(** The double nearest to [x]; on a decimal literal, the float Python
    reads from it. *)
Definition round (x : Q) : Q :=
  match x ?= 0 with
  | Eq => 0
  | Gt => round_pos x
  | Lt => - round_pos (- x)
  end.

Definition arith : Arith :=
  {| fadd := fun a b => round (a + b); fmul := fun a b => round (a * b) |}.

End Binary64.

(** [a / b] on numbers. *)
Definition truediv (a b : Q) : result Q :=
  if Qeq_bool b 0 then Raise ZeroDivisionError else Ok (a / b).

(** Insertion-ordered dictionaries where the order of the keys shows. *)
Section Dict.
Context {K V : Type} `{EqDecision K}.

Fixpoint dict_get (d : list (K * V)) (k : K) : option V :=
  match d with
  | [] => None
  | (k', v) :: d' => if decide (k' = k) then Some v else dict_get d' k
  end.

(** [d[k] = v] *)
Fixpoint dict_set (d : list (K * V)) (k : K) (v : V) : list (K * V) :=
  match d with
  | [] => [(k, v)]
  | (k', v') :: d' =>
      if decide (k' = k) then (k, v) :: d' else (k', v') :: dict_set d' k v
  end.

(** [if k not in d: d[k] = v] *)
Definition dict_setdefault (d : list (K * V)) (k : K) (v : V) : list (K * V) :=
  match dict_get d k with
  | Some _ => d
  | None => dict_set d k v
  end.

Definition dict_keys (d : list (K * V)) : list K := fst <$> d.
Definition dict_values (d : list (K * V)) : list V := snd <$> d.
End Dict.

(** [d[k] += x] on a [defaultdict(float)] *)
Definition dict_add {K} `{EqDecision K} {arith : Arith}
    (d : list (K * Q)) (k : K) (x : Q) : list (K * Q) :=
  dict_set d k (fadd (default 0 (dict_get d k)) x).

Definition Qsum (l : list Q) : Q := foldr Qplus 0 l.

(** A row of the road network frame ([rnc_gdf]); a text attribute is
    [None] when the column is absent or the value is missing. *)
Record RoadRow `{GeoKernel} := {
  UNION_INI : Z;
  UNION_FIN : Z;
  LONGITUD : Q;
  geometry : option Geometry;
  COND_PAV : option string;
  ADMINISTRA : option string;
  TIPO_VIAL : option string
}.

(** ** network_analyzer.py *)

Module NetworkAnalyzer.
Section WithKernel.
Context `{GeoKernel} {arith : Arith}.

(** The attributes [add_edge] is given: [weight] and [geometry]. *)
Record EdgeData := { weight : Q; e_geometry : Geometry }.

Record t := {
  graph : option (nx.Graph EdgeData);
  node_coords : list (Z * Coord);
  coord_tree : option (list Coord);
  node_ids : list Z
}.

(** The fields as [__init__] sets them. *)
Definition init : t :=
  {| graph := None; node_coords := []; coord_tree := None; node_ids := [] |}.

Definition row_coords (geom : Geometry) : result (list Coord) :=
  match shape_of geom with
  | MultiLineString parts =>
      match parts with
      | [] => Raise IndexError
      | cs :: _ => Ok cs
      end
  | LineString cs => Ok cs
  | OtherShape => Raise NotImplementedError
  end.

(** The body of [for idx, row in self.rnc_gdf.iterrows()]. *)
Definition add_row (acc : nx.Graph EdgeData * list (Z * Coord)) (row : RoadRow)
  : result (nx.Graph EdgeData * list (Z * Coord)) :=
  match geometry row with
  | None => Ok acc
  | Some geom =>
      coords ← row_coords geom;
      match coords with
      | start_coord :: _ :: _ =>
          let end_coord := List.last coords start_coord in
          let nc := dict_setdefault acc.2 (UNION_INI row) start_coord in
          let nc := dict_setdefault nc (UNION_FIN row) end_coord in
          Ok (nx.add_edge acc.1 (UNION_INI row) (UNION_FIN row)
                {| weight := LONGITUD row; e_geometry := geom |},
              nc)
      | _ => Ok acc
      end
  end.

Fixpoint add_rows (acc : nx.Graph EdgeData * list (Z * Coord))
    (rows : list RoadRow) : result (nx.Graph EdgeData * list (Z * Coord)) :=
  match rows with
  | [] => Ok acc
  | row :: rows' => acc' ← add_row acc row; add_rows acc' rows'
  end.

(** [_build_spatial_index]; [cKDTree] refuses an empty point list. *)
Definition _build_spatial_index (G : nx.Graph EdgeData)
    (nc : list (Z * Coord)) : result t :=
  let ids := dict_keys nc in
  let coords := dict_values nc in
  match coords with
  | [] => Raise ValueError
  | _ => Ok {| graph := Some G; node_coords := nc;
               coord_tree := Some coords; node_ids := ids |}
  end.

(** [_load_and_build_network]; [shapefile] is [None] when the file is
    missing, else the rows read from it (already projected). *)
Definition _load_and_build_network (shapefile : option (list RoadRow))
  : result t :=
  match shapefile with
  | None => Ok init
  | Some rows =>
      acc ← add_rows (∅, []) rows;
      _build_spatial_index acc.1 acc.2
  end.

(** [cKDTree.query]: distance to, and position of, a nearest point. *)
Fixpoint kd_query (pts : list Coord) (q : Coord) (pos : nat)
  : option (Q * nat) :=
  match pts with
  | [] => None
  | p :: pts' =>
      match kd_query pts' q (S pos) with
      | None => Some (norm q p, pos)
      | Some (d, i) =>
          if Qle_bool (norm q p) d then Some (norm q p, pos) else Some (d, i)
      end
  end.

(** [find_nearest_node]: [None] without a tree, else the pair. *)
Definition find_nearest_node (na : t) (point : Coord)
  : result (option (Z * Q)) :=
  match coord_tree na with
  | None => Ok None
  | Some pts =>
      match kd_query pts point 0 with
      | None => Raise IndexError
      | Some (d, idx) =>
          match node_ids na !! idx with
          | None => Raise IndexError
          | Some n => Ok (Some (n, d))
          end
      end
  end.

(** [node_id, dist = self.find_nearest_node(...)] *)
Definition unpack_nearest (r : option (Z * Q)) : result (Z * Q) :=
  match r with
  | None => Raise TypeError
  | Some nd => Ok nd
  end.

Definition route_line (route_geometry : Geometry) : Geometry :=
  let route_projected :=
    match shape_of route_geometry with
    | OtherShape => route_geometry
    | _ => to_crs route_geometry
    end in
  match shape_of route_projected with
  | MultiLineString _ => unary_union [route_projected]
  | _ => route_projected
  end.

Definition num_samples (line : Geometry) (sample_distance : Q) : Z :=
  Z.max (py_int (geom_length line / sample_distance)) 10.

(** The sample points [interpolate(i / num_samples)], [i = 0..num_samples]. *)
Definition sample_points (line : Geometry) (sample_distance : Q)
  : list Coord :=
  let n := num_samples line sample_distance in
  (fun i : nat => interpolate line (inject_Z (Z.of_nat i) / inject_Z n))
    <$> seq 0 (Z.to_nat (n + 1)).

Fixpoint collect_nodes (na : t) (pts : list Coord) (found : gset Z)
  : result (gset Z) :=
  match pts with
  | [] => Ok found
  | p :: pts' =>
      r ← find_nearest_node na p;
      nd ← unpack_nearest r;
      collect_nodes na pts'
        (if Qltb nd.2 500 then {[nd.1]} ∪ found else found)
  end.

Definition find_nearest_nodes_on_route (na : t) (route_geometry : Geometry)
    (sample_distance : Q) : result (list Z) :=
  match coord_tree na with
  | None => Ok []
  | Some _ =>
      found ← collect_nodes na
                (sample_points (route_line route_geometry) sample_distance) ∅;
      Ok (elements found)
  end.

(** [for node, dist in distances.items(): keep the minimum] *)
Definition keep_min (all_reachable : gmap Z Q) (nd : Z * Q) : gmap Z Q :=
  match all_reachable !! nd.1 with
  | None => <[nd.1 := nd.2]> all_reachable
  | Some old =>
      if Qltb nd.2 old then <[nd.1 := nd.2]> all_reachable
      else all_reachable
  end.

Fixpoint search_sources (G : nx.Graph EdgeData) (max_distance : Q)
    (sources : list Z) (all_reachable : gmap Z Q) : result (gmap Z Q) :=
  match sources with
  | [] => Ok all_reachable
  | source_node :: sources' =>
      if nx.has_node G source_node then
        match nx.single_source_dijkstra_path_length weight max_distance
                G source_node with
        | Ok distances =>
            search_sources G max_distance sources'
              (foldl keep_min all_reachable (map_to_list distances))
        | Raise NetworkXError =>
            search_sources G max_distance sources' all_reachable
        | Raise e => Raise e
        | Fuel => Fuel
        end
      else search_sources G max_distance sources' all_reachable
  end.

Definition calculate_service_area (na : t) (route_geometry : Geometry)
    (max_distance : Q) : result (gset Z * gmap Z Q) :=
  match graph na with
  | None => Ok (∅, ∅)
  | Some G =>
      route_nodes ← find_nearest_nodes_on_route na route_geometry 100;
      match route_nodes with
      | [] => Ok (∅, ∅)
      | _ =>
          all_reachable ← search_sources G max_distance route_nodes ∅;
          Ok (dom all_reachable, all_reachable)
      end
  end.

Definition get_service_area_polygon (na : t) (service_area_nodes : gset Z)
    (buffer_distance : Q) : result (option Geometry) :=
  if decide (service_area_nodes = ∅) then Ok None
  else
    match graph na with
    | None => Raise AttributeError
    | Some G =>
        let edge_geoms :=
          omap (fun uve : Z * Z * EdgeData =>
                  if decide (uve.1.1 ∈ service_area_nodes
                             /\ uve.1.2 ∈ service_area_nodes)
                  then Some (e_geometry uve.2) else None)
               (nx.edges G) in
        let node_geoms :=
          omap (fun n => Point <$> dict_get (node_coords na) n)
               (elements service_area_nodes) in
        match edge_geoms ++ node_geoms with
        | [] => Ok None
        | geometries =>
            Ok (Some (buffer (unary_union geometries) buffer_distance))
        end
    end.

Definition is_point_in_service_area (na : t) (point : Coord)
    (service_area_nodes : gset Z) (node_distances : gmap Z Q)
    (max_distance : Q) : result (bool * Qinf) :=
  r ← find_nearest_node na point;
  nd ← unpack_nearest r;
  if decide (nd.1 ∈ service_area_nodes) then
    let network_dist := default 0 (node_distances !! nd.1) in
    let total_dist := nd.2 + network_dist in
    Ok (Qle_bool total_dist max_distance, Fin total_dist)
  else Ok (false, Inf).

(** The truth value of [self.graph] in a condition: a graph object with
    at least one node. *)
Definition graph_truthy (na : t) : bool :=
  match graph na with
  | Some G => bool_decide (G <> ∅)
  | None => false
  end.

End WithKernel.
End NetworkAnalyzer.

(** ** service_area_analyzer.py *)

Module ServiceAreaAnalyzer.
Section WithKernel.
Context `{GeoKernel} {arith : Arith}.

(** A value read from a census column. *)
Inductive Cell :=
| CNone | CNaN | CStr (s : string) | CInt (z : Z) | CFloat (q : Q) | CObj.

(** A row of [manzanas_gdf]: its geometry (projected) and its values in
    column order. *)
Record ManzanaRow := { m_geometry : Geometry; cells : list Cell }.

(** [float(s)] on text, [None] when it raises or gives no finite number. *)
Variable py_float : string -> option Q.

Fixpoint remove_commas (s : string) : string :=
  match s with
  | EmptyString => EmptyString
  | String c s' =>
      if Ascii.eqb c ","%char then remove_commas s'
      else String c (remove_commas s')
  end.

(** The helper [to_int]; integers are taken to survive the passage
    through [float] unchanged. *)
Definition to_int (val : Cell) : Z :=
  match val with
  | CNone => 0
  | CStr s =>
      if decide (s = "*"%string) then 0
      else if decide (s = EmptyString) then 0
      else match py_float (remove_commas s) with
           | Some x => py_int x
           | None => 0
           end
  | CInt z => z
  | CFloat q => py_int q
  | CNaN | CObj => 0
  end%Z.

Record Stats := {
  poblacion_total : Z;
  poblacion_femenina : Z;
  poblacion_masculina : Z;
  pob_0_14 : Z;
  pob_15_29 : Z;
  pob_30_59 : Z;
  pob_60_mas : Z;
  discapacidad_total : Z;
  discapacidad_porcentaje : Q
}.

Definition empty_stats : Stats :=
  {| poblacion_total := 0; poblacion_femenina := 0;
     poblacion_masculina := 0; pob_0_14 := 0; pob_15_29 := 0;
     pob_30_59 := 0; pob_60_mas := 0; discapacidad_total := 0;
     discapacidad_porcentaje := 0 |}.

(** [to_int(row[cols[k]])] when the frame has a column [k], else nothing
    is added. *)
Definition column_value (ncols : nat) (row : ManzanaRow) (k : nat) : Z :=
  if (k <? ncols)%nat then to_int (default CNone (cells row !! k)) else 0%Z.

Definition add_manzana (ncols : nat) (stats : Stats) (row : ManzanaRow)
  : Stats :=
  let col := column_value ncols row in
  {| poblacion_total := poblacion_total stats + col 6%nat;
     poblacion_femenina := poblacion_femenina stats + col 7%nat;
     poblacion_masculina := poblacion_masculina stats + col 9%nat;
     pob_0_14 := pob_0_14 stats + col 11%nat;
     pob_15_29 := pob_15_29 stats + col 13%nat;
     pob_30_59 := pob_30_59 stats + col 15%nat;
     pob_60_mas := pob_60_mas stats + col 17%nat;
     discapacidad_total := discapacidad_total stats + col 19%nat;
     discapacidad_porcentaje := discapacidad_porcentaje stats |}%Z.

Definition _aggregate_population (ncols : nat) (rows : list ManzanaRow)
  : result Stats :=
  let stats := foldl (add_manzana ncols) empty_stats rows in
  if (0 <? poblacion_total stats)%Z then
    ratio ← truediv (inject_Z (discapacidad_total stats))
                    (inject_Z (poblacion_total stats));
    Ok {| poblacion_total := poblacion_total stats;
          poblacion_femenina := poblacion_femenina stats;
          poblacion_masculina := poblacion_masculina stats;
          pob_0_14 := pob_0_14 stats;
          pob_15_29 := pob_15_29 stats;
          pob_30_59 := pob_30_59 stats;
          pob_60_mas := pob_60_mas stats;
          discapacidad_total := discapacidad_total stats;
          discapacidad_porcentaje := py_round (ratio * 100) 2 |}
  else Ok stats.

(** The index labels of the rows of [gdf] that meet [other]. *)
Definition intersecting (gdf : list ManzanaRow) (other : Geometry)
  : list (nat * ManzanaRow) :=
  filter (fun ir => intersects (m_geometry ir.2) other = true)
         (imap (fun i row => (i, row)) gdf).

(** The body of [for idx, row in manzanas_in_service_area.iterrows()]. *)
Fixpoint filter_by_centroid (na : NetworkAnalyzer.t)
    (direct_indices : gset nat) (service_area_nodes : gset Z)
    (node_distances : gmap Z Q) (buffer_distance_m : Q)
    (candidates : list (nat * ManzanaRow)) (filtered_indices : gset nat)
  : result (gset nat) :=
  match candidates with
  | [] => Ok filtered_indices
  | (idx, row) :: candidates' =>
      if decide (idx ∈ direct_indices) then
        filter_by_centroid na direct_indices service_area_nodes
          node_distances buffer_distance_m candidates' filtered_indices
      else
        '(is_reachable, _) ←
          NetworkAnalyzer.is_point_in_service_area na
            (centroid (m_geometry row)) service_area_nodes
            node_distances buffer_distance_m;
        filter_by_centroid na direct_indices service_area_nodes
          node_distances buffer_distance_m candidates'
          (if is_reachable : bool then {[idx]} ∪ filtered_indices
           else filtered_indices)
  end.

(** [_analyze_with_network]: the index labels of the served blocks. *)
Definition _analyze_with_network (na : NetworkAnalyzer.t)
    (manzanas_gdf : list ManzanaRow)
    (route_geometry route_projected : Geometry) (buffer_distance_m : Q)
  : result (gset nat) :=
  let route_direct_buffer := buffer route_projected 50 in
  let direct_indices : gset nat :=
    list_to_set (fst <$> intersecting manzanas_gdf route_direct_buffer) in
  '(service_area_nodes, node_distances) ←
    NetworkAnalyzer.calculate_service_area na route_geometry
      buffer_distance_m;
  if decide (service_area_nodes = ∅) then Ok direct_indices
  else
    polygon ← NetworkAnalyzer.get_service_area_polygon na
                service_area_nodes 50;
    match polygon with
    | None => Ok direct_indices
    | Some service_area_polygon =>
        filter_by_centroid na direct_indices service_area_nodes
          node_distances buffer_distance_m
          (intersecting manzanas_gdf service_area_polygon) direct_indices
    end.

(** *** [analyze] *)

(** [str.upper] *)
Variable upper : string -> string.

(** A row of [municipios_gdf]: its geometry and its text values by
    column; the frame also knows its columns. *)
Record MunicipioRow := {
  mun_geometry : Geometry;
  mun_values : list (string * string)
}.

Record MunicipiosFrame := {
  mun_columns : list string;
  mun_rows : list MunicipioRow
}.

Record t := {
  manzanas_gdf : option (list ManzanaRow);
  n_columns : nat;                         (* len(manzanas_gdf.columns) *)
  municipios_gdf : option MunicipiosFrame;
  network_analyzer : option NetworkAnalyzer.t
}.

Definition name_columns : list string :=
  ["NOMGEO"; "NOM_MUN"; "NOMBRE"; "NAME"; "nombre"; "name"]%string.

(** [for col in name_columns], from the column [cols] starts with. *)
Fixpoint municipio_by_columns (frame : MunicipiosFrame)
    (municipio_name : string) (cols : list string) : option Geometry :=
  match cols with
  | [] => None
  | col :: cols' =>
      if decide (col ∈ mun_columns frame) then
        match filter (fun row =>
                        upper <$> dict_get (mun_values row) col
                        = Some (upper municipio_name))
                     (mun_rows frame) with
        | [] => municipio_by_columns frame municipio_name cols'
        | matches => Some (unary_union (mun_geometry <$> matches))
        end
      else municipio_by_columns frame municipio_name cols'
  end.

Definition _get_municipio_geometry (self : t) (municipio_name : string)
  : option Geometry :=
  match municipios_gdf self with
  | None => None
  | Some frame => municipio_by_columns frame municipio_name name_columns
  end.

(** The message of a result that is not a success. *)
Inductive Failure :=
| NotLoaded        (* "Manzanas shapefile not loaded" *)
| NothingFound     (* "No manzanas found within service area" *)
| Caught (e : exn) (* str(e) *).

(** Statistics with their [manzanas_count]. *)
Record Counted := { counted : Stats; manzanas_count : nat }.

Record Analysis := {
  success : bool;
  error : option Failure;
  stats : Counted;
  stats_buffer_distance_m : option Q;
  stats_network_analysis : option bool;
  municipio_total : option Counted;
  unserved_stats : option Counted;
  unserved_manzanas : option (list nat);   (* index of unserved_manzanas_gdf *)
  served_manzanas : list nat               (* index of served_manzanas_gdf *)
}.

Definition _empty_stats : Counted :=
  {| counted := empty_stats; manzanas_count := 0 |}.

Definition _empty_result (error_msg : Failure) : Analysis :=
  {| success := false; error := Some error_msg; stats := _empty_stats;
     stats_buffer_distance_m := None; stats_network_analysis := None;
     municipio_total := None; unserved_stats := None;
     unserved_manzanas := None; served_manzanas := [] |}.

(** [gdf.loc[labels]] *)
Definition rows_at (gdf : list ManzanaRow) (labels : list nat)
  : list ManzanaRow :=
  omap (fun i => gdf !! i) labels.

(** [frame.intersects(geom)] at the label [i]. *)
Definition meets_at (gdf : list ManzanaRow) (geom : Geometry) (i : nat)
  : bool :=
  match gdf !! i with
  | Some row => intersects (m_geometry row) geom
  | None => false
  end.

(** [_aggregate_population(frame)] followed by
    [stats['manzanas_count'] = len(frame)]. *)
Definition aggregate_counted (self : t) (gdf : list ManzanaRow)
    (labels : list nat) : result Counted :=
  s ← _aggregate_population (n_columns self) (rows_at gdf labels);
  Ok {| counted := s; manzanas_count := length (rows_at gdf labels) |}.

(** The body of the [try] block of [analyze]. The served frame is
    followed by the labels of its rows; in the network branch their order
    is that of a Python set, and no result depends on it. *)
Definition analyze_try (self : t) (gdf : list ManzanaRow)
    (route_geometry : Geometry) (buffer_distance_m : Q)
    (municipio_name : option string) (use_network : bool)
  : result Analysis :=
  let route_projected := to_crs route_geometry in
  let euclidean :=
    fst <$> intersecting gdf (buffer route_projected buffer_distance_m) in
  manzanas_in_buffer ←
    match network_analyzer self with
    | Some na =>
        if use_network && NetworkAnalyzer.graph_truthy na then
          served ← _analyze_with_network na gdf route_geometry
                     route_projected buffer_distance_m;
          Ok (elements served)
        else Ok euclidean
    | None => Ok euclidean
    end;
  let municipio_geom :=
    match municipio_name with
    | Some name =>
        if decide (name = EmptyString) then None
        else _get_municipio_geometry self name
    | None => None
    end in
  let manzanas_in_buffer :=
    match municipio_geom with
    | Some geom =>
        filter (fun i => meets_at gdf geom i = true) manzanas_in_buffer
    | None => manzanas_in_buffer
    end in
  match manzanas_in_buffer with
  | [] => Ok (_empty_result NothingFound)
  | _ =>
      stats ← aggregate_counted self gdf manzanas_in_buffer;
      let network :=
        use_network && bool_decide (is_Some (network_analyzer self)) in
      match municipio_geom with
      | Some geom =>
          let all_manzanas_in_municipio := fst <$> intersecting gdf geom in
          let unserved :=
            filter (fun i => i ∉ manzanas_in_buffer)
                   all_manzanas_in_municipio in
          unserved_stats ←
            match unserved with
            | [] => Ok _empty_stats
            | _ => aggregate_counted self gdf unserved
            end;
          total_stats ← aggregate_counted self gdf all_manzanas_in_municipio;
          Ok {| success := true; error := None; stats := stats;
                stats_buffer_distance_m := Some buffer_distance_m;
                stats_network_analysis := Some network;
                municipio_total := Some total_stats;
                unserved_stats := Some unserved_stats;
                unserved_manzanas := Some unserved;
                served_manzanas := manzanas_in_buffer |}
      | None =>
          Ok {| success := true; error := None; stats := stats;
                stats_buffer_distance_m := Some buffer_distance_m;
                stats_network_analysis := Some network;
                municipio_total := None; unserved_stats := None;
                unserved_manzanas := None;
                served_manzanas := manzanas_in_buffer |}
      end
  end.

(** [analyze]: without the blocks frame nothing is tried; an exception
    of the [try] block becomes a result that is not a success. *)
Definition analyze (self : t) (route_geometry : Geometry)
    (buffer_distance_m : Q) (municipio_name : option string)
    (use_network : bool) : result Analysis :=
  match manzanas_gdf self with
  | None => Ok (_empty_result NotLoaded)
  | Some gdf =>
      match analyze_try self gdf route_geometry buffer_distance_m
              municipio_name use_network with
      | Ok r => Ok r
      | Raise e => Ok (_empty_result (Caught e))
      | Fuel => Fuel
      end
  end.

End WithKernel.
End ServiceAreaAnalyzer.

(** ** Text helpers *)

(** The ASCII characters [str.strip()] removes. *)
Definition is_space (c : ascii) : bool :=
  let n := nat_of_ascii c in
  ((9 <=? n) && (n <=? 13) || (28 <=? n) && (n <=? 32))%nat.

Fixpoint lstrip (s : string) : string :=
  match s with
  | EmptyString => EmptyString
  | String c s' => if is_space c then lstrip s' else s
  end.

Fixpoint rstrip (s : string) : string :=
  match s with
  | EmptyString => EmptyString
  | String c s' =>
      match rstrip s' with
      | EmptyString => if is_space c then EmptyString else String c EmptyString
      | t => String c t
      end
  end.

Definition strip (s : string) : string := rstrip (lstrip s).

(** [sorted(xs, key=...)] on text keys: a stable insertion sort. *)
Section Sorted.
Context {A : Type} (key : A -> string).

Fixpoint insert_sorted (x : A) (l : list A) : list A :=
  match l with
  | [] => [x]
  | y :: l' =>
      if String.leb (key x) (key y) then x :: l
      else y :: insert_sorted x l'
  end.

Definition sorted (l : list A) : list A := foldr insert_sorted [] l.

(** Each element has a key that is at most the key of its successor. *)
Inductive ascending : list A -> Prop :=
| ascending_nil : ascending []
| ascending_one x : ascending [x]
| ascending_cons x y l :
    String.leb (key x) (key y) = true -> ascending (y :: l) ->
    ascending (x :: y :: l).
End Sorted.

(** ** locality_detector.py *)

Module LocalityDetector.
Section WithKernel.
Context `{GeoKernel} {arith : Arith}.

(** A row of the localities frame (EPSG:4326), its attributes as
    [str(row.get(...))] gives them. *)
Record LocRow := {
  l_geometry : Geometry;
  l_CVE_MUN : string;
  l_AMBITO : string;
  l_CVEGEO : string;
  l_NOMGEO : string
}.

Record MunRow := {
  mu_geometry : Geometry;
  mu_CVE_MUN : string;
  mu_NOMGEO : string;
  mu_CVEGEO : string
}.

Record t := {
  marco_gdf : list LocRow;
  municipios_gdf : option (list MunRow);
  buffer_m : Q;
  network_analyzer : option NetworkAnalyzer.t
}.

Definition buffer_deg (self : t) : Q := buffer_m self / 111000.

Record LocData := {
  cvegeo : string;
  nombre : string;
  cve_mun : string;
  ambito : string;
  distancia_red_m : option Qinf
}.

Record MunEntry := {
  e_cve_mun : string;
  e_nombre : string;
  e_cvegeo : string;
  localidades_urbanas : list LocData;
  localidades_rurales : list LocData
}.

Record Detection := {
  municipios : list MunEntry;
  total_municipios : nat;
  total_urbanas : nat;
  total_rurales : nat;
  total_localidades : nat;
  network_analysis : option bool
}.

(** The municipalities meeting [area], keyed by [CVE_MUN]. *)
Definition municipios_in (rows : list MunRow) (geom_of : MunRow -> Geometry)
    (area : Geometry) : list (string * MunEntry) :=
  foldl (fun data row =>
           if intersects (geom_of row) area then
             dict_set data (mu_CVE_MUN row)
               {| e_cve_mun := mu_CVE_MUN row; e_nombre := mu_NOMGEO row;
                  e_cvegeo := mu_CVEGEO row;
                  localidades_urbanas := []; localidades_rurales := [] |}
           else data)
        [] rows.

Definition municipio_name (self : t) (cve : string) : string :=
  let nombre_mun := ("Municipio " ++ cve)%string in
  match municipios_gdf self with
  | None => nombre_mun
  | Some rows =>
      match filter (fun r => mu_CVE_MUN r = cve) rows with
      | [] => nombre_mun
      | r :: _ => mu_NOMGEO r
      end
  end.

(** "Add municipality if not exists", then "Add locality to
    municipality". *)
Definition add_locality (self : t) (data : list (string * MunEntry))
    (loc : LocData) : list (string * MunEntry) :=
  let cve := cve_mun loc in
  let data :=
    if decide (cve <> EmptyString) then
      match dict_get data cve with
      | Some _ => data
      | None =>
          dict_set data cve
            {| e_cve_mun := cve; e_nombre := municipio_name self cve;
               e_cvegeo := EmptyString; localidades_urbanas := [];
               localidades_rurales := [] |}
      end
    else data in
  if decide (cve <> EmptyString) then
    match dict_get data cve with
    | None => data
    | Some m =>
        if decide (ambito loc = "Urbana"%string) then
          dict_set data cve
            {| e_cve_mun := e_cve_mun m; e_nombre := e_nombre m;
               e_cvegeo := e_cvegeo m;
               localidades_urbanas := localidades_urbanas m ++ [loc];
               localidades_rurales := localidades_rurales m |}
        else if decide (ambito loc = "Rural"%string) then
          dict_set data cve
            {| e_cve_mun := e_cve_mun m; e_nombre := e_nombre m;
               e_cvegeo := e_cvegeo m;
               localidades_urbanas := localidades_urbanas m;
               localidades_rurales := localidades_rurales m ++ [loc] |}
        else data
    end
  else data.

Definition summary (data : list (string * MunEntry))
    (network : option bool) : Detection :=
  let municipios_list := sorted e_nombre (dict_values data) in
  let urbanas :=
    sum_list ((fun m => length (localidades_urbanas m)) <$> municipios_list) in
  let rurales :=
    sum_list ((fun m => length (localidades_rurales m)) <$> municipios_list) in
  {| municipios := municipios_list;
     total_municipios := length municipios_list;
     total_urbanas := urbanas;
     total_rurales := rurales;
     total_localidades := urbanas + rurales;
     network_analysis := network |}.

Definition _detect_euclidean (self : t) (buffered : Geometry) : Detection :=
  let data :=
    match municipios_gdf self with
    | None => []
    | Some rows => municipios_in rows mu_geometry buffered
    end in
  let data :=
    foldl (fun data row =>
             if intersects (l_geometry row) buffered then
               add_locality self data
                 {| cvegeo := l_CVEGEO row; nombre := l_NOMGEO row;
                    cve_mun := l_CVE_MUN row;
                    ambito := strip (l_AMBITO row);
                    distancia_red_m := None |}
             else data)
          data (marco_gdf self) in
  summary data (Some false).

(** The body of [for idx, row in localities_intersect.iterrows()]. *)
Fixpoint filter_localities (self : t) (na : NetworkAnalyzer.t)
    (service_area_nodes : gset Z) (node_distances : gmap Z Q)
    (rows : list LocRow) (data : list (string * MunEntry))
  : result (list (string * MunEntry)) :=
  match rows with
  | [] => Ok data
  | row :: rows' =>
      '(is_reachable, dist) ←
        NetworkAnalyzer.is_point_in_service_area na
          (centroid (to_crs (l_geometry row))) service_area_nodes
          node_distances (buffer_m self);
      if is_reachable : bool then
        filter_localities self na service_area_nodes node_distances rows'
          (add_locality self data
             {| cvegeo := l_CVEGEO row; nombre := l_NOMGEO row;
                cve_mun := l_CVE_MUN row;
                ambito := strip (l_AMBITO row);
                distancia_red_m :=
                  Some match dist with
                       | Fin d => Fin (py_round d 1)
                       | Inf => Inf
                       end |})
      else
        filter_localities self na service_area_nodes node_distances rows'
          data
  end.

Definition _detect_with_network (self : t) (gpx_linestring : Geometry)
  : result Detection :=
  na ← match network_analyzer self with
       | None => Raise AttributeError
       | Some na => Ok na
       end;
  '(service_area_nodes, node_distances) ←
    NetworkAnalyzer.calculate_service_area na gpx_linestring (buffer_m self);
  if decide (service_area_nodes = ∅) then
    Ok (_detect_euclidean self (buffer gpx_linestring (buffer_deg self)))
  else
    polygon ← NetworkAnalyzer.get_service_area_polygon na
                service_area_nodes 50;
    match polygon with
    | None =>
        Ok (_detect_euclidean self (buffer gpx_linestring (buffer_deg self)))
    | Some service_area_polygon =>
        let data :=
          match municipios_gdf self with
          | None => []
          | Some rows =>
              municipios_in rows (fun r => to_crs (mu_geometry r))
                service_area_polygon
          end in
        let localities_intersect :=
          filter (fun row =>
                    intersects (to_crs (l_geometry row))
                      service_area_polygon = true)
                 (marco_gdf self) in
        data ← filter_localities self na service_area_nodes
                 node_distances localities_intersect data;
        Ok (summary data (Some true))
    end.

(** The localities a detection lists, by their [cvegeo]. *)
Definition attended (d : Detection) : list string :=
  m ← municipios d;
  cvegeo <$> (localidades_urbanas m ++ localidades_rurales m).

Definition _empty_result : Detection :=
  {| municipios := []; total_municipios := 0; total_urbanas := 0;
     total_rurales := 0; total_localidades := 0; network_analysis := None |}.

(** [detect]: the network analysis when it is asked for and there is a
    graph with nodes, else the buffer around the track, worked out in
    place. *)
Definition detect (self : t) (gpx_linestring : Geometry) (use_network : bool)
  : result Detection :=
  if use_network
     && match network_analyzer self with
        | Some na => NetworkAnalyzer.graph_truthy na
        | None => false
        end
  then _detect_with_network self gpx_linestring
  else
    let buffered := buffer gpx_linestring (buffer_deg self) in
    let municipios_data :=
      match municipios_gdf self with
      | None => []
      | Some rows => municipios_in rows mu_geometry buffered
      end in
    let intersecting :=
      filter (fun row => intersects (l_geometry row) buffered = true)
             (marco_gdf self) in
    match intersecting, municipios_data with
    | [], [] => Ok _empty_result
    | _, _ =>
        let data :=
          foldl (fun data row =>
                   add_locality self data
                     {| cvegeo := l_CVEGEO row; nombre := l_NOMGEO row;
                        cve_mun := l_CVE_MUN row;
                        ambito := strip (l_AMBITO row);
                        distancia_red_m := None |})
                municipios_data intersecting in
        Ok (summary data None)
    end.

End WithKernel.
End LocalityDetector.

(** ** map_matcher.py *)

Module MapMatcher.
Section WithKernel.
Context `{GeoKernel}.

Record t := {
  gpx : list Coord;          (* self.gpx.coords *)
  rnc_gdf : list RoadRow;
  buffer_m : Q
}.

Definition buffer_deg (self : t) : Q := buffer_m self / 111000.

Record Match := { index : nat; distance_m : Q; orden : nat }.

(** [for idx, row in candidates.iterrows()]: the running minimum and
    the row holding it; [candidates] is [rnc_gdf.iloc[positions]]. *)
Fixpoint nearest_candidate (self : t) (point : Coord)
    (positions : list nat) (min_dist : Qinf) (best_match : option nat)
  : result (Qinf * option nat) :=
  match positions with
  | [] => Ok (min_dist, best_match)
  | idx :: positions' =>
      match rnc_gdf self !! idx with
      | None => Raise IndexError
      | Some row =>
          match geometry row with
          | None => Raise AttributeError
          | Some geom =>
              let dist := distance point geom in
              let smaller :=
                match min_dist with
                | Inf => true
                | Fin m => Qltb dist m
                end in
              if smaller
              then nearest_candidate self point positions' (Fin dist) (Some idx)
              else nearest_candidate self point positions' min_dist best_match
          end
      end
  end.

Definition candidates_of (self : t) (point : Coord) : list nat :=
  sindex_intersection (geometry <$> rnc_gdf self)
    (buffer (Point point) (buffer_deg self)).

(** One turn of [for i, point in enumerate(gpx_points)]: the entry
    appended to [matched_segments], or [None] for an unmatched point. *)
Definition match_point (self : t) (i : nat) (point : Coord)
  : result (option Match) :=
  match candidates_of self point with
  | [] => Ok None
  | possible_matches_idx =>
      '(min_dist, best_match) ←
        nearest_candidate self point possible_matches_idx Inf None;
      match min_dist, best_match with
      | Fin m, Some best =>
          let dist_m := m * 111000 in
          if Qle_bool dist_m (buffer_m self)
          then Ok (Some {| index := best; distance_m := dist_m; orden := i |})
          else Ok None
      | _, _ => Ok None
      end
  end.

Fixpoint match_points (self : t) (i : nat) (points : list Coord)
  : result (list (option Match)) :=
  match points with
  | [] => Ok []
  | point :: points' =>
      m ← match_point self i point;
      ms ← match_points self (S i) points';
      Ok (m :: ms)
  end.

Record MatchResult := {
  matched_segments : list Match;
  confidence : Q;
  distance_avg_m : option Q;
  unmatched_points : nat;
  total_points : nat;
  match_rate_pct : Q
}.

Definition Qmax (a b : Q) : Q := if Qltb a b then b else a.

(** [match]; the aligned geometry it also returns is left out. The
    average is a numpy float, so a zero tolerance gives no exception
    but a confidence that is not a number, which [max(0, _)] turns
    into 0. *)
Definition match_ (self : t) : result MatchResult :=
  per_point ← match_points self 0 (gpx self);
  let matched := omap id per_point in
  let unmatched_count := length (filter (fun m => m = None) per_point) in
  let total := length (gpx self) in
  let distances := distance_m <$> matched in
  let avg :=
    match distances with
    | [] => None
    | _ => Some (Qsum distances / inject_Z (Z.of_nat (length distances)))
    end in
  let conf :=
    match avg with
    | None => 0
    | Some a =>
        if Qeq_bool (buffer_m self) 0 then 0
        else Qmax 0 (100 - a / buffer_m self * 100)
    end in
  Ok {| matched_segments := matched;
        confidence := py_round conf 1;
        distance_avg_m :=
          match avg with
          | None => None
          | Some a => if Qeq_bool a 0 then None else Some (py_round a 1)
          end;
        unmatched_points := unmatched_count;
        total_points := total;
        match_rate_pct :=
          if (0 <? total)%nat
          then py_round
                 ((1 - inject_Z (Z.of_nat unmatched_count)
                        / inject_Z (Z.of_nat total)) * 100) 1
          else 0 |}.

(** *** [_build_aligned_geometry] *)

Context {snap_kernel : SnapKernel}.

(** [a == b] on coordinate tuples. *)
Definition coord_eqb (a b : Coord) : bool :=
  Qeq_bool a.1 b.1 && Qeq_bool a.2 b.2.

(** What the [try] block does for a track point: it appends a
    coordinate, appends nothing, or raises. *)
Inductive attempt := Append (c : Coord) | Nothing | Failed.

(** [for line in segment_geom.geoms], then [if best_point:]. The point
    kept is only tested for being a point with a coordinate, so [None]
    stands for no point and for an empty point alike. *)
Fixpoint nearest_line_point (gpx_point : Coord) (lines : list Geometry)
    (min_dist : Qinf) (best_point : option Coord) : attempt :=
  match lines with
  | [] =>
      match best_point with
      | Some c => Append c
      | None => Nothing
      end
  | line :: lines' =>
      let dist := distance gpx_point line in
      let smaller :=
        match min_dist with
        | Inf => true
        | Fin m => Qltb dist m
        end in
      if smaller then
        match snap line gpx_point with
        | SnapAt c => nearest_line_point gpx_point lines' (Fin dist) (Some c)
        | SnapEmpty => nearest_line_point gpx_point lines' (Fin dist) None
        | SnapRaises => Failed
        end
      else nearest_line_point gpx_point lines' min_dist best_point
  end.

(** The body of the [try]; a missing geometry has no [geom_type], and an
    empty point no [coords[0]]. *)
Definition snap_on_segment (segment_geom : option Geometry)
    (gpx_point : Coord) : attempt :=
  match segment_geom with
  | None => Failed
  | Some geom =>
      match shape_of geom with
      | LineString _ =>
          match snap geom gpx_point with
          | SnapAt c => Append c
          | _ => Failed
          end
      | MultiLineString _ =>
          nearest_line_point gpx_point (geoms_of geom) Inf None
      | OtherShape => Nothing
      end
  end.

(** One turn of [for seg_info in matched_segments]: the coordinate
    appended, if any; after an exception of the [try] it is the original
    track point. *)
Definition align_segment (self : t) (seg_info : Match)
  : result (option Coord) :=
  match gpx self !! orden seg_info with
  | None => Ok None
  | Some gpx_point =>
      match rnc_gdf self !! index seg_info with
      | None => Raise KeyError
      | Some row =>
          Ok match snap_on_segment (geometry row) gpx_point with
             | Append c => Some c
             | Nothing => None
             | Failed => Some gpx_point
             end
      end
  end.

Fixpoint align_segments (self : t) (matched_segments : list Match)
  : result (list Coord) :=
  match matched_segments with
  | [] => Ok []
  | seg_info :: segs =>
      c ← align_segment self seg_info;
      aligned_coords ← align_segments self segs;
      Ok match c with
         | Some c => c :: aligned_coords
         | None => aligned_coords
         end
  end.

(** "Eliminar duplicados consecutivos": what is appended after [last]. *)
Fixpoint drop_repeats (last : Coord) (coords : list Coord) : list Coord :=
  match coords with
  | [] => []
  | coord :: coords' =>
      if coord_eqb coord last then drop_repeats last coords'
      else coord :: drop_repeats coord coords'
  end.

(** The geometry returned: [self.gpx] itself, or [LineString(coords)]. *)
Inductive Aligned := Original | Snapped (coords : list Coord).

Definition _build_aligned_geometry (self : t) (matched_segments : list Match)
  : result Aligned :=
  match matched_segments with
  | [] => Ok Original
  | _ =>
      aligned_coords ← align_segments self matched_segments;
      match aligned_coords with
      | first :: second :: others =>
          match first :: drop_repeats first (second :: others) with
          | c0 :: c1 :: cs => Ok (Snapped (c0 :: c1 :: cs))
          | _ => Ok Original
          end
      | _ => Ok Original
      end
  end.

(** [match] with the aligned geometry it returns. *)
Definition match_with_geometry (self : t) : result (MatchResult * Aligned) :=
  res ← match_ self;
  aligned_linestring ← _build_aligned_geometry self (matched_segments res);
  Ok (res, aligned_linestring).

End WithKernel.
End MapMatcher.

(** ** road_analyzer.py *)

Module RoadAnalyzer.
Section WithKernel.
Context `{GeoKernel} {arith : Arith}.

Record Stats := {
  distancia_rnc_km : option Q;      (* absent from [_empty_stats] *)
  superficie : list (string * Q);
  administracion : list (string * Q);
  tipo_vialidad : list (string * Q);
  superficie_na_km : Q;
  administracion_na_km : Q
}.

Definition _empty_stats : Stats :=
  {| distancia_rnc_km := None; superficie := []; administracion := [];
     tipo_vialidad := []; superficie_na_km := 0;
     administracion_na_km := 0 |}.

(** [segment_usage]: the matched indices in order of first use, each
    with its number of uses. *)
Definition segment_usage (matched_segments : list (MapMatcher.Match))
  : list (nat * nat) :=
  foldl (fun usage seg =>
           dict_set usage (MapMatcher.index seg)
             (S (default 0%nat (dict_get usage (MapMatcher.index seg)))))
        [] matched_segments.

(** [not v or pd.isna(v) or str(v).strip() in ['N/A', 'n/a', '']] *)
Definition is_na (v : option string) : bool :=
  match v with
  | None => true
  | Some s =>
      bool_decide (s = EmptyString)
      || bool_decide (strip s ∈ ["N/A"; "n/a"; EmptyString]%string)
  end.

(** [segment_lengths[idx]]: [row.geometry.length * 111] *)
Definition segment_length_km (rnc_gdf : list RoadRow) (idx : nat)
  : result Q :=
  match rnc_gdf !! idx with
  | None => Raise KeyError
  | Some row =>
      match geometry row with
      | None => Raise AttributeError
      | Some geom => Ok (fmul (geom_length geom) 111)
      end
  end.

(** First loop: the total length of the segments used. *)
Fixpoint total_length (rnc_gdf : list RoadRow) (keys : list nat)
    (distancia_rnc_km : Q) : result Q :=
  match keys with
  | [] => Ok distancia_rnc_km
  | idx :: keys' =>
      km ← segment_length_km rnc_gdf idx;
      total_length rnc_gdf keys' (fadd distancia_rnc_km km)
  end.

(** The counters before they are rounded. *)
Record Counters := {
  c_superficie : list (string * Q);
  c_administracion : list (string * Q);
  c_tipo_vialidad : list (string * Q);
  c_na_superficie_km : Q;
  c_na_administracion_km : Q
}.

(** The body of the second loop, for the segment [idx]. *)
Definition classify (rnc_gdf : list RoadRow) (acc : Counters) (idx : nat)
  : result Counters :=
  match rnc_gdf !! idx with
  | None => Raise KeyError
  | Some row =>
      km_segmento ← segment_length_km rnc_gdf idx;
      let sup_na := is_na (COND_PAV row) in
      let sup :=
        if sup_na then "Con pavimento"%string
        else default "N/A"%string (COND_PAV row) in
      let admin_na := is_na (ADMINISTRA row) in
      let admin :=
        if admin_na then "Municipal"%string
        else default "N/A"%string (ADMINISTRA row) in
      let tipo :=
        match TIPO_VIAL row with
        | None => "N/A"%string
        | Some s => if decide (s = EmptyString) then "N/A"%string else s
        end in
      Ok {| c_superficie := dict_add (c_superficie acc) sup km_segmento;
            c_administracion :=
              dict_add (c_administracion acc) admin km_segmento;
            c_tipo_vialidad := dict_add (c_tipo_vialidad acc) tipo km_segmento;
            c_na_superficie_km :=
              if sup_na then fadd (c_na_superficie_km acc) km_segmento
              else c_na_superficie_km acc;
            c_na_administracion_km :=
              if admin_na then fadd (c_na_administracion_km acc) km_segmento
              else c_na_administracion_km acc |}
  end.

Fixpoint classify_all (rnc_gdf : list RoadRow) (acc : Counters)
    (keys : list nat) : result Counters :=
  match keys with
  | [] => Ok acc
  | idx :: keys' =>
      acc' ← classify rnc_gdf acc idx;
      classify_all rnc_gdf acc' keys'
  end.

Definition empty_counters : Counters :=
  {| c_superficie := []; c_administracion := []; c_tipo_vialidad := [];
     c_na_superficie_km := 0; c_na_administracion_km := 0 |}.

(** Both loops of [analyze], up to the [return]: the total and the
    counters, not yet rounded. *)
Definition accumulate (rnc_gdf : list RoadRow)
    (matched_segments : list MapMatcher.Match) : result (Q * Counters) :=
  let keys := dict_keys (segment_usage matched_segments) in
  distancia_rnc_km ← total_length rnc_gdf keys 0;
  counters ← classify_all rnc_gdf empty_counters keys;
  Ok (distancia_rnc_km, counters).

Definition round_values (d : list (string * Q)) : list (string * Q) :=
  (fun kv => (kv.1, py_round kv.2 3)) <$> d.

Definition analyze (rnc_gdf : list RoadRow)
    (matched_segments : list MapMatcher.Match) : result Stats :=
  match matched_segments with
  | [] => Ok _empty_stats
  | _ =>
      '(distancia_rnc_km, counters) ← accumulate rnc_gdf matched_segments;
      Ok {| distancia_rnc_km := Some (py_round distancia_rnc_km 3);
            superficie := round_values (c_superficie counters);
            administracion := round_values (c_administracion counters);
            tipo_vialidad := round_values (c_tipo_vialidad counters);
            superficie_na_km := py_round (c_na_superficie_km counters) 3;
            administracion_na_km :=
              py_round (c_na_administracion_km counters) 3 |}
  end.

End WithKernel.
End RoadAnalyzer.

(** ** gpx_extractor.py *)

Module GPXExtractor.
Section WithHaversine.

(** [_haversine(lat1, lon1, lat2, lon2)], the great-circle distance in
    kilometres; its trigonometry is not computed here, and the metrics
    are embedded over any such function. *)
Variable _haversine : Q -> Q -> Q -> Q -> Q.

(** A point as gpxpy gives it; a time is in seconds. *)
Record GPXPoint := {
  longitude : Q;
  latitude : Q;
  elevation : option Q;
  time : option Q
}.

Record TrackPoint := {
  lon : Q;
  lat : Q;
  ele : option Q;
  p_time : option Q
}.

(** The truth value of a float. *)
Definition truthy (x : Q) : bool := negb (Qeq_bool x 0).

(** [_extract_points], over [gpx.tracks], their segments and points. *)
Definition _extract_points (tracks : list (list (list GPXPoint)))
  : list TrackPoint :=
  track ← tracks;
  segment ← track;
  point ← segment;
  if truthy (longitude point) && truthy (latitude point) then
    [{| lon := longitude point; lat := latitude point;
        ele := match elevation point with
               | Some e => if truthy e then Some e else None
               | None => None
               end;
        p_time := time point |}]
  else [].

(** The pairs [(l[i], l[i + 1])] for [i in range(len(l) - 1)]. *)
Fixpoint pairs {A} (l : list A) : list (A * A) :=
  match l with
  | a :: l' =>
      match l' with
      | b :: _ => (a, b) :: pairs l'
      | [] => []
      end
  | [] => []
  end.

(** [sum(l)] on a list of floats. How the interpreter rounds as it adds
    is not fixed here, and the summaries are embedded over any such
    function; an average is [sum(l) / len(l)]. *)
Variable py_sum : list Q -> Q.

(** [min(l)] and [max(l)] on a list given by its first element and the
    others. *)
Definition py_min (x : Q) (l : list Q) : Q :=
  foldl (fun m y => if Qltb y m then y else m) x l.

Definition py_max (x : Q) (l : list Q) : Q :=
  foldl (fun m y => if Qltb m y then y else m) x l.

Definition mean (l : list Q) : Q := py_sum l / inject_Z (Z.of_nat (length l)).

Definition step_km (p1 p2 : TrackPoint) : Q :=
  _haversine (lat p1) (lon p1) (lat p2) (lon p2).

Definition _calcular_duracion (track_points : list TrackPoint) : option Z :=
  let times := omap p_time track_points in
  match times with
  | t0 :: _ :: _ => Some (py_int ((List.last times t0 - t0) / 60))
  | _ => None
  end.

Definition _calcular_distancia (track_points : list TrackPoint) : Q :=
  py_round
    (foldl (fun total_km p => total_km + step_km p.1 p.2) 0
           (pairs track_points)) 3.

Record Elevacion := {
  minima_m : option Q;
  maxima_m : option Q;
  ganancia_m : option Q;
  perdida_m : option Q
}.

(** The accumulated gain and loss, steps of at most a metre being taken
    for noise. *)
Definition gain_loss (elevaciones : list Q) : Q * Q :=
  foldl (fun gp ab =>
           let diff := ab.2 - ab.1 in
           if Qltb 1 diff then (gp.1 + diff, gp.2)
           else if Qltb diff (-(1)) then (gp.1, gp.2 + Qabs diff)
           else gp)
        (0, 0) (pairs elevaciones).

Definition _analizar_elevacion (track_points : list TrackPoint) : Elevacion :=
  match omap ele track_points with
  | [] => {| minima_m := None; maxima_m := None;
             ganancia_m := None; perdida_m := None |}
  | e0 :: es =>
      let gp := gain_loss (e0 :: es) in
      {| minima_m := Some (py_round (py_min e0 es) 1);
         maxima_m := Some (py_round (py_max e0 es) 1);
         ganancia_m := Some (py_round gp.1 1);
         perdida_m := Some (py_round gp.2 1) |}
  end.

(** The slope, in percent, of a step that passes the filters: both
    elevations known, at least 5 m long, at most 25 % steep. *)
Definition slope (p1 p2 : TrackPoint) : option Q :=
  match ele p1, ele p2 with
  | Some e1, Some e2 =>
      let dist_m := step_km p1 p2 * 1000 in
      if Qltb dist_m 5 then None
      else
        let pendiente_pct := (e2 - e1) / dist_m * 100 in
        if Qltb 25 (Qabs pendiente_pct) then None else Some pendiente_pct
  | _, _ => None
  end.

Record Inclinacion := {
  promedio_positiva_pct : option Q;
  promedio_negativa_pct : option Q;
  maxima_pct : option Q
}.

Definition _analizar_inclinacion (track_points : list TrackPoint)
  : Inclinacion :=
  let slopes := omap (fun p => slope p.1 p.2) (pairs track_points) in
  let pendientes_pos := filter (fun s => Qltb (1 # 2) s) slopes in
  let pendientes_neg := filter (fun s => Qltb s (-(1 # 2))) slopes in
  {| promedio_positiva_pct :=
       match pendientes_pos with
       | [] => None
       | _ => Some (py_round (mean pendientes_pos) 2)
       end;
     promedio_negativa_pct :=
       match pendientes_neg with
       | [] => None
       | _ => Some (py_round (mean pendientes_neg) 2)
       end;
     maxima_pct :=
       Some (py_round
               match pendientes_pos ++ (Qabs <$> pendientes_neg) with
               | [] => 0
               | x :: l => py_max x l
               end 2) |}.

(** The speed, in km/h, of a step that passes the filters: both times
    known, at least 0.0001 h apart, between 0.5 and 150 km/h. *)
Definition speed (p1 p2 : TrackPoint) : option Q :=
  match p_time p1, p_time p2 with
  | Some t1, Some t2 =>
      let delta_time := (t2 - t1) / 3600 in
      if Qltb delta_time (1 # 10000) then None
      else
        let velocidad_kmh := step_km p1 p2 / delta_time in
        if Qltb (1 # 2) velocidad_kmh && Qltb velocidad_kmh 150
        then Some velocidad_kmh else None
  | _, _ => None
  end.

Record Velocidad := {
  promedio_kmh : option Q;
  maxima_kmh : option Q
}.

Definition _analizar_velocidad (track_points : list TrackPoint) : Velocidad :=
  match omap (fun p => speed p.1 p.2) (pairs track_points) with
  | [] => {| promedio_kmh := None; maxima_kmh := None |}
  | v :: vs =>
      {| promedio_kmh := Some (py_round (mean (v :: vs)) 1);
         maxima_kmh := Some (py_round (py_max v vs) 1) |}
  end.

Record Metrics := {
  duracion_minutos : option Z;
  distancia_km : option Q;
  elevacion : Elevacion;
  inclinacion : Inclinacion;
  velocidad : Velocidad;
  puntos_totales : nat
}.

Definition _empty_metrics : Metrics :=
  {| duracion_minutos := None; distancia_km := None;
     elevacion := {| minima_m := None; maxima_m := None;
                     ganancia_m := None; perdida_m := None |};
     inclinacion := {| promedio_positiva_pct := None;
                       promedio_negativa_pct := None; maxima_pct := None |};
     velocidad := {| promedio_kmh := None; maxima_kmh := None |};
     puntos_totales := 0 |}.

Definition analyze (track_points : list TrackPoint) : Metrics :=
  match track_points with
  | _ :: _ :: _ =>
      {| duracion_minutos := _calcular_duracion track_points;
         distancia_km := Some (_calcular_distancia track_points);
         elevacion := _analizar_elevacion track_points;
         inclinacion := _analizar_inclinacion track_points;
         velocidad := _analizar_velocidad track_points;
         puntos_totales := length track_points |}
  | _ => _empty_metrics
  end.

(** [get_linestring]: the coordinates of the line, [None] below two
    points. *)
Definition get_linestring (track_points : list TrackPoint)
  : option (list Coord) :=
  match track_points with
  | _ :: _ :: _ => Some ((fun p => (lon p, lat p)) <$> track_points)
  | _ => None
  end.

Record SlopePoint := {
  sp_coordinates : Coord;
  sp_pendiente_pct : Q;
  sp_tipo : string;
  sp_elevacion_m : Q
}.

Definition get_high_slope_points (track_points : list TrackPoint)
    (threshold_pct : Q) : list SlopePoint :=
  omap (fun p : TrackPoint * TrackPoint =>
          match ele p.1, ele p.2 with
          | Some e1, Some e2 =>
              let dist_m := step_km p.1 p.2 * 1000 in
              if Qltb dist_m 5 then None
              else
                let delta_ele := e2 - e1 in
                let pendiente_pct := Qabs (delta_ele / dist_m * 100) in
                if Qltb 25 pendiente_pct then None
                else if Qle_bool threshold_pct pendiente_pct then
                  Some {| sp_coordinates := (lon p.1, lat p.1);
                          sp_pendiente_pct := py_round pendiente_pct 1;
                          sp_tipo := if Qltb 0 delta_ele then "subida"
                                     else "bajada";
                          sp_elevacion_m := py_round e1 1 |}
                else None
          | _, _ => None
          end)
       (pairs track_points).

Record SlopeSegment := {
  ss_coordinates : Coord * Coord;
  ss_pendiente_pct : Q;
  ss_color : string;
  ss_categoria : string
}.

Definition get_colored_segments_by_slope (track_points : list TrackPoint)
  : list SlopeSegment :=
  (fun p : TrackPoint * TrackPoint =>
     let pendiente_pct := default 0 (slope p.1 p.2) in
     let a := Qabs pendiente_pct in
     {| ss_coordinates := ((lon p.1, lat p.1), (lon p.2, lat p.2));
        ss_pendiente_pct := py_round pendiente_pct 2;
        ss_color :=
          if Qltb a 2 then "#28a745"
          else if Qltb a 5 then "#ffc107"
          else if Qltb a 10 then "#fd7e14"
          else "#dc3545";
        ss_categoria :=
          if Qltb a 2 then "Plano (< 2%)"
          else if Qltb a 5 then "Moderado (2-5%)"
          else if Qltb a 10 then "Pronunciado (5-10%)"
          else "Muy Pronunciado (>10%)" |})
  <$> pairs track_points.

End WithHaversine.
End GPXExtractor.

(** ** A kernel to compute with

    Geometries are finite unions of boxes parallel to the axes and
    distances are taken along the axes: on points that share a coordinate
    this is the Euclidean distance, and a track or a road along an axis is
    a degenerate box. Coordinates are already planar, so the projection
    leaves them unchanged. The concrete cases below are laid out along the
    axes and evaluated with this kernel. *)

Module BoxKernel.

Record box := Box { xmin : Q; ymin : Q; xmax : Q; ymax : Q }.

Record geom := Geom { g_shape : shape; g_boxes : list box }.

Definition qmin (a b : Q) : Q := if Qle_bool a b then a else b.
Definition qmax (a b : Q) : Q := if Qle_bool a b then b else a.

Definition box_of (a b : Coord) : box :=
  Box (qmin a.1 b.1) (qmin a.2 b.2) (qmax a.1 b.1) (qmax a.2 b.2).

Fixpoint boxes_of_coords (cs : list Coord) : list box :=
  match cs with
  | a :: (b :: _) as cs' => box_of a b :: boxes_of_coords cs'
  | _ => []
  end.

(** [LineString(cs)] *)
Definition line (cs : list Coord) : geom :=
  Geom (LineString cs) (boxes_of_coords cs).

(** The rectangle with corners [a] and [b]. *)
Definition rectangle (a b : Coord) : geom := Geom OtherShape [box_of a b].

Definition point (c : Coord) : geom := Geom OtherShape [box_of c c].

Definition grow (r : Q) (b : box) : box :=
  Box (xmin b - r) (ymin b - r) (xmax b + r) (ymax b + r).

Definition overlap (a b : box) : bool :=
  Qle_bool (xmin a) (xmax b) && Qle_bool (xmin b) (xmax a)
  && Qle_bool (ymin a) (ymax b) && Qle_bool (ymin b) (ymax a).

Definition meets (a b : geom) : bool :=
  existsb (fun x => existsb (overlap x) (g_boxes b)) (g_boxes a).

Definition hull2 (a b : box) : box :=
  Box (qmin (xmin a) (xmin b)) (qmin (ymin a) (ymin b))
      (qmax (xmax a) (xmax b)) (qmax (ymax a) (ymax b)).

Definition hull (bs : list box) : option box :=
  match bs with
  | [] => None
  | b :: bs' => Some (foldl hull2 b bs')
  end.

Definition center (g : geom) : Coord :=
  match hull (g_boxes g) with
  | None => (0, 0)
  | Some b => ((xmin b + xmax b) / 2, (ymin b + ymax b) / 2)
  end.

Definition along (lo hi x : Q) : Q :=
  if Qltb x lo then lo - x else if Qltb hi x then x - hi else 0.

Definition to_box (c : Coord) (b : box) : Q :=
  along (xmin b) (xmax b) c.1 + along (ymin b) (ymax b) c.2.

Definition to_geom (c : Coord) (g : geom) : Q :=
  match g_boxes g with
  | [] => 0
  | b :: bs => foldl (fun m b' => qmin m (to_box c b')) (to_box c b) bs
  end.

Definition extent (g : geom) : Q :=
  Qsum ((fun b => (xmax b - xmin b) + (ymax b - ymin b)) <$> g_boxes g).

(** The point at the given fraction between the two ends of a line. *)
Definition between (g : geom) (fraction : Q) : Coord :=
  match g_shape g with
  | LineString (a :: cs) =>
      let b := List.last cs a in
      (a.1 + fraction * (b.1 - a.1), a.2 + fraction * (b.2 - a.2))
  | _ => center g
  end.

Definition manhattan (a b : Coord) : Q :=
  Qabs (a.1 - b.1) + Qabs (a.2 - b.2).

(** The rows whose bounding box meets the bounding box of [g]. *)
Definition near_rows (rows : list (option geom)) (g : geom) : list nat :=
  omap (fun ir : nat * option geom =>
          match ir.2 with
          | None => None
          | Some rg =>
              match hull (g_boxes rg), hull (g_boxes g) with
              | Some a, Some b => if overlap a b then Some ir.1 else None
              | _, _ => None
              end
          end)
       (imap (fun i r => (i, r)) rows).

#[global] Instance kernel : GeoKernel := {|
  Geometry := geom;
  shape_of := g_shape;
  Point := point;
  buffer := fun g r => Geom OtherShape (grow r <$> g_boxes g);
  intersects := meets;
  unary_union := fun gs => Geom OtherShape (gs ≫= g_boxes);
  centroid := center;
  distance := to_geom;
  geom_length := extent;
  interpolate := between;
  to_crs := fun g => g;
  norm := manhattan;
  sindex_intersection := near_rows
|}.

(** The point of a box nearest to a coordinate, and the nearest of those
    over the boxes of a geometry. *)
Definition clamp (lo hi x : Q) : Q :=
  if Qltb x lo then lo else if Qltb hi x then hi else x.

Definition nearest_in_box (c : Coord) (b : box) : Coord :=
  (clamp (xmin b) (xmax b) c.1, clamp (ymin b) (ymax b) c.2).

Definition nearest_on (g : geom) (c : Coord) : snapped :=
  match g_boxes g with
  | [] => SnapEmpty
  | b :: bs =>
      SnapAt (foldl (fun best b' =>
                       let p := nearest_in_box c b' in
                       if Qltb (manhattan c p) (manhattan c best) then p
                       else best)
                    (nearest_in_box c b) bs)
  end.

Definition parts (g : geom) : list geom :=
  match g_shape g with
  | MultiLineString ps => line <$> ps
  | _ => []
  end.

#[global] Instance snap_kernel : SnapKernel := {|
  geoms_of := parts;
  snap := nearest_on
|}.

(** [float(s)] on unsigned decimal integers, enough for the census
    counts used below. *)
Fixpoint digits (s : string) (acc : Z) : option Z :=
  match s with
  | EmptyString => Some acc
  | String c s' =>
      let n := Z.of_nat (nat_of_ascii c) in
      if ((48 <=? n) && (n <=? 57))%Z then digits s' (10 * acc + (n - 48))%Z
      else None
  end.

Definition float_of_digits (s : string) : option Q :=
  match s with
  | EmptyString => None
  | _ => inject_Z <$> digits s 0
  end.

End BoxKernel.

(** ** Concrete cases *)

Module Cases.
Import BoxKernel.

Definition road (ini fin : Z) (len : Q) (cs : list Coord)
    (sup admin : option string) : RoadRow :=
  {| UNION_INI := ini; UNION_FIN := fin; LONGITUD := len;
     geometry := Some (line cs); COND_PAV := sup; ADMINISTRA := admin;
     TIPO_VIAL := None |}.

(** A road of 1000 m along the x axis and a side road of 500 m. *)
Definition rows : list RoadRow :=
  [ road 1 2 1000 [(0, 0); (1000, 0)] (Some "Con pavimento"%string) None;
    road 2 3 500 [(1000, 0); (1000, 500)] (Some "Sin pavimento"%string)
      (Some "Estatal"%string) ].

Definition analyzer : NetworkAnalyzer.t :=
  match NetworkAnalyzer._load_and_build_network (Some rows) with
  | Ok na => na
  | _ => NetworkAnalyzer.init
  end.

(** A straight track of 1 km lying on the first road. *)
Definition track : geom := line [(0, 0); (1000, 0)].

(** A track more than 500 m away from every node. *)
Definition far_track : geom := line [(0, 2000); (1000, 2000)].

(** Two segments between the same pair of nodes. *)
Definition parallel_rows : list RoadRow :=
  [ road 1 2 10 [(0, 0); (10, 0)] None None;
    road 1 2 20 [(0, 0); (0, 5); (10, 5); (10, 0)] None None ].

End Cases.

Module ParallelCase.
Import BoxKernel.

(** The analyzer of the two parallel segments, and its graph. *)
Definition parallel_analyzer : NetworkAnalyzer.t :=
  match NetworkAnalyzer._load_and_build_network (Some Cases.parallel_rows) with
  | Ok na => na
  | _ => NetworkAnalyzer.init
  end.

Definition parallel_graph : nx.Graph NetworkAnalyzer.EdgeData :=
  default ∅ (NetworkAnalyzer.graph parallel_analyzer).

End ParallelCase.

Module CensusCase.
Import BoxKernel.

(** A block of 100 inhabitants, none with a disability: the counts sit in
    the columns 6 and 19 of the 20 census columns. *)
Definition census_row : ServiceAreaAnalyzer.ManzanaRow :=
  {| ServiceAreaAnalyzer.m_geometry := rectangle (0, 0) (10, 10);
     ServiceAreaAnalyzer.cells :=
       replicate 6 ServiceAreaAnalyzer.CObj
       ++ [ServiceAreaAnalyzer.CInt 100]
       ++ replicate 12 (ServiceAreaAnalyzer.CStr "*")
       ++ [ServiceAreaAnalyzer.CStr "0"] |}.

End CensusCase.

Module MatcherCase.
Import BoxKernel.

(** A road along the x axis, in degrees, and a track of two points: the
    first 40 m north of the road, the second 60 m north of it, a metre
    being 1/111000 of a degree. *)
Definition matcher : MapMatcher.t :=
  {| MapMatcher.gpx := [(1 # 1000, 40 # 111000); (2 # 1000, 60 # 111000)];
     MapMatcher.rnc_gdf :=
       [Cases.road 1 2 1000 [(0, 0); (1 # 100, 0)] None None];
     MapMatcher.buffer_m := 50 |}.

End MatcherCase.

Module ShortRoadsCase.
Import BoxKernel.

(** Two short roads of 0.000444 km each, of different surface and
    administration. *)
Definition short_rows : list RoadRow :=
  [ Cases.road 1 2 10 [(0, 0); (4 # 1000000, 0)]
      (Some "Con pavimento"%string) (Some "Federal"%string);
    Cases.road 2 3 10 [(4 # 1000000, 0); (8 # 1000000, 0)]
      (Some "Sin pavimento"%string) (Some "Estatal"%string) ].

(** Three track points: two on the first road, one on the second. *)
Definition short_matches : list MapMatcher.Match :=
  [ {| MapMatcher.index := 0; MapMatcher.distance_m := 0; MapMatcher.orden := 0 |};
    {| MapMatcher.index := 0; MapMatcher.distance_m := 0; MapMatcher.orden := 1 |};
    {| MapMatcher.index := 1; MapMatcher.distance_m := 0; MapMatcher.orden := 2 |} ].

End ShortRoadsCase.

Module ZoneCase.
Import BoxKernel.

(** A long thin zone that the track of [Cases] crosses at its start: it
    meets the band of 50 m around the track, and its centroid lies
    2495 m north of the road. *)
Definition long_zone : geom := rectangle (-10, -10) (10, 5000).

Definition block : ServiceAreaAnalyzer.ManzanaRow :=
  {| ServiceAreaAnalyzer.m_geometry := long_zone;
     ServiceAreaAnalyzer.cells := [] |}.

Definition locality : LocalityDetector.LocRow :=
  {| LocalityDetector.l_geometry := long_zone;
     LocalityDetector.l_CVE_MUN := "048";
     LocalityDetector.l_AMBITO := "Rural";
     LocalityDetector.l_CVEGEO := "130480001";
     LocalityDetector.l_NOMGEO := "La Franja" |}.

Definition detector : LocalityDetector.t :=
  {| LocalityDetector.marco_gdf := [locality];
     LocalityDetector.municipios_gdf := None;
     LocalityDetector.buffer_m := 700;
     LocalityDetector.network_analyzer := Some Cases.analyzer |}.

Definition no_detection : LocalityDetector.Detection :=
  {| LocalityDetector.municipios := [];
     LocalityDetector.total_municipios := 0;
     LocalityDetector.total_urbanas := 0;
     LocalityDetector.total_rurales := 0;
     LocalityDetector.total_localidades := 0;
     LocalityDetector.network_analysis := None |}.

(** What the detector and the block classifier return on the track. *)
Definition detection : LocalityDetector.Detection :=
  match LocalityDetector._detect_with_network detector Cases.track with
  | Ok d => d
  | _ => no_detection
  end.

Definition served_blocks : list nat :=
  match ServiceAreaAnalyzer._analyze_with_network Cases.analyzer [block]
          Cases.track Cases.track 700 with
  | Ok served => elements served
  | _ => []
  end.

End ZoneCase.

Module ScenarioCase.

(** The distances of the service area of [Cases.track] at 700 m. *)
Definition distances : list (Z * Q) :=
  match NetworkAnalyzer.calculate_service_area Cases.analyzer Cases.track 700 with
  | Ok (_, node_distances) => map_to_list node_distances
  | _ => []
  end.

End ScenarioCase.

Module NetworkCase.
Import BoxKernel.

(** The graph of [Cases.rows], its two edges, and what the analyzer
    computes on [Cases.track] with a maximum distance of 700 m. *)
Definition graph : nx.Graph NetworkAnalyzer.EdgeData :=
  default ∅ (NetworkAnalyzer.graph Cases.analyzer).

Definition main_road : NetworkAnalyzer.EdgeData :=
  {| NetworkAnalyzer.weight := 1000;
     NetworkAnalyzer.e_geometry := line [(0, 0); (1000, 0)] |}.


Definition seeds : list Z :=
  match NetworkAnalyzer.find_nearest_nodes_on_route Cases.analyzer Cases.track 100 with
  | Ok l => l
  | _ => []
  end.

Definition service_area : gset Z * gmap Z Q :=
  match NetworkAnalyzer.calculate_service_area Cases.analyzer Cases.track 700 with
  | Ok r => r
  | _ => (∅, ∅)
  end.

End NetworkCase.

Module AreaCase.
Import BoxKernel.

(** [str.upper] on ASCII letters. *)
Definition upper_char (c : ascii) : ascii :=
  let n := nat_of_ascii c in
  if ((97 <=? n) && (n <=? 122))%nat then ascii_of_nat (n - 32) else c.

Fixpoint upper (s : string) : string :=
  match s with
  | EmptyString => EmptyString
  | String c s' => String (upper_char c) (upper s')
  end.

(** A block with its population and its population with a disability. *)
Definition census (geom : geom) (population disability : Z)
  : ServiceAreaAnalyzer.ManzanaRow :=
  {| ServiceAreaAnalyzer.m_geometry := geom;
     ServiceAreaAnalyzer.cells :=
       replicate 6 ServiceAreaAnalyzer.CObj
       ++ [ServiceAreaAnalyzer.CInt population]
       ++ replicate 12 (ServiceAreaAnalyzer.CStr "*")
       ++ [ServiceAreaAnalyzer.CInt disability] |}.

(** A block beside the track of [Cases], a block 3 km north of it, and a
    block outside the municipality. *)
Definition blocks : list ServiceAreaAnalyzer.ManzanaRow :=
  [ census (rectangle (100, 10) (200, 60)) 100 5;
    census (rectangle (400, 3000) (500, 3100)) 40 1;
    census (rectangle (5000, 5000) (5100, 5100)) 7 0 ].

Definition municipios : ServiceAreaAnalyzer.MunicipiosFrame :=
  {| ServiceAreaAnalyzer.mun_columns := ["CVEGEO"; "NOMGEO"]%string;
     ServiceAreaAnalyzer.mun_rows :=
       [ {| ServiceAreaAnalyzer.mun_geometry :=
              rectangle (-1000, -1000) (4000, 4000);
            ServiceAreaAnalyzer.mun_values :=
              [("CVEGEO", "13048"); ("NOMGEO", "Pachuca")]%string |} ] |}.

Definition service : ServiceAreaAnalyzer.t :=
  {| ServiceAreaAnalyzer.manzanas_gdf := Some blocks;
     ServiceAreaAnalyzer.n_columns := 20;
     ServiceAreaAnalyzer.municipios_gdf := Some municipios;
     ServiceAreaAnalyzer.network_analyzer := Some Cases.analyzer |}.

(** The analysis of the track within the municipality, at 700 m. *)
Definition analysis : ServiceAreaAnalyzer.Analysis :=
  match ServiceAreaAnalyzer.analyze float_of_digits upper service Cases.track
          700 (Some "pachuca"%string) true with
  | Ok r => r
  | _ => ServiceAreaAnalyzer._empty_result ServiceAreaAnalyzer.NotLoaded
  end.

End AreaCase.

Module DetectCase.
Import BoxKernel.

Definition loc (geom : geom) (cve_mun ambito cvegeo nomgeo : string)
  : LocalityDetector.LocRow :=
  {| LocalityDetector.l_geometry := geom;
     LocalityDetector.l_CVE_MUN := cve_mun;
     LocalityDetector.l_AMBITO := ambito;
     LocalityDetector.l_CVEGEO := cvegeo;
     LocalityDetector.l_NOMGEO := nomgeo |}.

(** Five localities across the track of [Cases] (one of a municipality
    absent from the municipalities frame, one without municipality key,
    one with an unknown [AMBITO]) and one far from it. *)
Definition localities : list LocalityDetector.LocRow :=
  [ loc (rectangle (100, -10) (200, 60)) "048" "Urbana" "130480001" "Pachuca";
    loc (rectangle (300, -20) (350, 20)) "051" " Rural " "130510007" "El Cerezo";
    loc (rectangle (500, -5) (520, 10)) "048" "Rural" "130480020" "San Miguel";
    loc (rectangle (600, -5) (620, 10)) EmptyString "Urbana" "139990001"
      "Sin clave";
    loc (rectangle (700, -5) (720, 10)) "048" "Urbano" "130480099" "Otra";
    loc (rectangle (400, 90000) (500, 90100)) "048" "Rural" "130480300"
      "Lejana" ]%string.

Definition municipalities : list LocalityDetector.MunRow :=
  [ {| LocalityDetector.mu_geometry := rectangle (-1000, -1000) (4000, 4000);
       LocalityDetector.mu_CVE_MUN := "048";
       LocalityDetector.mu_NOMGEO := "Pachuca de Soto";
       LocalityDetector.mu_CVEGEO := "13048" |} ]%string.

Definition detector : LocalityDetector.t :=
  {| LocalityDetector.marco_gdf := localities;
     LocalityDetector.municipios_gdf := Some municipalities;
     LocalityDetector.buffer_m := 700;
     LocalityDetector.network_analyzer := Some Cases.analyzer |}.

(** What [detect] returns on the track without the network. *)
Definition detection : LocalityDetector.Detection :=
  match LocalityDetector.detect detector Cases.track false with
  | Ok d => d
  | _ => ZoneCase.no_detection
  end.

End DetectCase.

Module AlignCase.
Import BoxKernel.

(** Three track points within 50 m of the road of [MatcherCase]; the
    first two have the same nearest point on it. *)
Definition matcher : MapMatcher.t :=
  {| MapMatcher.gpx :=
       [(1 # 1000, 40 # 111000); (1 # 1000, 0); (2 # 1000, 10 # 111000)];
     MapMatcher.rnc_gdf :=
       [Cases.road 1 2 1000 [(0, 0); (1 # 100, 0)] None None];
     MapMatcher.buffer_m := 50 |}.

Definition no_match : MapMatcher.MatchResult :=
  {| MapMatcher.matched_segments := []; MapMatcher.confidence := 0;
     MapMatcher.distance_avg_m := None; MapMatcher.unmatched_points := 0;
     MapMatcher.total_points := 0; MapMatcher.match_rate_pct := 0 |}.

(** What [match] returns for it, and for the track of [MatcherCase]. *)
Definition matched : MapMatcher.MatchResult :=
  match MapMatcher.match_ matcher with
  | Ok res => res
  | _ => no_match
  end.

Definition partly_matched : MapMatcher.MatchResult :=
  match MapMatcher.match_ MatcherCase.matcher with
  | Ok res => res
  | _ => no_match
  end.

(** The nearest points of the road to the three track points, without
    the repetition. *)
Definition snapped_coords : list Coord := [(1 # 1000, 0); (2 # 1000, 0)].

End AlignCase.

Module RoadsCase.

(** A matched entry naming a row that the frame of [Cases] lacks. *)
Definition stray_match : list MapMatcher.Match :=
  [ {| MapMatcher.index := 5; MapMatcher.distance_m := 0;
       MapMatcher.orden := 0 |} ].

(** The road attribute summary of the matches of [ShortRoadsCase] over
    the frame of [Cases], whose first road has no [ADMINISTRA]. *)
Definition stats : RoadAnalyzer.Stats :=
  match RoadAnalyzer.analyze Cases.rows ShortRoadsCase.short_matches with
  | Ok s => s
  | _ => RoadAnalyzer._empty_stats
  end.

End RoadsCase.

Module GpxCase.

(** A track of five points, the third without elevation: a step of half
    a metre, taken for noise, then a climb and a descent. *)
Definition point (e : option Q) : GPXExtractor.TrackPoint :=
  {| GPXExtractor.lon := -(99); GPXExtractor.lat := 20;
     GPXExtractor.ele := e; GPXExtractor.p_time := None |}.

Definition track : list GPXExtractor.TrackPoint :=
  point <$> [Some 100; Some (201 # 2); None; Some 103; Some 99].

End GpxCase.

Module FloatCase.
Import BoxKernel.

(** The floats Python reads from [0.3] and [699.7]. *)
Definition short_length : Q := Binary64.round (3 # 10).
Definition long_length : Q := Binary64.round (6997 # 10).

(** Two roads in a row with these lengths, and a short track beside the
    free end of the first: node 1 is the only route node. *)
Definition rows : list RoadRow :=
  [ Cases.road 1 2 short_length [(0, 0); (3 # 10, 0)] None None;
    Cases.road 2 3 long_length [(3 # 10, 0); (700, 0)] None None ].

Definition analyzer : NetworkAnalyzer.t :=
  match NetworkAnalyzer._load_and_build_network (Some rows) with
  | Ok na => na
  | _ => NetworkAnalyzer.init
  end.

Definition graph : nx.Graph NetworkAnalyzer.EdgeData :=
  default ∅ (NetworkAnalyzer.graph analyzer).

Definition track : geom := line [(-(1), 0); (-(1), 100)].

(** The service area at 700 m as Python computes it, and the distances
    within 1000 m when no sum is rounded. *)
Definition service_area : gset Z * gmap Z Q :=
  match NetworkAnalyzer.calculate_service_area (arith := Binary64.arith)
          analyzer track 700 with
  | Ok r => r
  | _ => (∅, ∅)
  end.

Definition exact_distances : gmap Z Q :=
  match NetworkAnalyzer.calculate_service_area (arith := Exact)
          analyzer track 1000 with
  | Ok r => r.2
  | _ => ∅
  end.

End FloatCase.

Module FloatRoadsCase.
Import BoxKernel.

(** Three roads of 0.001, 0.002 and 0.005 degrees, as Python reads these
    literals; the second has no pavement. *)
Definition road_of (ini fin : Z) (degrees : Q) (sup : string) : RoadRow :=
  Cases.road ini fin 100 [(0, 0); (Binary64.round degrees, 0)]
    (Some sup) (Some "Estatal"%string).

Definition rows : list RoadRow :=
  [ road_of 1 2 (1 # 1000) "Con pavimento";
    road_of 2 3 (2 # 1000) "Sin pavimento";
    road_of 3 4 (5 # 1000) "Con pavimento" ].

(** Four track points, two of them on the second road. *)
Definition matches : list MapMatcher.Match :=
  [ {| MapMatcher.index := 0; MapMatcher.distance_m := 0; MapMatcher.orden := 0 |};
    {| MapMatcher.index := 1; MapMatcher.distance_m := 0; MapMatcher.orden := 1 |};
    {| MapMatcher.index := 1; MapMatcher.distance_m := 0; MapMatcher.orden := 2 |};
    {| MapMatcher.index := 2; MapMatcher.distance_m := 0; MapMatcher.orden := 3 |} ].

(** The total and the counters as Python computes them. *)
Definition totals : Q * RoadAnalyzer.Counters :=
  match RoadAnalyzer.accumulate (arith := Binary64.arith) rows matches with
  | Ok r => r
  | _ => (0, RoadAnalyzer.empty_counters)
  end.

End FloatRoadsCase.

(** ** Invariants of the search *)

Module Dijkstra.
Section Invariant.
Context {E : Type} {arith : Arith}.
Variable weight : E -> Q.
Variable cutoff : Q.
Variable G : nx.Graph E.
Variable s : Z.

(** Weights are lengths, and every neighbour is a node of the graph. *)
Definition nonneg : Prop :=
  forall v u e, nx.get_edge_data G v u = Some e -> 0 <= weight e.

Definition closed : Prop :=
  forall v u e, nx.get_edge_data G v u = Some e -> is_Some (G !! u).

(** What a heap entry or a final distance [d] for [v] stands for. *)
Definition reached (v : Z) (d : Q) : Prop :=
  (exists l, nx.walk weight G s v l /\ l == d) /\
  (d <= cutoff \/ (v = s /\ d == 0)).

(** The loop invariant. While the neighbours of [v] are scanned, the
    edges of [v] still in [pending] have not been relaxed yet. *)
Record inv (v : Z) (pending : list (Z * E)) (st : nx.state) : Prop := {
  inv_source :
    (exists d0, nx.dist st !! s = Some d0 /\ d0 <= 0) \/
    (nx.dist st = ∅ /\ nx.fringe st = [nx.Item 0 0 s]);
  inv_dist_seen : forall x d,
    nx.dist st !! x = Some d ->
    exists d', nx.seen st !! x = Some d' /\ d' <= d;
  inv_fringe_seen : forall it,
    it ∈ nx.fringe st ->
    exists d', nx.seen st !! nx.i_node it = Some d' /\ d' <= nx.i_dist it;
  inv_seen_fringe : forall u d,
    nx.seen st !! u = Some d -> nx.dist st !! u = None ->
    exists c, nx.Item d c u ∈ nx.fringe st;
  inv_relaxed : forall x d u e,
    nx.dist st !! x = Some d ->
    nx.get_edge_data G x u = Some e ->
    fadd d (weight e) <= cutoff ->
    (x = v /\ (u, e) ∈ pending) \/
    (exists d', nx.seen st !! u = Some d' /\ d' <= fadd d (weight e));
  inv_fringe_sound : forall it,
    it ∈ nx.fringe st -> reached (nx.i_node it) (nx.i_dist it);
  inv_dist_sound : forall x d,
    nx.dist st !! x = Some d -> reached x d;
  inv_dist_short : forall x d l,
    nx.dist st !! x = Some d -> nx.walk weight G s x l -> d <= l
}.

(** The scans still to come: the entries of the heap, and the
    neighbourhoods of the nodes without a final distance. *)
Definition unscanned (D : gmap Z Q) : nat :=
  sum_list_with
    (fun p : Z * gmap Z E =>
       match D !! p.1 with Some _ => 0%nat | None => size p.2 end)
    (map_to_list G).

Definition measure (st : nx.state) : nat :=
  (length (nx.fringe st) + unscanned (nx.dist st))%nat.

(** What the search returns: the shortest-path distance of every node
    within the cutoff, the source always being among them. *)
Definition result_spec (D : gmap Z Q) : Prop :=
  (forall t d, D !! t = Some d ->
     nx.shortest weight G s t d /\ (d <= cutoff \/ (t = s /\ d == 0))) /\
  (forall t l, nx.walk weight G s t l -> l <= cutoff -> is_Some (D !! t)) /\
  (exists d0, D !! s = Some d0 /\ d0 == 0).
End Invariant.
End Dijkstra.

(** ** What the constructor of the network analyzer establishes *)

Module Built.
Section WithKernel.
Context `{GeoKernel} {arith : Arith}.

(** Road lengths are not negative. *)
Definition lengths_ok (rows : list RoadRow) : Prop :=
  Forall (fun row => 0 <= LONGITUD row) rows.

(** Without a graph there is no tree; with one, the tree holds the
    coordinates of [node_coords] in the order of [node_ids], and neither
    the tree nor the graph is empty. *)
Definition wf (na : NetworkAnalyzer.t) : Prop :=
  match NetworkAnalyzer.graph na with
  | None => NetworkAnalyzer.coord_tree na = None
  | Some G =>
      Dijkstra.closed G /\
      NetworkAnalyzer.coord_tree na
        = Some (dict_values (NetworkAnalyzer.node_coords na)) /\
      NetworkAnalyzer.node_ids na
        = dict_keys (NetworkAnalyzer.node_coords na) /\
      NetworkAnalyzer.node_coords na <> [] /\
      G <> ∅
      end.

Definition weights_ok (na : NetworkAnalyzer.t) : Prop :=
  forall G, NetworkAnalyzer.graph na = Some G ->
            Dijkstra.nonneg NetworkAnalyzer.weight G.

(** The distances one source contributes to the service area. *)
Definition from_source (G : nx.Graph NetworkAnalyzer.EdgeData)
    (max_distance : Q) (s n : Z) (d : Q) : Prop :=
  nx.shortest NetworkAnalyzer.weight G s n d /\
  (d <= max_distance \/ (n = s /\ d == 0)).

(** The merged distances after the sources [done] have been searched. *)
Record merged (G : nx.Graph NetworkAnalyzer.EdgeData) (max_distance : Q)
    (done : list Z) (D : gmap Z Q) : Prop := {
  merged_sound : forall n d,
    D !! n = Some d -> exists s, s ∈ done /\ from_source G max_distance s n d;
  merged_complete : forall s n l,
    s ∈ done -> nx.walk NetworkAnalyzer.weight G s n l ->
    l <= max_distance \/ n = s ->
    exists d, D !! n = Some d /\ d <= l
}.
End WithKernel.
End Built.

(** ** Reference quantities for the statements *)

Module Ref.
Section WithKernel.
Context `{GeoKernel} {arith : Arith}.

(** The sum of a census column over the rows, as [to_int] reads it. *)
Definition column_sum (py_float : string -> option Q) (ncols : nat)
    (rows : list ServiceAreaAnalyzer.ManzanaRow) (k : nat) : Z :=
  foldr (fun row acc =>
           (ServiceAreaAnalyzer.column_value py_float ncols row k + acc)%Z)
        0%Z rows.

(** The distance, in degrees, from a track point to the road at position
    [j] of the frame. *)
Definition seg_distance (self : MapMatcher.t) (point : Coord) (j : nat)
  : option Q :=
  row ← MapMatcher.rnc_gdf self !! j;
  geom ← geometry row;
  Some (distance point geom).

(** The running minimum of the matcher after the candidates [seen]. *)
Definition nearest_of (self : MapMatcher.t) (point : Coord) (seen : list nat)
    (min_dist : Qinf) (best_match : option nat) : Prop :=
  match min_dist, best_match with
  | Inf, None => seen = []
  | Fin m, Some b =>
      b ∈ seen /\ seg_distance self point b = Some m /\
      forall j dj, j ∈ seen -> seg_distance self point j = Some dj -> m <= dj
  | _, _ => False
  end.

(** The attributes of a row the graph builder does not skip. *)
Definition edge_of_row (row : RoadRow) : option NetworkAnalyzer.EdgeData :=
  geom ← geometry row;
  match NetworkAnalyzer.row_coords geom with
  | Ok (_ :: _ :: _) =>
      Some {| NetworkAnalyzer.weight := LONGITUD row;
              NetworkAnalyzer.e_geometry := geom |}
  | _ => None
  end.

(** The length, in kilometres, of the road at position [idx]. *)
Definition segment_km (rnc_gdf : list RoadRow) (idx : nat) : option Q :=
  row ← rnc_gdf !! idx;
  geom ← geometry row;
  Some (fmul (geom_length geom) 111).

(** The total length of the roads at the positions [keys]. *)
Definition length_of_segments (rnc_gdf : list RoadRow) (keys : list nat) : Q :=
  Qsum (omap (segment_km rnc_gdf) keys).

Definition joins (row : RoadRow) (u v : Z) : Prop :=
  (UNION_INI row = u /\ UNION_FIN row = v) \/
  (UNION_INI row = v /\ UNION_FIN row = u).

#[global] Instance joins_dec row u v : Decision (joins row u v).
Proof. unfold joins. apply _. Defined.

(** The attributes of the last row of the frame, among those the builder
    keeps, that joins [u] and [v]; [previous] when there is none. *)
Fixpoint last_segment (rows : list RoadRow) (u v : Z)
    (previous : option NetworkAnalyzer.EdgeData)
  : option NetworkAnalyzer.EdgeData :=
  match rows with
  | [] => previous
  | row :: rows' =>
      last_segment rows' u v
        (match edge_of_row row with
         | Some e => if decide (joins row u v) then Some e else previous
         | None => previous
         end)
  end.

End WithKernel.
End Ref.

Module RefLoc.
Section WithKernel.
Context `{GeoKernel}.

(** The localities listed under the municipalities of [data]. *)
Definition locs_of (data : list LocalityDetector.MunEntry)
  : list LocalityDetector.LocData :=
  m ← data;
  LocalityDetector.localidades_urbanas m ++ LocalityDetector.localidades_rurales m.

(** The locality comes from a row of the frame whose centroid passes the
    point test of the service area. *)
Definition centroid_reachable (self : LocalityDetector.t)
    (na : NetworkAnalyzer.t) (service_area_nodes : gset Z)
    (node_distances : gmap Z Q) (loc : LocalityDetector.LocData) : Prop :=
  exists row total,
    row ∈ LocalityDetector.marco_gdf self /\
    LocalityDetector.cvegeo loc = LocalityDetector.l_CVEGEO row /\
    NetworkAnalyzer.is_point_in_service_area na
      (centroid (to_crs (LocalityDetector.l_geometry row)))
      service_area_nodes node_distances (LocalityDetector.buffer_m self)
    = Ok (true, total).

(** Every locality listed under [data] satisfies [P]. *)
Definition all_locs (P : LocalityDetector.LocData -> Prop)
    (data : list (string * LocalityDetector.MunEntry)) : Prop :=
  forall loc, loc ∈ locs_of (dict_values data) -> P loc.

End WithKernel.
End RefLoc.


(** ** Reference quantities for the graph builder *)

Module RefNet.
Section WithKernel.
Context `{GeoKernel}.

(** The first and the last coordinate of a row the builder keeps. *)
Definition ends_of_row (row : RoadRow) : option (Coord * Coord) :=
  geom ← geometry row;
  match NetworkAnalyzer.row_coords geom with
  | Ok (start_coord :: c :: cs) =>
      Some (start_coord, List.last (start_coord :: c :: cs) start_coord)
  | _ => None
  end.

(** The coordinate given to the node [n] by the first row, among those
    the builder keeps, that names it. *)
Fixpoint first_coord (rows : list RoadRow) (n : Z) : option Coord :=
  match rows with
  | [] => None
  | row :: rows' =>
      match ends_of_row row with
      | Some (start_coord, end_coord) =>
          if decide (UNION_INI row = n) then Some start_coord
          else if decide (UNION_FIN row = n) then Some end_coord
          else first_coord rows' n
      | None => first_coord rows' n
      end
  end.

(** The builder passes over the row: it has no geometry, or fewer than
    two coordinates. *)
Definition skipped (row : RoadRow) : bool :=
  match geometry row with
  | None => true
  | Some geom =>
      match NetworkAnalyzer.row_coords geom with
      | Ok (_ :: _ :: _) => false
      | Ok _ => true
      | _ => false
      end
  end.

(** The node [s] is the nearest node, less than 500 m away, of the sample
    point [p]. *)
Definition nearest_of_sample (na : NetworkAnalyzer.t) (p : Coord) (s : Z)
  : Prop :=
  exists c,
    (s, c) ∈ NetworkAnalyzer.node_coords na /\
    norm p c < 500 /\
    forall n' c', (n', c') ∈ NetworkAnalyzer.node_coords na ->
                  norm p c <= norm p c'.

End WithKernel.
End RefNet.

(** ** Reference quantities for the service area analysis *)

Module RefArea.
Section WithKernel.
Context `{GeoKernel}.
Import ServiceAreaAnalyzer.

(** The block with label [i] meets [geom]. *)
Definition block_meets (gdf : list ManzanaRow) (geom : Geometry) (i : nat)
  : Prop :=
  exists row, gdf !! i = Some row /\ intersects (m_geometry row) geom = true.

(** The centroid of the block with label [i] passes the point test of
    the service area. *)
Definition centroid_reachable (na : NetworkAnalyzer.t)
    (gdf : list ManzanaRow) (service_area_nodes : gset Z)
    (node_distances : gmap Z Q) (max_distance : Q) (i : nat) : Prop :=
  exists row total,
    gdf !! i = Some row /\
    NetworkAnalyzer.is_point_in_service_area na (centroid (m_geometry row))
      service_area_nodes node_distances max_distance = Ok (true, total).

(** The eight integer counters of the statistics, in the order of the
    census columns they are read from. *)
Definition census_columns : list nat := [6; 7; 9; 11; 13; 15; 17; 19]%nat.

Definition counters (s : Stats) : list Z :=
  [poblacion_total s; poblacion_femenina s; poblacion_masculina s;
   pob_0_14 s; pob_15_29 s; pob_30_59 s; pob_60_mas s; discapacidad_total s].

End WithKernel.
End RefArea.

(** ** Reference quantities for the locality detection *)

Module RefDetect.
Section WithKernel.
Context `{GeoKernel}.
Import LocalityDetector.

(** The row is listed as a locality of the given kind: it meets the
    area, names a municipality, and its [AMBITO], stripped, is the kind. *)
Definition listed_as (kind : string) (area : Geometry) (row : LocRow) : Prop :=
  intersects (l_geometry row) area = true /\
  l_CVE_MUN row <> EmptyString /\
  strip (l_AMBITO row) = kind.

#[global] Instance listed_as_dec kind area row : Decision (listed_as kind area row).
Proof. unfold listed_as. apply _. Defined.

(** The same detection under another [network_analysis] entry. *)
Definition with_network_analysis (d : Detection) (network : option bool)
  : Detection :=
  {| municipios := municipios d;
     total_municipios := total_municipios d;
     total_urbanas := total_urbanas d;
     total_rurales := total_rurales d;
     total_localidades := total_localidades d;
     network_analysis := network |}.

(** Every municipality is named at most as its successor. *)
Definition sorted_by_name (l : list MunEntry) : Prop :=
  forall i a b,
    l !! i = Some a -> l !! S i = Some b ->
    String.leb (e_nombre a) (e_nombre b) = true.

End WithKernel.
End RefDetect.

Module RefMatch.
Section WithKernel.
Context `{GeoKernel}.




End WithKernel.
End RefMatch.

Module RefRows.
Section WithKernel.
Context `{GeoKernel}.
Import LocalityDetector.

(** The entry the buffer detection makes for a row of the frame. *)
Definition loc_of_row (row : LocRow) : LocData :=
  {| cvegeo := l_CVEGEO row; nombre := l_NOMGEO row;
     cve_mun := l_CVE_MUN row; ambito := strip (l_AMBITO row);
     distancia_red_m := None |}.

(** The entries a municipality keeps: those of its own key, urban ones
    in the urban list and rural ones in the rural list. *)
Definition entry_ok (k : string) (m : MunEntry) : Prop :=
  e_cve_mun m = k /\
  (forall loc, loc ∈ localidades_urbanas m ->
               cve_mun loc = k /\ ambito loc = "Urbana"%string) /\
  (forall loc, loc ∈ localidades_rurales m ->
               cve_mun loc = k /\ ambito loc = "Rural"%string).

Definition data_ok (data : list (string * MunEntry)) : Prop :=
  NoDup (dict_keys data) /\ forall k m, (k, m) ∈ data -> entry_ok k m.

End WithKernel.
End RefRows.

(** ** Reference quantities for the road attribute summary *)

Module RefRoads.
Section WithKernel.
Context `{GeoKernel} {arith : Arith}.
Import RoadAnalyzer.

(** The bucket of each map that a road is counted in. *)
Definition surface_of (row : RoadRow) : string :=
  if is_na (COND_PAV row) then "Con pavimento"%string
  else default "N/A"%string (COND_PAV row).

Definition administration_of (row : RoadRow) : string :=
  if is_na (ADMINISTRA row) then "Municipal"%string
  else default "N/A"%string (ADMINISTRA row).

Definition road_type_of (row : RoadRow) : string :=
  match TIPO_VIAL row with
  | None => "N/A"%string
  | Some s => if decide (s = EmptyString) then "N/A"%string else s
  end.

(** [0 + x1 + x2 + ...], added from the left as a loop does. *)
Definition float_sum (l : list Q) : Q := foldl fadd 0 l.

(** The lengths, in the order of [keys], of the roads at the positions
    [keys] that are counted in the bucket [k]. *)
Definition lengths_in (bucket : RoadRow -> string) (rnc_gdf : list RoadRow)
    (keys : list nat) (k : string) : list Q :=
  omap (fun idx =>
          row ← rnc_gdf !! idx;
          if decide (bucket row = k) then Ref.segment_km rnc_gdf idx
          else None)
       keys.

(** The value of the bucket [k]: absent when no road is counted in it,
    else the sum of their lengths. *)
Definition bucket_sum (bucket : RoadRow -> string) (rnc_gdf : list RoadRow)
    (keys : list nat) (k : string) : option Q :=
  match lengths_in bucket rnc_gdf keys k with
  | [] => None
  | l => Some (float_sum l)
  end.

(** Every geometry of the frame has a length that is not negative. *)
Definition lengths_nonneg (rnc_gdf : list RoadRow) : Prop :=
  forall row geom,
    row ∈ rnc_gdf -> geometry row = Some geom -> 0 <= geom_length geom.

(** No road of the frame has a negative length in kilometres. *)
Definition km_nonneg (rnc_gdf : list RoadRow) : Prop :=
  forall idx km, Ref.segment_km rnc_gdf idx = Some km -> 0 <= km.

(** Every entry of a counter map lies between 0 and [total]. *)
Definition entries_within (total : Q) (d : list (string * Q)) : Prop :=
  forall k v, dict_get d k = Some v -> 0 <= v /\ v <= total.

(** The N/A counters stay within the buckets the defaulted segments are
    added to. *)
Definition na_within (acc : Counters) : Prop :=
  0 <= c_na_superficie_km acc /\
  c_na_superficie_km acc
  <= default 0 (dict_get (c_superficie acc) "Con pavimento"%string) /\
  0 <= c_na_administracion_km acc /\
  c_na_administracion_km acc
  <= default 0 (dict_get (c_administracion acc) "Municipal"%string).

End WithKernel.
End RefRoads.

(** * Properties *)

(** ** Comparisons on rationals *)

Lemma Qltb_true (a b : Q) : Qltb a b = true <-> a < b.
Proof.
  unfold Qltb. rewrite negb_true_iff, <- not_true_iff_false, Qle_bool_iff.
  split; [apply Qnot_le_lt | apply Qlt_not_le].
Qed.

Lemma Qltb_false (a b : Q) : Qltb a b = false <-> b <= a.
Proof. unfold Qltb. rewrite negb_false_iff. apply Qle_bool_iff. Qed.

Lemma Qle_bool_false (a b : Q) : Qle_bool a b = false <-> b < a.
Proof.
  rewrite <- not_true_iff_false, Qle_bool_iff.
  split; [apply Qnot_le_lt | apply Qlt_not_le].
Qed.

(** Reading the value of a computation that is known to return. *)
Lemma ok_value {A} (r : result A) (d : A) :
  is_ok r = true -> r = Ok (match r with Ok a => a | _ => d end).
Proof. by destruct r. Qed.

(** ** Arithmetic *)

Lemma exact_laws : AddLaws Exact.
Proof. split; simpl; intros; lra. Qed.

Lemma exact_add (x y : Q) : fadd x y == x + y.
Proof. reflexivity. Qed.

(** ** Rounding *)

Lemma round_half_even_error (y : Q) :
  - (1 # 2) <= inject_Z (round_half_even y) - y /\
  inject_Z (round_half_even y) - y <= 1 # 2.
Proof.
  unfold round_half_even.
  pose proof (Qfloor_le y) as Hlo. pose proof (Qlt_floor y) as Hhi.
  rewrite inject_Z_plus in Hhi. change (inject_Z 1) with 1 in Hhi.
  destruct (Qcompare (y - inject_Z (Qfloor y)) (1 # 2)) eqn:Hc.
  - apply Qeq_alt in Hc. destruct (Z.even (Qfloor y)).
    + lra.
    + rewrite inject_Z_plus. change (inject_Z 1) with 1. lra.
  - apply Qlt_alt in Hc. lra.
  - apply Qgt_alt in Hc. rewrite inject_Z_plus. change (inject_Z 1) with 1. lra.
Qed.

Lemma round_half_even_between (a b : Z) (y : Q) :
  inject_Z a <= y -> y <= inject_Z b ->
  (a <= round_half_even y <= b)%Z.
Proof.
  intros Ha Hb. destruct (round_half_even_error y) as [Hlo Hhi].
  assert (inject_Z a - (1 # 2) <= inject_Z (round_half_even y)) as H1 by lra.
  assert (inject_Z (round_half_even y) <= inject_Z b + (1 # 2)) as H2 by lra.
  split.
  - destruct (Z_lt_le_dec (round_half_even y) a) as [Hlt|]; [|done].
    assert (inject_Z (round_half_even y + 1) <= inject_Z a) as H3.
    { rewrite <- Zle_Qle. lia. }
    rewrite inject_Z_plus in H3. change (inject_Z 1) with 1 in H3. lra.
  - destruct (Z_lt_le_dec b (round_half_even y)) as [Hlt|]; [|done].
    assert (inject_Z (b + 1) <= inject_Z (round_half_even y)) as H3.
    { rewrite <- Zle_Qle. lia. }
    rewrite inject_Z_plus in H3. change (inject_Z 1) with 1 in H3. lra.
Qed.

Lemma round_half_even_proper (x y : Q) :
  x == y -> round_half_even x = round_half_even y.
Proof.
  intros Hxy. unfold round_half_even.
  rewrite (Qfloor_comp _ _ Hxy).
  assert (x - inject_Z (Qfloor y) == y - inject_Z (Qfloor y)) as Hr
    by (by rewrite Hxy).
  by rewrite (Qcompare_comp _ _ Hr _ _ (Qeq_refl (1 # 2))).
Qed.

(** Rounding keeps the order. *)
Lemma round_half_even_mono (x y : Q) :
  x <= y -> (round_half_even x <= round_half_even y)%Z.
Proof.
  intros Hxy. destruct (Z_lt_le_dec (round_half_even y) (round_half_even x))
    as [Hlt|]; [|done].
  exfalso.
  destruct (round_half_even_error x) as [_ Hx].
  destruct (round_half_even_error y) as [Hy _].
  assert (inject_Z (round_half_even y + 1) <= inject_Z (round_half_even x)) as H1.
  { rewrite <- Zle_Qle. lia. }
  rewrite inject_Z_plus in H1. change (inject_Z 1) with 1 in H1.
  assert (x == y) as Heq by lra.
  apply round_half_even_proper in Heq. lia.
Qed.

Lemma py_round_mono (x y : Q) (n : nat) :
  x <= y -> py_round x n <= py_round y n.
Proof.
  intros Hxy. unfold py_round.
  set (p := (10 ^ Z.of_nat n)%Z).
  assert (0 < p)%Z as Hp by (subst p; apply Z.pow_pos_nonneg; lia).
  assert (0 < inject_Z p) as Hp'.
  { change 0 with (inject_Z 0). by rewrite <- Zlt_Qlt. }
  assert (x * inject_Z p <= y * inject_Z p) as Hm.
  { by apply Qmult_le_compat_r; [|apply Qlt_le_weak]. }
  apply round_half_even_mono in Hm. rewrite Zle_Qle in Hm.
  unfold Qdiv. apply Qmult_le_compat_r; [done|].
  apply Qlt_le_weak, Qinv_lt_0_compat. done.
Qed.

(** ** The heap *)

Section Heap.
Context {E : Type}.

Lemma item_lt_true (a b : nx.item) :
  nx.item_lt a b = true -> nx.i_dist a <= nx.i_dist b.
Proof.
  unfold nx.item_lt. destruct (nx.i_dist a ?= nx.i_dist b) eqn:C; [| |done].
  - intros _. apply Qeq_alt in C. lra.
  - intros _. apply Qlt_alt in C. lra.
Qed.

Lemma item_lt_false (a b : nx.item) :
  nx.item_lt a b = false -> nx.i_dist b <= nx.i_dist a.
Proof.
  unfold nx.item_lt. destruct (nx.i_dist a ?= nx.i_dist b) eqn:C; [|done|].
  - intros _. apply Qeq_alt in C. lra.
  - intros _. apply Qgt_alt in C. lra.
Qed.

Lemma heappop_None (l : list nx.item) : nx.heappop l = None -> l = [].
Proof.
  destruct l as [|x l]; [done|]. simpl.
  destruct (nx.heappop l) as [[m r]|]; [|done].
  by destruct (nx.item_lt m x).
Qed.

(** The popped entry is a least one, the rest is what remains. *)
Lemma heappop_Some (l : list nx.item) m rest :
  nx.heappop l = Some (m, rest) ->
  l ≡ₚ m :: rest /\ Forall (fun x => nx.i_dist m <= nx.i_dist x) rest.
Proof.
  revert m rest. induction l as [|x l IH]; intros m rest; [done|]. simpl.
  destruct (nx.heappop l) as [[m' r']|] eqn:Hp.
  - destruct (IH _ _ eq_refl) as [Hperm Hall].
    destruct (nx.item_lt m' x) eqn:Hlt; intros [= <- <-].
    + split.
      * rewrite Hperm. apply perm_swap.
      * constructor; [by apply item_lt_true|done].
    + split; [done|]. apply item_lt_false in Hlt.
      rewrite Hperm. constructor; [done|].
      eapply Forall_impl; [exact Hall|]. simpl. intros y Hy. lra.
  - intros [= <- <-]. apply heappop_None in Hp as ->. by split.
Qed.
End Heap.

(** ** The bounded search computes shortest-path distances *)

Section Search.
Context {E : Type} {arith : Arith}.
Hypothesis Hlaws : AddLaws arith.
Variable weight : E -> Q.
Variable cutoff : Q.
Variable G : nx.Graph E.
Variable s : Z.
Hypothesis Hnonneg : Dijkstra.nonneg weight G.
Hypothesis Hclosed : Dijkstra.closed G.

#[local] Abbreviation inv := (Dijkstra.inv weight cutoff G s).
#[local] Abbreviation walk := (nx.walk weight G s).

(** Equal distances are extended to equal distances. *)
Lemma fadd_proper x y w : x == y -> fadd x w == fadd y w.
Proof.
  intros Hxy. apply Qle_antisym; apply (fadd_mono Hlaws); lra.
Qed.

(** A walk does not get shorter with one more edge. *)
Lemma walk_extend t l w : walk t l -> 0 <= w -> l <= fadd l w.
Proof.
  destruct 1 as [|v u e l Hw He]; intros Hwe.
  - by apply (fadd_zero_le Hlaws).
  - by apply (fadd_sum_le Hlaws).
Qed.

Lemma walk_nonneg t l : walk t l -> 0 <= l.
Proof.
  induction 1 as [|v u e l Hw IH He]; [lra|].
  specialize (Hnonneg _ _ _ He).
  pose proof (walk_extend _ _ _ Hw Hnonneg). lra.
Qed.

Lemma walk_node t l : walk t l -> is_Some (G !! t).
Proof. destruct 1 as [|v u e l Hw He]; [done|]. by eapply Hclosed. Qed.

Lemma get_edge_data_items v nbrs u e :
  G !! v = Some nbrs ->
  nx.get_edge_data G v u = Some e <-> (u, e) ∈ map_to_list nbrs.
Proof.
  intros Hv. unfold nx.get_edge_data. rewrite Hv. simpl.
  by rewrite elem_of_map_to_list.
Qed.

(** Scanning one neighbour keeps the invariant, and cannot raise. *)
Lemma relax_inv v d_v ue pending st :
  inv v (ue :: pending) st ->
  nx.dist st !! v = Some d_v ->
  nx.get_edge_data G v ue.1 = Some ue.2 ->
  exists st',
    nx.relax weight cutoff d_v st ue = Ok st' /\
    inv v pending st' /\
    nx.dist st' = nx.dist st /\
    (length (nx.fringe st') <= S (length (nx.fringe st)))%nat.
Proof.
  intros [Hsrc Hds Hfs Hsf Hrel Hfsound Hdsound Hshort] Hv He.
  destruct ue as [u e]. simpl in He.
  assert (Hedge : forall x d u' e',
    nx.dist st !! x = Some d ->
    nx.get_edge_data G x u' = Some e' ->
    fadd d (weight e') <= cutoff ->
    (x = v /\ (u', e') ∈ pending) \/ (x = v /\ u' = u /\ e' = e) \/
    (exists d', nx.seen st !! u' = Some d' /\ d' <= fadd d (weight e'))).
  { intros x d u' e' Hx He' Hc.
    destruct (Hrel _ _ _ _ Hx He' Hc) as [[-> Hin]|?]; [|by auto].
    apply elem_of_cons in Hin as [[= -> ->]|Hin]; by auto. }
  assert (Hwalk : exists l, walk u l /\ l == fadd d_v (weight e)).
  { destruct (Hdsound _ _ Hv) as [(l & Hl & Hld) _].
    exists (fadd l (weight e)).
    split; [by eapply nx.walk_snoc|by apply fadd_proper]. }
  unfold nx.relax. simpl.
  destruct (Qltb cutoff (fadd d_v (weight e))) eqn:Hcut.
  { apply Qltb_true in Hcut. exists st. split_and!; [done| |done|lia].
    split; try done.
    intros x d u' e' Hx He' Hc.
    destruct (Hedge _ _ _ _ Hx He' Hc) as [?|[(-> & -> & ->)|?]]; [by auto| |by auto].
    rewrite Hv in Hx. injection Hx as <-. lra. }
  apply Qltb_false in Hcut.
  destruct (nx.dist st !! u) as [u_dist|] eqn:Hdu.
  { destruct Hwalk as (l & Hl & Hld).
    pose proof (Hshort _ _ _ Hdu Hl) as Hle.
    destruct (Qltb (fadd d_v (weight e)) u_dist) eqn:Hlt.
    { apply Qltb_true in Hlt. lra. }
    exists st. split_and!; [done| |done|lia].
    split; try done.
    intros x d u' e' Hx He' Hc.
    destruct (Hedge _ _ _ _ Hx He' Hc) as [?|[(-> & -> & ->)|?]]; [by auto| |by auto].
    rewrite Hv in Hx. injection Hx as <-. right.
    destruct (Hds _ _ Hdu) as (d' & Hd' & Hle'). exists d'. split; [done|lra]. }
  assert (Hpush :
    (forall s_u, nx.seen st !! u = Some s_u -> fadd d_v (weight e) < s_u) ->
    inv v pending (nx.push_seen st u (fadd d_v (weight e)))).
  { intros Hbetter. split; simpl.
    - destruct Hsrc as [?|[Hemp _]]; [by left|].
      rewrite Hemp in Hv. by rewrite lookup_empty in Hv.
    - intros x d Hx. destruct (decide (x = u)) as [->|Hne]; [congruence|].
      rewrite lookup_insert_ne by done. by apply Hds.
    - intros it Hin. apply elem_of_cons in Hin as [->|Hin]; simpl.
      + rewrite lookup_insert_eq. eexists; split; [done|lra].
      + destruct (Hfs _ Hin) as (d' & Hd' & Hle).
        destruct (decide (nx.i_node it = u)) as [Heq|Hne].
        * rewrite Heq, lookup_insert_eq. eexists; split; [done|].
          rewrite Heq in Hd'. specialize (Hbetter _ Hd'). lra.
        * rewrite lookup_insert_ne by done. eauto.
    - intros u' d Hs Hd. destruct (decide (u' = u)) as [->|Hne].
      + rewrite lookup_insert_eq in Hs. injection Hs as <-.
        eexists. apply elem_of_cons. by left.
      + rewrite lookup_insert_ne in Hs by done.
        destruct (Hsf _ _ Hs Hd) as [c Hc]. exists c.
        apply elem_of_cons. by right.
    - intros x d u' e' Hx He' Hc.
      destruct (Hedge _ _ _ _ Hx He' Hc) as [?|[(-> & -> & ->)|Hold]]; [by auto| |].
      + rewrite Hv in Hx. injection Hx as <-. right.
        rewrite lookup_insert_eq. eexists; split; [done|lra].
      + right. destruct Hold as (d' & Hd' & Hle).
        destruct (decide (u' = u)) as [->|Hne].
        * rewrite lookup_insert_eq. eexists; split; [done|].
          specialize (Hbetter _ Hd'). lra.
        * rewrite lookup_insert_ne by done. eauto.
    - intros it Hin. apply elem_of_cons in Hin as [->|Hin]; [|by auto]. simpl.
      destruct Hwalk as (l & Hl & Hld). split; [by exists l|by left].
    - done.
    - done. }
  destruct (nx.seen st !! u) as [s_u|] eqn:Hsu.
  - destruct (Qltb (fadd d_v (weight e)) s_u) eqn:Hlt.
    + apply Qltb_true in Hlt. eexists. split_and!; [done| |done|simpl; lia].
      apply Hpush. by intros ? [= <-].
    + apply Qltb_false in Hlt. exists st. split_and!; [done| |done|lia].
      split; try done.
      intros x d u' e' Hx He' Hc.
      destruct (Hedge _ _ _ _ Hx He' Hc) as [?|[(-> & -> & ->)|?]]; [by auto| |by auto].
      rewrite Hv in Hx. injection Hx as <-. right. eauto.
  - eexists. split_and!; [done| |done|simpl; lia].
    apply Hpush. by intros ? [=].
Qed.

Lemma inv_nil v v' st : inv v [] st -> inv v' [] st.
Proof.
  intros [Hsrc Hds Hfs Hsf Hrel Hfsound Hdsound Hshort]. split; try done.
  intros x d u e Hx He Hc.
  destruct (Hrel _ _ _ _ Hx He Hc) as [[_ Hin]|?]; [|by auto].
  by apply elem_of_nil in Hin.
Qed.

(** Scanning all the neighbours of [v]. *)
Lemma relax_all_inv v d_v items : forall st,
  inv v items st ->
  nx.dist st !! v = Some d_v ->
  (forall ue, ue ∈ items -> nx.get_edge_data G v ue.1 = Some ue.2) ->
  exists st',
    nx.relax_all weight cutoff d_v st items = Ok st' /\
    inv v [] st' /\
    nx.dist st' = nx.dist st /\
    (length (nx.fringe st') <= length (nx.fringe st) + length items)%nat.
Proof.
  induction items as [|ue items IH]; intros st Hinv Hv Hitems.
  - exists st. split_and!; [done|done|done|simpl; lia].
  - destruct (relax_inv _ _ _ _ _ Hinv Hv) as (st1 & Hr & Hinv1 & Hd1 & Hlen1).
    { apply Hitems. apply elem_of_cons. by left. }
    destruct (IH st1 Hinv1) as (st2 & Hr2 & Hinv2 & Hd2 & Hlen2).
    { by rewrite Hd1. }
    { intros ue' Hin. apply Hitems. apply elem_of_cons. by right. }
    exists st2. simpl. rewrite Hr. simpl. split_and!; [done|done|congruence|].
    simpl. lia.
Qed.

(** A walk within the cutoff ends at a node that has its final
    distance, or has left an entry in the heap that is not longer. *)
Lemma frontier v st t l :
  inv v [] st -> walk t l -> l <= cutoff ->
  is_Some (nx.dist st !! t) \/
  exists it, it ∈ nx.fringe st /\ nx.dist st !! nx.i_node it = None /\
             nx.i_dist it <= l.
Proof.
  intros [Hsrc Hds Hfs Hsf Hrel Hfsound Hdsound Hshort] Hw.
  induction Hw as [Hs|x u e l Hw IH He]; intros Hl.
  - destruct Hsrc as [(d0 & Hd0 & _)|[Hemp Hfr]]; [by left; eauto|].
    right. exists (nx.Item 0 0 s). rewrite Hfr, Hemp. simpl.
    split_and!; [by apply list_elem_of_singleton|by apply lookup_empty|lra].
  - pose proof (Hnonneg _ _ _ He) as Hwe.
    pose proof (walk_extend _ _ _ Hw Hwe) as Hext.
    destruct IH as [[d Hd]|(it & Hin & Hnone & Hle)]; [lra| |].
    + pose proof (Hshort _ _ _ Hd Hw) as Hdl.
      pose proof (fadd_mono Hlaws _ _ (weight e) Hdl) as Hmono.
      destruct (Hrel _ _ _ _ Hd He) as [[_ Hin]|(d' & Hd' & Hle)]; [lra| |].
      { by apply elem_of_nil in Hin. }
      destruct (nx.dist st !! u) as [du|] eqn:Hdu; [by left; eauto|].
      right. destruct (Hsf _ _ Hd' Hdu) as [c Hc].
      eexists. split_and!; [exact Hc|done|simpl; lra].
    + right. exists it. split_and!; [done|done|lra].
Qed.

Lemma sum_list_with_ext_in {A} (f g : A -> nat) (l : list A) :
  (forall x, x ∈ l -> f x = g x) -> sum_list_with f l = sum_list_with g l.
Proof.
  induction l as [|x l IH]; intros Hfg; [done|]. simpl.
  rewrite (Hfg x), IH; [done| |]; intros; try apply Hfg; set_solver.
Qed.

Lemma unscanned_insert (D : gmap Z Q) v d nbrs :
  G !! v = Some nbrs -> D !! v = None ->
  (Dijkstra.unscanned G (<[v := d]> D) + size nbrs)%nat = Dijkstra.unscanned G D.
Proof.
  intros Hv HD. unfold Dijkstra.unscanned.
  rewrite <- !(map_to_list_delete G v nbrs Hv). simpl.
  rewrite lookup_insert_eq, HD.
  rewrite (sum_list_with_ext_in _
    (fun p : Z * gmap Z E =>
       match D !! p.1 with Some _ => 0%nat | None => size p.2 end)); [lia|].
  intros [x n] Hin. simpl. apply elem_of_map_to_list in Hin.
  destruct (decide (x = v)) as [->|Hne].
  - by rewrite lookup_delete_eq in Hin.
  - by rewrite lookup_insert_ne.
Qed.

Lemma result_of_inv v st :
  inv v [] st -> nx.fringe st = [] -> Dijkstra.result_spec weight cutoff G s (nx.dist st).
Proof.
  intros Hinv Hfr. pose proof Hinv as [Hsrc Hds Hfs Hsf Hrel Hfsound Hdsound Hshort].
  split_and!.
  - intros t d Hd. destruct (Hdsound _ _ Hd) as [Hw Hc]. split; [|done].
    split; [done|]. intros l. by apply Hshort.
  - intros t l Hw Hl.
    destruct (frontier _ _ _ _ Hinv Hw Hl) as [?|(it & Hin & _)]; [done|].
    rewrite Hfr in Hin. by apply elem_of_nil in Hin.
  - destruct Hsrc as [(d0 & Hd0 & Hle)|[_ Hfr']]; [|congruence].
    exists d0. split; [done|].
    destruct (Hdsound _ _ Hd0) as [(l & Hl & Hld) _].
    pose proof (walk_nonneg _ _ Hl). lra.
Qed.

(** The loop returns, with the distances [result_spec] describes, as
    soon as its budget exceeds the measure of the state. *)
Lemma dijkstra_loop_correct fuel : forall st,
  inv s [] st ->
  (Dijkstra.measure G st < fuel)%nat ->
  exists D, nx.dijkstra_loop weight cutoff G fuel st = Ok D /\
            Dijkstra.result_spec weight cutoff G s D.
Proof.
  induction fuel as [|fuel IH]; intros st Hinv Hfuel; [lia|].
  simpl. destruct (nx.heappop (nx.fringe st)) as [[it rest]|] eqn:Hpop.
  2: { apply heappop_None in Hpop. eexists. split; [done|].
       by eapply result_of_inv. }
  apply heappop_Some in Hpop as [Hperm Hmin].
  assert (Hin_rest : forall x, x ∈ rest -> x ∈ nx.fringe st).
  { intros x Hx. rewrite Hperm. apply elem_of_cons. by right. }
  assert (Hin_it : it ∈ nx.fringe st).
  { rewrite Hperm. apply elem_of_cons. by left. }
  assert (Hlen : length (nx.fringe st) = S (length rest)).
  { by rewrite Hperm. }
  pose proof Hinv as [Hsrc Hds Hfs Hsf Hrel Hfsound Hdsound Hshort].
  unfold Dijkstra.measure in Hfuel.
  destruct (nx.dist st !! nx.i_node it) as [d_old|] eqn:Hdv.
  - apply IH; [|unfold Dijkstra.measure; simpl; lia].
    split; simpl; try done.
    + destruct Hsrc as [?|[Hemp _]]; [by left|].
      rewrite Hemp in Hdv. by rewrite lookup_empty in Hdv.
    + intros x Hx. auto.
    + intros u d Hs Hd. destruct (Hsf _ _ Hs Hd) as [c Hc].
      exists c. rewrite Hperm in Hc.
      apply elem_of_cons in Hc as [Heq|Hc]; [|done].
      rewrite <- Heq in Hdv. simpl in Hdv. congruence.
    + intros x Hx. auto.
  - destruct (Hfsound _ Hin_it) as [(l0 & Hw0 & Hl0) Hcut0].
    destruct (walk_node _ _ Hw0) as [nbrs Hnbrs]. rewrite Hnbrs.
    set (v := nx.i_node it) in *. set (d := nx.i_dist it) in *.
    set (st1 := {| nx.dist := <[v := d]> (nx.dist st); nx.seen := nx.seen st;
                   nx.fringe := rest; nx.counter := nx.counter st |}).
    assert (Hinv1 : inv v (map_to_list nbrs) st1).
    { split; simpl.
      - destruct Hsrc as [(d0 & Hd0 & Hle)|[Hemp Hfr]].
        + left. exists d0. split; [|done].
          rewrite lookup_insert_ne; [done|]. intros ->. congruence.
        + left. rewrite Hfr in Hin_it.
          apply list_elem_of_singleton in Hin_it. subst it. simpl in *.
          subst v d. exists 0. rewrite lookup_insert_eq. split; [done|lra].
      - intros x dx Hx. destruct (decide (x = v)) as [->|Hne].
        + rewrite lookup_insert_eq in Hx. injection Hx as <-.
          by apply (Hfs it).
        + rewrite lookup_insert_ne in Hx by done. by apply Hds.
      - intros x Hx. auto.
      - intros u du Hs Hd. destruct (decide (u = v)) as [->|Hne].
        { by rewrite lookup_insert_eq in Hd. }
        rewrite lookup_insert_ne in Hd by done.
        destruct (Hsf _ _ Hs Hd) as [c Hc]. exists c.
        rewrite Hperm in Hc. apply elem_of_cons in Hc as [Heq|Hc]; [|done].
        subst v. rewrite <- Heq in Hne. done.
      - intros x dx u e Hx He Hc. destruct (decide (x = v)) as [->|Hne].
        + left. split; [done|]. by apply (get_edge_data_items v nbrs).
        + rewrite lookup_insert_ne in Hx by done.
          destruct (Hrel _ _ _ _ Hx He Hc) as [[_ Hin]|?]; [|by right].
          by apply elem_of_nil in Hin.
      - intros x Hx. auto.
      - intros x dx Hx. destruct (decide (x = v)) as [->|Hne].
        + rewrite lookup_insert_eq in Hx. injection Hx as <-.
          by apply (Hfsound it).
        + rewrite lookup_insert_ne in Hx by done. by apply Hdsound.
      - intros x dx l Hx Hw. destruct (decide (x = v)) as [->|Hne].
        2: { rewrite lookup_insert_ne in Hx by done. by eapply Hshort. }
        rewrite lookup_insert_eq in Hx. injection Hx as <-.
        destruct (Qlt_le_dec cutoff l) as [Hfar|Hnear].
        + destruct Hcut0 as [?|[_ Hz]]; [lra|].
          pose proof (walk_nonneg _ _ Hw). lra.
        + destruct (frontier _ _ _ _ Hinv Hw Hnear)
            as [[? Hsome]|(it' & Hin' & _ & Hle')]; [congruence|].
          rewrite Hperm in Hin'. apply elem_of_cons in Hin' as [->|Hin']; [done|].
          rewrite Forall_forall in Hmin. specialize (Hmin _ Hin'). lra. }
    destruct (relax_all_inv v d (map_to_list nbrs) st1 Hinv1)
      as (st2 & Hr & Hinv2 & Hd2 & Hlen2).
    { simpl. apply lookup_insert_eq. }
    { intros [u e] Hin. simpl. by apply (get_edge_data_items v nbrs). }
    rewrite Hr. simpl. apply IH; [by eapply inv_nil|].
    unfold Dijkstra.measure. rewrite Hd2. simpl in *.
    pose proof (unscanned_insert (nx.dist st) v d nbrs Hnbrs Hdv) as Hm.
    rewrite length_map_to_list in Hlen2. lia.
Qed.

Lemma init_inv :
  is_Some (G !! s) -> inv s [] (nx.init_state s).
Proof.
  intros Hs. split; simpl.
  - by right.
  - intros x d Hx. by rewrite lookup_empty in Hx.
  - intros it Hin. apply list_elem_of_singleton in Hin as ->. simpl.
    rewrite lookup_singleton_eq. eexists. split; [done|lra].
  - intros u d Hu _. apply lookup_singleton_Some in Hu as [<- <-].
    exists 0%nat. by apply list_elem_of_singleton.
  - intros x d u e Hx. by rewrite lookup_empty in Hx.
  - intros it Hin. apply list_elem_of_singleton in Hin as ->. simpl.
    split; [|right; split; [done|lra]].
    exists 0. split; [by constructor|lra].
  - intros x d Hx. by rewrite lookup_empty in Hx.
  - intros x d l Hx. by rewrite lookup_empty in Hx.
Qed.

Lemma unscanned_empty : Dijkstra.unscanned G ∅ = nx.degree_sum G.
Proof.
  unfold Dijkstra.unscanned, nx.degree_sum.
  apply sum_list_with_ext_in. intros p _. by rewrite lookup_empty.
Qed.

(** [single_source_dijkstra_path_length] from a node of the graph. *)
Lemma single_source_correct :
  is_Some (G !! s) ->
  exists D, nx.single_source_dijkstra_path_length weight cutoff G s = Ok D /\
            Dijkstra.result_spec weight cutoff G s D.
Proof.
  intros Hs. unfold nx.single_source_dijkstra_path_length, nx.has_node.
  destruct Hs as [nbrs Hs]. rewrite Hs.
  apply dijkstra_loop_correct; [by apply init_inv|].
  unfold Dijkstra.measure, nx.dijkstra_fuel. simpl.
  rewrite unscanned_empty. lia.
Qed.
End Search.

(** ** The graph builder *)

Section AddEdge.
Context {E : Type}.
Implicit Types G : nx.Graph E.

Lemma lookup_add_node G n x :
  nx.add_node G n !! x =
  match G !! x with
  | Some nbrs => Some nbrs
  | None => if decide (x = n) then Some ∅ else None
  end.
Proof.
  unfold nx.add_node. destruct (G !! n) eqn:Hn.
  - destruct (G !! x) eqn:Hx; [done|]. case_decide; congruence.
  - destruct (decide (x = n)) as [->|Hne].
    + by rewrite lookup_insert_eq, Hn.
    + rewrite lookup_insert_ne by done. by destruct (G !! x).
Qed.

Lemma get_edge_data_default G x y :
  nx.get_edge_data G x y = default ∅ (G !! x) !! y.
Proof. unfold nx.get_edge_data. by destruct (G !! x). Qed.

Lemma default_add_node G n x :
  default ∅ (nx.add_node G n !! x) = default ∅ (G !! x).
Proof. rewrite lookup_add_node. destruct (G !! x); [done|]. by case_decide. Qed.

Lemma get_edge_data_add_edge G u v e x y :
  nx.get_edge_data (nx.add_edge G u v e) x y =
  if decide ((x = u /\ y = v) \/ (x = v /\ y = u)) then Some e
  else nx.get_edge_data G x y.
Proof.
  rewrite !get_edge_data_default. unfold nx.add_edge.
  destruct (decide (x = v)) as [->|Hxv].
  - rewrite lookup_insert_eq. simpl.
    destruct (decide (y = u)) as [->|Hyu].
    { rewrite lookup_insert_eq. rewrite decide_True; [done|by right]. }
    rewrite lookup_insert_ne by done.
    destruct (decide (v = u)) as [->|Hvu].
    + rewrite lookup_insert_eq. simpl. rewrite lookup_insert_ne by done.
      rewrite !default_add_node. rewrite decide_False; [done|intros [[? ?]|[? ?]]; congruence].
    + rewrite lookup_insert_ne by done.
      rewrite !default_add_node. rewrite decide_False; [done|intros [[? ?]|[? ?]]; congruence].
  - rewrite lookup_insert_ne by done.
    destruct (decide (x = u)) as [->|Hxu].
    + rewrite lookup_insert_eq. simpl.
      destruct (decide (y = v)) as [->|Hyv].
      { rewrite lookup_insert_eq. rewrite decide_True; [done|by left]. }
      rewrite lookup_insert_ne by done.
      rewrite !default_add_node. rewrite decide_False; [done|intros [[? ?]|[? ?]]; congruence].
    + rewrite lookup_insert_ne by done.
      rewrite !default_add_node. rewrite decide_False; [done|intros [[? ?]|[? ?]]; congruence].
Qed.

Lemma is_Some_add_edge G u v e x :
  is_Some (nx.add_edge G u v e !! x) <-> x = u \/ x = v \/ is_Some (G !! x).
Proof.
  unfold nx.add_edge.
  destruct (decide (x = v)) as [->|Hxv].
  { rewrite lookup_insert_eq. split; [by auto|by eauto]. }
  rewrite lookup_insert_ne by done.
  destruct (decide (x = u)) as [->|Hxu].
  { rewrite lookup_insert_eq. split; [by auto|by eauto]. }
  rewrite lookup_insert_ne by done. rewrite !lookup_add_node.
  destruct (G !! x); simpl.
  - split; [by auto|by eauto].
  - rewrite !decide_False by done. split; [by intros [? ?]|].
    intros [?|[?|[? ?]]]; done.
Qed.

Lemma get_edge_data_node G x y e :
  nx.get_edge_data G x y = Some e -> is_Some (G !! x).
Proof. unfold nx.get_edge_data. destruct (G !! x); [eauto|done]. Qed.

Lemma closed_add_edge G u v e :
  Dijkstra.closed G -> Dijkstra.closed (nx.add_edge G u v e).
Proof.
  intros Hc x y e' He. rewrite get_edge_data_add_edge in He.
  apply is_Some_add_edge. case_decide as Hd.
  - destruct Hd as [[_ ->]|[_ ->]]; auto.
  - right; right. by eapply Hc.
Qed.

Lemma nonneg_add_edge (weight : E -> Q) G u v e :
  0 <= weight e -> Dijkstra.nonneg weight G ->
  Dijkstra.nonneg weight (nx.add_edge G u v e).
Proof.
  intros He Hn x y e' He'. rewrite get_edge_data_add_edge in He'.
  case_decide; [by injection He' as <-|by eapply Hn].
Qed.

Lemma closed_empty : Dijkstra.closed (∅ : nx.Graph E).
Proof. intros x y e He. unfold nx.get_edge_data in He. by rewrite lookup_empty in He. Qed.

Lemma nonneg_empty (weight : E -> Q) : Dijkstra.nonneg weight (∅ : nx.Graph E).
Proof. intros x y e He. unfold nx.get_edge_data in He. by rewrite lookup_empty in He. Qed.

(** An edge listed by [edges] is the one [get_edge_data] finds. *)
Lemma elem_of_edges G u v e :
  (u, v, e) ∈ nx.edges G <-> (u <= v)%Z /\ nx.get_edge_data G u v = Some e.
Proof.
  unfold nx.edges, nx.get_edge_data. rewrite list_elem_of_bind. split.
  - intros ([x nbrs] & Hin & Hx). apply elem_of_map_to_list in Hx.
    apply list_elem_of_bind in Hin as ([y e'] & Hin & Hy).
    apply elem_of_map_to_list in Hy. case_bool_decide; [|by apply elem_of_nil in Hin].
    apply list_elem_of_singleton in Hin. injection Hin as -> -> ->.
    rewrite Hx. simpl. done.
  - intros [Hle He]. destruct (G !! u) as [nbrs|] eqn:Hu; [|done]. simpl in He.
    exists (u, nbrs). split; [|by apply elem_of_map_to_list].
    apply list_elem_of_bind. exists (v, e). split; [|by apply elem_of_map_to_list].
    rewrite bool_decide_eq_true_2 by done. by apply list_elem_of_singleton.
Qed.
End AddEdge.

(** ** The network analyzer *)

Section Analyzer.
Context `{GeoKernel} {arith : Arith}.
Hypothesis Hlaws : AddLaws arith.
Import NetworkAnalyzer.

Lemma add_row_inv acc row acc' :
  add_row acc row = Ok acc' ->
  Dijkstra.closed acc.1 ->
  Dijkstra.closed acc'.1 /\
  (0 <= LONGITUD row -> Dijkstra.nonneg weight acc.1 ->
   Dijkstra.nonneg weight acc'.1) /\
  ((acc.2 <> [] -> acc.1 <> ∅) -> acc'.2 <> [] -> acc'.1 <> ∅).
Proof.
  unfold add_row. intros Hrow Hc.
  destruct (geometry row) as [geom|]; [|by injection Hrow as <-].
  destruct (row_coords geom) as [coords| |]; simpl in Hrow; try done.
  destruct coords as [|c0 [|c1 coords]]; try by injection Hrow as <-.
  injection Hrow as <-. simpl. split_and!.
  - by apply closed_add_edge.
  - intros. by apply nonneg_add_edge.
  - intros _ _ Hemp.
    assert (is_Some (nx.add_edge acc.1 (UNION_INI row) (UNION_FIN row)
              {| weight := LONGITUD row; e_geometry := geom |} !! UNION_INI row)) as Hs.
    { apply is_Some_add_edge. by left. }
    rewrite Hemp, lookup_empty in Hs. by destruct Hs.
Qed.

Lemma add_rows_inv rows : forall acc acc',
  add_rows acc rows = Ok acc' ->
  Dijkstra.closed acc.1 ->
  Dijkstra.closed acc'.1 /\
  (Built.lengths_ok rows -> Dijkstra.nonneg weight acc.1 ->
   Dijkstra.nonneg weight acc'.1) /\
  ((acc.2 <> [] -> acc.1 <> ∅) -> acc'.2 <> [] -> acc'.1 <> ∅).
Proof.
  induction rows as [|row rows IH]; intros acc acc' Hr Hc; simpl in Hr.
  - by injection Hr as <-.
  - destruct (add_row acc row) as [acc1| |] eqn:Hrow; simpl in Hr; try done.
    destruct (add_row_inv _ _ _ Hrow Hc) as (Hc1 & Hn1 & He1).
    destruct (IH _ _ Hr Hc1) as (Hc' & Hn' & He'). split_and!; [done| |by auto].
    intros Hlen Hn. apply Forall_cons in Hlen as [Hl Hlen]. auto.
Qed.

(** The constructor leaves the analyzer well formed. *)
Lemma build_wf shapefile na :
  _load_and_build_network shapefile = Ok na -> Built.wf na.
Proof.
  unfold _load_and_build_network. destruct shapefile as [rows|].
  2: { by intros [= <-]. }
  destruct (add_rows (∅, []) rows) as [[G nc]| |] eqn:Hrows; simpl; try done.
  unfold _build_spatial_index. destruct nc as [|[k c] nc]; [done|].
  simpl. intros [= <-]. unfold Built.wf. simpl.
  destruct (add_rows_inv _ _ _ Hrows closed_empty) as (Hc & _ & He).
  split_and!; [done|done|done|done|]. by apply He.
Qed.

Lemma build_weights rows na :
  _load_and_build_network (Some rows) = Ok na ->
  Built.lengths_ok rows -> Built.weights_ok na.
Proof.
  unfold _load_and_build_network.
  destruct (add_rows (∅, []) rows) as [[G nc]| |] eqn:Hrows; simpl; try done.
  unfold _build_spatial_index. destruct (dict_values nc) eqn:Hv; [done|].
  intros [= <-] Hlen G' [= <-].
  destruct (add_rows_inv _ _ _ Hrows closed_empty) as (_ & Hn & _).
  apply Hn; [done|]. apply nonneg_empty.
Qed.

Lemma build_graph rows na :
  _load_and_build_network (Some rows) = Ok na -> is_Some (graph na).
Proof.
  unfold _load_and_build_network.
  destruct (add_rows (∅, []) rows) as [[G nc]| |]; simpl; try done.
  unfold _build_spatial_index. destruct (dict_values nc); [done|].
  intros [= <-]. simpl. eauto.
Qed.

(** ** Nearest node *)

Lemma kd_query_spec (pts : list Coord) (q : Coord) : forall pos,
  pts <> [] ->
  exists i p, kd_query pts q pos = Some (norm q p, (pos + i)%nat) /\
              pts !! i = Some p /\
              forall p', p' ∈ pts -> norm q p <= norm q p'.
Proof.
  induction pts as [|p pts IH]; intros pos Hne; [done|]. simpl.
  destruct pts as [|p1 pts].
  { simpl. exists 0%nat, p. rewrite Nat.add_0_r. split_and!; [done|done|].
    intros p' Hp'. apply list_elem_of_singleton in Hp' as ->. lra. }
  destruct (IH (S pos)) as (i & pm & Hq & Hi & Hmin); [done|].
  rewrite Hq. destruct (Qle_bool (norm q p) (norm q pm)) eqn:Hle.
  - apply Qle_bool_iff in Hle. exists 0%nat, p. rewrite Nat.add_0_r.
    split_and!; [done|done|].
    intros p' Hp'. apply elem_of_cons in Hp' as [->|Hp']; [lra|].
    specialize (Hmin _ Hp'). lra.
  - apply Qle_bool_false in Hle. exists (S i), pm.
    replace (pos + S i)%nat with (S pos + i)%nat by lia.
    split_and!; [done|done|].
    intros p' Hp'. apply elem_of_cons in Hp' as [->|Hp']; [lra|by apply Hmin].
Qed.

(** With a tree, [find_nearest_node] returns a node of [node_coords]
    that no other node beats, and its distance. *)
Lemma find_nearest_node_spec na point :
  Built.wf na -> is_Some (graph na) ->
  exists n c,
    find_nearest_node na point = Ok (Some (n, norm point c)) /\
    (n, c) ∈ node_coords na /\
    forall n' c', (n', c') ∈ node_coords na -> norm point c <= norm point c'.
Proof.
  unfold Built.wf. intros Hwf [G HG]. rewrite HG in Hwf.
  destruct Hwf as (_ & Htree & Hids & Hne & _).
  unfold find_nearest_node. rewrite Htree, Hids.
  destruct (kd_query_spec (dict_values (node_coords na)) point 0%nat)
    as (i & c & Hq & Hi & Hmin).
  { unfold dict_values. destruct (node_coords na); done. }
  rewrite Hq. simpl. unfold dict_values, dict_keys in *.
  rewrite list_lookup_fmap in Hi. rewrite list_lookup_fmap.
  destruct (node_coords na !! i) as [[n c']|] eqn:Hnc; [|done].
  simpl in *. injection Hi as ->. exists n, c. split_and!; [done| |].
  - by eapply list_elem_of_lookup_2.
  - intros n' c' Hin. apply Hmin. apply list_elem_of_fmap.
    exists (n', c'). by split.
Qed.

Lemma find_nearest_node_no_tree na point :
  Built.wf na -> graph na = None -> find_nearest_node na point = Ok None.
Proof.
  unfold Built.wf. intros Hwf HG. rewrite HG in Hwf.
  unfold find_nearest_node. by rewrite Hwf.
Qed.

(** ** Sampling the route *)

Lemma collect_nodes_ok na pts : forall found,
  Built.wf na -> is_Some (graph na) ->
  exists found', collect_nodes na pts found = Ok found'.
Proof.
  induction pts as [|p pts IH]; intros found Hwf HG; simpl; [eauto|].
  destruct (find_nearest_node_spec na p Hwf HG) as (n & c & Hf & _).
  rewrite Hf. simpl. by apply IH.
Qed.

Lemma collect_nodes_far na pts : forall found,
  Built.wf na -> is_Some (graph na) ->
  (forall p n c, p ∈ pts -> (n, c) ∈ node_coords na -> 500 <= norm p c) ->
  collect_nodes na pts found = Ok found.
Proof.
  induction pts as [|p pts IH]; intros found Hwf HG Hfar; simpl; [done|].
  destruct (find_nearest_node_spec na p Hwf HG) as (n & c & Hf & Hin & _).
  rewrite Hf. simpl.
  assert (Qltb (norm p c) 500 = false) as ->.
  { apply Qltb_false. eapply Hfar; [|done]. apply elem_of_cons. by left. }
  apply IH; [done|done|]. intros p' n' c' Hp'. apply Hfar.
  apply elem_of_cons. by right.
Qed.

Lemma find_nearest_nodes_on_route_ok na route sd :
  Built.wf na ->
  exists seeds, find_nearest_nodes_on_route na route sd = Ok seeds.
Proof.
  intros Hwf. unfold find_nearest_nodes_on_route.
  destruct (coord_tree na) as [pts|] eqn:Ht; [|eauto].
  assert (is_Some (graph na)) as HG.
  { unfold Built.wf in Hwf. destruct (graph na); [eauto|congruence]. }
  destruct (collect_nodes_ok na (sample_points (route_line route) sd) ∅ Hwf HG)
    as [found Hfound].
  rewrite Hfound. simpl. eauto.
Qed.

(** ** Merging the searches *)

Lemma keep_min_spec (acc : gmap Z Q) (nd : Z * Q) (n : Z) :
  (forall m, keep_min acc nd !! n = Some m ->
             acc !! n = Some m \/ (n, m) = nd) /\
  (forall a, acc !! n = Some a ->
             exists m, keep_min acc nd !! n = Some m /\ m <= a) /\
  (n = nd.1 -> exists m, keep_min acc nd !! n = Some m /\ m <= nd.2).
Proof.
  destruct nd as [k r]. unfold keep_min. simpl.
  destruct (acc !! k) as [old|] eqn:Hk.
  - destruct (Qltb r old) eqn:Hlt.
    + apply Qltb_true in Hlt. destruct (decide (n = k)) as [->|Hne].
      * rewrite lookup_insert_eq. split_and!.
        -- intros m [= <-]. by right.
        -- intros a Ha. rewrite Hk in Ha. injection Ha as <-.
           eexists; split; [done|lra].
        -- intros _. eexists; split; [done|lra].
      * rewrite lookup_insert_ne by done. split_and!; [by left| |done].
        intros a Ha. eexists; split; [done|lra].
    + apply Qltb_false in Hlt. split_and!; [by left| |].
      * intros a Ha. eexists; split; [done|lra].
      * intros ->. eexists; split; [done|lra].
  - destruct (decide (n = k)) as [->|Hne].
    + rewrite lookup_insert_eq. split_and!.
      * intros m [= <-]. by right.
      * intros a Ha. congruence.
      * intros _. eexists; split; [done|lra].
    + rewrite lookup_insert_ne by done. split_and!; [by left| |done].
      intros a Ha. eexists; split; [done|lra].
Qed.

Lemma keep_min_fold (l : list (Z * Q)) : forall (acc : gmap Z Q) (n : Z),
  (forall m, foldl keep_min acc l !! n = Some m ->
             acc !! n = Some m \/ (n, m) ∈ l) /\
  (forall a, acc !! n = Some a ->
             exists m, foldl keep_min acc l !! n = Some m /\ m <= a) /\
  (forall r, (n, r) ∈ l ->
             exists m, foldl keep_min acc l !! n = Some m /\ m <= r).
Proof.
  induction l as [|nd l IH]; intros acc n; simpl.
  - split_and!; [by left| |].
    + intros a Ha. eexists; split; [done|lra].
    + intros r Hr. by apply elem_of_nil in Hr.
  - destruct (IH (keep_min acc nd) n) as (I1 & I2 & I3).
    destruct (keep_min_spec acc nd n) as (K1 & K2 & K3).
    split_and!.
    + intros m Hm. destruct (I1 _ Hm) as [Hk|Hin].
      * destruct (K1 _ Hk) as [?|<-]; [by left|]. right. apply elem_of_cons. by left.
      * right. apply elem_of_cons. by right.
    + intros a Ha. destruct (K2 _ Ha) as (m1 & Hm1 & Hle1).
      destruct (I2 _ Hm1) as (m2 & Hm2 & Hle2). exists m2. split; [done|lra].
    + intros r Hr. apply elem_of_cons in Hr as [<-|Hr]; [|by apply I3].
      destruct (K3 eq_refl) as (m1 & Hm1 & Hle1). simpl in Hle1.
      destruct (I2 _ Hm1) as (m2 & Hm2 & Hle2). exists m2. split; [done|lra].
Qed.

Lemma walk_source_node (G : nx.Graph EdgeData) s t l :
  nx.walk weight G s t l -> is_Some (G !! s).
Proof. induction 1; done. Qed.

Lemma merged_equiv G maxd done done' D :
  (forall s, s ∈ done <-> s ∈ done') ->
  Built.merged G maxd done D -> Built.merged G maxd done' D.
Proof.
  intros Heq [Hs Hc]. split.
  - intros n d Hd. destruct (Hs _ _ Hd) as (s & Hin & Hf).
    exists s. split; [by apply Heq|done].
  - intros s n l Hin. apply Hc. by apply Heq.
Qed.

(** The loop over the route nodes returns, and merges what each source
    reaches. *)
Lemma search_sources_spec G maxd sources : forall done D,
  Dijkstra.closed G -> Dijkstra.nonneg weight G ->
  Built.merged G maxd done D ->
  exists D', search_sources G maxd sources D = Ok D' /\
             Built.merged G maxd (sources ++ done) D'.
Proof.
  induction sources as [|s sources IH]; intros done D Hc Hn Hm; simpl.
  { eauto. }
  assert (Hperm : forall x, x ∈ sources ++ s :: done <-> x ∈ s :: sources ++ done).
  { intros x. rewrite !elem_of_app, !elem_of_cons, elem_of_app. tauto. }
  unfold nx.has_node. destruct (G !! s) as [nbrs|] eqn:Hs.
  - destruct (single_source_correct Hlaws weight maxd G s Hn Hc) as (R & HR & R1 & R2 & R3).
    { rewrite Hs. eauto. }
    rewrite HR.
    destruct (IH (s :: done) (foldl keep_min D (map_to_list R)) Hc Hn)
      as (D' & HD' & Hm'); [|exists D'; split; [done|by eapply merged_equiv]].
    destruct Hm as [Hsound Hcompl]. split.
    + intros n d Hd.
      destruct (keep_min_fold (map_to_list R) D n) as (F1 & _ & _).
      destruct (F1 _ Hd) as [Hold|Hin].
      * destruct (Hsound _ _ Hold) as (s' & Hin' & Hf). exists s'.
        split; [|done]. apply elem_of_cons. by right.
      * apply elem_of_map_to_list in Hin. exists s.
        split; [apply elem_of_cons; by left|]. by apply R1.
    + intros s' n l Hin Hw Hl.
      destruct (keep_min_fold (map_to_list R) D n) as (_ & F2 & F3).
      apply elem_of_cons in Hin as [->|Hin].
      * assert (exists r, R !! n = Some r /\ r <= l) as (r & Hr & Hrl).
        { destruct Hl as [Hl| ->].
          - destruct (R2 _ _ Hw Hl) as [r Hr]. exists r. split; [done|].
            destruct (R1 _ _ Hr) as [[_ Hshort] _]. by apply Hshort.
          - destruct R3 as (d0 & Hd0 & Hz). exists d0. split; [done|].
            pose proof (walk_nonneg Hlaws weight G s Hn _ _ Hw). lra. }
        destruct (F3 r) as (m & Hm & Hle); [by apply elem_of_map_to_list|].
        exists m. split; [done|lra].
      * destruct (Hcompl _ _ _ Hin Hw Hl) as (d & Hd & Hdl).
        destruct (F2 _ Hd) as (m & Hm & Hle). exists m. split; [done|lra].
  - destruct (IH (s :: done) D Hc Hn)
      as (D' & HD' & Hm'); [|exists D'; split; [done|by eapply merged_equiv]].
    destruct Hm as [Hsound Hcompl]. split.
    + intros n d Hd. destruct (Hsound _ _ Hd) as (s' & Hin' & Hf). exists s'.
      split; [|done]. apply elem_of_cons. by right.
    + intros s' n l Hin Hw Hl. apply elem_of_cons in Hin as [->|Hin].
      * apply walk_source_node in Hw. rewrite Hs in Hw. by destruct Hw.
      * by eapply Hcompl.
Qed.

Lemma merged_nil G maxd : Built.merged G maxd [] ∅.
Proof.
  split.
  - intros n d Hd. by rewrite lookup_empty in Hd.
  - intros s n l Hin. by apply elem_of_nil in Hin.
Qed.

(** [calculate_service_area] returns; with a graph, its distances are
    the merged ones of the route nodes. *)
Lemma calculate_service_area_spec na route maxd :
  Built.wf na -> Built.weights_ok na ->
  exists seeds D,
    find_nearest_nodes_on_route na route 100 = Ok seeds /\
    calculate_service_area na route maxd = Ok (dom D, D) /\
    match graph na with
    | Some G => Built.merged G maxd seeds D
    | None => seeds = [] /\ D = ∅
    end.
Proof.
  intros Hwf Hw. unfold calculate_service_area.
  destruct (find_nearest_nodes_on_route_ok na route 100 Hwf) as [seeds Hseeds].
  destruct (graph na) as [G|] eqn:HG.
  - rewrite Hseeds. simpl. destruct seeds as [|s seeds].
    { exists [], ∅. rewrite dom_empty_L. split; [done|split; [done|apply merged_nil]]. }
    assert (Dijkstra.closed G) as Hc.
    { unfold Built.wf in Hwf. rewrite HG in Hwf. tauto. }
    destruct (search_sources_spec G maxd (s :: seeds) [] ∅ Hc (Hw _ HG))
      as (D & HD & Hm); [apply merged_nil|].
    rewrite HD. simpl. exists (s :: seeds), D. split; [done|split; [done|]].
    by rewrite app_nil_r in Hm.
  - exists [], ∅. rewrite dom_empty_L. split; [|done].
    unfold find_nearest_nodes_on_route in *.
    unfold Built.wf in Hwf. rewrite HG in Hwf. by rewrite Hwf.
Qed.
End Analyzer.

(** ** The arithmetic of doubles *)

Section Doubles.
Import Binary64.

Lemma two_pow_pos (k : Z) : 0 < 2 ^ k.
Proof. by apply Qpower_0_lt. Qed.

Lemma two_pow_succ (k : Z) : 2 ^ (k + 1) == 2 ^ k * 2.
Proof. rewrite Qpower_plus by done. by rewrite Qpower_1_r. Qed.

Lemma two_pow_lt_inv (a b : Z) : 2 ^ a < 2 ^ b -> (a < b)%Z.
Proof. intros Hlt. by apply (Qpower_lt_compat_l_inv 2). Qed.

Lemma two_pow_le (a b : Z) : (a <= b)%Z -> 2 ^ a <= 2 ^ b.
Proof. intros Hle. by apply Qpower_le_compat_l. Qed.

(** The bounds [Z.log2] gives on a positive fraction. *)
Lemma ilog2_rough (n : Z) (d : positive) :
  (0 < n)%Z ->
  let k := (Z.log2 n - Z.log2 (Z.pos d))%Z in
  2 ^ k <= (n # d) * 2 /\ n # d < 2 ^ k * 2.
Proof.
  intros Hn k.
  destruct (Z.log2_spec n Hn) as [Ha1 Ha2].
  destruct (Z.log2_spec (Z.pos d) (Pos2Z.is_pos d)) as [Hb1 Hb2].
  pose proof (Z.log2_nonneg n) as Ha0.
  pose proof (Z.log2_nonneg (Z.pos d)) as Hb0.
  set (a := Z.log2 n) in *. set (b := Z.log2 (Z.pos d)) in *.
  assert (2 ^ k == 2 ^ a / 2 ^ b) as Hk.
  { subst k. by apply Qpower_minus. }
  pose proof (two_pow_pos a) as HPa. pose proof (two_pow_pos b) as HPb.
  rewrite Zle_Qle, (Zpower_Qpower 2 a Ha0) in Ha1.
  rewrite Zlt_Qlt, Z.pow_succ_r, inject_Z_mult,
    (Zpower_Qpower 2 a Ha0) in Ha2 by done.
  rewrite Zle_Qle, (Zpower_Qpower 2 b Hb0) in Hb1.
  rewrite Zlt_Qlt, Z.pow_succ_r, inject_Z_mult,
    (Zpower_Qpower 2 b Hb0) in Hb2 by done.
  change (inject_Z 2) with 2 in *.
  assert (0 < inject_Z (Z.pos d)) as Hd.
  { change 0 with (inject_Z 0). by rewrite <- Zlt_Qlt. }
  assert (0 < inject_Z n) as Hn'.
  { change 0 with (inject_Z 0). by rewrite <- Zlt_Qlt. }
  rewrite Hk, (Qmake_Qdiv n d).
  set (N := inject_Z n) in *. set (D := inject_Z (Z.pos d)) in *.
  set (A := 2 ^ a) in *. set (B := 2 ^ b) in *.
  split.
  - apply Qle_shift_div_r; [done|].
    assert (N / D * 2 * B == N * 2 * B / D) as -> by (field; lra).
    apply Qle_shift_div_l; [done|]. nra.
  - apply Qlt_shift_div_r; [done|].
    assert (A / B * 2 * D == A * 2 * D / B) as -> by (field; lra).
    apply Qlt_shift_div_l; [done|]. nra.
Qed.

Lemma ilog2_spec (x : Q) :
  0 < x -> 2 ^ ilog2 x <= x /\ x < 2 ^ (ilog2 x + 1).
Proof.
  intros Hx. destruct x as [n d].
  assert (0 < n)%Z as Hn.
  { unfold Qlt in Hx. simpl in Hx. lia. }
  destruct (ilog2_rough n d Hn) as [Hlo Hhi]. cbv zeta in Hlo, Hhi.
  unfold ilog2. cbn [Qnum Qden].
  set (k := (Z.log2 n - Z.log2 (Z.pos d))%Z) in *.
  destruct (Qle_bool (2 ^ k) (n # d)) eqn:Hc.
  - apply Qle_bool_iff in Hc. split; [done|]. by rewrite two_pow_succ.
  - apply Qle_bool_false in Hc. split.
    + assert (2 ^ k == 2 ^ (k - 1) * 2) as Hk.
      { rewrite <- two_pow_succ. by replace (k - 1 + 1)%Z with k by lia. }
      rewrite Hk in Hlo. lra.
    + by replace (k - 1 + 1)%Z with k by lia.
Qed.

(** The exponent is the only one with these bounds. *)
Lemma ilog2_unique (x : Q) (k : Z) :
  2 ^ k <= x -> x < 2 ^ (k + 1) -> ilog2 x = k.
Proof.
  intros Hlo Hhi.
  assert (0 < x) as Hx by (pose proof (two_pow_pos k); lra).
  destruct (ilog2_spec x Hx) as [Hlo' Hhi'].
  assert (ilog2 x < k + 1)%Z by (apply two_pow_lt_inv; lra).
  assert (k < ilog2 x + 1)%Z by (apply two_pow_lt_inv; lra).
  lia.
Qed.

Lemma ilog2_mono (x y : Q) : 0 < x -> x <= y -> (ilog2 x <= ilog2 y)%Z.
Proof.
  intros Hx Hxy.
  destruct (ilog2_spec x Hx) as [Hlo _].
  destruct (ilog2_spec y) as [_ Hhi]; [lra|].
  assert (ilog2 x < ilog2 y + 1)%Z by (apply two_pow_lt_inv; lra).
  lia.
Qed.

Lemma two_pow_52 (k : Z) : 2 ^ k == inject_Z (2 ^ 52) * 2 ^ (k - 52).
Proof.
  rewrite (Zpower_Qpower 2 52) by done. change (inject_Z 2) with 2.
  rewrite <- Qpower_plus by done. by replace (52 + (k - 52))%Z with k by lia.
Qed.

Lemma two_pow_53 (k : Z) : 2 ^ (k + 1) == inject_Z (2 ^ 53) * 2 ^ (k - 52).
Proof.
  rewrite (Zpower_Qpower 2 53) by done. change (inject_Z 2) with 2.
  rewrite <- Qpower_plus by done.
  by replace (53 + (k - 52))%Z with (k + 1)%Z by lia.
Qed.

(** The significand of a positive number has 53 bits, or is [2^53]. *)
Lemma significand_range (x : Q) :
  0 < x ->
  (2 ^ 52 <= round_half_even (x / 2 ^ (ilog2 x - 52)) <= 2 ^ 53)%Z.
Proof.
  intros Hx. destruct (ilog2_spec x Hx) as [Hlo Hhi].
  pose proof (two_pow_pos (ilog2 x - 52)) as He.
  rewrite two_pow_52 in Hlo. rewrite two_pow_53 in Hhi.
  apply round_half_even_between.
  - by apply Qle_shift_div_l.
  - apply Qle_shift_div_r; [done|lra].
Qed.

Lemma round_pos_range (x : Q) :
  0 < x -> 2 ^ ilog2 x <= round_pos x /\ round_pos x <= 2 ^ (ilog2 x + 1).
Proof.
  intros Hx. destruct (significand_range x Hx) as [Hlo Hhi].
  pose proof (two_pow_pos (ilog2 x - 52)) as He.
  rewrite Zle_Qle in Hlo, Hhi.
  rewrite two_pow_52, two_pow_53. unfold round_pos. cbv zeta.
  split; by apply Qmult_le_compat_r; [|lra].
Qed.

Lemma round_pos_pos (x : Q) : 0 < x -> 0 < round_pos x.
Proof.
  intros Hx. destruct (round_pos_range x Hx) as [Hlo _].
  pose proof (two_pow_pos (ilog2 x)). lra.
Qed.

Lemma round_pos_mono (x y : Q) :
  0 < x -> x <= y -> round_pos x <= round_pos y.
Proof.
  intros Hx Hxy. assert (0 < y) as Hy by lra.
  pose proof (ilog2_mono x y Hx Hxy) as Hk.
  destruct (decide (ilog2 x = ilog2 y)) as [Heq|Hne].
  - unfold round_pos. cbv zeta. rewrite Heq.
    pose proof (two_pow_pos (ilog2 y - 52)) as He.
    apply Qmult_le_compat_r; [|lra].
    rewrite <- Zle_Qle. apply round_half_even_mono.
    unfold Qdiv. apply Qmult_le_compat_r; [done|].
    by apply Qlt_le_weak, Qinv_lt_0_compat.
  - destruct (round_pos_range x Hx) as [_ Hhi].
    destruct (round_pos_range y Hy) as [Hlo _].
    assert (2 ^ (ilog2 x + 1) <= 2 ^ ilog2 y) by (apply two_pow_le; lia).
    lra.
Qed.

Lemma round_half_even_Z (m : Z) : round_half_even (inject_Z m) = m.
Proof.
  unfold round_half_even. rewrite Qfloor_Z.
  assert (inject_Z m - inject_Z m == 0) as H0 by ring.
  rewrite (Qcompare_comp _ _ H0 _ _ (Qeq_refl (1 # 2))). done.
Qed.

(** A number with a significand of 53 bits is a double. *)
Lemma round_pos_double (y : Q) (m e : Z) :
  (2 ^ 52 <= m < 2 ^ 53)%Z -> y == inject_Z m * 2 ^ e -> round_pos y == y.
Proof.
  intros [Hlo Hhi] Hy. pose proof (two_pow_pos e) as He.
  rewrite Zle_Qle in Hlo. rewrite Zlt_Qlt in Hhi.
  assert (ilog2 y = e + 52)%Z as Hk.
  { apply ilog2_unique.
    - rewrite two_pow_52, Hy. replace (e + 52 - 52)%Z with e by lia.
      by apply Qmult_le_compat_r; [|lra].
    - rewrite two_pow_53, Hy. replace (e + 52 - 52)%Z with e by lia.
      by apply Qmult_lt_compat_r. }
  unfold round_pos. cbv zeta. rewrite Hk.
  replace (e + 52 - 52)%Z with e by lia.
  assert (y / 2 ^ e == inject_Z m) as Hm.
  { rewrite Hy. field. lra. }
  rewrite (round_half_even_proper _ _ Hm), round_half_even_Z. by rewrite Hy.
Qed.

(** Rounding a positive number gives a double. *)
Lemma round_pos_idem (x y : Q) : 0 < x -> y == round_pos x -> round_pos y == y.
Proof.
  intros Hx Hy. destruct (significand_range x Hx) as [Hlo Hhi].
  unfold round_pos in Hy. cbv zeta in Hy.
  set (m := round_half_even (x / 2 ^ (ilog2 x - 52))) in *.
  set (e := (ilog2 x - 52)%Z) in *.
  destruct (decide (m = 2 ^ 53)%Z) as [Hm|Hm].
  - apply (round_pos_double y (2 ^ 52) (e + 1)); [done|].
    rewrite Hy, Hm, two_pow_succ.
    change (inject_Z (2 ^ 53)) with (inject_Z (2 ^ 52) * 2). ring.
  - apply (round_pos_double y m e); [lia|done].
Qed.

Lemma round_mono (x y : Q) : x <= y -> round x <= round y.
Proof.
  intros Hxy. unfold round.
  destruct (x ?= 0) eqn:Hx, (y ?= 0) eqn:Hy;
    first [apply Qeq_alt in Hx|apply Qlt_alt in Hx|apply Qgt_alt in Hx];
    first [apply Qeq_alt in Hy|apply Qlt_alt in Hy|apply Qgt_alt in Hy];
    try lra.
  - pose proof (round_pos_pos y Hy). lra.
  - assert (0 < - x) as Hx' by lra. pose proof (round_pos_pos _ Hx'). lra.
  - assert (0 < - y) as Hy' by lra.
    assert (- y <= - x) as Hle by lra.
    pose proof (round_pos_mono _ _ Hy' Hle). lra.
  - assert (0 < - x) as Hx' by lra. pose proof (round_pos_pos _ Hx').
    pose proof (round_pos_pos y Hy). lra.
  - by apply round_pos_mono.
Qed.

Lemma round_of_pos (x : Q) : 0 < x -> round x = round_pos x.
Proof.
  intros Hx. unfold round.
  destruct (x ?= 0) eqn:Hc;
    first [apply Qeq_alt in Hc|apply Qlt_alt in Hc|apply Qgt_alt in Hc];
    [lra|lra|done].
Qed.

Lemma round_of_neg (x : Q) : x < 0 -> round x = - round_pos (- x).
Proof.
  intros Hx. unfold round.
  destruct (x ?= 0) eqn:Hc;
    first [apply Qeq_alt in Hc|apply Qlt_alt in Hc|apply Qgt_alt in Hc];
    [lra|done|lra].
Qed.

Lemma round_of_zero (x : Q) : x == 0 -> round x = 0.
Proof.
  intros Hx. unfold round.
  destruct (x ?= 0) eqn:Hc;
    first [apply Qeq_alt in Hc|apply Qlt_alt in Hc|apply Qgt_alt in Hc];
    [done|lra|lra].
Qed.

(** Rounding a double gives it back. *)
Lemma round_idem (x : Q) : round (round x) == round x.
Proof.
  destruct (Q_dec x 0) as [[Hx|Hx]|Hx].
  - assert (0 < - x) as Hx' by lra. pose proof (round_pos_pos _ Hx') as Hp.
    rewrite (round_of_neg x Hx), round_of_neg by lra.
    assert (round_pos (- - round_pos (- x)) == - - round_pos (- x)) as ->.
    { apply (round_pos_idem (- x)); [done|ring]. }
    ring.
  - pose proof (round_pos_pos _ Hx) as Hp.
    rewrite (round_of_pos x Hx), round_of_pos by done.
    by apply (round_pos_idem x).
  - rewrite (round_of_zero x Hx). done.
Qed.

Lemma binary64_laws : AddLaws Binary64.arith.
Proof.
  split; simpl.
  - intros x y w Hxy. apply round_mono. lra.
  - intros w Hw. change 0 with (round 0) at 1. apply round_mono. lra.
  - intros a b w Hw. rewrite <- (round_idem (a + b)) at 1.
    apply round_mono. lra.
Qed.

End Doubles.

(** ** The service area *)

Section ServiceArea.
Context `{GeoKernel} {arith : Arith}.
Hypothesis Hlaws : AddLaws arith.
Import NetworkAnalyzer.

Lemma built_service_area rows na route max_distance :
  _load_and_build_network (Some rows) = Ok na ->
  Built.lengths_ok rows ->
  exists G seeds D,
    graph na = Some G /\
    Dijkstra.nonneg weight G /\
    find_nearest_nodes_on_route na route 100 = Ok seeds /\
    calculate_service_area na route max_distance = Ok (dom D, D) /\
    Built.merged G max_distance seeds D.
Proof.
  intros Hb Hl.
  destruct (build_graph _ _ Hb) as [G HG].
  pose proof (build_weights _ _ Hb Hl) as Hw.
  destruct (calculate_service_area_spec Hlaws na route max_distance
              (build_wf _ _ Hb) Hw) as (seeds & D & Hs & Hc & Hm).
  rewrite HG in Hm. exists G, seeds, D. split_and!; auto.
Qed.

Lemma shortest_walk (G : nx.Graph EdgeData) s n d :
  nx.shortest weight G s n d -> exists l, nx.walk weight G s n l /\ l == d.
Proof. by intros [? _]. Qed.
End ServiceArea.

(** The network of the concrete cases loads. *)
Lemma cases_analyzer_built :
  NetworkAnalyzer._load_and_build_network (Some Cases.rows) = Ok Cases.analyzer.
Proof.
  assert (Hok : is_ok (NetworkAnalyzer._load_and_build_network (Some Cases.rows))
                = true) by (vm_compute; reflexivity).
  unfold Cases.analyzer.
  destruct (NetworkAnalyzer._load_and_build_network (Some Cases.rows));
    [reflexivity|discriminate Hok|discriminate Hok].
Defined.

Lemma cases_lengths_ok : Built.lengths_ok Cases.rows.
Proof.
  repeat apply List.Forall_cons; try apply List.Forall_nil; simpl; lra.
Defined.

(** C3: for an addition with the laws of a rounded sum, a network whose
    lengths are not negative and a maximum distance that is not negative,
    [calculate_service_area] returns a map holding a node exactly when
    some walk from a route node to it has a length of at most the maximum
    distance, the length of a walk being the lengths of its roads added
    one by one from the route node on; and the distance stored for a node
    is the least length of a walk to it from one of the route nodes, and
    is not larger than the least length from any of them. *)
Theorem calculate_service_area_shortest_paths `{GeoKernel} (arith : Arith)
    rows na route max_distance :
  AddLaws arith ->
  NetworkAnalyzer._load_and_build_network (Some rows) = Ok na ->
  Built.lengths_ok rows ->
  0 <= max_distance ->
  exists G seeds D,
    NetworkAnalyzer.graph na = Some G /\
    NetworkAnalyzer.find_nearest_nodes_on_route na route 100 = Ok seeds /\
    NetworkAnalyzer.calculate_service_area (arith := arith)
      na route max_distance = Ok (dom D, D) /\
    (forall n, n ∈ dom D <->
       exists s d, s ∈ seeds /\
                   nx.shortest (arith := arith) NetworkAnalyzer.weight G s n d /\
                   d <= max_distance) /\
    (forall n d, D !! n = Some d ->
       (exists s, s ∈ seeds /\
                  nx.shortest (arith := arith) NetworkAnalyzer.weight G s n d) /\
       (forall s d', s ∈ seeds ->
          nx.shortest (arith := arith) NetworkAnalyzer.weight G s n d' ->
          d <= d')).
Proof.
  intros Hlaws Hb Hl Hmax.
  destruct (built_service_area Hlaws rows na route max_distance Hb Hl)
    as (G & seeds & D & HG & Hn & Hs & Hc & [Hsound Hcompl]).
  exists G, seeds, D. split_and!; [done|done|done| |].
  - intros n. rewrite elem_of_dom. split.
    + intros [d Hd]. destruct (Hsound _ _ Hd) as (s & Hin & Hsh & Hle).
      exists s, d. split_and!; [done|done|]. destruct Hle as [?|[_ ?]]; lra.
    + intros (s & d & Hin & Hsh & Hle).
      destruct (shortest_walk _ _ _ _ Hsh) as (l & Hw & Hld).
      destruct (Hcompl s n l Hin Hw) as (d' & Hd' & _); [left; lra|eauto].
  - intros n d Hd. destruct (Hsound _ _ Hd) as (s & Hin & Hsh & Hle). split.
    + by exists s.
    + intros s' d' Hin' Hsh'.
      destruct (Qlt_le_dec max_distance d') as [Hfar|Hnear].
      { destruct Hle as [?|[_ ?]]; lra. }
      destruct (shortest_walk _ _ _ _ Hsh') as (l & Hw & Hld).
      destruct (Hcompl s' n l Hin' Hw) as (d2 & Hd2 & Hle2); [left; lra|].
      rewrite Hd in Hd2. injection Hd2 as <-. lra.
Qed.

Lemma calculate_service_area_shortest_paths_witness :
  AddLaws Binary64.arith /\
  NetworkAnalyzer._load_and_build_network (Some Cases.rows) = Ok Cases.analyzer /\
  Built.lengths_ok Cases.rows /\
  0 <= 700 /\
  exists G seeds D,
    NetworkAnalyzer.graph Cases.analyzer = Some G /\
    NetworkAnalyzer.find_nearest_nodes_on_route Cases.analyzer Cases.track 100
      = Ok seeds /\
    NetworkAnalyzer.calculate_service_area (arith := Binary64.arith)
      Cases.analyzer Cases.track 700 = Ok (dom D, D) /\
    (forall n, n ∈ dom D <->
       exists s d, s ∈ seeds /\
                   nx.shortest (arith := Binary64.arith)
                     NetworkAnalyzer.weight G s n d /\ d <= 700) /\
    (forall n d, D !! n = Some d ->
       (exists s, s ∈ seeds /\
                  nx.shortest (arith := Binary64.arith)
                    NetworkAnalyzer.weight G s n d) /\
       (forall s d', s ∈ seeds ->
          nx.shortest (arith := Binary64.arith)
            NetworkAnalyzer.weight G s n d' -> d <= d')).
Proof.
  assert (H3 : 0 <= 700) by lra.
  split; [exact binary64_laws|].
  split; [exact cases_analyzer_built|].
  split; [exact cases_lengths_ok|]. split; [exact H3|].
  exact (calculate_service_area_shortest_paths Binary64.arith _ _ Cases.track _
           binary64_laws cases_analyzer_built cases_lengths_ok H3).
Defined.

(** The network of the two roads of 0.3 m and 699.7 m loads. *)
Lemma float_case_built :
  NetworkAnalyzer._load_and_build_network (Some FloatCase.rows)
  = Ok FloatCase.analyzer.
Proof.
  assert (Hok : is_ok (NetworkAnalyzer._load_and_build_network
                         (Some FloatCase.rows)) = true)
    by (vm_compute; reflexivity).
  unfold FloatCase.analyzer.
  destruct (NetworkAnalyzer._load_and_build_network (Some FloatCase.rows));
    [reflexivity|discriminate Hok|discriminate Hok].
Qed.

Lemma float_case_lengths_ok : Built.lengths_ok FloatCase.rows.
Proof.
  repeat apply List.Forall_cons; try apply List.Forall_nil;
    apply Qle_bool_iff; vm_compute; reflexivity.
Qed.

Lemma float_case_seeds :
  NetworkAnalyzer.find_nearest_nodes_on_route
    FloatCase.analyzer FloatCase.track 100 = Ok [1%Z].
Proof. vm_compute. reflexivity. Qed.

(** C3, the claim as the specification states it: with the sums of
    Python the map holds a node that has a shortest-path distance, the
    exact sum of the lengths, of more than the maximum distance. The roads
    are 0.3 m and 699.7 m long; their sum is a little more than 700 and
    is rounded to 700, so the end of the second road is kept, at the
    distance 700. *)
Theorem rounded_sum_keeps_farther_node :
  exists S D,
    NetworkAnalyzer.find_nearest_nodes_on_route
      FloatCase.analyzer FloatCase.track 100 = Ok [1%Z] /\
    NetworkAnalyzer.calculate_service_area (arith := Binary64.arith)
      FloatCase.analyzer FloatCase.track 700 = Ok (S, D) /\
    3%Z ∈ S /\
    (exists d, D !! 3%Z = Some d /\ d == 700) /\
    (exists d,
       nx.shortest (arith := Exact) NetworkAnalyzer.weight FloatCase.graph 1 3 d) /\
    forall d,
      nx.shortest (arith := Exact) NetworkAnalyzer.weight FloatCase.graph 1 3 d ->
      700 < d.
Proof.
  exists FloatCase.service_area.1, FloatCase.service_area.2.
  split; [exact float_case_seeds|]. split.
  { rewrite <- surjective_pairing. apply ok_value. vm_compute. reflexivity. }
  split.
  { assert (bool_decide (3%Z ∈ FloatCase.service_area.1) = true) as Hin
      by (vm_compute; reflexivity).
    by apply bool_decide_eq_true in Hin. }
  split.
  { eexists. split; [vm_compute; reflexivity|]. vm_compute. reflexivity. }
  destruct (built_service_area exact_laws FloatCase.rows FloatCase.analyzer
              FloatCase.track 1000 float_case_built float_case_lengths_ok)
    as (G & seeds & D & HG & _ & Hs & Hc & Hm).
  assert (G = FloatCase.graph) as ->.
  { unfold FloatCase.graph. by rewrite HG. }
  assert (D = FloatCase.exact_distances) as ->.
  { unfold FloatCase.exact_distances. by rewrite Hc. }
  rewrite float_case_seeds in Hs. injection Hs as <-.
  assert (exists v, FloatCase.exact_distances !! 3%Z = Some v /\ 700 < v)
    as (v & Hv & Hfar).
  { eexists. split; [vm_compute; reflexivity|]. vm_compute. reflexivity. }
  split.
  { destruct (Built.merged_sound _ _ _ _ Hm _ _ Hv) as (s & Hin & Hsh & _).
    apply list_elem_of_singleton in Hin as ->. by exists v. }
  intros d Hsh.
  destruct (Qlt_le_dec 700 d) as [|Hle]; [done|]. exfalso.
  destruct (shortest_walk _ _ _ _ Hsh) as (l & Hw & Hld).
  destruct (Built.merged_complete _ _ _ _ Hm 1%Z 3%Z l) as (d0 & Hd0 & Hle0);
    [by apply list_elem_of_singleton|done|left; lra|].
  rewrite Hv in Hd0. injection Hd0 as <-. lra.
Qed.

(** C10: with lengths and a maximum distance that are not negative, every
    distance of the map [calculate_service_area] returns lies between 0
    and the maximum distance, and every route node that is a node of the
    graph is in the map at distance 0. *)
Theorem service_area_distances_bounded `{GeoKernel}
    rows na route max_distance :
  NetworkAnalyzer._load_and_build_network (Some rows) = Ok na ->
  Built.lengths_ok rows ->
  0 <= max_distance ->
  exists G seeds D,
    NetworkAnalyzer.graph na = Some G /\
    NetworkAnalyzer.find_nearest_nodes_on_route na route 100 = Ok seeds /\
    NetworkAnalyzer.calculate_service_area na route max_distance
      = Ok (dom D, D) /\
    (forall n d, D !! n = Some d -> 0 <= d /\ d <= max_distance) /\
    (forall s, s ∈ seeds -> is_Some (G !! s) ->
               exists d, D !! s = Some d /\ d == 0).
Proof.
  intros Hb Hl Hmax.
  destruct (built_service_area exact_laws rows na route max_distance Hb Hl)
    as (G & seeds & D & HG & Hn & Hs & Hc & [Hsound Hcompl]).
  assert (Hrange : forall n d, D !! n = Some d -> 0 <= d /\ d <= max_distance).
  { intros n d Hd. destruct (Hsound _ _ Hd) as (s & Hin & Hsh & Hle).
    destruct (shortest_walk _ _ _ _ Hsh) as (l & Hw & Hld).
    pose proof (walk_nonneg exact_laws _ _ _ Hn _ _ Hw).
    split; [lra|]. destruct Hle as [?|[_ ?]]; lra. }
  exists G, seeds, D. split_and!; [done|done|done|done|].
  intros s Hin Hnode.
  destruct (Hcompl s s 0 Hin) as (d & Hd & Hle); [by constructor|by right|].
  exists d. split; [done|]. destruct (Hrange _ _ Hd). lra.
Qed.

Lemma service_area_distances_bounded_witness :
  NetworkAnalyzer._load_and_build_network (Some Cases.rows) = Ok Cases.analyzer /\
  Built.lengths_ok Cases.rows /\
  0 <= 700 /\
  exists G seeds D,
    NetworkAnalyzer.graph Cases.analyzer = Some G /\
    NetworkAnalyzer.find_nearest_nodes_on_route Cases.analyzer Cases.track 100
      = Ok seeds /\
    NetworkAnalyzer.calculate_service_area Cases.analyzer Cases.track 700
      = Ok (dom D, D) /\
    (forall n d, D !! n = Some d -> 0 <= d /\ d <= 700) /\
    (forall s, s ∈ seeds -> is_Some (G !! s) ->
               exists d, D !! s = Some d /\ d == 0).
Proof.
  assert (H3 : 0 <= 700) by lra.
  split; [exact cases_analyzer_built|].
  split; [exact cases_lengths_ok|]. split; [exact H3|].
  exact (service_area_distances_bounded _ _ Cases.track _
           cases_analyzer_built cases_lengths_ok H3).
Defined.

(** C8: for one network and one track, the node set computed with the
    cutoff [d1] is included in the one computed with a cutoff [d2] that
    is at least [d1]. *)
Theorem service_area_monotone `{GeoKernel} rows na route d1 d2 :
  NetworkAnalyzer._load_and_build_network (Some rows) = Ok na ->
  Built.lengths_ok rows ->
  d1 <= d2 ->
  exists S1 D1 S2 D2,
    NetworkAnalyzer.calculate_service_area na route d1 = Ok (S1, D1) /\
    NetworkAnalyzer.calculate_service_area na route d2 = Ok (S2, D2) /\
    S1 ⊆ S2.
Proof.
  intros Hb Hl Hle.
  destruct (built_service_area exact_laws rows na route d1 Hb Hl)
    as (G & seeds & D1 & HG & Hn & Hs & Hc1 & [Hsound1 _]).
  destruct (built_service_area exact_laws rows na route d2 Hb Hl)
    as (G' & seeds' & D2 & HG' & _ & Hs' & Hc2 & [_ Hcompl2]).
  rewrite HG in HG'. injection HG' as <-.
  rewrite Hs in Hs'. injection Hs' as <-.
  exists (dom D1), D1, (dom D2), D2. split_and!; [done|done|].
  intros n Hin. apply elem_of_dom in Hin as [d Hd]. apply elem_of_dom.
  destruct (Hsound1 _ _ Hd) as (s & Hin & Hsh & Hcut).
  destruct (shortest_walk _ _ _ _ Hsh) as (l & Hw & Hld).
  destruct (Hcompl2 s n l Hin Hw) as (d' & Hd' & _); [|eauto].
  destruct Hcut as [?|[-> _]]; [left; lra|by right].
Qed.

Lemma service_area_monotone_witness :
  NetworkAnalyzer._load_and_build_network (Some Cases.rows) = Ok Cases.analyzer /\
  Built.lengths_ok Cases.rows /\
  300 <= 700 /\
  exists S1 D1 S2 D2,
    NetworkAnalyzer.calculate_service_area Cases.analyzer Cases.track 300
      = Ok (S1, D1) /\
    NetworkAnalyzer.calculate_service_area Cases.analyzer Cases.track 700
      = Ok (S2, D2) /\
    S1 ⊆ S2.
Proof.
  assert (H3 : 300 <= 700) by lra.
  split; [exact cases_analyzer_built|].
  split; [exact cases_lengths_ok|]. split; [exact H3|].
  exact (service_area_monotone _ _ Cases.track _ _
           cases_analyzer_built cases_lengths_ok H3).
Defined.

(** C7: when every node of the network is at 500 m or more from every
    sample point of the track, the route node list is empty and
    [calculate_service_area] returns the empty node set and the empty
    distance map; it does not raise. A graph that was built has nodes, so
    the empty set is not its whole node set. *)
Theorem empty_seed_set_gives_empty_service_area `{GeoKernel}
    shapefile na route max_distance :
  NetworkAnalyzer._load_and_build_network shapefile = Ok na ->
  (forall p n c,
     p ∈ NetworkAnalyzer.sample_points (NetworkAnalyzer.route_line route) 100 ->
     (n, c) ∈ NetworkAnalyzer.node_coords na -> 500 <= norm p c) ->
  NetworkAnalyzer.find_nearest_nodes_on_route na route 100 = Ok [] /\
  NetworkAnalyzer.calculate_service_area na route max_distance = Ok (∅, ∅) /\
  (forall G, NetworkAnalyzer.graph na = Some G -> nx.nodes G <> ∅).
Proof.
  intros Hb Hfar. pose proof (build_wf _ _ Hb) as Hwf.
  assert (Hseeds : NetworkAnalyzer.find_nearest_nodes_on_route na route 100 = Ok []).
  { unfold NetworkAnalyzer.find_nearest_nodes_on_route.
    destruct (NetworkAnalyzer.coord_tree na) as [pts|] eqn:Ht; [|done].
    assert (is_Some (NetworkAnalyzer.graph na)) as HG.
    { unfold Built.wf in Hwf.
      destruct (NetworkAnalyzer.graph na); [eauto|congruence]. }
    rewrite (collect_nodes_far na _ ∅ Hwf HG Hfar). simpl.
    by rewrite elements_empty. }
  split_and!; [done| |].
  - unfold NetworkAnalyzer.calculate_service_area.
    destruct (NetworkAnalyzer.graph na); [|done]. by rewrite Hseeds.
  - intros G HG. unfold Built.wf in Hwf. rewrite HG in Hwf.
    destruct Hwf as (_ & _ & _ & _ & Hne). unfold nx.nodes.
    intros Hdom. apply Hne. by apply dom_empty_inv_L.
Qed.

(** Checking the distance condition on a concrete network. *)
Lemma all_far_sound `{GeoKernel} (pts : list Coord) (ncs : list (Z * Coord)) :
  forallb (fun p => forallb (fun nc : Z * Coord => Qle_bool 500 (norm p nc.2)) ncs)
          pts = true ->
  forall p n c, p ∈ pts -> (n, c) ∈ ncs -> 500 <= norm p c.
Proof.
  intros Hall p n c Hp Hn. rewrite forallb_forall in Hall.
  apply list_elem_of_In in Hp. specialize (Hall _ Hp).
  rewrite forallb_forall in Hall. apply list_elem_of_In in Hn.
  specialize (Hall _ Hn). by apply Qle_bool_iff in Hall.
Defined.

Lemma empty_seed_set_gives_empty_service_area_witness :
  NetworkAnalyzer._load_and_build_network (Some Cases.rows) = Ok Cases.analyzer /\
  (forall p n c,
     p ∈ NetworkAnalyzer.sample_points
           (NetworkAnalyzer.route_line Cases.far_track) 100 ->
     (n, c) ∈ NetworkAnalyzer.node_coords Cases.analyzer -> 500 <= norm p c) /\
  NetworkAnalyzer.find_nearest_nodes_on_route Cases.analyzer Cases.far_track 100
    = Ok [] /\
  NetworkAnalyzer.calculate_service_area Cases.analyzer Cases.far_track 700
    = Ok (∅, ∅) /\
  (forall G, NetworkAnalyzer.graph Cases.analyzer = Some G -> nx.nodes G <> ∅).
Proof.
  assert (Hfar : forall p n c,
     p ∈ NetworkAnalyzer.sample_points
           (NetworkAnalyzer.route_line Cases.far_track) 100 ->
     (n, c) ∈ NetworkAnalyzer.node_coords Cases.analyzer -> 500 <= norm p c).
  { apply all_far_sound. vm_compute. reflexivity. }
  split; [exact cases_analyzer_built|]. split; [exact Hfar|].
  exact (empty_seed_set_gives_empty_service_area _ _ Cases.far_track 700
           cases_analyzer_built Hfar).
Defined.



(** The track of 1 km lying on the road of 1000 m: both ends of the road
    are in the service area at distance 0, and the end of the side road
    is at 500 m. *)
Lemma service_area_scenario :
  is_ok (NetworkAnalyzer.calculate_service_area Cases.analyzer Cases.track 700)
  = true /\
  ScenarioCase.distances = [(3%Z, 500); (2%Z, 0); (1%Z, 0)].
Proof. split; by vm_compute. Qed.

(** ** Parallel segments *)

Section Parallel.
Context `{GeoKernel}.
Import NetworkAnalyzer.

Lemma add_row_edge_data acc row acc' u v :
  add_row acc row = Ok acc' ->
  nx.get_edge_data acc'.1 u v =
  match Ref.edge_of_row row with
  | Some e => if decide (Ref.joins row u v) then Some e
              else nx.get_edge_data acc.1 u v
  | None => nx.get_edge_data acc.1 u v
  end.
Proof.
  unfold add_row, Ref.edge_of_row. intros Hrow.
  destruct (geometry row) as [geom|]; simpl; [|by injection Hrow as <-].
  destruct (row_coords geom) as [coords| |]; simpl in Hrow; try done.
  destruct coords as [|c0 [|c1 coords]]; try by injection Hrow as <-.
  injection Hrow as <-. simpl. rewrite get_edge_data_add_edge.
  unfold Ref.joins. destruct (decide _) as [Hd|Hd].
  - rewrite decide_True; [done|]. destruct Hd as [[-> ->]|[-> ->]]; auto.
  - rewrite decide_False; [done|]. intros [[<- <-]|[<- <-]]; apply Hd; auto.
Qed.

Lemma add_rows_edge_data rows : forall acc acc' u v,
  add_rows acc rows = Ok acc' ->
  nx.get_edge_data acc'.1 u v
  = Ref.last_segment rows u v (nx.get_edge_data acc.1 u v).
Proof.
  induction rows as [|row rows IH]; intros acc acc' u v Hr; simpl in *.
  - by injection Hr as <-.
  - destruct (add_row acc row) as [acc1| |] eqn:Hrow; simpl in Hr; try done.
    rewrite (IH _ _ u v Hr), (add_row_edge_data _ _ _ u v Hrow).
    by destruct (Ref.edge_of_row row).
Qed.

Lemma build_edge_data rows na G u v :
  _load_and_build_network (Some rows) = Ok na -> graph na = Some G ->
  nx.get_edge_data G u v = Ref.last_segment rows u v None.
Proof.
  unfold _load_and_build_network.
  destruct (add_rows (∅, []) rows) as [[G' nc]| |] eqn:Hrows; simpl; try done.
  unfold _build_spatial_index. destruct (dict_values nc); [done|].
  intros [= <-] [= <-]. by apply (add_rows_edge_data _ _ _ u v Hrows).
Qed.

Lemma elem_of_edge_entry {E} (y : Z * Z * E) (u v : Z) (e : E) :
  y ∈ (if bool_decide (u ≤ v)%Z then [(u, v, e)] else []) -> y = (u, v, e).
Proof.
  case_bool_decide; intros Hy.
  - by apply list_elem_of_singleton in Hy.
  - by apply elem_of_nil in Hy.
Qed.

Lemma NoDup_edges {E} (G : nx.Graph E) : NoDup (nx.edges G).
Proof.
  unfold nx.edges. apply NoDup_bind; [| |apply NoDup_map_to_list].
  - intros [u1 n1] [u2 n2] y H1 H2 Hy1 Hy2.
    apply elem_of_map_to_list in H1, H2.
    apply list_elem_of_bind in Hy1 as ([v1 e1] & Hy1 & _).
    apply list_elem_of_bind in Hy2 as ([v2 e2] & Hy2 & _).
    apply elem_of_edge_entry in Hy1, Hy2. subst y.
    injection Hy2 as -> _ _. congruence.
  - intros [u nbrs] _. apply NoDup_bind; [| |apply NoDup_map_to_list].
    + intros [v1 e1] [v2 e2] y _ _ Hy1 Hy2.
      apply elem_of_edge_entry in Hy1, Hy2. congruence.
    + intros [v e] _. case_bool_decide; [apply NoDup_singleton|apply NoDup_nil_2].
Qed.
End Parallel.

(** C2, as amended: the graph keeps one attribute record per pair of
    nodes, that of the last segment of the input joining the pair; an
    earlier segment between the same nodes is replaced, so [edges] lists
    each pair at most once. *)
Theorem graph_keeps_last_segment_of_pair `{GeoKernel} rows na :
  NetworkAnalyzer._load_and_build_network (Some rows) = Ok na ->
  exists G,
    NetworkAnalyzer.graph na = Some G /\
    (forall u v, nx.get_edge_data G u v = Ref.last_segment rows u v None) /\
    NoDup (nx.edges G) /\
    (forall u v e e',
       (u, v, e) ∈ nx.edges G -> (u, v, e') ∈ nx.edges G -> e = e').
Proof.
  intros Hb. destruct (build_graph _ _ Hb) as [G HG]. exists G.
  split_and!; [done| |apply NoDup_edges|].
  - intros u v. by eapply build_edge_data.
  - intros u v e e' He He'. apply elem_of_edges in He as [_ He], He' as [_ He'].
    congruence.
Qed.

Lemma cases_parallel_built :
  NetworkAnalyzer._load_and_build_network (Some Cases.parallel_rows)
  = Ok ParallelCase.parallel_analyzer.
Proof.
  assert (Hok : is_ok (NetworkAnalyzer._load_and_build_network
                         (Some Cases.parallel_rows)) = true)
    by (vm_compute; reflexivity).
  unfold ParallelCase.parallel_analyzer.
  destruct (NetworkAnalyzer._load_and_build_network (Some Cases.parallel_rows));
    [reflexivity|discriminate Hok|discriminate Hok].
Defined.

Lemma graph_keeps_last_segment_of_pair_witness :
  NetworkAnalyzer._load_and_build_network (Some Cases.parallel_rows)
  = Ok ParallelCase.parallel_analyzer /\
  exists G,
    NetworkAnalyzer.graph ParallelCase.parallel_analyzer = Some G /\
    (forall u v,
       nx.get_edge_data G u v = Ref.last_segment Cases.parallel_rows u v None) /\
    NoDup (nx.edges G) /\
    (forall u v e e',
       (u, v, e) ∈ nx.edges G -> (u, v, e') ∈ nx.edges G -> e = e').
Proof.
  split; [exact cases_parallel_built|].
  exact (graph_keeps_last_segment_of_pair _ _ cases_parallel_built).
Defined.

(** Both segments are not kept: of two segments of lengths 10 and 20 between the
    nodes 1 and 2, the graph built has a single edge, and no edge between
    1 and 2 carries the length 10. *)
Lemma parallel_segments_not_both_kept :
  NetworkAnalyzer._load_and_build_network (Some Cases.parallel_rows)
  = Ok ParallelCase.parallel_analyzer /\
  NetworkAnalyzer.graph ParallelCase.parallel_analyzer = Some ParallelCase.parallel_graph /\
  nx.number_of_edges ParallelCase.parallel_graph = 1%nat /\
  ~ (exists e, (1%Z, 2%Z, e) ∈ nx.edges ParallelCase.parallel_graph /\
               NetworkAnalyzer.weight e == 10).
Proof.
  assert (HG : NetworkAnalyzer.graph ParallelCase.parallel_analyzer
               = Some ParallelCase.parallel_graph).
  { unfold ParallelCase.parallel_graph.
    destruct (build_graph _ _ cases_parallel_built) as [G ->]. done. }
  split_and!; [exact cases_parallel_built|exact HG|by vm_compute|].
  intros (e & He & Hw). apply elem_of_edges in He as [_ He].
  rewrite (build_edge_data _ _ _ 1%Z 2%Z cases_parallel_built HG) in He.
  assert (Hlast : NetworkAnalyzer.weight
                    <$> Ref.last_segment Cases.parallel_rows 1 2 None = Some 20)
    by (vm_compute; reflexivity).
  rewrite He in Hlast. injection Hlast as H20. rewrite H20 in Hw.
  vm_compute in Hw. discriminate Hw.
Qed.

(** ** Population totals *)

Section Population.
Context `{GeoKernel}.
Variable py_float : string -> option Q.
Import ServiceAreaAnalyzer.

Lemma foldl_add_manzana ncols rows : forall stats,
  let stats' := foldl (add_manzana py_float ncols) stats rows in
  poblacion_total stats'
  = (poblacion_total stats + Ref.column_sum py_float ncols rows 6)%Z /\
  discapacidad_total stats'
  = (discapacidad_total stats + Ref.column_sum py_float ncols rows 19)%Z /\
  discapacidad_porcentaje stats' = discapacidad_porcentaje stats.
Proof.
  induction rows as [|row rows IH]; intros stats; simpl.
  - split_and!; [lia|lia|done].
  - destruct (IH (add_manzana py_float ncols stats row)) as (-> & -> & ->).
    simpl. split_and!; [lia|lia|done].
Qed.
End Population.

(** C9: [_aggregate_population] returns, without a division error, for
    every frame; the disability percentage is the rounded quotient when
    the total population is positive and 0 otherwise, and a frame with a
    total of 100 and no disability gives the percentage 0. *)
Theorem aggregate_population_percentage `{GeoKernel}
    (py_float : string -> option Q) (ncols : nat)
    (rows : list ServiceAreaAnalyzer.ManzanaRow) :
  let total := Ref.column_sum py_float ncols rows 6 in
  let disabled := Ref.column_sum py_float ncols rows 19 in
  exists stats,
    ServiceAreaAnalyzer._aggregate_population py_float ncols rows = Ok stats /\
    ServiceAreaAnalyzer.poblacion_total stats = total /\
    ServiceAreaAnalyzer.discapacidad_total stats = disabled /\
    ServiceAreaAnalyzer.discapacidad_porcentaje stats
    = (if (0 <? total)%Z
       then py_round (inject_Z disabled / inject_Z total * 100) 2
       else 0) /\
    (total = 100%Z -> disabled = 0%Z ->
     ServiceAreaAnalyzer.discapacidad_porcentaje stats == 0).
Proof.
  intros total disabled. unfold ServiceAreaAnalyzer._aggregate_population.
  destruct (foldl_add_manzana py_float ncols rows ServiceAreaAnalyzer.empty_stats)
    as (Ht & Hd & Hp). simpl in Ht, Hd, Hp. rewrite Z.add_0_l in Ht, Hd.
  fold total in Ht. fold disabled in Hd.
  set (stats := foldl _ _ rows) in *. rewrite Ht, Hd.
  destruct (0 <? total)%Z eqn:Hpos.
  - unfold truediv.
    assert (Qeq_bool (inject_Z total) 0 = false) as ->.
    { apply not_true_iff_false. rewrite Qeq_bool_iff. unfold Qeq. simpl. lia. }
    simpl. eexists. split_and!; [done|done|done|done|].
    simpl. intros -> ->. by vm_compute.
  - exists stats. split_and!; [done|done|done|done|].
    intros Hz. rewrite Hz in Hpos. done.
Qed.

(** The scenario itself: one block of 100 inhabitants of whom none has
    a disability. *)
Lemma aggregate_population_percentage_witness :
  Ref.column_sum BoxKernel.float_of_digits 20 [CensusCase.census_row] 6 = 100%Z /\
  Ref.column_sum BoxKernel.float_of_digits 20 [CensusCase.census_row] 19 = 0%Z /\
  exists stats,
    ServiceAreaAnalyzer._aggregate_population BoxKernel.float_of_digits 20
      [CensusCase.census_row] = Ok stats /\
    ServiceAreaAnalyzer.discapacidad_porcentaje stats == 0.
Proof.
  assert (H1 : Ref.column_sum BoxKernel.float_of_digits 20 [CensusCase.census_row] 6
               = 100%Z) by (vm_compute; reflexivity).
  assert (H2 : Ref.column_sum BoxKernel.float_of_digits 20 [CensusCase.census_row] 19
               = 0%Z) by (vm_compute; reflexivity).
  split; [exact H1|]. split; [exact H2|].
  destruct (aggregate_population_percentage BoxKernel.float_of_digits 20
              [CensusCase.census_row]) as (stats & Hs & _ & _ & _ & Hz).
  exists stats. split; [exact Hs|exact (Hz H1 H2)].
Defined.

(** ** The map matcher *)

Section Matcher.
Context `{GeoKernel}.
Import MapMatcher.

Lemma nearest_candidate_spec self point positions : forall seen min_dist best,
  Ref.nearest_of self point seen min_dist best ->
  (forall j, j ∈ positions -> is_Some (Ref.seg_distance self point j)) ->
  exists min_dist' best',
    nearest_candidate self point positions min_dist best
    = Ok (min_dist', best') /\
    Ref.nearest_of self point (seen ++ positions) min_dist' best'.
Proof.
  induction positions as [|idx positions IH]; intros seen md bm Hst Hvalid.
  - simpl. exists md, bm. by rewrite app_nil_r.
  - destruct (Hvalid idx) as [d Hd]; [apply elem_of_cons; by left|].
    simpl. unfold Ref.seg_distance in Hd.
    destruct (rnc_gdf self !! idx) as [row|] eqn:Hrow; [|done]. simpl in Hd.
    destruct (geometry row) as [geom|] eqn:Hgeom; [|done].
    simpl in Hd. injection Hd as <-.
    assert (Hsd : Ref.seg_distance self point idx = Some (distance point geom)).
    { unfold Ref.seg_distance. rewrite Hrow. simpl. by rewrite Hgeom. }
    replace (seen ++ idx :: positions) with ((seen ++ [idx]) ++ positions)
      by (by rewrite <- app_assoc).
    assert (Hrest : forall j, j ∈ positions ->
                              is_Some (Ref.seg_distance self point j)).
    { intros j Hj. apply Hvalid. apply elem_of_cons. by right. }
    destruct md as [m|], bm as [b|]; simpl in Hst; try done.
    + destruct Hst as (Hb & Hbd & Hmin).
      destruct (Qltb (distance point geom) m) eqn:Hlt.
      * apply Qltb_true in Hlt. apply IH; [|done]. simpl. split_and!.
        -- apply elem_of_app. right. by apply list_elem_of_singleton.
        -- done.
        -- intros j dj Hj Hdj. apply elem_of_app in Hj as [Hj|Hj].
           ++ specialize (Hmin _ _ Hj Hdj). lra.
           ++ apply list_elem_of_singleton in Hj as ->.
              rewrite Hsd in Hdj. injection Hdj as <-. lra.
      * apply Qltb_false in Hlt. apply IH; [|done]. simpl. split_and!.
        -- apply elem_of_app. by left.
        -- done.
        -- intros j dj Hj Hdj. apply elem_of_app in Hj as [Hj|Hj].
           ++ by eapply Hmin.
           ++ apply list_elem_of_singleton in Hj as ->.
              rewrite Hsd in Hdj. injection Hdj as <-. lra.
    + subst seen. apply IH; [|done]. simpl. split_and!.
      * by apply list_elem_of_singleton.
      * done.
      * intros j dj Hj Hdj. apply list_elem_of_singleton in Hj as ->.
        rewrite Hsd in Hdj. injection Hdj as <-. lra.
Qed.

(** What one turn of the matching loop returns. *)
Lemma match_point_spec self i point :
  (forall j, j ∈ candidates_of self point ->
             is_Some (Ref.seg_distance self point j)) ->
  exists r,
    match_point self i point = Ok r /\
    (forall m, r = Some m ->
       index m ∈ candidates_of self point /\ orden m = i /\
       exists d,
         Ref.seg_distance self point (index m) = Some d /\
         distance_m m = d * 111000 /\
         d * 111000 <= buffer_m self /\
         forall j dj, j ∈ candidates_of self point ->
                      Ref.seg_distance self point j = Some dj -> d <= dj) /\
    (r = None ->
       forall j dj, j ∈ candidates_of self point ->
                    Ref.seg_distance self point j = Some dj ->
                    buffer_m self < dj * 111000).
Proof.
  intros Hvalid. unfold match_point.
  destruct (candidates_of self point) as [|j0 cands] eqn:Hc.
  { exists None. split_and!; [done|done|].
    intros _ j dj Hj. by apply elem_of_nil in Hj. }
  destruct (nearest_candidate_spec self point (j0 :: cands) [] Inf None)
    as (md & bm & Hr & Hst); [done|done|].
  rewrite Hr. simpl in *.
  destruct md as [m|], bm as [b|]; simpl in Hst; try done.
  destruct Hst as (Hb & Hbd & Hmin).
  destruct (Qle_bool (m * 111000) (buffer_m self)) eqn:Hle.
  - apply Qle_bool_iff in Hle. eexists. split_and!; [done| |done].
    intros m' [= <-]. simpl. split_and!; [done|done|].
    exists m. split_and!; done.
  - apply Qle_bool_false in Hle. exists None. split_and!; [done|done|].
    intros _ j dj Hj Hdj. specialize (Hmin _ _ Hj Hdj). lra.
Qed.
End Matcher.


Section MatchAll.
Context `{GeoKernel}.
Import MapMatcher.

Lemma match_points_spec self points : forall i0,
  (forall point j, point ∈ points -> j ∈ candidates_of self point ->
                   is_Some (Ref.seg_distance self point j)) ->
  exists per,
    match_points self i0 points = Ok per /\
    length per = length points /\
    forall k point, points !! k = Some point ->
      exists r, per !! k = Some r /\
                match_point self (i0 + k) point = Ok r.
Proof.
  induction points as [|p points IH]; intros i0 Hvalid; simpl.
  - exists []. split_and!; [done|done|]. intros k point Hk. done.
  - destruct (match_point_spec self i0 p) as (r & Hr & _).
    { intros j. apply Hvalid. apply elem_of_cons. by left. }
    destruct (IH (S i0)) as (per & Hper & Hlen & Hk).
    { intros point j Hp. apply Hvalid. apply elem_of_cons. by right. }
    rewrite Hr, Hper. simpl. exists (r :: per).
    split_and!; [done|simpl; by rewrite Hlen|].
    intros [|k] point Hpoint; simpl in *.
    + injection Hpoint as <-. exists r. by rewrite Nat.add_0_r.
    + destruct (Hk k point Hpoint) as (r' & Hr' & Hm).
      exists r'. split; [done|]. by rewrite Nat.add_succ_r.
Qed.
End MatchAll.





(** The scenario evaluated: the point at 40 m is matched to the road,
    the point at 60 m is not. *)
Lemma match_scenario :
  exists m,
    MapMatcher.match_point MatcherCase.matcher 0 (1 # 1000, 40 # 111000) = Ok (Some m) /\
    MapMatcher.index m = 0%nat /\ MapMatcher.distance_m m == 40 /\
    MapMatcher.match_point MatcherCase.matcher 1 (2 # 1000, 60 # 111000) = Ok None.
Proof.
  eexists. split_and!; [by vm_compute|done|by vm_compute|by vm_compute].
Qed.

(** ** Road lengths by category *)

Section Dicts.
Context {K : Type} `{EqDecision K}.

Lemma dict_get_set {V} (d : list (K * V)) k v x :
  dict_get (dict_set d k v) x = if decide (x = k) then Some v else dict_get d x.
Proof.
  induction d as [|[k' v'] d IH]; simpl.
  - destruct (decide (k = x)), (decide (x = k)); congruence.
  - destruct (decide (k' = k)) as [->|Hk]; simpl.
    + destruct (decide (k = x)), (decide (x = k)); congruence.
    + destruct (decide (k' = x)) as [->|Hx].
      * by rewrite decide_False by done.
      * apply IH.
Qed.

Lemma dict_get_dict_add {arith : Arith} (d : list (K * Q)) k x k' :
  dict_get (dict_add d k x) k'
  = if decide (k' = k) then Some (fadd (default 0 (dict_get d k)) x)
    else dict_get d k'.
Proof. unfold dict_add. apply dict_get_set. Qed.

Lemma dict_set_keys {V} (d : list (K * V)) k v x :
  x ∈ dict_keys (dict_set d k v) <-> x = k \/ x ∈ dict_keys d.
Proof.
  unfold dict_keys. induction d as [|[k' v'] d IH]; simpl.
  - rewrite list_elem_of_singleton, elem_of_nil. tauto.
  - case_decide as Hk; simpl.
    + subst k'. rewrite !elem_of_cons. tauto.
    + rewrite !elem_of_cons, IH. tauto.
Qed.

Lemma dict_set_NoDup {V} (d : list (K * V)) k v :
  NoDup (dict_keys d) -> NoDup (dict_keys (dict_set d k v)).
Proof.
  induction d as [|[k' v'] d IH]; simpl; intros Hnd.
  - apply NoDup_singleton.
  - apply NoDup_cons in Hnd as [Hk' Hnd]. case_decide as Hk; simpl.
    + subst k'. by apply NoDup_cons.
    + apply NoDup_cons. split; [|by apply IH].
      intros Hin. apply (dict_set_keys d k v k') in Hin as [?|?]; congruence.
Qed.

(** With sums that are not rounded, adding to a bucket adds to the sum
    of the buckets. *)
Lemma Qsum_dict_add {arith : Arith} (d : list (K * Q)) k x :
  (forall a b, fadd a b == a + b) ->
  Qsum (dict_values (dict_add d k x)) == Qsum (dict_values d) + x.
Proof.
  intros Hex. unfold dict_add, dict_values.
  induction d as [|[k' v'] d IH]; simpl.
  - pose proof (Hex 0 x). lra.
  - destruct (decide (k' = k)) as [Hk|Hk]; simpl.
    + pose proof (Hex v' x). lra.
    + rewrite IH. unfold fmap. lra.
Qed.
End Dicts.

(** Rounding to three decimals moves a value by at most 0.0005. *)
Lemma py_round_3_error (x : Q) :
  - (1 # 2000) <= py_round x 3 - x /\ py_round x 3 - x <= 1 # 2000.
Proof.
  unfold py_round. change (inject_Z (10 ^ Z.of_nat 3)) with 1000.
  destruct (round_half_even_error (x * 1000)) as [Hlo Hhi].
  unfold Qdiv. change (/ 1000) with (1 # 1000). lra.
Qed.

Section Roads.
Context `{GeoKernel} {arith : Arith}.
Import RoadAnalyzer.

Lemma segment_usage_keys matched :
  let keys := dict_keys (segment_usage matched) in
  NoDup keys /\
  forall i, i ∈ keys <-> exists m, m ∈ matched /\ MapMatcher.index m = i.
Proof.
  unfold segment_usage.
  assert (Hgen : forall usage : list (nat * nat),
    let usage' :=
      foldl (fun usage seg =>
               dict_set usage (MapMatcher.index seg)
                 (S (default 0%nat (dict_get usage (MapMatcher.index seg)))))
            usage matched in
    (NoDup (dict_keys usage) -> NoDup (dict_keys usage')) /\
    forall i, i ∈ dict_keys usage' <->
              i ∈ dict_keys usage \/
              exists m, m ∈ matched /\ MapMatcher.index m = i).
  { induction matched as [|seg matched IH]; intros usage; simpl.
    - split; [done|]. intros i. split; [by left|].
      intros [?|(m & Hm & _)]; [done|by apply elem_of_nil in Hm].
    - destruct (IH (dict_set usage (MapMatcher.index seg)
                      (S (default 0%nat (dict_get usage (MapMatcher.index seg))))))
        as [Hnd Hin].
      split.
      + intros Hu. by apply Hnd, dict_set_NoDup.
      + intros i. rewrite Hin, dict_set_keys. split.
        * intros [[->|?]|(m & Hm & Hi)]; [right|by left|right].
          -- exists seg. split; [apply elem_of_cons; by left|done].
          -- exists m. split; [apply elem_of_cons; by right|done].
        * intros [?|(m & Hm & Hi)]; [by left; right|].
          apply elem_of_cons in Hm as [->|Hm]; [by left; left|].
          right. by exists m. }
  destruct (Hgen []) as [Hnd Hin]. split.
  - apply Hnd. apply NoDup_nil_2.
  - intros i. rewrite Hin. split; [|by right].
    intros [Hi|?]; [|done]. by apply elem_of_nil in Hi.
Qed.

Lemma segment_length_km_ok rnc_gdf idx km :
  Ref.segment_km rnc_gdf idx = Some km ->
  segment_length_km rnc_gdf idx = Ok km.
Proof.
  unfold Ref.segment_km, segment_length_km.
  destruct (rnc_gdf !! idx) as [row|]; [|done]. simpl.
  destruct (geometry row); [|done]. simpl. by intros [= <-].
Qed.

(** The first loop adds the lengths of [keys], one by one. *)
Lemma total_length_fold rnc_gdf keys : forall acc,
  (forall i, i ∈ keys -> is_Some (Ref.segment_km rnc_gdf i)) ->
  total_length rnc_gdf keys acc
  = Ok (foldl fadd acc (omap (Ref.segment_km rnc_gdf) keys)).
Proof.
  induction keys as [|idx keys IH]; intros acc Hvalid; simpl; [done|].
  destruct (Hvalid idx) as [km Hkm]; [apply elem_of_cons; by left|].
  rewrite (segment_length_km_ok _ _ _ Hkm), Hkm. simpl.
  apply IH. intros i Hi. apply Hvalid. apply elem_of_cons. by right.
Qed.

(** What one turn of the second loop does to the buckets. *)
Lemma classify_buckets rnc_gdf acc idx row km :
  rnc_gdf !! idx = Some row ->
  Ref.segment_km rnc_gdf idx = Some km ->
  exists acc',
    classify rnc_gdf acc idx = Ok acc' /\
    (forall k, dict_get (c_superficie acc') k
       = if decide (RefRoads.surface_of row = k)
         then Some (fadd (default 0 (dict_get (c_superficie acc) k)) km)
         else dict_get (c_superficie acc) k) /\
    (forall k, dict_get (c_administracion acc') k
       = if decide (RefRoads.administration_of row = k)
         then Some (fadd (default 0 (dict_get (c_administracion acc) k)) km)
         else dict_get (c_administracion acc) k) /\
    (forall k, dict_get (c_tipo_vialidad acc') k
       = if decide (RefRoads.road_type_of row = k)
         then Some (fadd (default 0 (dict_get (c_tipo_vialidad acc) k)) km)
         else dict_get (c_tipo_vialidad acc) k).
Proof.
  intros Hrow Hkm. unfold classify.
  rewrite Hrow, (segment_length_km_ok _ _ _ Hkm). simpl.
  eexists. split; [done|]. simpl.
  split_and!; intros k; rewrite dict_get_dict_add;
    unfold RefRoads.surface_of, RefRoads.administration_of,
      RefRoads.road_type_of;
    destruct (decide (k = _)) as [->|Hk].
  - by rewrite decide_True.
  - by rewrite decide_False.
  - by rewrite decide_True.
  - by rewrite decide_False.
  - by rewrite decide_True.
  - by rewrite decide_False.
Qed.

Lemma lengths_in_cons bucket rnc_gdf idx keys row km k :
  rnc_gdf !! idx = Some row ->
  Ref.segment_km rnc_gdf idx = Some km ->
  RefRoads.lengths_in bucket rnc_gdf (idx :: keys) k
  = if decide (bucket row = k)
    then km :: RefRoads.lengths_in bucket rnc_gdf keys k
    else RefRoads.lengths_in bucket rnc_gdf keys k.
Proof.
  intros Hrow Hkm. unfold RefRoads.lengths_in. simpl. rewrite Hrow. simpl.
  destruct (decide (bucket row = k)); [by rewrite Hkm|done].
Qed.

(** The second loop adds to every bucket the lengths of its roads, one by
    one in the order of [keys]. *)
Lemma classify_all_buckets rnc_gdf keys : forall acc,
  (forall i, i ∈ keys -> is_Some (Ref.segment_km rnc_gdf i)) ->
  exists acc',
    classify_all rnc_gdf acc keys = Ok acc' /\
    (forall k, dict_get (c_superficie acc') k
       = match RefRoads.lengths_in RefRoads.surface_of rnc_gdf keys k with
         | [] => dict_get (c_superficie acc) k
         | l => Some (foldl fadd (default 0 (dict_get (c_superficie acc) k)) l)
         end) /\
    (forall k, dict_get (c_administracion acc') k
       = match RefRoads.lengths_in RefRoads.administration_of rnc_gdf keys k with
         | [] => dict_get (c_administracion acc) k
         | l => Some (foldl fadd
                        (default 0 (dict_get (c_administracion acc) k)) l)
         end) /\
    (forall k, dict_get (c_tipo_vialidad acc') k
       = match RefRoads.lengths_in RefRoads.road_type_of rnc_gdf keys k with
         | [] => dict_get (c_tipo_vialidad acc) k
         | l => Some (foldl fadd
                        (default 0 (dict_get (c_tipo_vialidad acc) k)) l)
         end).
Proof.
  induction keys as [|idx keys IH]; intros acc Hvalid.
  - exists acc. by split_and!.
  - destruct (Hvalid idx) as [km Hkm]; [apply elem_of_cons; by left|].
    assert (exists row, rnc_gdf !! idx = Some row) as [row Hrow].
    { unfold Ref.segment_km in Hkm.
      destruct (rnc_gdf !! idx) as [row|]; [by exists row|done]. }
    destruct (classify_buckets rnc_gdf acc idx row km Hrow Hkm)
      as (acc1 & Hc & Hs1 & Ha1 & Hv1).
    destruct (IH acc1) as (acc' & Hc' & Hs' & Ha' & Hv').
    { intros i Hi. apply Hvalid. apply elem_of_cons. by right. }
    exists acc'. split; [simpl; rewrite Hc; simpl; done|].
    split_and!; intros k.
    + rewrite (lengths_in_cons _ _ _ _ _ _ _ Hrow Hkm), Hs', Hs1.
      destruct (decide (RefRoads.surface_of row = k)); [|done].
      by destruct (RefRoads.lengths_in _ _ keys k).
    + rewrite (lengths_in_cons _ _ _ _ _ _ _ Hrow Hkm), Ha', Ha1.
      destruct (decide (RefRoads.administration_of row = k)); [|done].
      by destruct (RefRoads.lengths_in _ _ keys k).
    + rewrite (lengths_in_cons _ _ _ _ _ _ _ Hrow Hkm), Hv', Hv1.
      destruct (decide (RefRoads.road_type_of row = k)); [|done].
      by destruct (RefRoads.lengths_in _ _ keys k).
Qed.

(** From here on the sums are not rounded. *)
Hypothesis Hex : forall a b, fadd a b == a + b.

Lemma total_length_spec rnc_gdf keys : forall acc,
  (forall i, i ∈ keys -> is_Some (Ref.segment_km rnc_gdf i)) ->
  exists total,
    total_length rnc_gdf keys acc = Ok total /\
    total == acc + Ref.length_of_segments rnc_gdf keys.
Proof.
  unfold Ref.length_of_segments.
  induction keys as [|idx keys IH]; intros acc Hvalid; simpl.
  - exists acc. split; [done|lra].
  - destruct (Hvalid idx) as [km Hkm]; [apply elem_of_cons; by left|].
    rewrite (segment_length_km_ok _ _ _ Hkm), Hkm. simpl.
    destruct (IH (fadd acc km)) as (total & Ht & Heq).
    { intros i Hi. apply Hvalid. apply elem_of_cons. by right. }
    exists total. split; [done|]. rewrite Heq. simpl. unfold omap.
    pose proof (Hex acc km). lra.
Qed.

Lemma classify_spec rnc_gdf acc idx km :
  Ref.segment_km rnc_gdf idx = Some km ->
  exists acc',
    classify rnc_gdf acc idx = Ok acc' /\
    Qsum (dict_values (c_superficie acc'))
    == Qsum (dict_values (c_superficie acc)) + km /\
    Qsum (dict_values (c_administracion acc'))
    == Qsum (dict_values (c_administracion acc)) + km /\
    Qsum (dict_values (c_tipo_vialidad acc'))
    == Qsum (dict_values (c_tipo_vialidad acc)) + km.
Proof.
  intros Hkm. unfold classify. rewrite (segment_length_km_ok _ _ _ Hkm).
  unfold Ref.segment_km in Hkm.
  destruct (rnc_gdf !! idx) as [row|]; [|done]. simpl.
  eexists. split; [done|]. simpl. by rewrite !Qsum_dict_add.
Qed.

Lemma classify_all_spec rnc_gdf keys : forall acc,
  (forall i, i ∈ keys -> is_Some (Ref.segment_km rnc_gdf i)) ->
  exists acc',
    classify_all rnc_gdf acc keys = Ok acc' /\
    Qsum (dict_values (c_superficie acc'))
    == Qsum (dict_values (c_superficie acc))
       + Ref.length_of_segments rnc_gdf keys /\
    Qsum (dict_values (c_administracion acc'))
    == Qsum (dict_values (c_administracion acc))
       + Ref.length_of_segments rnc_gdf keys /\
    Qsum (dict_values (c_tipo_vialidad acc'))
    == Qsum (dict_values (c_tipo_vialidad acc))
       + Ref.length_of_segments rnc_gdf keys.
Proof.
  unfold Ref.length_of_segments.
  induction keys as [|idx keys IH]; intros acc Hvalid; simpl.
  - exists acc. split_and!; [done|lra|lra|lra].
  - destruct (Hvalid idx) as [km Hkm]; [apply elem_of_cons; by left|].
    destruct (classify_spec rnc_gdf acc idx km Hkm) as (acc1 & Hc & H1 & H2 & H3).
    rewrite Hc, Hkm. simpl.
    destruct (IH acc1) as (acc' & Hc' & H1' & H2' & H3').
    { intros i Hi. apply Hvalid. apply elem_of_cons. by right. }
    exists acc'. split; [done|]. rewrite H1', H2', H3', H1, H2, H3. simpl.
    unfold omap. split_and!; lra.
Qed.

(** The sums of rounded values stay within 0.0005 per entry of the sum. *)
Lemma round_values_error (d : list (string * Q)) :
  - (inject_Z (Z.of_nat (length d)) * (1 # 2000))
  <= Qsum (dict_values (round_values d)) - Qsum (dict_values d) /\
  Qsum (dict_values (round_values d)) - Qsum (dict_values d)
  <= inject_Z (Z.of_nat (length d)) * (1 # 2000).
Proof.
  unfold round_values, dict_values. induction d as [|[k v] d IH].
  - simpl. change (inject_Z (Z.of_nat 0)) with 0. lra.
  - cbn [length fmap list_fmap Qsum foldr snd fst].
    rewrite Nat2Z.inj_succ, <- Z.add_1_r, inject_Z_plus.
    change (inject_Z 1) with 1.
    destruct (py_round_3_error v) as [Hlo Hhi]. simpl in IH |- *.
    destruct IH as [IHlo IHhi]. unfold Qsum in *. split; lra.
Qed.
End Roads.

(** C4, as amended: for matched segments that are rows with a geometry,
    and whatever the rounding of the sums, [analyze] takes every distinct
    matched segment once, in the order of first use. The total, before it
    is rounded to three decimals, is the lengths of these segments added
    one by one; a bucket of the surface map or of the administration map
    is, before it is rounded, the lengths of the segments counted in it
    added one by one in the same order, and a bucket no segment is counted
    in is absent. With sums that are not rounded the buckets of either map
    add up to the total, and the reported maps are within 0.0005 km per
    entry, plus 0.0005 km, of the reported total. *)
Theorem analyze_lengths_before_rounding `{GeoKernel} (arith : Arith)
    (rnc_gdf : list RoadRow) (matched : list MapMatcher.Match) :
  matched <> [] ->
  (forall m, m ∈ matched ->
             is_Some (Ref.segment_km (arith := arith) rnc_gdf
                        (MapMatcher.index m))) ->
  exists keys total counters stats,
    keys = dict_keys (RoadAnalyzer.segment_usage matched) /\
    NoDup keys /\
    (forall i, i ∈ keys <-> exists m, m ∈ matched /\ MapMatcher.index m = i) /\
    RoadAnalyzer.accumulate (arith := arith) rnc_gdf matched
    = Ok (total, counters) /\
    total = RefRoads.float_sum (arith := arith)
              (omap (Ref.segment_km (arith := arith) rnc_gdf) keys) /\
    (forall k, dict_get (RoadAnalyzer.c_superficie counters) k
               = RefRoads.bucket_sum (arith := arith)
                   RefRoads.surface_of rnc_gdf keys k) /\
    (forall k, dict_get (RoadAnalyzer.c_administracion counters) k
               = RefRoads.bucket_sum (arith := arith)
                   RefRoads.administration_of rnc_gdf keys k) /\
    RoadAnalyzer.analyze (arith := arith) rnc_gdf matched = Ok stats /\
    RoadAnalyzer.distancia_rnc_km stats = Some (py_round total 3) /\
    RoadAnalyzer.superficie stats
    = RoadAnalyzer.round_values (RoadAnalyzer.c_superficie counters) /\
    RoadAnalyzer.administracion stats
    = RoadAnalyzer.round_values (RoadAnalyzer.c_administracion counters) /\
    ((forall a b, fadd (Arith := arith) a b == a + b) ->
     Qsum (dict_values (RoadAnalyzer.c_superficie counters)) == total /\
     Qsum (dict_values (RoadAnalyzer.c_administracion counters)) == total /\
     Qabs (Qsum (dict_values (RoadAnalyzer.superficie stats))
           - py_round total 3)
     <= (inject_Z (Z.of_nat (length (RoadAnalyzer.superficie stats))) + 1)
        * (1 # 2000) /\
     Qabs (Qsum (dict_values (RoadAnalyzer.administracion stats))
           - py_round total 3)
     <= (inject_Z (Z.of_nat (length (RoadAnalyzer.administracion stats))) + 1)
        * (1 # 2000)).
Proof.
  intros Hne Hvalid.
  destruct (segment_usage_keys matched) as [Hnd Hkeys].
  set (keys := dict_keys (RoadAnalyzer.segment_usage matched)) in *.
  assert (Hk : forall i, i ∈ keys -> is_Some (Ref.segment_km rnc_gdf i)).
  { intros i Hi. apply Hkeys in Hi as (m & Hm & <-). by apply Hvalid. }
  pose proof (total_length_fold rnc_gdf keys 0 Hk) as Ht.
  destruct (classify_all_buckets rnc_gdf keys RoadAnalyzer.empty_counters Hk)
    as (counters & Hc & Hs & Ha & _).
  set (total := RefRoads.float_sum (omap (Ref.segment_km rnc_gdf) keys)).
  assert (Hacc : RoadAnalyzer.accumulate rnc_gdf matched = Ok (total, counters)).
  { unfold RoadAnalyzer.accumulate. fold keys. rewrite Ht. simpl.
    by rewrite Hc. }
  exists keys, total, counters. eexists.
  split_and!.
  - done.
  - done.
  - done.
  - done.
  - done.
  - intros k. rewrite Hs. unfold RefRoads.bucket_sum.
    by destruct (RefRoads.lengths_in _ _ keys k).
  - intros k. rewrite Ha. unfold RefRoads.bucket_sum.
    by destruct (RefRoads.lengths_in _ _ keys k).
  - unfold RoadAnalyzer.analyze.
    destruct matched as [|m0 matched0]; [by destruct Hne|].
    rewrite Hacc. simpl. reflexivity.
  - done.
  - done.
  - done.
  - intros Hex.
    destruct (total_length_spec Hex rnc_gdf keys 0 Hk) as (total' & Ht' & Htot).
    rewrite Ht in Ht'. injection Ht' as <-.
    assert (Htot' : total == 0 + Ref.length_of_segments rnc_gdf keys)
      by exact Htot.
    destruct (classify_all_spec Hex rnc_gdf keys RoadAnalyzer.empty_counters Hk)
      as (counters' & Hc' & Hs' & Ha' & _).
    rewrite Hc in Hc'. injection Hc' as <-. simpl in Hs', Ha'.
    assert (Hs2 : Qsum (dict_values (RoadAnalyzer.c_superficie counters))
                  == total) by lra.
    assert (Ha2 : Qsum (dict_values (RoadAnalyzer.c_administracion counters))
                  == total) by lra.
    split_and!; [done|done| |].
    + cbn [RoadAnalyzer.superficie].
      destruct (round_values_error (RoadAnalyzer.c_superficie counters))
        as [Hlo Hhi].
      destruct (py_round_3_error total) as [Tlo Thi].
      assert (forall d, length (RoadAnalyzer.round_values d) = length d) as ->
        by (intros d; apply length_fmap).
      apply (proj2 (Qabs_Qle_condition _ _)). split; lra.
    + cbn [RoadAnalyzer.administracion].
      destruct (round_values_error (RoadAnalyzer.c_administracion counters))
        as [Hlo Hhi].
      destruct (py_round_3_error total) as [Tlo Thi].
      assert (forall d, length (RoadAnalyzer.round_values d) = length d) as ->
        by (intros d; apply length_fmap).
      apply (proj2 (Qabs_Qle_condition _ _)). split; lra.
Qed.

(** The three roads of 0.111, 0.222 and 0.555 km, with the sums of
    Python. *)
Lemma float_roads_totals :
  RoadAnalyzer.accumulate (arith := Binary64.arith)
    FloatRoadsCase.rows FloatRoadsCase.matches
  = Ok (FloatRoadsCase.totals.1, FloatRoadsCase.totals.2).
Proof.
  rewrite <- surjective_pairing. apply ok_value. vm_cast_no_check (eq_refl true).
Qed.

Lemma analyze_lengths_before_rounding_witness :
  FloatRoadsCase.matches <> [] /\
  (forall m, m ∈ FloatRoadsCase.matches ->
             is_Some (Ref.segment_km (arith := Binary64.arith)
                        FloatRoadsCase.rows (MapMatcher.index m))) /\
  exists keys total counters stats,
    keys = dict_keys (RoadAnalyzer.segment_usage FloatRoadsCase.matches) /\
    NoDup keys /\
    (forall i, i ∈ keys <->
               exists m, m ∈ FloatRoadsCase.matches /\ MapMatcher.index m = i) /\
    RoadAnalyzer.accumulate (arith := Binary64.arith)
      FloatRoadsCase.rows FloatRoadsCase.matches = Ok (total, counters) /\
    total = RefRoads.float_sum (arith := Binary64.arith)
              (omap (Ref.segment_km (arith := Binary64.arith)
                       FloatRoadsCase.rows) keys) /\
    (forall k, dict_get (RoadAnalyzer.c_superficie counters) k
               = RefRoads.bucket_sum (arith := Binary64.arith)
                   RefRoads.surface_of FloatRoadsCase.rows keys k) /\
    (forall k, dict_get (RoadAnalyzer.c_administracion counters) k
               = RefRoads.bucket_sum (arith := Binary64.arith)
                   RefRoads.administration_of FloatRoadsCase.rows keys k) /\
    RoadAnalyzer.analyze (arith := Binary64.arith)
      FloatRoadsCase.rows FloatRoadsCase.matches = Ok stats /\
    RoadAnalyzer.distancia_rnc_km stats = Some (py_round total 3) /\
    RoadAnalyzer.superficie stats
    = RoadAnalyzer.round_values (RoadAnalyzer.c_superficie counters) /\
    RoadAnalyzer.administracion stats
    = RoadAnalyzer.round_values (RoadAnalyzer.c_administracion counters) /\
    ((forall a b, fadd (Arith := Binary64.arith) a b == a + b) ->
     Qsum (dict_values (RoadAnalyzer.c_superficie counters)) == total /\
     Qsum (dict_values (RoadAnalyzer.c_administracion counters)) == total /\
     Qabs (Qsum (dict_values (RoadAnalyzer.superficie stats))
           - py_round total 3)
     <= (inject_Z (Z.of_nat (length (RoadAnalyzer.superficie stats))) + 1)
        * (1 # 2000) /\
     Qabs (Qsum (dict_values (RoadAnalyzer.administracion stats))
           - py_round total 3)
     <= (inject_Z (Z.of_nat (length (RoadAnalyzer.administracion stats))) + 1)
        * (1 # 2000)).
Proof.
  assert (H1 : FloatRoadsCase.matches <> []) by discriminate.
  assert (H2 : forall m, m ∈ FloatRoadsCase.matches ->
             is_Some (Ref.segment_km (arith := Binary64.arith)
                        FloatRoadsCase.rows (MapMatcher.index m))).
  { intros m Hm. unfold FloatRoadsCase.matches in Hm.
    repeat (apply elem_of_cons in Hm as [->|Hm]; [vm_compute; eauto|]).
    by apply elem_of_nil in Hm. }
  split; [exact H1|]. split; [exact H2|].
  exact (analyze_lengths_before_rounding Binary64.arith FloatRoadsCase.rows
           FloatRoadsCase.matches H1 H2).
Defined.

(** With the sums of Python the buckets of a map need not add up to the
    total even before the values are rounded: the total of the three
    roads is 0.8880000000000001, the surface buckets hold 0.666 and
    0.222. *)
Lemma float_buckets_miss_total :
  exists v1 v2,
    RoadAnalyzer.c_superficie FloatRoadsCase.totals.2
    = [("Con pavimento"%string, v1); ("Sin pavimento"%string, v2)] /\
    v1 + v2 < FloatRoadsCase.totals.1 /\
    fadd (Arith := Binary64.arith) v1 v2 < FloatRoadsCase.totals.1.
Proof.
  eexists _, _. split; [vm_compute; reflexivity|].
  split; vm_compute; reflexivity.
Qed.

(** The reported values need not add up: two segments of 0.000444 km of
    different surfaces give a reported total of 0.001 km while both
    reported surface lengths are 0.000 km. *)
Lemma rounded_category_sum_differs :
  exists stats total,
    RoadAnalyzer.analyze ShortRoadsCase.short_rows ShortRoadsCase.short_matches = Ok stats /\
    RoadAnalyzer.distancia_rnc_km stats = Some total /\
    total == 1 # 1000 /\
    Qsum (dict_values (RoadAnalyzer.superficie stats)) == 0 /\
    ~ Qsum (dict_values (RoadAnalyzer.superficie stats)) == total.
Proof.
  eexists _, _. split_and!.
  - vm_compute. reflexivity.
  - reflexivity.
  - by vm_compute.
  - by vm_compute.
  - by vm_compute.
Qed.

(** Without a matched segment the result has no total at all. *)
Lemma analyze_nothing_matched `{GeoKernel} (rnc_gdf : list RoadRow) :
  RoadAnalyzer.analyze rnc_gdf [] = Ok RoadAnalyzer._empty_stats /\
  RoadAnalyzer.distancia_rnc_km RoadAnalyzer._empty_stats = None.
Proof. done. Qed.

(** ** Zones *)

Section Blocks.
Context `{GeoKernel}.
Import ServiceAreaAnalyzer.

Lemma elem_of_intersecting (gdf : list ManzanaRow) other i row :
  (i, row) ∈ intersecting gdf other <->
  gdf !! i = Some row /\ intersects (m_geometry row) other = true.
Proof.
  unfold intersecting. rewrite list_elem_of_filter. simpl.
  rewrite elem_of_lookup_imap. split.
  - intros (Hi & j & r & [= -> ->] & Hj). done.
  - intros [Hl Hi]. split; [done|]. by exists i, row.
Qed.

Lemma is_point_in_service_area_ok na point nodes distances max_distance :
  Built.wf na -> is_Some (NetworkAnalyzer.graph na) ->
  exists r, NetworkAnalyzer.is_point_in_service_area na point nodes distances
              max_distance = Ok r.
Proof.
  intros Hwf HG.
  destruct (find_nearest_node_spec na point Hwf HG) as (n & c & Hf & _).
  unfold NetworkAnalyzer.is_point_in_service_area. rewrite Hf. simpl.
  case_decide; eauto.
Qed.

Lemma filter_by_centroid_spec na direct nodes distances d cands :
  Built.wf na -> is_Some (NetworkAnalyzer.graph na) ->
  forall filtered,
  exists served,
    filter_by_centroid na direct nodes distances d cands filtered = Ok served /\
    filtered ⊆ served.
Proof.
  intros Hwf HG. induction cands as [|[idx row] cands IH]; intros filtered; simpl.
  - by exists filtered.
  - case_decide; [apply IH|].
    destruct (is_point_in_service_area_ok na (centroid (m_geometry row))
                nodes distances d Hwf HG) as [[b t] Hr].
    rewrite Hr. simpl.
    destruct (IH (if b then {[idx]} ∪ filtered else filtered))
      as (served & Hs & Hsub).
    exists served. split; [done|]. destruct b; set_solver.
Qed.

Lemma get_service_area_polygon_ok na nodes b :
  nodes = ∅ \/ is_Some (NetworkAnalyzer.graph na) ->
  exists p, NetworkAnalyzer.get_service_area_polygon na nodes b = Ok p.
Proof.
  intros HG. unfold NetworkAnalyzer.get_service_area_polygon.
  case_decide; [eauto|]. destruct HG as [?|[G ->]]; [done|].
  destruct (_ ++ _); eauto.
Qed.

(** The block classifier returns, and serves every block of the direct
    corridor. *)
Lemma analyze_with_network_direct na manzanas route_geometry route_projected d :
  Built.wf na -> Built.weights_ok na ->
  exists served,
    _analyze_with_network na manzanas route_geometry route_projected d
    = Ok served /\
    forall i row,
      manzanas !! i = Some row ->
      intersects (m_geometry row) (buffer route_projected 50) = true ->
      i ∈ served.
Proof.
  intros Hwf Hw. unfold _analyze_with_network.
  set (direct := list_to_set _).
  assert (Hdirect : forall i row,
    manzanas !! i = Some row ->
    intersects (m_geometry row) (buffer route_projected 50) = true ->
    i ∈ direct).
  { intros i row Hi Hint. subst direct. apply elem_of_list_to_set.
    apply list_elem_of_fmap. exists (i, row). split; [done|].
    by apply elem_of_intersecting. }
  destruct (calculate_service_area_spec exact_laws na route_geometry d Hwf Hw)
    as (seeds & D & _ & Hc & Hm).
  rewrite Hc. simpl. case_decide as Hemp; [by exists direct|].
  assert (is_Some (NetworkAnalyzer.graph na)) as HG.
  { destruct (NetworkAnalyzer.graph na); [eauto|].
    destruct Hm as [_ ->]. by rewrite dom_empty_L in Hemp. }
  destruct (get_service_area_polygon_ok na (dom D) 50) as [p Hp]; [by right|].
  rewrite Hp. simpl. destruct p as [polygon|]; [|by exists direct].
  destruct (filter_by_centroid_spec na direct (dom D) D d
              (intersecting manzanas polygon) Hwf HG direct)
    as (served & Hs & Hsub).
  exists served. split; [done|]. intros i row Hi Hint. apply Hsub. eauto.
Qed.
End Blocks.

Section Localities.
Context `{GeoKernel}.
Import LocalityDetector.

Lemma elem_of_insert_sorted {A} (key : A -> string) x y (l : list A) :
  y ∈ insert_sorted key x l <-> y = x \/ y ∈ l.
Proof.
  induction l as [|z l IH]; simpl.
  - rewrite list_elem_of_singleton, elem_of_nil. tauto.
  - destruct (String.leb (key x) (key z)).
    + by rewrite elem_of_cons.
    + rewrite !elem_of_cons, IH. tauto.
Qed.

Lemma elem_of_sorted {A} (key : A -> string) y (l : list A) :
  y ∈ sorted key l <-> y ∈ l.
Proof.
  unfold sorted. induction l as [|x l IH]; simpl; [done|].
  by rewrite elem_of_insert_sorted, elem_of_cons, IH.
Qed.

Lemma elem_of_locs_of data loc :
  loc ∈ RefLoc.locs_of data <->
  exists m, m ∈ data /\
            (loc ∈ localidades_urbanas m \/ loc ∈ localidades_rurales m).
Proof.
  unfold RefLoc.locs_of. rewrite list_elem_of_bind.
  split; intros (m & H1 & H2); exists m.
  - split; [done|]. by apply elem_of_app.
  - split; [|done]. by apply elem_of_app.
Qed.

Lemma elem_of_dict_set_values {K V} `{EqDecision K} (d : list (K * V)) k v x :
  x ∈ dict_values (dict_set d k v) -> x = v \/ x ∈ dict_values d.
Proof.
  unfold dict_values. induction d as [|[k' v'] d IH]; simpl.
  - rewrite list_elem_of_singleton. tauto.
  - case_decide; simpl; rewrite !elem_of_cons; [tauto|].
    intros [->|Hx]; [tauto|]. destruct (IH Hx); tauto.
Qed.

Lemma dict_get_values {K V} `{EqDecision K} (d : list (K * V)) k v :
  dict_get d k = Some v -> v ∈ dict_values d.
Proof.
  unfold dict_values. induction d as [|[k' v'] d IH]; simpl; [done|].
  case_decide; rewrite elem_of_cons.
  - intros [= ->]. by left.
  - intros Hg. right. by apply IH.
Qed.

#[local] Abbreviation all_locs := RefLoc.all_locs.

Lemma all_locs_dict_set P data k m :
  all_locs P data ->
  (forall loc, loc ∈ localidades_urbanas m \/ loc ∈ localidades_rurales m ->
               P loc) ->
  all_locs P (dict_set data k m).
Proof.
  intros Hall Hm loc Hloc. apply elem_of_locs_of in Hloc as (m' & Hm' & Hin).
  apply elem_of_dict_set_values in Hm' as [->|Hm']; [by apply Hm|].
  apply Hall. apply elem_of_locs_of. by exists m'.
Qed.

Lemma all_locs_municipios_in P rows geom_of area :
  all_locs P (municipios_in rows geom_of area).
Proof.
  unfold municipios_in.
  assert (Hgen : forall data, all_locs P data ->
    all_locs P
      (foldl (fun data row =>
                if intersects (geom_of row) area then
                  dict_set data (mu_CVE_MUN row)
                    {| e_cve_mun := mu_CVE_MUN row; e_nombre := mu_NOMGEO row;
                       e_cvegeo := mu_CVEGEO row;
                       localidades_urbanas := []; localidades_rurales := [] |}
                else data) data rows)).
  { induction rows as [|row rows IH]; intros data Hd; simpl; [done|].
    apply IH. destruct (intersects (geom_of row) area); [|done].
    apply all_locs_dict_set; [done|]. simpl.
    intros loc [Hl|Hl]; by apply elem_of_nil in Hl. }
  apply Hgen. intros loc Hloc. by apply elem_of_nil in Hloc.
Qed.

Lemma all_locs_add_locality P self data loc :
  all_locs P data -> P loc -> all_locs P (add_locality self data loc).
Proof.
  intros Hall Hloc. unfold add_locality.
  set (data1 := if decide (cve_mun loc <> EmptyString) then _ else data).
  assert (Hall1 : all_locs P data1).
  { subst data1. case_decide; [|done].
    destruct (dict_get data (cve_mun loc)); [done|].
    apply all_locs_dict_set; [done|]. simpl.
    intros l [Hl|Hl]; by apply elem_of_nil in Hl. }
  case_decide; [|done].
  destruct (dict_get data1 (cve_mun loc)) as [m|] eqn:Hm; [|done].
  assert (Hmold : forall l,
    l ∈ localidades_urbanas m \/ l ∈ localidades_rurales m -> P l).
  { intros l Hl. apply Hall1. apply elem_of_locs_of. exists m.
    split; [by eapply dict_get_values|done]. }
  case_decide.
  - apply all_locs_dict_set; [done|]. simpl. intros l [Hl|Hl]; [|by auto].
    apply elem_of_app in Hl as [Hl|Hl]; [by auto|].
    by apply list_elem_of_singleton in Hl as ->.
  - case_decide; [|done].
    apply all_locs_dict_set; [done|]. simpl. intros l [Hl|Hl]; [by auto|].
    apply elem_of_app in Hl as [Hl|Hl]; [by auto|].
    by apply list_elem_of_singleton in Hl as ->.
Qed.

Lemma filter_localities_spec self na nodes distances rows :
  Built.wf na -> is_Some (NetworkAnalyzer.graph na) ->
  (forall row, row ∈ rows -> row ∈ marco_gdf self) ->
  forall data,
  all_locs (RefLoc.centroid_reachable self na nodes distances) data ->
  exists data',
    filter_localities self na nodes distances rows data = Ok data' /\
    all_locs (RefLoc.centroid_reachable self na nodes distances) data'.
Proof.
  intros Hwf HG. induction rows as [|row rows IH]; intros Hsub data Hall; simpl.
  - by exists data.
  - destruct (is_point_in_service_area_ok na
                (centroid (to_crs (l_geometry row))) nodes distances
                (buffer_m self) Hwf HG) as [[b t] Hr].
    rewrite Hr. simpl.
    assert (Hsub' : forall r, r ∈ rows -> r ∈ marco_gdf self).
    { intros r Hr'. apply Hsub. apply elem_of_cons. by right. }
    destruct b; [|by apply IH].
    apply IH; [done|]. apply all_locs_add_locality; [done|].
    exists row, t. simpl. split_and!; [|done|done].
    apply Hsub. apply elem_of_cons. by left.
Qed.

Lemma attended_summary data network cve :
  cve ∈ attended (summary data network) ->
  exists loc, loc ∈ RefLoc.locs_of (dict_values data) /\ cvegeo loc = cve.
Proof.
  unfold attended, summary. simpl. intros Hin.
  apply list_elem_of_bind in Hin as (m & Hin & Hm).
  apply elem_of_sorted in Hm.
  apply list_elem_of_fmap in Hin as (loc & -> & Hloc).
  exists loc. split; [|done]. apply elem_of_locs_of. exists m.
  split; [done|]. by apply elem_of_app.
Qed.

(** The locality detector returns; when it reports a network analysis,
    every locality it lists has a centroid that passes the point test. *)
Lemma detect_with_network_centroids self na gpx :
  network_analyzer self = Some na ->
  Built.wf na -> Built.weights_ok na ->
  exists det nodes distances,
    _detect_with_network self gpx = Ok det /\
    NetworkAnalyzer.calculate_service_area na gpx (buffer_m self)
    = Ok (nodes, distances) /\
    (network_analysis det = Some true ->
     forall cve, cve ∈ attended det ->
       exists loc, cvegeo loc = cve /\
                   RefLoc.centroid_reachable self na nodes distances loc).
Proof.
  intros Hna Hwf Hw. unfold _detect_with_network. rewrite Hna. simpl.
  destruct (calculate_service_area_spec exact_laws na gpx (buffer_m self) Hwf Hw)
    as (seeds & D & _ & Hc & Hm).
  rewrite Hc. simpl.
  assert (Heuc : forall det, network_analysis det = Some false ->
    exists det' nodes distances,
      Ok det = Ok det' /\
      Ok (dom D, D) = Ok (nodes, distances) /\
      (network_analysis det' = Some true ->
       forall cve, cve ∈ attended det' ->
         exists loc, cvegeo loc = cve /\
                     RefLoc.centroid_reachable self na nodes distances loc)).
  { intros det Hdet. exists det, (dom D), D. split_and!; [done|done|].
    intros Htrue. congruence. }
  case_decide as Hemp; [by apply Heuc|].
  assert (is_Some (NetworkAnalyzer.graph na)) as HG.
  { destruct (NetworkAnalyzer.graph na); [eauto|].
    destruct Hm as [_ ->]. by rewrite dom_empty_L in Hemp. }
  destruct (get_service_area_polygon_ok na (dom D) 50) as [p Hp]; [by right|].
  rewrite Hp. simpl. destruct p as [polygon|]; [|by apply Heuc].
  set (data0 := match municipios_gdf self with
                | Some rows => _ | None => [] end).
  assert (Hall0 : all_locs (RefLoc.centroid_reachable self na (dom D) D) data0).
  { subst data0. destruct (municipios_gdf self).
    - apply all_locs_municipios_in.
    - intros loc Hloc. by apply elem_of_nil in Hloc. }
  destruct (filter_localities_spec self na (dom D) D
              (filter (fun row => intersects (to_crs (l_geometry row)) polygon
                                  = true) (marco_gdf self)) Hwf HG)
    with (data := data0) as (data' & Hf & Hall'); [|done|].
  { intros row Hrow. by apply list_elem_of_filter in Hrow as [_ ?]. }
  rewrite Hf. simpl. eexists _, (dom D), D. split_and!; [done|done|].
  intros _ cve Hcve. apply attended_summary in Hcve as (loc & Hloc & <-).
  exists loc. split; [done|]. by apply Hall'.
Qed.
End Localities.

(** C1, as amended: the block classifier returns and puts in the served
    set every block whose geometry meets the band of 50 m around the
    projected track, wherever its centroid lies. The locality detector has
    no such rule: when it reports a network analysis, a locality is listed
    only if its centroid passes the point test of the service area. *)
Theorem direct_corridor_blocks_served `{GeoKernel}
    (rows : list RoadRow) (na : NetworkAnalyzer.t)
    (manzanas : list ServiceAreaAnalyzer.ManzanaRow)
    (route_geometry route_projected : Geometry) (buffer_distance_m : Q)
    (self : LocalityDetector.t) :
  NetworkAnalyzer._load_and_build_network (Some rows) = Ok na ->
  Built.lengths_ok rows ->
  LocalityDetector.network_analyzer self = Some na ->
  (exists served,
     ServiceAreaAnalyzer._analyze_with_network na manzanas route_geometry
       route_projected buffer_distance_m = Ok served /\
     forall i row,
       manzanas !! i = Some row ->
       intersects (ServiceAreaAnalyzer.m_geometry row)
                  (buffer route_projected 50) = true ->
       i ∈ served) /\
  (exists det nodes distances,
     LocalityDetector._detect_with_network self route_geometry = Ok det /\
     NetworkAnalyzer.calculate_service_area na route_geometry
       (LocalityDetector.buffer_m self) = Ok (nodes, distances) /\
     (LocalityDetector.network_analysis det = Some true ->
      forall cve, cve ∈ LocalityDetector.attended det ->
        exists loc, LocalityDetector.cvegeo loc = cve /\
                    RefLoc.centroid_reachable self na nodes distances loc)).
Proof.
  intros Hb Hl Hna.
  pose proof (build_wf _ _ Hb) as Hwf.
  pose proof (build_weights _ _ Hb Hl) as Hw.
  split.
  - by apply analyze_with_network_direct.
  - by apply detect_with_network_centroids.
Qed.

Lemma direct_corridor_blocks_served_witness :
  NetworkAnalyzer._load_and_build_network (Some Cases.rows) = Ok Cases.analyzer /\
  Built.lengths_ok Cases.rows /\
  LocalityDetector.network_analyzer ZoneCase.detector = Some Cases.analyzer /\
  exists served,
    ServiceAreaAnalyzer._analyze_with_network Cases.analyzer [ZoneCase.block]
      Cases.track Cases.track 700 = Ok served /\
    forall i row,
      [ZoneCase.block] !! i = Some row ->
      intersects (ServiceAreaAnalyzer.m_geometry row) (buffer Cases.track 50)
      = true ->
      i ∈ served.
Proof.
  split; [exact cases_analyzer_built|]. split; [exact cases_lengths_ok|].
  split; [reflexivity|].
  exact (proj1 (direct_corridor_blocks_served Cases.rows Cases.analyzer
                  [ZoneCase.block] Cases.track Cases.track 700 ZoneCase.detector
                  cases_analyzer_built cases_lengths_ok eq_refl)).
Defined.

(** Localities have no direct corridor: the locality [ZoneCase.locality]
    meets the band of 50 m around the track, and the detector, which
    reports a network analysis, lists no locality at all; the same zone
    as a population block is served. *)
Lemma locality_in_corridor_not_attended :
  intersects (to_crs (LocalityDetector.l_geometry ZoneCase.locality))
             (buffer (to_crs Cases.track) 50) = true /\
  LocalityDetector._detect_with_network ZoneCase.detector Cases.track
  = Ok ZoneCase.detection /\
  LocalityDetector.network_analysis ZoneCase.detection = Some true /\
  (LocalityDetector.l_CVEGEO ZoneCase.locality
     ∉ LocalityDetector.attended ZoneCase.detection) /\
  ZoneCase.served_blocks = [0%nat].
Proof.
  split_and!.
  - by vm_compute.
  - assert (Hok : is_ok (LocalityDetector._detect_with_network ZoneCase.detector
                           Cases.track) = true) by (vm_compute; reflexivity).
    unfold ZoneCase.detection.
    destruct (LocalityDetector._detect_with_network ZoneCase.detector Cases.track);
      [reflexivity|discriminate Hok|discriminate Hok].
  - by vm_compute.
  - assert (LocalityDetector.attended ZoneCase.detection = []) as ->
      by (vm_compute; reflexivity).
    apply not_elem_of_nil.
  - by vm_compute.
Qed.

(** ** More on the graph builder *)

Section DictLemmas.
Context {K V : Type} `{EqDecision K}.

Lemma dict_get_None (d : list (K * V)) k :
  dict_get d k = None <-> k ∉ dict_keys d.
Proof.
  unfold dict_keys. induction d as [|[k' v'] d IH]; simpl.
  - split; [intros _; apply not_elem_of_nil|done].
  - rewrite not_elem_of_cons. destruct (decide (k' = k)) as [->|Hk].
    + split; [done|]. by intros [? _].
    + rewrite IH. split; [by split|by intros [_ ?]].
Qed.

Lemma dict_get_Some_elem (d : list (K * V)) k v :
  dict_get d k = Some v -> (k, v) ∈ d.
Proof.
  induction d as [|[k' v'] d IH]; simpl; [done|].
  destruct (decide (k' = k)) as [->|Hk].
  - intros [= ->]. left.
  - intros Hd. right. by apply IH.
Qed.

Lemma dict_get_elem (d : list (K * V)) k v :
  NoDup (dict_keys d) -> (k, v) ∈ d -> dict_get d k = Some v.
Proof.
  unfold dict_keys. induction d as [|[k' v'] d IH]; simpl.
  - intros _ Hin. by apply elem_of_nil in Hin.
  - intros Hnd Hin. apply NoDup_cons in Hnd as [Hk' Hnd].
    apply elem_of_cons in Hin as [[= -> ->]|Hin].
    + by rewrite decide_True.
    + destruct (decide (k' = k)) as [->|Hk]; [|by apply IH].
      destruct Hk'. apply list_elem_of_fmap. by exists (k, v).
Qed.

Lemma dict_setdefault_get (d : list (K * V)) k v x :
  dict_get (dict_setdefault d k v) x =
  match dict_get d x with
  | Some c => Some c
  | None => if decide (x = k) then Some v else None
  end.
Proof.
  unfold dict_setdefault. destruct (dict_get d k) as [c|] eqn:Hk.
  - destruct (dict_get d x) eqn:Hx; [done|].
    destruct (decide (x = k)) as [->|]; congruence.
  - rewrite dict_get_set. destruct (decide (x = k)) as [->|]; [by rewrite Hk|].
    by destruct (dict_get d x).
Qed.

Lemma dict_setdefault_keys (d : list (K * V)) k v x :
  x ∈ dict_keys (dict_setdefault d k v) <-> x = k \/ x ∈ dict_keys d.
Proof.
  unfold dict_setdefault. destruct (dict_get d k) as [c|] eqn:Hk.
  - split; [by right|]. intros [->|]; [|done].
    destruct (decide (k ∈ dict_keys d)) as [|Hn]; [done|].
    apply dict_get_None in Hn. congruence.
  - apply dict_set_keys.
Qed.

Lemma dict_setdefault_NoDup (d : list (K * V)) k v :
  NoDup (dict_keys d) -> NoDup (dict_keys (dict_setdefault d k v)).
Proof.
  unfold dict_setdefault. destruct (dict_get d k); [done|]. apply dict_set_NoDup.
Qed.
End DictLemmas.

Section Builder.
Context `{GeoKernel}.
Import NetworkAnalyzer.

(** What a row the builder keeps adds. *)
Lemma add_row_kept acc row a b geom :
  geometry row = Some geom -> RefNet.ends_of_row row = Some (a, b) ->
  add_row acc row
  = Ok (nx.add_edge acc.1 (UNION_INI row) (UNION_FIN row)
          {| weight := LONGITUD row; e_geometry := geom |},
        dict_setdefault (dict_setdefault acc.2 (UNION_INI row) a)
          (UNION_FIN row) b).
Proof.
  unfold RefNet.ends_of_row, add_row. intros ->. simpl.
  destruct (row_coords geom) as [[|c0 [|c1 cs]]| |]; simpl; try done.
  by intros [= <- <-].
Qed.

(** A row is skipped, kept, or stops the builder. *)
Lemma add_row_cases acc row :
  (RefNet.skipped row = true /\ RefNet.ends_of_row row = None /\
   add_row acc row = Ok acc) \/
  (RefNet.skipped row = false /\
   exists geom a b, geometry row = Some geom /\
                    RefNet.ends_of_row row = Some (a, b)) \/
  (RefNet.skipped row = false /\ RefNet.ends_of_row row = None /\
   exists e, add_row acc row = Raise e).
Proof.
  unfold RefNet.skipped, RefNet.ends_of_row, add_row.
  destruct (geometry row) as [geom|]; simpl; [|by left].
  destruct (row_coords geom) as [[|c0 [|c1 cs]]|e|] eqn:Hc; simpl.
  - by left.
  - by left.
  - right; left. split; [done|]. by eexists _, _, _.
  - right; right. split_and!; [done|done|]. by exists e.
  - unfold row_coords in Hc.
    by destruct (shape_of geom) as [?|[|??]|].
Qed.

Lemma add_rows_nodes rows : forall acc acc',
  add_rows acc rows = Ok acc' ->
  (forall n, n ∈ dict_keys acc.2 <-> is_Some (acc.1 !! n)) ->
  NoDup (dict_keys acc.2) ->
  (forall n, n ∈ dict_keys acc'.2 <-> is_Some (acc'.1 !! n)) /\
  NoDup (dict_keys acc'.2).
Proof.
  induction rows as [|row rows IH]; intros acc acc' Hr Hk Hnd; simpl in Hr.
  - by injection Hr as <-.
  - destruct (add_row_cases acc row)
      as [(_ & _ & Hs)|[(_ & geom & a & b & Hg & He)|(_ & _ & e & Hs)]].
    + rewrite Hs in Hr. simpl in Hr. by apply (IH acc).
    + rewrite (add_row_kept acc row a b geom Hg He) in Hr. simpl in Hr.
      apply IH in Hr; [done| |].
      * intros n. simpl. rewrite !dict_setdefault_keys, is_Some_add_edge, Hk.
        tauto.
      * simpl. by do 2 apply dict_setdefault_NoDup.
    + by rewrite Hs in Hr.
Qed.

Lemma add_rows_first_coord rows : forall acc acc' n,
  add_rows acc rows = Ok acc' ->
  dict_get acc'.2 n =
  match dict_get acc.2 n with
  | Some c => Some c
  | None => RefNet.first_coord rows n
  end.
Proof.
  induction rows as [|row rows IH]; intros acc acc' n Hr; simpl in Hr.
  - injection Hr as <-. simpl. by destruct (dict_get acc.2 n).
  - simpl.
    destruct (add_row_cases acc row)
      as [(_ & He & Hs)|[(_ & geom & a & b & Hg & He)|(_ & _ & e & Hs)]].
    + rewrite Hs in Hr. simpl in Hr. rewrite He. by apply IH.
    + rewrite (add_row_kept acc row a b geom Hg He) in Hr. simpl in Hr.
      rewrite He. rewrite (IH _ _ n Hr). simpl.
      rewrite !dict_setdefault_get.
      destruct (dict_get acc.2 n) as [c|]; [done|].
      destruct (decide (n = UNION_INI row)) as [->|Hi].
      { by rewrite decide_True. }
      rewrite (decide_False (P := UNION_INI row = n)) by done.
      destruct (decide (n = UNION_FIN row)) as [->|Hf].
      { by rewrite decide_True. }
      by rewrite (decide_False (P := UNION_FIN row = n)).
    + by rewrite Hs in Hr.
Qed.

Lemma add_rows_skipped rows : forall acc,
  add_rows acc (filter (fun row => RefNet.skipped row = false) rows)
  = add_rows acc rows.
Proof.
  induction rows as [|row rows IH]; intros acc; [done|].
  rewrite filter_cons. simpl.
  destruct (add_row_cases acc row)
    as [(Hk & _ & Hs)|[(Hk & _)|(Hk & _ & e & Hs)]].
  - rewrite decide_False by (rewrite Hk; done). rewrite Hs. simpl. apply IH.
  - rewrite decide_True by done. simpl.
    destruct (add_row acc row); simpl; [apply IH|done|done].
  - rewrite decide_True by done. simpl. by rewrite Hs.
Qed.

Lemma last_segment_sym rows u v : forall p,
  Ref.last_segment rows u v p = Ref.last_segment rows v u p.
Proof.
  induction rows as [|row rows IH]; intros p; simpl; [done|].
  rewrite IH. f_equal. destruct (Ref.edge_of_row row); [|done].
  destruct (decide (Ref.joins row u v)) as [Hj|Hj],
           (decide (Ref.joins row v u)) as [Hj'|Hj']; try done;
    unfold Ref.joins in *; tauto.
Qed.

Lemma last_segment_row rows u v e : forall p,
  Ref.last_segment rows u v p = Some e ->
  p = Some e \/
  exists row, row ∈ rows /\ Ref.joins row u v /\ Ref.edge_of_row row = Some e.
Proof.
  induction rows as [|row rows IH]; intros p; simpl; [by left|].
  intros Hl. apply IH in Hl as [Hl|(row' & Hin & Hj & He)].
  - destruct (Ref.edge_of_row row) as [e'|] eqn:He; [|by left].
    destruct (decide (Ref.joins row u v)) as [Hj|]; [|by left].
    right. exists row. injection Hl as ->. split_and!; [left|done|done].
  - right. exists row'. split_and!; [by right|done|done].
Qed.

Lemma edge_of_row_Some row e :
  Ref.edge_of_row row = Some e ->
  weight e = LONGITUD row /\ geometry row = Some (e_geometry e).
Proof.
  unfold Ref.edge_of_row. destruct (geometry row) as [geom|]; simpl; [|done].
  destruct (row_coords geom) as [[|c0 [|c1 cs]]| |]; simpl; try done.
  by intros [= <-].
Qed.

(** The parts of a built analyzer. *)
Lemma build_parts rows na :
  _load_and_build_network (Some rows) = Ok na ->
  exists G nc,
    add_rows (∅, []) rows = Ok (G, nc) /\
    graph na = Some G /\ node_coords na = nc /\
    node_ids na = dict_keys nc /\ coord_tree na = Some (dict_values nc).
Proof.
  unfold _load_and_build_network.
  destruct (add_rows (∅, []) rows) as [[G nc]| |] eqn:Hrows; simpl; try done.
  unfold _build_spatial_index. destruct (dict_values nc) eqn:Hv; [done|].
  intros [= <-]. exists G, nc. by rewrite Hv.
Qed.

Lemma build_nodes rows na G :
  _load_and_build_network (Some rows) = Ok na -> graph na = Some G ->
  (forall n, n ∈ dict_keys (node_coords na) <-> is_Some (G !! n)) /\
  NoDup (dict_keys (node_coords na)).
Proof.
  intros Hb HG. apply build_parts in Hb as (G' & nc & Hr & HG' & Hnc & _).
  rewrite HG in HG'. injection HG' as <-. rewrite Hnc.
  apply (add_rows_nodes _ _ _ Hr); simpl.
  - intros n. rewrite lookup_empty. split; [|by intros [? ?]].
    intros Hn. by apply elem_of_nil in Hn.
  - apply NoDup_nil_2.
Qed.

End Builder.

Lemma cases_graph :
  NetworkAnalyzer.graph Cases.analyzer = Some NetworkCase.graph.
Proof.
  destruct (build_graph _ _ cases_analyzer_built) as [G HG].
  unfold NetworkCase.graph. by rewrite HG.
Defined.

Lemma cases_seeds :
  NetworkAnalyzer.find_nearest_nodes_on_route Cases.analyzer Cases.track 100
  = Ok NetworkCase.seeds.
Proof. apply ok_value. vm_compute. reflexivity. Defined.

Lemma cases_service_area :
  NetworkAnalyzer.calculate_service_area Cases.analyzer Cases.track 700
  = Ok (NetworkCase.service_area.1, NetworkCase.service_area.2).
Proof.
  rewrite <- surjective_pairing. apply ok_value. vm_compute. reflexivity.
Defined.

Lemma cases_service_area_nonempty : NetworkCase.service_area.1 <> ∅.
Proof.
  assert (bool_decide (2%Z ∈ NetworkCase.service_area.1) = true) as Hin
    by (vm_compute; reflexivity).
  apply bool_decide_eq_true in Hin. intros He. rewrite He in Hin.
  by apply elem_of_empty in Hin.
Defined.

(** X1: in the graph the constructor builds, every edge is stored in both
    directions with the same attributes, joins two nodes of the graph, and
    carries the length and the geometry of a row of the input that joins
    its two ends. *)
Theorem built_graph_undirected `{GeoKernel} rows na G :
  NetworkAnalyzer._load_and_build_network (Some rows) = Ok na ->
  NetworkAnalyzer.graph na = Some G ->
  forall u v e,
    nx.get_edge_data G u v = Some e ->
    nx.get_edge_data G v u = Some e /\
    is_Some (G !! u) /\ is_Some (G !! v) /\
    exists row,
      row ∈ rows /\ Ref.joins row u v /\
      NetworkAnalyzer.weight e = LONGITUD row /\
      geometry row = Some (NetworkAnalyzer.e_geometry e).
Proof.
  intros Hb HG u v e He.
  pose proof (build_edge_data rows na G u v Hb HG) as Huv.
  pose proof (build_edge_data rows na G v u Hb HG) as Hvu.
  rewrite <- last_segment_sym in Hvu. rewrite <- Huv in Hvu.
  rewrite He in Hvu. split_and!; [done| | |].
  - by apply get_edge_data_node in He.
  - by apply get_edge_data_node in Hvu.
  - rewrite He in Huv. symmetry in Huv.
    apply last_segment_row in Huv as [?|(row & Hin & Hj & Hrow)]; [done|].
    destruct (edge_of_row_Some _ _ Hrow) as [Hw Hg]. by exists row.
Qed.

Lemma built_graph_undirected_witness :
  NetworkAnalyzer._load_and_build_network (Some Cases.rows) = Ok Cases.analyzer /\
  NetworkAnalyzer.graph Cases.analyzer = Some NetworkCase.graph /\
  nx.get_edge_data NetworkCase.graph 1 2 = Some NetworkCase.main_road /\
  nx.get_edge_data NetworkCase.graph 2 1 = Some NetworkCase.main_road.
Proof.
  assert (nx.get_edge_data NetworkCase.graph 1 2 = Some NetworkCase.main_road)
    as He by reflexivity.
  split_and!; [exact cases_analyzer_built|exact cases_graph|exact He|].
  exact (proj1 (built_graph_undirected Cases.rows Cases.analyzer
                  NetworkCase.graph cases_analyzer_built cases_graph
                  1%Z 2%Z NetworkCase.main_road He)).
Defined.

(** X2: the constructor records a coordinate for exactly the nodes of the
    graph, each once, and the spatial index lists the same nodes in the
    same order: the node an index lookup names is always a node of the
    graph. *)
Theorem node_coords_are_graph_nodes `{GeoKernel} rows na G :
  NetworkAnalyzer._load_and_build_network (Some rows) = Ok na ->
  NetworkAnalyzer.graph na = Some G ->
  (forall n, is_Some (dict_get (NetworkAnalyzer.node_coords na) n)
             <-> n ∈ nx.nodes G) /\
  NoDup (NetworkAnalyzer.node_ids na) /\
  NetworkAnalyzer.node_ids na = dict_keys (NetworkAnalyzer.node_coords na) /\
  NetworkAnalyzer.coord_tree na
  = Some (dict_values (NetworkAnalyzer.node_coords na)).
Proof.
  intros Hb HG. destruct (build_nodes rows na G Hb HG) as [Hn Hnd].
  destruct (build_parts rows na Hb) as (G' & nc & _ & _ & <- & Hids & Htree).
  rewrite Hids. split_and!; [|done..].
  intros n. unfold nx.nodes. rewrite elem_of_dom, <- Hn.
  destruct (dict_get (NetworkAnalyzer.node_coords na) n) eqn:Hd.
  - split; [intros _|by eauto].
    destruct (decide (n ∈ dict_keys (NetworkAnalyzer.node_coords na)))
      as [|Hnot]; [done|].
    apply dict_get_None in Hnot. congruence.
  - split; [by intros [? ?]|]. intros Hin. by apply dict_get_None in Hd.
Qed.

Lemma node_coords_are_graph_nodes_witness :
  NetworkAnalyzer._load_and_build_network (Some Cases.rows) = Ok Cases.analyzer /\
  NetworkAnalyzer.graph Cases.analyzer = Some NetworkCase.graph /\
  NoDup (NetworkAnalyzer.node_ids Cases.analyzer).
Proof.
  split_and!; [exact cases_analyzer_built|exact cases_graph|].
  exact (proj1 (proj2 (node_coords_are_graph_nodes Cases.rows Cases.analyzer
                         NetworkCase.graph cases_analyzer_built cases_graph))).
Defined.

(** X3: the coordinate kept for a node is the one given by the first row
    of the input, among the rows with a usable geometry, that names the
    node: the first coordinate of the row for its start node, the last for
    its end node. Later rows naming the node do not move it. *)
Theorem node_coordinate_first_seen `{GeoKernel} rows na n :
  NetworkAnalyzer._load_and_build_network (Some rows) = Ok na ->
  dict_get (NetworkAnalyzer.node_coords na) n = RefNet.first_coord rows n.
Proof.
  intros Hb. destruct (build_parts rows na Hb) as (G & nc & Hr & _ & -> & _).
  exact (add_rows_first_coord rows _ _ n Hr).
Qed.

Lemma node_coordinate_first_seen_witness :
  NetworkAnalyzer._load_and_build_network (Some Cases.rows) = Ok Cases.analyzer /\
  dict_get (NetworkAnalyzer.node_coords Cases.analyzer) 2%Z
  = RefNet.first_coord Cases.rows 2%Z.
Proof.
  split; [exact cases_analyzer_built|].
  exact (node_coordinate_first_seen Cases.rows Cases.analyzer 2%Z
           cases_analyzer_built).
Defined.

(** X4: rows without a geometry, or with fewer than two coordinates, play
    no part: the constructor gives the same outcome, analyzer or
    exception, on the input with those rows removed. *)
Theorem skipped_rows_play_no_part `{GeoKernel} (rows : list RoadRow) :
  NetworkAnalyzer._load_and_build_network
    (Some (filter (fun row => RefNet.skipped row = false) rows))
  = NetworkAnalyzer._load_and_build_network (Some rows).
Proof.
  unfold NetworkAnalyzer._load_and_build_network.
  by rewrite add_rows_skipped.
Qed.

Section Seeds.
Context `{GeoKernel}.
Import NetworkAnalyzer.

Lemma collect_nodes_spec na pts : forall found found',
  collect_nodes na pts found = Ok found' ->
  forall s, s ∈ found' <->
            s ∈ found \/
            exists p d, p ∈ pts /\ find_nearest_node na p = Ok (Some (s, d)) /\
                        d < 500.
Proof.
  induction pts as [|p pts IH]; intros found found' Hc s; simpl in Hc.
  - injection Hc as <-. split; [by left|]. intros [?|(p & d & Hp & _)]; [done|].
    by apply elem_of_nil in Hp.
  - destruct (find_nearest_node na p) as [[[n d]|]| |] eqn:Hf; simpl in Hc;
      try done.
    rewrite (IH _ _ Hc s). destruct (Qltb d 500) eqn:Hd.
    + apply Qltb_true in Hd. rewrite elem_of_union, elem_of_singleton. split.
      * intros [[->|?]|(p' & d' & Hp' & Hf' & Hd')]; [|by left|].
        -- right. exists p, d. split_and!; [left|done|done].
        -- right. exists p', d'. split_and!; [by right|done|done].
      * intros [?|(p' & d' & Hp' & Hf' & Hd')]; [by left; right|].
        apply elem_of_cons in Hp' as [->|Hp'].
        -- rewrite Hf in Hf'. injection Hf' as -> _. by left; left.
        -- right. by exists p', d'.
    + apply Qltb_false in Hd. split.
      * intros [?|(p' & d' & Hp' & Hf' & Hd')]; [by left|].
        right. exists p', d'. split_and!; [by right|done|done].
      * intros [?|(p' & d' & Hp' & Hf' & Hd')]; [by left|].
        apply elem_of_cons in Hp' as [->|Hp'].
        -- rewrite Hf in Hf'. injection Hf' as _ ->. lra.
        -- right. by exists p', d'.
Qed.

Lemma find_nearest_nodes_on_route_spec na route sd seeds :
  Built.wf na -> is_Some (graph na) ->
  find_nearest_nodes_on_route na route sd = Ok seeds ->
  NoDup seeds /\
  forall s, s ∈ seeds <->
            exists p d, p ∈ sample_points (route_line route) sd /\
                        find_nearest_node na p = Ok (Some (s, d)) /\ d < 500.
Proof.
  intros Hwf [G HG]. unfold find_nearest_nodes_on_route.
  destruct (coord_tree na) as [pts|] eqn:Ht.
  2: { unfold Built.wf in Hwf. rewrite HG in Hwf.
       destruct Hwf as (_ & Ht' & _). congruence. }
  destruct (collect_nodes na _ ∅) as [found| |] eqn:Hc; simpl; try done.
  intros [= <-]. split; [apply NoDup_elements|].
  intros s. rewrite elem_of_elements, (collect_nodes_spec _ _ _ _ Hc s).
  split; [|by right]. intros [Hs|?]; [|done]. by apply elem_of_empty in Hs.
Qed.

End Seeds.



(** X6: the route nodes are listed once each; every one of them is a node
    of the graph and is, for some sample point of the track, a node less
    than 500 m away that no other node beats in distance; and a sample
    point with any node less than 500 m away contributes such a route
    node. *)
Theorem route_nodes_near_samples `{GeoKernel} rows na G route sd seeds :
  NetworkAnalyzer._load_and_build_network (Some rows) = Ok na ->
  NetworkAnalyzer.graph na = Some G ->
  NetworkAnalyzer.find_nearest_nodes_on_route na route sd = Ok seeds ->
  NoDup seeds /\
  (forall s, s ∈ seeds ->
     s ∈ nx.nodes G /\
     exists p,
       p ∈ NetworkAnalyzer.sample_points (NetworkAnalyzer.route_line route) sd /\
       RefNet.nearest_of_sample na p s) /\
  (forall p n c,
     p ∈ NetworkAnalyzer.sample_points (NetworkAnalyzer.route_line route) sd ->
     (n, c) ∈ NetworkAnalyzer.node_coords na -> norm p c < 500 ->
     exists s, s ∈ seeds /\ RefNet.nearest_of_sample na p s).
Proof.
  intros Hb HG Hs. pose proof (build_wf _ _ Hb) as Hwf.
  assert (is_Some (NetworkAnalyzer.graph na)) as HsG by eauto.
  destruct (find_nearest_nodes_on_route_spec na route sd seeds Hwf HsG Hs)
    as [Hnd Hseeds].
  destruct (build_nodes rows na G Hb HG) as [Hnodes _].
  split; [done|]. split.
  - intros s Hin. apply Hseeds in Hin as (p & d & Hp & Hf & Hd).
    destruct (find_nearest_node_spec na p Hwf HsG) as (n & c & Hf' & Hc & Hmin).
    rewrite Hf in Hf'. injection Hf' as -> ->. split.
    + unfold nx.nodes. apply elem_of_dom, Hnodes.
      unfold dict_keys. apply list_elem_of_fmap. by exists (n, c).
    + exists p. split; [done|]. by exists c.
  - intros p n c Hp Hc Hd.
    destruct (find_nearest_node_spec na p Hwf HsG) as (s & c' & Hf & Hc' & Hmin).
    exists s. split.
    + apply Hseeds. exists p, (norm p c'). split_and!; [done|done|].
      specialize (Hmin n c Hc). lra.
    + exists c'. split_and!; [done| |done]. specialize (Hmin n c Hc). lra.
Qed.

Lemma route_nodes_near_samples_witness :
  NetworkAnalyzer._load_and_build_network (Some Cases.rows) = Ok Cases.analyzer /\
  NetworkAnalyzer.graph Cases.analyzer = Some NetworkCase.graph /\
  NetworkAnalyzer.find_nearest_nodes_on_route Cases.analyzer Cases.track 100
  = Ok NetworkCase.seeds /\
  NoDup NetworkCase.seeds.
Proof.
  split_and!; [exact cases_analyzer_built|exact cases_graph|exact cases_seeds|].
  exact (proj1 (route_nodes_near_samples Cases.rows Cases.analyzer
                  NetworkCase.graph Cases.track 100 NetworkCase.seeds
                  cases_analyzer_built cases_graph cases_seeds)).
Defined.

(** X7: when the road shapefile is missing the constructor returns the
    analyzer as [__init__] left it: no graph and no index, an empty
    coordinate map and an empty node list. On it the nearest-node lookup
    answers [None], the route has no nodes and the service area is empty.
    The point test raises [TypeError], since it unpacks the [None] of the
    lookup. The polygon of a node set that is not empty raises
    [AttributeError], as on every analyzer without a graph: its edge loop
    reads the edges of the graph, which is [None]. *)
Theorem missing_shapefile_behaviour `{GeoKernel}
    na route max_distance point nodes distances buffer_distance :
  NetworkAnalyzer._load_and_build_network None = Ok na ->
  (NetworkAnalyzer.graph na = None /\
   NetworkAnalyzer.coord_tree na = None /\
   NetworkAnalyzer.node_coords na = [] /\
   NetworkAnalyzer.node_ids na = []) /\
  NetworkAnalyzer.find_nearest_node na point = Ok None /\
  NetworkAnalyzer.find_nearest_nodes_on_route na route 100 = Ok [] /\
  NetworkAnalyzer.calculate_service_area na route max_distance = Ok (∅, ∅) /\
  NetworkAnalyzer.is_point_in_service_area na point nodes distances max_distance
  = Raise TypeError /\
  (forall na',
     NetworkAnalyzer.graph na' = None -> nodes <> ∅ ->
     NetworkAnalyzer.get_service_area_polygon na' nodes buffer_distance
     = Raise AttributeError).
Proof.
  intros [= <-]. split_and!; try done.
  intros na' Hg Hne. unfold NetworkAnalyzer.get_service_area_polygon.
  rewrite decide_False by done. by rewrite Hg.
Qed.

Lemma missing_shapefile_behaviour_witness :
  NetworkAnalyzer._load_and_build_network None = Ok NetworkAnalyzer.init /\
  (NetworkAnalyzer.graph NetworkAnalyzer.init = None /\
   NetworkAnalyzer.coord_tree NetworkAnalyzer.init = None /\
   NetworkAnalyzer.node_coords NetworkAnalyzer.init = [] /\
   NetworkAnalyzer.node_ids NetworkAnalyzer.init = []) /\
  NetworkAnalyzer.find_nearest_node NetworkAnalyzer.init (0, 0) = Ok None /\
  NetworkAnalyzer.find_nearest_nodes_on_route NetworkAnalyzer.init
    Cases.track 100 = Ok [] /\
  NetworkAnalyzer.calculate_service_area NetworkAnalyzer.init Cases.track 700
  = Ok (∅, ∅) /\
  NetworkAnalyzer.is_point_in_service_area NetworkAnalyzer.init (0, 0)
    {[1%Z]} ∅ 700 = Raise TypeError /\
  (forall na',
     NetworkAnalyzer.graph na' = None -> ({[1%Z]} : gset Z) <> ∅ ->
     NetworkAnalyzer.get_service_area_polygon na' {[1%Z]} 50
     = Raise AttributeError).
Proof.
  split; [reflexivity|].
  exact (missing_shapefile_behaviour NetworkAnalyzer.init Cases.track 700
           (0, 0) {[1%Z]} ∅ 50 eq_refl).
Defined.

(** X8: for a network that was built, a service area that is not empty
    always has a polygon: every node of the service area has a recorded
    coordinate, so the geometry list of [get_service_area_polygon] is
    never empty. *)
Theorem service_area_polygon_exists `{GeoKernel}
    rows na route max_distance S D buffer_distance :
  NetworkAnalyzer._load_and_build_network (Some rows) = Ok na ->
  Built.lengths_ok rows ->
  NetworkAnalyzer.calculate_service_area na route max_distance = Ok (S, D) ->
  S <> ∅ ->
  exists polygon,
    NetworkAnalyzer.get_service_area_polygon na S buffer_distance
    = Ok (Some polygon).
Proof.
  intros Hb Hl Hc Hne.
  destruct (built_service_area exact_laws rows na route max_distance Hb Hl)
    as (G & seeds & D' & HG & Hnn & _ & Hc' & Hm).
  rewrite Hc in Hc'. injection Hc' as -> ->.
  pose proof (build_wf _ _ Hb) as Hwf. unfold Built.wf in Hwf.
  rewrite HG in Hwf. destruct Hwf as (Hcl & _).
  destruct (build_nodes rows na G Hb HG) as [Hnodes _].
  apply set_choose_L in Hne as [n Hn].
  pose proof Hn as Hn'. apply elem_of_dom in Hn' as [d Hd].
  destruct (Built.merged_sound _ _ _ _ Hm n d Hd) as (s & _ & Hsh & _).
  apply shortest_walk in Hsh as (l & Hw & _).
  apply (walk_node _ _ _ Hcl) in Hw. apply Hnodes in Hw.
  destruct (dict_get (NetworkAnalyzer.node_coords na) n) as [c|] eqn:Hget.
  2: { by apply dict_get_None in Hget. }
  unfold NetworkAnalyzer.get_service_area_polygon.
  rewrite decide_False by (intros He; rewrite He in Hn; by apply elem_of_empty in Hn).
  rewrite HG. 
  match goal with |- context [?a ++ ?b] => 
    assert (Point c ∈ a ++ b) as Hin end.
  { apply elem_of_app. right. apply list_elem_of_omap. exists n.
    split; [by apply elem_of_elements|]. by rewrite Hget. }
  match goal with |- context [?a ++ ?b] => destruct (a ++ b) as [|g gs] end.
  - by apply elem_of_nil in Hin.
  - by eexists.
Qed.

Lemma service_area_polygon_exists_witness :
  NetworkAnalyzer._load_and_build_network (Some Cases.rows) = Ok Cases.analyzer /\
  Built.lengths_ok Cases.rows /\
  NetworkAnalyzer.calculate_service_area Cases.analyzer Cases.track 700
  = Ok (NetworkCase.service_area.1, NetworkCase.service_area.2) /\
  NetworkCase.service_area.1 <> ∅ /\
  exists polygon,
    NetworkAnalyzer.get_service_area_polygon Cases.analyzer
      NetworkCase.service_area.1 50 = Ok (Some polygon).
Proof.
  split_and!; [exact cases_analyzer_built|exact cases_lengths_ok
              |exact cases_service_area|exact cases_service_area_nonempty|].
  exact (service_area_polygon_exists Cases.rows Cases.analyzer Cases.track 700
           _ _ 50 cases_analyzer_built cases_lengths_ok cases_service_area
           cases_service_area_nonempty).
Defined.

(** ** The service area analysis *)

Section Census.
Context `{GeoKernel}.
Variable py_float : string -> option Q.
Import ServiceAreaAnalyzer.

Lemma column_sum_app ncols rows1 rows2 k :
  Ref.column_sum py_float ncols (rows1 ++ rows2) k
  = (Ref.column_sum py_float ncols rows1 k
     + Ref.column_sum py_float ncols rows2 k)%Z.
Proof.
  unfold Ref.column_sum. induction rows1 as [|row rows1 IH]; simpl; [done|].
  rewrite IH. lia.
Qed.

Lemma column_sum_perm ncols rows1 rows2 k :
  rows1 ≡ₚ rows2 ->
  Ref.column_sum py_float ncols rows1 k = Ref.column_sum py_float ncols rows2 k.
Proof.
  unfold Ref.column_sum. induction 1; simpl; [done|lia|lia|congruence].
Qed.

Lemma foldl_add_manzana_counters ncols rows : forall stats,
  RefArea.counters (foldl (add_manzana py_float ncols) stats rows)
  = zip_with Z.add (RefArea.counters stats)
      (Ref.column_sum py_float ncols rows <$> RefArea.census_columns) /\
  discapacidad_porcentaje (foldl (add_manzana py_float ncols) stats rows)
  = discapacidad_porcentaje stats.
Proof.
  induction rows as [|row rows IH]; intros stats; simpl.
  - split; [|done]. unfold RefArea.counters. simpl.
    by rewrite !Z.add_0_r.
  - destruct (IH (add_manzana py_float ncols stats row)) as [-> ->].
    split; [|done]. unfold RefArea.counters, add_manzana, Ref.column_sum.
    cbn [fmap list_fmap RefArea.census_columns zip_with foldr poblacion_total
         poblacion_femenina poblacion_masculina pob_0_14 pob_15_29 pob_30_59
         pob_60_mas discapacidad_total].
    by rewrite !Z.add_assoc.
Qed.

(** [_aggregate_population] returns the column sums. *)
Lemma aggregate_population_counters ncols rows :
  exists s,
    _aggregate_population py_float ncols rows = Ok s /\
    RefArea.counters s
    = Ref.column_sum py_float ncols rows <$> RefArea.census_columns.
Proof.
  unfold _aggregate_population.
  destruct (foldl_add_manzana_counters ncols rows empty_stats) as [Hc _].
  set (st := foldl (add_manzana py_float ncols) empty_stats rows) in *.
  assert (RefArea.counters st
          = Ref.column_sum py_float ncols rows <$> RefArea.census_columns) as Hst.
  { rewrite Hc. unfold RefArea.counters. simpl. done. }
  destruct (0 <? poblacion_total st)%Z eqn:Hpos; [|by exists st].
  apply Z.ltb_lt in Hpos. unfold truediv.
  destruct (Qeq_bool (inject_Z (poblacion_total st)) 0) eqn:Hz.
  { apply Qeq_bool_iff in Hz. unfold Qeq in Hz. simpl in Hz. lia. }
  eexists. split; [reflexivity|]. exact Hst.
Qed.

End Census.

Section Frames.
Context `{GeoKernel}.
Import ServiceAreaAnalyzer.

Lemma imap_labels {A} (l : list A) : forall n,
  fst <$> imap (fun i x => (n + i, x)%nat) l = seq n (length l).
Proof.
  induction l as [|x l IH]; intros n; simpl; [done|].
  rewrite Nat.add_0_r. f_equal. rewrite <- (IH (S n)). f_equal.
  apply imap_ext. intros i y _. simpl. f_equal. lia.
Qed.

Lemma NoDup_fst_filter {A B} (P : A * B -> Prop) `{forall x, Decision (P x)}
    (l : list (A * B)) :
  NoDup (fst <$> l) -> NoDup (fst <$> filter P l).
Proof.
  induction l as [|x l IH]; simpl; [done|].
  intros Hnd. apply NoDup_cons in Hnd as [Hx Hnd]. rewrite filter_cons.
  destruct (decide (P x)); [|by apply IH]. simpl. apply NoDup_cons.
  split; [|by apply IH]. intros Hin. apply Hx.
  apply list_elem_of_fmap in Hin as (y & -> & Hy).
  apply list_elem_of_filter in Hy as [_ Hy]. apply list_elem_of_fmap. by exists y.
Qed.

Lemma intersecting_labels_NoDup (gdf : list ManzanaRow) other :
  NoDup (fst <$> intersecting gdf other).
Proof.
  unfold intersecting. apply NoDup_fst_filter.
  pose proof (imap_labels gdf 0) as Hl. simpl in Hl. rewrite Hl.
  apply NoDup_seq.
Qed.

Lemma elem_of_intersecting_labels (gdf : list ManzanaRow) other i :
  i ∈ fst <$> intersecting gdf other <-> RefArea.block_meets gdf other i.
Proof.
  unfold RefArea.block_meets. rewrite list_elem_of_fmap. split.
  - intros ([j row] & -> & Hin). apply elem_of_intersecting in Hin. by exists row.
  - intros (row & Hrow & Hi). exists (i, row). split; [done|].
    by apply elem_of_intersecting.
Qed.

Lemma meets_at_true (gdf : list ManzanaRow) geom i :
  meets_at gdf geom i = true <-> RefArea.block_meets gdf geom i.
Proof.
  unfold meets_at, RefArea.block_meets. destruct (gdf !! i) as [row|].
  - split; [by exists row|]. by intros (row' & [= <-] & ?).
  - split; [done|]. by intros (row' & ? & _).
Qed.

Lemma rows_at_app (gdf : list ManzanaRow) l1 l2 :
  rows_at gdf (l1 ++ l2) = rows_at gdf l1 ++ rows_at gdf l2.
Proof. unfold rows_at. apply omap_app. Qed.

Lemma rows_at_perm (gdf : list ManzanaRow) l1 l2 :
  l1 ≡ₚ l2 -> rows_at gdf l1 ≡ₚ rows_at gdf l2.
Proof. unfold rows_at. by intros ->. Qed.

Lemma rows_at_length (gdf : list ManzanaRow) labels :
  (forall i, i ∈ labels -> is_Some (gdf !! i)) ->
  length (rows_at gdf labels) = length labels.
Proof.
  unfold rows_at. induction labels as [|i labels IH]; intros Hv; simpl; [done|].
  destruct (Hv i) as [row Hrow]; [left|]. rewrite Hrow. simpl. f_equal.
  apply IH. intros j Hj. apply Hv. by right.
Qed.

(** A list without repetition splits along any other. *)
Lemma split_by_membership (all served : list nat) :
  NoDup all -> NoDup served -> (forall i, i ∈ served -> i ∈ all) ->
  all ≡ₚ served ++ filter (fun i => i ∉ served) all.
Proof.
  intros Hall Hserved Hsub.
  apply NoDup_Permutation; [done| |].
  - apply NoDup_app. split_and!; [done| |by apply NoDup_filter].
    intros i Hi Hf. by apply list_elem_of_filter in Hf as [Hn _].
  - intros i. rewrite elem_of_app, list_elem_of_filter. split.
    + intros Hi. destruct (decide (i ∈ served)); [by left|by right].
    + intros [Hi|[_ Hi]]; [by apply Hsub|done].
Qed.

End Frames.

Section Analyze.
Context `{GeoKernel}.
Variable py_float : string -> option Q.
Variable upper : string -> string.
Import ServiceAreaAnalyzer.

#[local] Abbreviation analyze := (analyze py_float upper).
#[local] Abbreviation aggregate_counted := (aggregate_counted py_float).
#[local] Abbreviation _get_municipio_geometry := (_get_municipio_geometry upper).

(** What [aggregate_counted] returns. *)
Lemma aggregate_counted_spec self gdf labels :
  exists c,
    aggregate_counted self gdf labels = Ok c /\
    RefArea.counters (counted c)
    = Ref.column_sum py_float (n_columns self) (rows_at gdf labels)
        <$> RefArea.census_columns /\
    manzanas_count c = length (rows_at gdf labels).
Proof.
  unfold ServiceAreaAnalyzer.aggregate_counted.
  destruct (aggregate_population_counters py_float (n_columns self)
              (rows_at gdf labels)) as (s & -> & Hs).
  simpl. by eexists.
Qed.

(** The parts of a successful analysis restricted to a municipality. *)
Lemma analyze_municipio_inv self gdf route d name use r U :
  manzanas_gdf self = Some gdf ->
  analyze self route d (Some name) use = Ok r ->
  unserved_manzanas r = Some U ->
  exists geom served0 T Un,
    name <> EmptyString /\
    _get_municipio_geometry self name = Some geom /\
    success r = true /\
    NoDup served0 /\
    served_manzanas r = filter (fun i => meets_at gdf geom i = true) served0 /\
    served_manzanas r <> [] /\
    U = filter (fun i => i ∉ served_manzanas r) (fst <$> intersecting gdf geom) /\
    aggregate_counted self gdf (served_manzanas r) = Ok (stats r) /\
    municipio_total r = Some T /\
    aggregate_counted self gdf (fst <$> intersecting gdf geom) = Ok T /\
    unserved_stats r = Some Un /\
    ((U = [] /\ Un = _empty_stats) \/ aggregate_counted self gdf U = Ok Un).
Proof.
  intros Hgdf Ha HU. unfold ServiceAreaAnalyzer.analyze in Ha. rewrite Hgdf in Ha.
  destruct (analyze_try py_float upper self gdf route d (Some name) use)
    as [r'| |] eqn:Ht; try done.
  2: { injection Ha as <-. done. }
  injection Ha as ->. unfold analyze_try in Ht.
  match type of Ht with
  | (?m ≫= _) = _ => destruct m as [served0| |] eqn:Hserved0
  end; simpl in Ht; try done.
  assert (NoDup served0) as Hnd.
  { destruct (network_analyzer self) as [na|].
    - destruct (use && NetworkAnalyzer.graph_truthy na).
      + destruct (_analyze_with_network na gdf route (to_crs route) d);
          simpl in Hserved0; try done.
        injection Hserved0 as <-. apply NoDup_elements.
      + injection Hserved0 as <-. apply intersecting_labels_NoDup.
    - injection Hserved0 as <-. apply intersecting_labels_NoDup. }
  clear Hserved0.
  destruct (decide (name = EmptyString)) as [->|Hname].
  { destruct served0; [by injection Ht as <-|].
    destruct (ServiceAreaAnalyzer.aggregate_counted _ _ _ _); simpl in Ht;
      try done.
    by injection Ht as <-. }
  destruct (ServiceAreaAnalyzer._get_municipio_geometry upper self name)
    as [geom|] eqn:Hgeom.
  2: { destruct served0; [by injection Ht as <-|].
       destruct (ServiceAreaAnalyzer.aggregate_counted _ _ _ _); simpl in Ht;
         try done.
       by injection Ht as <-. }
  set (served := filter (fun i => meets_at gdf geom i = true) served0) in *.
  destruct served as [|i0 served'] eqn:Hs; [by injection Ht as <-|].
  rewrite <- Hs in Ht.
  destruct (ServiceAreaAnalyzer.aggregate_counted py_float self gdf served)
    as [st| |] eqn:Hst; simpl in Ht; try done.
  match type of Ht with
  | (?m ≫= _) = _ => destruct m as [un| |] eqn:Hun
  end; simpl in Ht; try done.
  match type of Ht with
  | (?m ≫= _) = _ => destruct m as [tot| |] eqn:Htot
  end; simpl in Ht; try done.
  injection Ht as <-. simpl in *. injection HU as <-.
  exists geom, served0, tot, un. split_and!; try done.
  - rewrite Hs. done.
  - destruct (filter (fun i => i ∉ served) (fst <$> intersecting gdf geom))
      eqn:Hf; [left|right; done].
    split; [done|]. by injection Hun as <-.
Qed.

End Analyze.

Section Served.
Context `{GeoKernel}.
Import ServiceAreaAnalyzer.

Lemma filter_by_centroid_char na direct nodes distances d cands :
  Built.wf na -> is_Some (NetworkAnalyzer.graph na) ->
  forall filtered,
  exists served,
    filter_by_centroid na direct nodes distances d cands filtered = Ok served /\
    forall i, i ∈ served <->
      i ∈ filtered \/
      ((i ∉ direct) /\
       exists row total,
         (i, row) ∈ cands /\
         NetworkAnalyzer.is_point_in_service_area na (centroid (m_geometry row))
           nodes distances d = Ok (true, total)).
Proof.
  intros Hwf HG. induction cands as [|[idx row] cands IH]; intros filtered; simpl.
  - exists filtered. split; [done|]. intros i. split; [by left|].
    intros [?|(_ & row & t & Hin & _)]; [done|]. by apply elem_of_nil in Hin.
  - case_decide as Hd.
    + destruct (IH filtered) as (served & Hs & Hch). exists served.
      split; [done|]. intros i. rewrite Hch. split.
      * intros [?|(Hn & row' & t & Hin & Hp)]; [by left|].
        right. split; [done|]. exists row', t. split; [by right|done].
      * intros [?|(Hn & row' & t & Hin & Hp)]; [by left|].
        apply elem_of_cons in Hin as [[= -> ->]|Hin]; [done|].
        right. split; [done|]. by exists row', t.
    + destruct (is_point_in_service_area_ok na (centroid (m_geometry row))
                  nodes distances d Hwf HG) as [[b t] Hr].
      rewrite Hr. simpl.
      destruct (IH (if b then {[idx]} ∪ filtered else filtered))
        as (served & Hs & Hch).
      exists served. split; [done|]. intros i. rewrite Hch. split.
      * intros [Hi|(Hn & row' & t' & Hin & Hp)].
        -- destruct b; [|by left].
           apply elem_of_union in Hi as [Hi|?]; [|by left].
           apply elem_of_singleton in Hi as ->. right. split; [done|].
           exists row, t. split; [left|done].
        -- right. split; [done|]. exists row', t'. split; [by right|done].
      * intros [Hi|(Hn & row' & t' & Hin & Hp)].
        -- left. destruct b; [|done]. apply elem_of_union. by right.
        -- apply elem_of_cons in Hin as [[= -> ->]|Hin].
           ++ left. rewrite Hr in Hp. injection Hp as -> _.
              apply elem_of_union. left. by apply elem_of_singleton.
           ++ right. split; [done|]. by exists row', t'.
Qed.

End Served.

(** The weights of a built analyzer. *)
Lemma build_weights_ok `{GeoKernel} shapefile na :
  NetworkAnalyzer._load_and_build_network shapefile = Ok na ->
  (forall rows, shapefile = Some rows -> Built.lengths_ok rows) ->
  Built.weights_ok na.
Proof.
  intros Hb Hl. destruct shapefile as [rows|];
    [exact (build_weights rows na Hb (Hl rows eq_refl))|].
  injection Hb as <-. intros G HG. discriminate HG.
Qed.

(** X9: the blocks [_analyze_with_network] serves are exactly the blocks
    that meet the band of 50 m around the projected track, together with
    the blocks that meet the polygon of the service area and whose centroid
    passes the point test. Without a service area only the band counts. *)
Theorem network_served_blocks `{GeoKernel}
    (na : NetworkAnalyzer.t) (shapefile : option (list RoadRow))
    (manzanas : list ServiceAreaAnalyzer.ManzanaRow)
    (route_geometry route_projected : Geometry) (buffer_distance_m : Q) :
  NetworkAnalyzer._load_and_build_network shapefile = Ok na ->
  (forall rows, shapefile = Some rows -> Built.lengths_ok rows) ->
  exists nodes distances polygon served,
    NetworkAnalyzer.calculate_service_area na route_geometry buffer_distance_m
    = Ok (nodes, distances) /\
    NetworkAnalyzer.get_service_area_polygon na nodes 50 = Ok polygon /\
    ServiceAreaAnalyzer._analyze_with_network na manzanas route_geometry
      route_projected buffer_distance_m = Ok served /\
    forall i,
      i ∈ served <->
      RefArea.block_meets manzanas (buffer route_projected 50) i \/
      (exists service_area_polygon,
         polygon = Some service_area_polygon /\
         RefArea.block_meets manzanas service_area_polygon i /\
         RefArea.centroid_reachable na manzanas nodes distances
           buffer_distance_m i).
Proof.
  intros Hb Hl. pose proof (build_wf _ _ Hb) as Hwf.
  pose proof (build_weights_ok _ _ Hb Hl) as Hw.
  unfold ServiceAreaAnalyzer._analyze_with_network.
  set (direct := list_to_set _).
  assert (Hdirect : forall i,
    i ∈ direct <-> RefArea.block_meets manzanas (buffer route_projected 50) i).
  { intros i. subst direct. rewrite elem_of_list_to_set.
    apply elem_of_intersecting_labels. }
  destruct (calculate_service_area_spec exact_laws na route_geometry buffer_distance_m
              Hwf Hw) as (seeds & D & _ & Hc & Hm).
  rewrite Hc. simpl. exists (dom D), D.
  case_decide as Hemp.
  { exists None, direct. split_and!; [done| |done|].
    - unfold NetworkAnalyzer.get_service_area_polygon. by rewrite decide_True.
    - intros i. rewrite Hdirect. split; [by left|].
      by intros [?|(p & ? & _)]. }
  assert (is_Some (NetworkAnalyzer.graph na)) as HG.
  { destruct (NetworkAnalyzer.graph na); [eauto|].
    destruct Hm as [_ ->]. by rewrite dom_empty_L in Hemp. }
  destruct (get_service_area_polygon_ok na (dom D) 50) as [p Hp]; [by right|].
  rewrite Hp. simpl. exists p. destruct p as [polygon|].
  2: { exists direct. split_and!; [done|done|done|].
       intros i. rewrite Hdirect. split; [by left|].
       by intros [?|(p & ? & _)]. }
  destruct (filter_by_centroid_char na direct (dom D) D buffer_distance_m
              (ServiceAreaAnalyzer.intersecting manzanas polygon) Hwf HG direct)
    as (served & Hs & Hch).
  exists served. split_and!; [done|done|done|].
  intros i. rewrite Hch, Hdirect. split.
  - intros [?|(Hn & row & t & Hin & Hpt)]; [by left|]. right.
    exists polygon. apply elem_of_intersecting in Hin as [Hrow Hint].
    split_and!; [done|by exists row|by exists row, t].
  - intros [?|(p & [= <-] & (row & Hrow & Hint) & (row' & t & Hrow' & Hpt))];
      [by left|].
    rewrite Hrow in Hrow'. injection Hrow' as <-.
    destruct (decide (i ∈ direct)) as [Hd|Hd]; [left; by apply Hdirect|].
    right. split; [by rewrite <- Hdirect|]. exists row, t. split; [|done].
    by apply elem_of_intersecting.
Qed.

Lemma network_served_blocks_witness :
  NetworkAnalyzer._load_and_build_network (Some Cases.rows) = Ok Cases.analyzer /\
  (forall rows, Some Cases.rows = Some rows -> Built.lengths_ok rows) /\
  exists served,
    ServiceAreaAnalyzer._analyze_with_network Cases.analyzer [ZoneCase.block]
      Cases.track Cases.track 700 = Ok served.
Proof.
  assert (forall rows, Some Cases.rows = Some rows -> Built.lengths_ok rows)
    as Hl by (intros rows [= <-]; exact cases_lengths_ok).
  split; [exact cases_analyzer_built|]. split; [exact Hl|].
  destruct (network_served_blocks Cases.analyzer (Some Cases.rows)
              [ZoneCase.block] Cases.track Cases.track 700
              cases_analyzer_built Hl)
    as (nodes & distances & polygon & served & _ & _ & Hs & _).
  by exists served.
Defined.

Section AnalyzeTheorems.
Context `{GeoKernel}.
Variable py_float : string -> option Q.
Variable upper : string -> string.
Import ServiceAreaAnalyzer.

Lemma zip_with_fmap_same {A B C D} (h : B -> C -> D) (f : A -> B) (g : A -> C)
    (l : list A) :
  zip_with h (f <$> l) (g <$> l) = (fun x => h (f x) (g x)) <$> l.
Proof. induction l as [|x l IH]; simpl; [done|]. f_equal. exact IH. Qed.

Lemma analyze_municipio_split self gdf route d name use r U :
  manzanas_gdf self = Some gdf ->
  analyze py_float upper self route d (Some name) use = Ok r ->
  unserved_manzanas r = Some U ->
  exists geom,
    _get_municipio_geometry upper self name = Some geom /\
    NoDup (served_manzanas r) /\ NoDup U /\
    (forall i, i ∈ served_manzanas r -> RefArea.block_meets gdf geom i) /\
    U = filter (fun i => i ∉ served_manzanas r)
          (fst <$> intersecting gdf geom) /\
    fst <$> intersecting gdf geom ≡ₚ served_manzanas r ++ U.
Proof.
  intros Hgdf Ha HU.
  destruct (analyze_municipio_inv py_float upper self gdf route d name use r U
              Hgdf Ha HU)
    as (geom & served0 & T & Un & _ & Hgeom & _ & Hnd & Hs & _ & HUeq & _).
  exists geom.
  assert (NoDup (served_manzanas r)) as Hnds.
  { rewrite Hs. by apply NoDup_filter. }
  assert (forall i, i ∈ served_manzanas r -> RefArea.block_meets gdf geom i)
    as Hmeets.
  { intros i. rewrite Hs. intros Hi. apply list_elem_of_filter in Hi as [Hi _].
    by apply meets_at_true. }
  split_and!; [done|done| |done|done|].
  - rewrite HUeq. apply NoDup_filter, intersecting_labels_NoDup.
  - rewrite HUeq. apply split_by_membership;
      [apply intersecting_labels_NoDup|done|].
    intros i Hi. by apply elem_of_intersecting_labels, Hmeets.
Qed.

End AnalyzeTheorems.

(** X10: when [analyze] is given a municipality it finds, and succeeds,
    the served and the unserved blocks it returns split the blocks that
    meet the municipality: no block is in both frames, no block is listed
    twice, and a block is in one of the two exactly when it meets the
    geometry of the municipality. *)
Theorem served_and_unserved_split_municipality `{GeoKernel}
    (py_float : string -> option Q) (upper : string -> string)
    (self : ServiceAreaAnalyzer.t) gdf route d name use r U :
  ServiceAreaAnalyzer.manzanas_gdf self = Some gdf ->
  ServiceAreaAnalyzer.analyze py_float upper self route d (Some name) use = Ok r ->
  ServiceAreaAnalyzer.unserved_manzanas r = Some U ->
  exists geom,
    ServiceAreaAnalyzer._get_municipio_geometry upper self name = Some geom /\
    NoDup (ServiceAreaAnalyzer.served_manzanas r) /\ NoDup U /\
    (forall i, i ∈ ServiceAreaAnalyzer.served_manzanas r -> i ∉ U) /\
    (forall i, i ∈ ServiceAreaAnalyzer.served_manzanas r \/ i ∈ U
               <-> RefArea.block_meets gdf geom i).
Proof.
  intros Hgdf Ha HU.
  destruct (analyze_municipio_split py_float upper self gdf route d name use r U
              Hgdf Ha HU) as (geom & Hgeom & Hnds & HndU & Hmeets & HUeq & Hperm).
  exists geom. split_and!; [done|done|done| |].
  - intros i Hi. rewrite HUeq. intros Hf.
    by apply list_elem_of_filter in Hf as [Hn _].
  - intros i. rewrite <- elem_of_intersecting_labels, Hperm, elem_of_app. done.
Qed.

(** X11: in the same situation the statistics of the municipality are the
    sum of those of the served and of the unserved blocks, counter by
    counter (total, female, male, the four age groups, disability), and
    so are the block counts. *)
Theorem municipality_totals_add_up `{GeoKernel}
    (py_float : string -> option Q) (upper : string -> string)
    (self : ServiceAreaAnalyzer.t) gdf route d name use r U :
  ServiceAreaAnalyzer.manzanas_gdf self = Some gdf ->
  ServiceAreaAnalyzer.analyze py_float upper self route d (Some name) use = Ok r ->
  ServiceAreaAnalyzer.unserved_manzanas r = Some U ->
  exists total unserved,
    ServiceAreaAnalyzer.municipio_total r = Some total /\
    ServiceAreaAnalyzer.unserved_stats r = Some unserved /\
    RefArea.counters (ServiceAreaAnalyzer.counted total)
    = zip_with Z.add
        (RefArea.counters (ServiceAreaAnalyzer.counted
                             (ServiceAreaAnalyzer.stats r)))
        (RefArea.counters (ServiceAreaAnalyzer.counted unserved)) /\
    ServiceAreaAnalyzer.manzanas_count total
    = (ServiceAreaAnalyzer.manzanas_count (ServiceAreaAnalyzer.stats r)
       + ServiceAreaAnalyzer.manzanas_count unserved)%nat.
Proof.
  intros Hgdf Ha HU.
  destruct (analyze_municipio_split py_float upper self gdf route d name use r U
              Hgdf Ha HU) as (geom & Hgeom & _ & _ & _ & _ & Hperm).
  destruct (analyze_municipio_inv py_float upper self gdf route d name use r U
              Hgdf Ha HU)
    as (geom' & served0 & T & Un & _ & Hgeom' & _ & _ & _ & _ & _ & Hst & HT
        & HaT & HUn & HaU).
  rewrite Hgeom in Hgeom'. injection Hgeom' as <-.
  exists T, Un. split; [done|]. split; [done|].
  destruct (aggregate_counted_spec py_float self gdf
              (ServiceAreaAnalyzer.served_manzanas r)) as (c1 & Hc1 & Hk1 & Hn1).
  rewrite Hst in Hc1. injection Hc1 as <-.
  destruct (aggregate_counted_spec py_float self gdf
              (fst <$> ServiceAreaAnalyzer.intersecting gdf geom))
    as (c2 & Hc2 & Hk2 & Hn2).
  rewrite HaT in Hc2. injection Hc2 as <-.
  assert (RefArea.counters (ServiceAreaAnalyzer.counted Un)
          = Ref.column_sum py_float (ServiceAreaAnalyzer.n_columns self)
              (ServiceAreaAnalyzer.rows_at gdf U) <$> RefArea.census_columns /\
          ServiceAreaAnalyzer.manzanas_count Un
          = length (ServiceAreaAnalyzer.rows_at gdf U)) as [Hk3 Hn3].
  { destruct HaU as [[-> ->]|HaU]; [done|].
    destruct (aggregate_counted_spec py_float self gdf U) as (c3 & Hc3 & Hk3 & Hn3).
    rewrite HaU in Hc3. by injection Hc3 as <-. }
  pose proof (rows_at_perm gdf _ _ Hperm) as Hrows. rewrite rows_at_app in Hrows.
  split.
  - rewrite Hk1, Hk2, Hk3, zip_with_fmap_same. apply list_fmap_ext.
    intros _ k _. rewrite (column_sum_perm py_float _ _ _ k Hrows).
    apply column_sum_app.
  - rewrite Hn1, Hn2, Hn3, Hrows. apply length_app.
Qed.

(** X12: with the blocks loaded and a network analyzer that its
    constructor built from lengths that are not negative (or no analyzer
    at all), [analyze] never reports a caught exception: it either
    succeeds with at least one served block, or reports that no block was
    found, with empty statistics. *)
Theorem analyze_without_exception `{GeoKernel}
    (py_float : string -> option Q) (upper : string -> string)
    (self : ServiceAreaAnalyzer.t) gdf route d municipio_name use :
  ServiceAreaAnalyzer.manzanas_gdf self = Some gdf ->
  (forall na, ServiceAreaAnalyzer.network_analyzer self = Some na ->
     exists shapefile,
       NetworkAnalyzer._load_and_build_network shapefile = Ok na /\
       forall rows, shapefile = Some rows -> Built.lengths_ok rows) ->
  exists r,
    ServiceAreaAnalyzer.analyze py_float upper self route d municipio_name use
    = Ok r /\
    ((ServiceAreaAnalyzer.success r = true /\
      ServiceAreaAnalyzer.error r = None /\
      ServiceAreaAnalyzer.served_manzanas r <> []) \/
     (ServiceAreaAnalyzer.success r = false /\
      ServiceAreaAnalyzer.error r = Some ServiceAreaAnalyzer.NothingFound /\
      ServiceAreaAnalyzer.stats r = ServiceAreaAnalyzer._empty_stats /\
      ServiceAreaAnalyzer.served_manzanas r = [])).
Proof.
  intros Hgdf Hna. unfold ServiceAreaAnalyzer.analyze. rewrite Hgdf.
  unfold ServiceAreaAnalyzer.analyze_try.
  match goal with
  | |- context [?m ≫= _] =>
      assert (exists served0, m = Ok served0) as [served0 ->]
  end.
  { destruct (ServiceAreaAnalyzer.network_analyzer self) as [na|]; [|by eexists].
    destruct (use && NetworkAnalyzer.graph_truthy na); [|by eexists].
    destruct (Hna na eq_refl) as (shapefile & Hb & Hl).
    destruct (analyze_with_network_direct na gdf route (to_crs route) d
                (build_wf _ _ Hb) (build_weights_ok _ _ Hb Hl))
      as (served & -> & _).
    simpl. by eexists. }
  simpl.
  match goal with
  | |- context [match ?l with [] => Ok (ServiceAreaAnalyzer._empty_result _) | _ => _ end] =>
      destruct l as [|i0 served] eqn:Hserved
  end.
  { eexists. split; [done|]. by right. }
  destruct (aggregate_counted_spec py_float self gdf (i0 :: served))
    as (c & -> & _). simpl.
  match goal with
  | |- context [match ?g with Some _ => _ | None => _ end] =>
      destruct g as [geom|]
  end.
  2: { eexists. split; [done|]. left. by split_and!. }
  match goal with
  | |- context [?m ≫= _] =>
      assert (exists un, m = Ok un) as [un ->]
  end.
  { match goal with
    | |- exists un, match ?l with [] => _ | _ => _ end = _ =>
        destruct l as [|j l'] eqn:Hf
    end; [by eexists|].
    destruct (aggregate_counted_spec py_float self gdf (j :: l')) as (c' & -> & _).
    by eexists. }
  simpl.
  destruct (aggregate_counted_spec py_float self gdf
              (fst <$> ServiceAreaAnalyzer.intersecting gdf geom))
    as (c' & -> & _). simpl.
  eexists. split; [done|]. left. by split_and!.
Qed.

Lemma area_case_analysis :
  ServiceAreaAnalyzer.analyze BoxKernel.float_of_digits AreaCase.upper
    AreaCase.service Cases.track 700 (Some "pachuca"%string) true
  = Ok AreaCase.analysis.
Proof. apply ok_value. vm_cast_no_check (eq_refl true). Defined.

Lemma area_case_unserved :
  ServiceAreaAnalyzer.unserved_manzanas AreaCase.analysis = Some [1%nat].
Proof. vm_compute. reflexivity. Defined.

Lemma served_and_unserved_split_municipality_witness :
  ServiceAreaAnalyzer.manzanas_gdf AreaCase.service = Some AreaCase.blocks /\
  ServiceAreaAnalyzer.analyze BoxKernel.float_of_digits AreaCase.upper
    AreaCase.service Cases.track 700 (Some "pachuca"%string) true
  = Ok AreaCase.analysis /\
  ServiceAreaAnalyzer.unserved_manzanas AreaCase.analysis = Some [1%nat] /\
  exists geom,
    ServiceAreaAnalyzer._get_municipio_geometry AreaCase.upper AreaCase.service
      "pachuca" = Some geom /\
    NoDup (ServiceAreaAnalyzer.served_manzanas AreaCase.analysis) /\
    NoDup [1%nat] /\
    (forall i, i ∈ ServiceAreaAnalyzer.served_manzanas AreaCase.analysis ->
               i ∉ [1%nat]) /\
    (forall i, i ∈ ServiceAreaAnalyzer.served_manzanas AreaCase.analysis
               \/ i ∈ [1%nat]
               <-> RefArea.block_meets AreaCase.blocks geom i).
Proof.
  split_and!; [reflexivity|exact area_case_analysis|exact area_case_unserved|].
  exact (served_and_unserved_split_municipality BoxKernel.float_of_digits
           AreaCase.upper AreaCase.service AreaCase.blocks Cases.track 700
           "pachuca"%string true AreaCase.analysis [1%nat] eq_refl
           area_case_analysis area_case_unserved).
Defined.

Lemma municipality_totals_add_up_witness :
  ServiceAreaAnalyzer.manzanas_gdf AreaCase.service = Some AreaCase.blocks /\
  ServiceAreaAnalyzer.analyze BoxKernel.float_of_digits AreaCase.upper
    AreaCase.service Cases.track 700 (Some "pachuca"%string) true
  = Ok AreaCase.analysis /\
  ServiceAreaAnalyzer.unserved_manzanas AreaCase.analysis = Some [1%nat] /\
  exists total unserved,
    ServiceAreaAnalyzer.municipio_total AreaCase.analysis = Some total /\
    ServiceAreaAnalyzer.unserved_stats AreaCase.analysis = Some unserved /\
    RefArea.counters (ServiceAreaAnalyzer.counted total)
    = zip_with Z.add
        (RefArea.counters (ServiceAreaAnalyzer.counted
                             (ServiceAreaAnalyzer.stats AreaCase.analysis)))
        (RefArea.counters (ServiceAreaAnalyzer.counted unserved)) /\
    ServiceAreaAnalyzer.manzanas_count total
    = (ServiceAreaAnalyzer.manzanas_count
         (ServiceAreaAnalyzer.stats AreaCase.analysis)
       + ServiceAreaAnalyzer.manzanas_count unserved)%nat.
Proof.
  split_and!; [reflexivity|exact area_case_analysis|exact area_case_unserved|].
  exact (municipality_totals_add_up BoxKernel.float_of_digits
           AreaCase.upper AreaCase.service AreaCase.blocks Cases.track 700
           "pachuca"%string true AreaCase.analysis [1%nat] eq_refl
           area_case_analysis area_case_unserved).
Defined.

Lemma area_case_network :
  forall na, ServiceAreaAnalyzer.network_analyzer AreaCase.service = Some na ->
    exists shapefile,
      NetworkAnalyzer._load_and_build_network shapefile = Ok na /\
      forall rows, shapefile = Some rows -> Built.lengths_ok rows.
Proof.
  intros na [= <-]. exists (Some Cases.rows).
  split; [exact cases_analyzer_built|].
  intros rows [= <-]. exact cases_lengths_ok.
Defined.

Lemma analyze_without_exception_witness :
  ServiceAreaAnalyzer.manzanas_gdf AreaCase.service = Some AreaCase.blocks /\
  (forall na, ServiceAreaAnalyzer.network_analyzer AreaCase.service = Some na ->
     exists shapefile,
       NetworkAnalyzer._load_and_build_network shapefile = Ok na /\
       forall rows, shapefile = Some rows -> Built.lengths_ok rows) /\
  exists r,
    ServiceAreaAnalyzer.analyze BoxKernel.float_of_digits AreaCase.upper
      AreaCase.service Cases.track 700 (Some "pachuca"%string) true = Ok r.
Proof.
  split; [reflexivity|]. split; [exact area_case_network|].
  destruct (analyze_without_exception BoxKernel.float_of_digits AreaCase.upper
              AreaCase.service AreaCase.blocks Cases.track 700
              (Some "pachuca"%string) true eq_refl area_case_network)
    as (r & Hr & _).
  by exists r.
Defined.

(** ** The locality detection *)

Section DictBind.
Context {K V B : Type} `{EqDecision K}.
Variable f : V -> list B.

Lemma bind_dict_set_new (d : list (K * V)) k v :
  dict_get d k = None ->
  dict_values (dict_set d k v) ≫= f = (dict_values d ≫= f) ++ f v.
Proof.
  unfold dict_values. induction d as [|[k' v'] d IH]; simpl.
  - intros _. by rewrite app_nil_r.
  - destruct (decide (k' = k)) as [->|Hk]; [done|]. intros Hd. simpl.
    rewrite <- app_assoc. f_equal. by apply IH.
Qed.

Lemma bind_dict_set_old (d : list (K * V)) k v v' extra :
  dict_get d k = Some v ->
  f v' ≡ₚ f v ++ extra ->
  dict_values (dict_set d k v') ≫= f ≡ₚ (dict_values d ≫= f) ++ extra.
Proof.
  unfold dict_values. induction d as [|[k0 v0] d IH]; simpl; [done|].
  destruct (decide (k0 = k)) as [->|Hk].
  - intros [= ->] Hf. simpl. rewrite Hf.
    rewrite <- !app_assoc. apply Permutation_app_head, Permutation_app_comm.
  - intros Hd Hf. simpl. rewrite <- app_assoc.
    apply Permutation_app_head. by apply IH.
Qed.

Lemma elem_of_dict_set (d : list (K * V)) k v x :
  x ∈ dict_set d k v -> x = (k, v) \/ x ∈ d.
Proof.
  induction d as [|[k' v'] d IH]; simpl.
  - intros Hx. apply list_elem_of_singleton in Hx. by left.
  - destruct (decide (k' = k)) as [->|Hk].
    + intros Hx. apply elem_of_cons in Hx as [->|Hx]; [by left|].
      right. by right.
    + intros Hx. apply elem_of_cons in Hx as [->|Hx]; [right; left|].
      destruct (IH Hx) as [->|?]; [by left|]. right. by right.
Qed.
End DictBind.

Section SortedLists.
Context {A : Type} (key : A -> string).

Lemma insert_sorted_perm x (l : list A) : insert_sorted key x l ≡ₚ x :: l.
Proof.
  induction l as [|y l IH]; simpl; [done|].
  destruct (String.leb (key x) (key y)); [done|].
  rewrite IH. apply perm_swap.
Qed.

Lemma sorted_perm (l : list A) : sorted key l ≡ₚ l.
Proof.
  unfold sorted. induction l as [|x l IH]; simpl; [done|].
  by rewrite insert_sorted_perm, IH.
Qed.

Lemma insert_sorted_ascending x (l : list A) :
  ascending key l -> ascending key (insert_sorted key x l).
Proof.
  induction 1 as [|y|y z l Hyz Hl IH]; simpl.
  - constructor.
  - destruct (String.leb (key x) (key y)) eqn:Hxy.
    + constructor; [done|constructor].
    + constructor; [|constructor].
      destruct (String.leb_total (key x) (key y)); congruence.
  - destruct (String.leb (key x) (key y)) eqn:Hxy.
    + constructor; [done|]. by constructor.
    + simpl in IH. destruct (String.leb (key x) (key z)) eqn:Hxz.
      * constructor; [|done].
        destruct (String.leb_total (key x) (key y)); congruence.
      * by constructor.
Qed.

Lemma sorted_ascending (l : list A) : ascending key (sorted key l).
Proof.
  unfold sorted. induction l as [|x l IH]; simpl; [constructor|].
  by apply insert_sorted_ascending.
Qed.

Lemma ascending_lookup (l : list A) i a b :
  ascending key l -> l !! i = Some a -> l !! S i = Some b ->
  String.leb (key a) (key b) = true.
Proof.
  intros Hl. revert i. induction Hl as [|x|x y l Hxy Hl IH]; intros i Ha Hb.
  - done.
  - by destruct i.
  - destruct i as [|i]; simpl in *; [congruence|]. by apply (IH i).
Qed.
End SortedLists.

Section Detect.
Context `{GeoKernel}.
Import LocalityDetector.

Lemma perm_of_eq {A} (l1 l2 : list A) : l1 = l2 -> l1 ≡ₚ l2.
Proof. by intros ->. Qed.

Lemma sum_list_length_bind {A B} (f : A -> list B) (l : list A) :
  sum_list ((fun x => length (f x)) <$> l) = length (l ≫= f).
Proof.
  induction l as [|x l IH]; simpl; [done|]. rewrite length_app. f_equal.
  exact IH.
Qed.

Section Contribution.
Variable f : MunEntry -> list LocData.
Variables gu gr : LocData -> list LocData.
Hypothesis Hsub : forall m x,
  x ∈ f m -> x ∈ localidades_urbanas m \/ x ∈ localidades_rurales m.
Hypothesis Hurb : forall m loc,
  f {| e_cve_mun := e_cve_mun m; e_nombre := e_nombre m;
       e_cvegeo := e_cvegeo m;
       localidades_urbanas := localidades_urbanas m ++ [loc];
       localidades_rurales := localidades_rurales m |} ≡ₚ f m ++ gu loc.
Hypothesis Hrur : forall m loc,
  f {| e_cve_mun := e_cve_mun m; e_nombre := e_nombre m;
       e_cvegeo := e_cvegeo m;
       localidades_urbanas := localidades_urbanas m;
       localidades_rurales := localidades_rurales m ++ [loc] |} ≡ₚ f m ++ gr loc.

(** What a locality adds to the lists selected by [f]. *)
Lemma add_locality_bind self data loc :
  dict_values (add_locality self data loc) ≫= f
  ≡ₚ (dict_values data ≫= f)
     ++ (if decide (cve_mun loc <> EmptyString) then
           if decide (ambito loc = "Urbana"%string) then gu loc
           else if decide (ambito loc = "Rural"%string) then gr loc
           else []
         else []).
Proof.
  unfold add_locality.
  destruct (decide (cve_mun loc <> EmptyString)) as [Hcve|Hcve];
    [|by rewrite app_nil_r].
  set (fresh := {| e_cve_mun := cve_mun loc;
                   e_nombre := municipio_name self (cve_mun loc);
                   e_cvegeo := EmptyString; localidades_urbanas := [];
                   localidades_rurales := [] |}).
  assert (f fresh = []) as Hfresh.
  { destruct (f fresh) as [|x l] eqn:Hf; [done|].
    destruct (Hsub fresh x) as [Hx|Hx]; [rewrite Hf; left|..];
      by apply elem_of_nil in Hx. }
  set (data1 := match dict_get data (cve_mun loc) with
                | Some _ => data
                | None => dict_set data (cve_mun loc) fresh
                end).
  assert (dict_values data1 ≫= f = dict_values data ≫= f /\
          is_Some (dict_get data1 (cve_mun loc))) as [Hd1 [m Hm]].
  { subst data1. destruct (dict_get data (cve_mun loc)) as [m|] eqn:Hget.
    - split; [done|]. rewrite Hget. by eexists.
    - split.
      + by rewrite bind_dict_set_new, Hfresh, app_nil_r.
      + rewrite dict_get_set, decide_True by done. by eexists. }
  rewrite Hm, <- Hd1.
  destruct (decide (ambito loc = "Urbana"%string)).
  { by apply (bind_dict_set_old f data1 (cve_mun loc) m). }
  destruct (decide (ambito loc = "Rural"%string)).
  { by apply (bind_dict_set_old f data1 (cve_mun loc) m). }
  by rewrite app_nil_r.
Qed.

Lemma municipios_in_bind rows geom_of area :
  dict_values (municipios_in rows geom_of area) ≫= f = [].
Proof.
  destruct (dict_values _ ≫= f) as [|x l] eqn:Hb; [done|].
  assert (x ∈ dict_values (municipios_in rows geom_of area) ≫= f) as Hx
    by (rewrite Hb; left).
  apply list_elem_of_bind in Hx as (m & Hx & Hm). apply Hsub in Hx.
  destruct (all_locs_municipios_in (fun _ => False) rows geom_of area x).
  apply elem_of_locs_of. by exists m.
Qed.

(** The buffer detection, row by row. *)
Lemma euclidean_fold_bind self area rows : forall data,
  dict_values
    (foldl (fun data row =>
              if intersects (l_geometry row) area then
                add_locality self data
                  {| cvegeo := l_CVEGEO row; nombre := l_NOMGEO row;
                     cve_mun := l_CVE_MUN row;
                     ambito := strip (l_AMBITO row);
                     distancia_red_m := None |}
              else data) data rows) ≫= f
  ≡ₚ (dict_values data ≫= f)
     ++ (rows ≫= fun row =>
           if decide (RefDetect.listed_as "Urbana" area row)
           then gu (RefRows.loc_of_row row)
           else if decide (RefDetect.listed_as "Rural" area row)
           then gr (RefRows.loc_of_row row)
           else []).
Proof.
  induction rows as [|row rows IH]; intros data; simpl.
  - by rewrite app_nil_r.
  - rewrite IH. rewrite app_assoc. apply Permutation_app.
    2: done.
    destruct (intersects (l_geometry row) area) eqn:Hint.
    + rewrite add_locality_bind. simpl. apply Permutation_app_head.
      fold (RefRows.loc_of_row row).
      destruct (decide (RefDetect.listed_as "Urbana" area row))
        as [(_ & Hc & Hu)|Hnu].
      { by rewrite !decide_True by done. }
      destruct (decide (RefDetect.listed_as "Rural" area row))
        as [(_ & Hc & Hr)|Hnr].
      { rewrite decide_True by done.
        rewrite decide_False by (intros Hu; by apply Hnu).
        by rewrite decide_True by done. }
      destruct (decide (l_CVE_MUN row <> EmptyString)) as [Hc|Hc]; [|done].
      rewrite decide_False by (intros Hu; by apply Hnu).
      by rewrite decide_False by (intros Hr; by apply Hnr).
    + rewrite !decide_False
        by (unfold RefDetect.listed_as; intros (? & _); congruence).
      by rewrite app_nil_r.
Qed.

End Contribution.

Lemma bind_filter_singleton {A B} (P : A -> Prop) `{forall x, Decision (P x)}
    (g : A -> B) (l : list A) :
  (l ≫= fun x => if decide (P x) then [g x] else []) = g <$> filter P l.
Proof.
  induction l as [|x l IH]; simpl; [done|]. rewrite filter_cons.
  destruct (decide (P x)); simpl; [f_equal|]; exact IH.
Qed.

(** The lists of a buffer detection, up to their order. *)
Lemma euclidean_lists self area :
  let data :=
    foldl (fun data row =>
             if intersects (l_geometry row) area then
               add_locality self data
                 {| cvegeo := l_CVEGEO row; nombre := l_NOMGEO row;
                    cve_mun := l_CVE_MUN row;
                    ambito := strip (l_AMBITO row);
                    distancia_red_m := None |}
             else data)
          match municipios_gdf self with
          | None => []
          | Some rows => municipios_in rows mu_geometry area
          end (marco_gdf self) in
  dict_values data ≫= localidades_urbanas
  ≡ₚ RefRows.loc_of_row <$> filter (RefDetect.listed_as "Urbana" area)
                              (marco_gdf self) /\
  dict_values data ≫= localidades_rurales
  ≡ₚ RefRows.loc_of_row <$> filter (RefDetect.listed_as "Rural" area)
                              (marco_gdf self) /\
  dict_values data ≫= (fun m => localidades_urbanas m ++ localidades_rurales m)
  ≡ₚ RefRows.loc_of_row
       <$> filter (fun row => RefDetect.listed_as "Urbana" area row
                              \/ RefDetect.listed_as "Rural" area row)
                  (marco_gdf self).
Proof.
  intros data. subst data.
  set (init := match municipios_gdf self with
               | None => []
               | Some rows => municipios_in rows mu_geometry area
               end).
  assert (Hinit : forall f : MunEntry -> list LocData,
    (forall m x, x ∈ f m ->
                 x ∈ localidades_urbanas m \/ x ∈ localidades_rurales m) ->
    dict_values init ≫= f = []).
  { intros f Hsub. subst init. destruct (municipios_gdf self); [|done].
    by apply municipios_in_bind. }
  split_and!.
  - rewrite (euclidean_fold_bind localidades_urbanas (fun loc => [loc])
               (fun _ => []) (fun m x Hx => or_introl Hx)
               (fun m loc => reflexivity _)
               (fun m loc => perm_of_eq _ _ (eq_sym (app_nil_r _)))).
    rewrite Hinit by (intros; by left). simpl.
    rewrite <- bind_filter_singleton. apply perm_of_eq.
    apply list_bind_ext; [|done]. intros row.
    destruct (decide (RefDetect.listed_as "Urbana" area row)); [done|].
    by destruct (decide (RefDetect.listed_as "Rural" area row)).
  - rewrite (euclidean_fold_bind localidades_rurales (fun _ => [])
               (fun loc => [loc]) (fun m x Hx => or_intror Hx)
               (fun m loc => perm_of_eq _ _ (eq_sym (app_nil_r _)))
               (fun m loc => reflexivity _)).
    rewrite Hinit by (intros; by right). simpl.
    rewrite <- bind_filter_singleton. apply perm_of_eq.
    apply list_bind_ext; [|done]. intros row.
    destruct (decide (RefDetect.listed_as "Urbana" area row)) as [Hu|Hu];
      [|done].
    rewrite decide_False; [done|]. intros (_ & _ & Hr).
    destruct Hu as (_ & _ & Hu). congruence.
  - assert (forall m loc,
      (localidades_urbanas m ++ [loc]) ++ localidades_rurales m
      ≡ₚ (localidades_urbanas m ++ localidades_rurales m) ++ [loc]) as Hu.
    { intros m loc. rewrite <- !app_assoc. apply Permutation_app_head.
      apply Permutation_app_comm. }
    assert (forall m loc,
      localidades_urbanas m ++ localidades_rurales m ++ [loc]
      ≡ₚ (localidades_urbanas m ++ localidades_rurales m) ++ [loc]) as Hr.
    { intros m loc. by rewrite <- !app_assoc. }
    rewrite (euclidean_fold_bind
               (fun m => localidades_urbanas m ++ localidades_rurales m)
               (fun loc => [loc]) (fun loc => [loc])
               (fun m x Hx => proj1 (elem_of_app _ _ _) Hx) Hu Hr).
    rewrite Hinit by (intros m x Hx; by apply elem_of_app in Hx). simpl.
    rewrite <- bind_filter_singleton. apply perm_of_eq.
    apply list_bind_ext; [|done]. intros row.
    destruct (decide (RefDetect.listed_as "Urbana" area row)) as [Hu'|Hu'].
    { by rewrite decide_True by (by left). }
    destruct (decide (RefDetect.listed_as "Rural" area row)) as [Hr'|Hr'].
    { by rewrite decide_True by (by right). }
    rewrite decide_False; [done|]. by intros [?|?].
Qed.

End Detect.

Section DetectInvariant.
Context `{GeoKernel}.
Import LocalityDetector.

Lemma fmap_bind_list {A B C} (g : B -> C) (f : A -> list B) (l : list A) :
  g <$> (l ≫= f) = l ≫= (fun x => g <$> f x).
Proof.
  induction l as [|x l IH]; simpl; [done|]. rewrite fmap_app. f_equal. exact IH.
Qed.

Lemma foldl_filter {A B} (P : B -> bool) (g : A -> B -> A) (l : list B) :
  forall a,
  foldl (fun a x => if P x then g a x else a) a l
  = foldl g a (filter (fun x => P x = true) l).
Proof.
  induction l as [|x l IH]; intros a; simpl; [done|]. rewrite filter_cons.
  destruct (P x) eqn:HP.
  - rewrite decide_True by done. simpl. apply IH.
  - rewrite decide_False by done. apply IH.
Qed.

Lemma data_ok_nil : RefRows.data_ok [].
Proof.
  split; [apply NoDup_nil_2|]. intros k m Hin. by apply elem_of_nil in Hin.
Qed.

Lemma data_ok_dict_set data k m :
  RefRows.data_ok data -> RefRows.entry_ok k m ->
  RefRows.data_ok (dict_set data k m).
Proof.
  intros [Hnd Hall] Hm. split; [by apply dict_set_NoDup|].
  intros k' m' Hin. apply elem_of_dict_set in Hin as [[= -> ->]|Hin]; [done|].
  by apply Hall.
Qed.

Lemma data_ok_municipios_in rows geom_of area :
  RefRows.data_ok (municipios_in rows geom_of area).
Proof.
  unfold municipios_in. generalize data_ok_nil.
  generalize (@nil (string * MunEntry)).
  induction rows as [|row rows IH]; intros data Hok; simpl; [done|].
  apply IH. destruct (intersects (geom_of row) area); [|done].
  apply data_ok_dict_set; [done|]. split_and!; [done|..];
    intros loc Hin; by apply elem_of_nil in Hin.
Qed.

Lemma data_ok_add_locality self data loc :
  RefRows.data_ok data -> RefRows.data_ok (add_locality self data loc).
Proof.
  intros Hok. unfold add_locality.
  destruct (decide (cve_mun loc <> EmptyString)) as [Hcve|Hcve]; [|done].
  set (data1 := match dict_get data (cve_mun loc) with
                | Some _ => data
                | None => dict_set data (cve_mun loc) _
                end).
  assert (RefRows.data_ok data1) as Hok1.
  { subst data1. destruct (dict_get data (cve_mun loc)); [done|].
    apply data_ok_dict_set; [done|]. split_and!; [done|..];
      intros l Hin; by apply elem_of_nil in Hin. }
  destruct (dict_get data1 (cve_mun loc)) as [m|] eqn:Hm; [|done].
  destruct (proj2 Hok1 _ _ (dict_get_Some_elem _ _ _ Hm)) as (Hk & Hu & Hr).
  destruct (decide (ambito loc = "Urbana"%string)) as [Ha|Ha].
  { apply data_ok_dict_set; [done|]. split_and!; [done| |done].
    simpl. intros l Hin. apply elem_of_app in Hin as [Hin|Hin]; [by apply Hu|].
    by apply list_elem_of_singleton in Hin as ->. }
  destruct (decide (ambito loc = "Rural"%string)) as [Ha'|Ha']; [|done].
  apply data_ok_dict_set; [done|]. split_and!; [done|done|].
  simpl. intros l Hin. apply elem_of_app in Hin as [Hin|Hin]; [by apply Hr|].
  by apply list_elem_of_singleton in Hin as ->.
Qed.

Lemma data_ok_foldl {A} (step : list (string * MunEntry) -> A -> list (string * MunEntry))
    (rows : list A) :
  (forall data row, RefRows.data_ok data -> RefRows.data_ok (step data row)) ->
  forall data, RefRows.data_ok data -> RefRows.data_ok (foldl step data rows).
Proof.
  intros Hstep. induction rows as [|row rows IH]; intros data Hok; simpl; [done|].
  apply IH. by apply Hstep.
Qed.

Lemma data_ok_filter_localities self na nodes distances rows :
  forall data data',
  filter_localities self na nodes distances rows data = Ok data' ->
  RefRows.data_ok data -> RefRows.data_ok data'.
Proof.
  induction rows as [|row rows IH]; intros data data' Hf Hok; simpl in Hf.
  - by injection Hf as <-.
  - destruct (NetworkAnalyzer.is_point_in_service_area _ _ _ _ _)
      as [[b dist]| |]; simpl in Hf; try done.
    destruct b; [|by eapply IH].
    eapply IH; [exact Hf|]. by apply data_ok_add_locality.
Qed.

Lemma euclidean_summary self buffered :
  exists data,
    _detect_euclidean self buffered = summary data (Some false) /\
    RefRows.data_ok data.
Proof.
  unfold _detect_euclidean. eexists. split; [reflexivity|].
  apply data_ok_foldl.
  - intros data row Hok. destruct (intersects _ _); [|done].
    by apply data_ok_add_locality.
  - destruct (municipios_gdf self); [apply data_ok_municipios_in|apply data_ok_nil].
Qed.

(** Every detection is the summary of a well-formed dictionary. *)
Lemma detect_summary self gpx use d :
  detect self gpx use = Ok d ->
  exists data network, d = summary data network /\ RefRows.data_ok data.
Proof.
  unfold detect.
  destruct (use && _) eqn:Hcond.
  - unfold _detect_with_network.
    destruct (network_analyzer self) as [na|]; simpl; [|done].
    destruct (NetworkAnalyzer.calculate_service_area na gpx (buffer_m self))
      as [[nodes distances]| |]; simpl; try done.
    destruct (decide (nodes = ∅)).
    { intros [= <-].
      destruct (euclidean_summary self (buffer gpx (buffer_deg self)))
        as (data & -> & Hok). by exists data, (Some false). }
    destruct (NetworkAnalyzer.get_service_area_polygon na nodes 50)
      as [[polygon|]| |]; simpl; try done.
    2: { intros [= <-].
         destruct (euclidean_summary self (buffer gpx (buffer_deg self)))
           as (data & -> & Hok). by exists data, (Some false). }
    destruct (filter_localities self na nodes distances _ _) as [data| |] eqn:Hf;
      simpl; try done.
    intros [= <-]. exists data, (Some true). split; [done|].
    eapply data_ok_filter_localities; [exact Hf|].
    destruct (municipios_gdf self); [apply data_ok_municipios_in|apply data_ok_nil].
  - set (init := match municipios_gdf self with
                 | None => []
                 | Some rows => municipios_in rows mu_geometry _
                 end).
    assert (RefRows.data_ok init) as Hinit.
    { subst init. destruct (municipios_gdf self);
        [apply data_ok_municipios_in|apply data_ok_nil]. }
    assert (forall rows,
      RefRows.data_ok
        (foldl (fun data row =>
                  add_locality self data
                    {| cvegeo := l_CVEGEO row; nombre := l_NOMGEO row;
                       cve_mun := l_CVE_MUN row;
                       ambito := strip (l_AMBITO row);
                       distancia_red_m := None |}) init rows)) as Hfold.
    { intros rows. apply data_ok_foldl; [|done].
      intros data row Hok. by apply data_ok_add_locality. }
    destruct (filter _ (marco_gdf self)) as [|row rows].
    + destruct init as [|e init'] eqn:Hi.
      * intros [= <-]. exists [], None. split; [done|apply data_ok_nil].
      * intros [= <-]. eexists _, None. split; [reflexivity|]. exact (Hfold []).
    + intros [= <-]. eexists _, None. split; [reflexivity|].
      exact (Hfold (row :: rows)).
Qed.

Lemma summary_municipios data network m :
  RefRows.data_ok data ->
  m ∈ municipios (summary data network) ->
  RefRows.entry_ok (e_cve_mun m) m.
Proof.
  intros [_ Hall] Hin. simpl in Hin. apply elem_of_sorted in Hin.
  unfold dict_values in Hin. apply list_elem_of_fmap in Hin as ([k m'] & -> & Hin).
  simpl. pose proof (Hall k m' Hin) as Hm. destruct Hm as (Hk & Hu & Hr).
  rewrite Hk. by split_and!.
Qed.

Lemma summary_keys data network :
  RefRows.data_ok data ->
  NoDup (e_cve_mun <$> municipios (summary data network)).
Proof.
  intros [Hnd Hall]. simpl. rewrite sorted_perm.
  assert (e_cve_mun <$> dict_values data = dict_keys data) as ->; [|done].
  unfold dict_values, dict_keys. clear Hnd.
  induction data as [|[k m] data IH]; simpl; [done|]. f_equal.
  - by destruct (Hall k m) as [-> _]; [left|].
  - apply IH. intros k' m' Hin. apply Hall. by right.
Qed.

End DetectInvariant.

(** X13: the buffer detection lists a row of the localities frame exactly
    when the row meets the buffer, names a municipality, and has, once
    stripped, the [AMBITO] "Urbana" or "Rural"; each such row is listed
    once. The totals count them: urban rows, rural rows, their sum, and
    the number of municipalities returned. *)
Theorem euclidean_detection_counts `{GeoKernel}
    (self : LocalityDetector.t) (buffered : Geometry) :
  let d := LocalityDetector._detect_euclidean self buffered in
  LocalityDetector.total_urbanas d
  = length (filter (RefDetect.listed_as "Urbana" buffered)
              (LocalityDetector.marco_gdf self)) /\
  LocalityDetector.total_rurales d
  = length (filter (RefDetect.listed_as "Rural" buffered)
              (LocalityDetector.marco_gdf self)) /\
  LocalityDetector.total_localidades d
  = (LocalityDetector.total_urbanas d + LocalityDetector.total_rurales d)%nat /\
  LocalityDetector.total_municipios d = length (LocalityDetector.municipios d) /\
  LocalityDetector.attended d
  ≡ₚ LocalityDetector.l_CVEGEO
       <$> filter (fun row => RefDetect.listed_as "Urbana" buffered row
                              \/ RefDetect.listed_as "Rural" buffered row)
                  (LocalityDetector.marco_gdf self).
Proof.
  intros d. subst d. unfold LocalityDetector._detect_euclidean.
  destruct (euclidean_lists self buffered) as (Hu & Hr & Hall).
  set (data := foldl _ _ _) in *. unfold LocalityDetector.summary. simpl.
  split_and!; [| |done|done|].
  - rewrite sum_list_length_bind, sorted_perm, Hu. apply length_fmap.
  - rewrite sum_list_length_bind, sorted_perm, Hr. apply length_fmap.
  - unfold LocalityDetector.attended. simpl.
    rewrite <- (fmap_bind_list LocalityDetector.cvegeo
                  (fun m => LocalityDetector.localidades_urbanas m
                            ++ LocalityDetector.localidades_rurales m)).
    rewrite sorted_perm, Hall, <- list_fmap_compose. done.
Qed.

(** X14: the municipalities [detect] returns are in the order of their
    names: each one is named at most as the one that follows it. *)
Theorem detect_municipios_sorted `{GeoKernel}
    (self : LocalityDetector.t) (gpx : Geometry) (use_network : bool) d :
  LocalityDetector.detect self gpx use_network = Ok d ->
  RefDetect.sorted_by_name (LocalityDetector.municipios d).
Proof.
  intros Hd. apply detect_summary in Hd as (data & network & -> & _).
  intros i a b Ha Hb. simpl in Ha, Hb.
  exact (ascending_lookup LocalityDetector.e_nombre _ i a b
           (sorted_ascending _ _) Ha Hb).
Qed.

(** X15: [detect] returns each municipality key once, and files every
    locality under its own municipality and kind: the localities in the
    urban list of a municipality carry its key and the [ambito] "Urbana",
    those in its rural list carry its key and "Rural". *)
Theorem detect_localities_filed `{GeoKernel}
    (self : LocalityDetector.t) (gpx : Geometry) (use_network : bool) d :
  LocalityDetector.detect self gpx use_network = Ok d ->
  NoDup (LocalityDetector.e_cve_mun <$> LocalityDetector.municipios d) /\
  forall m, m ∈ LocalityDetector.municipios d ->
    (forall loc, loc ∈ LocalityDetector.localidades_urbanas m ->
       LocalityDetector.cve_mun loc = LocalityDetector.e_cve_mun m /\
       LocalityDetector.ambito loc = "Urbana"%string) /\
    (forall loc, loc ∈ LocalityDetector.localidades_rurales m ->
       LocalityDetector.cve_mun loc = LocalityDetector.e_cve_mun m /\
       LocalityDetector.ambito loc = "Rural"%string).
Proof.
  intros Hd. apply detect_summary in Hd as (data & network & -> & Hok).
  split; [by apply summary_keys|].
  intros m Hm. by destruct (summary_municipios data network m Hok Hm) as (_ & ? & ?).
Qed.

(** X16: without the network (it is not asked for, or there is no
    analyzer) [detect] returns what the buffer detection returns on the
    track buffered by the walking distance in degrees, only without the
    [network_analysis] entry; its early return for an empty intersection
    gives the same result. *)
Theorem detect_without_network `{GeoKernel}
    (self : LocalityDetector.t) (gpx : Geometry) (use_network : bool) :
  use_network = false \/ LocalityDetector.network_analyzer self = None ->
  LocalityDetector.detect self gpx use_network
  = Ok (RefDetect.with_network_analysis
          (LocalityDetector._detect_euclidean self
             (buffer gpx (LocalityDetector.buffer_deg self)))
          None).
Proof.
  intros Hno. unfold LocalityDetector.detect.
  assert (use_network
          && match LocalityDetector.network_analyzer self with
             | Some na => NetworkAnalyzer.graph_truthy na
             | None => false
             end = false) as ->.
  { destruct Hno as [->| ->]; [done|]. by destruct use_network. }
  unfold LocalityDetector._detect_euclidean.
  set (buffered := buffer gpx (LocalityDetector.buffer_deg self)).
  rewrite (foldl_filter
             (fun row => intersects (LocalityDetector.l_geometry row) buffered)
             (fun data row => LocalityDetector.add_locality self data _)).
  destruct (filter _ (LocalityDetector.marco_gdf self)) as [|row rows]; [|done].
  by destruct (match LocalityDetector.municipios_gdf self with
               | Some _ => _ | None => _ end).
Qed.

Section FarTrack.
Context `{GeoKernel}.

(** A track far from every node has no service area. *)
Lemma far_track_no_service_area shapefile na route max_distance :
  NetworkAnalyzer._load_and_build_network shapefile = Ok na ->
  (forall p n c,
     p ∈ NetworkAnalyzer.sample_points (NetworkAnalyzer.route_line route) 100 ->
     (n, c) ∈ NetworkAnalyzer.node_coords na -> 500 <= norm p c) ->
  NetworkAnalyzer.calculate_service_area na route max_distance = Ok (∅, ∅).
Proof.
  intros Hb Hfar. pose proof (build_wf _ _ Hb) as Hwf.
  unfold NetworkAnalyzer.calculate_service_area.
  destruct (NetworkAnalyzer.graph na) as [G|] eqn:HG; [|done].
  unfold NetworkAnalyzer.find_nearest_nodes_on_route.
  destruct (NetworkAnalyzer.coord_tree na) as [pts|] eqn:Ht; [|done].
  rewrite (collect_nodes_far na _ ∅ Hwf (ltac:(rewrite HG; eauto)) Hfar).
  simpl. by rewrite elements_empty.
Qed.

Lemma built_graph_truthy rows na :
  NetworkAnalyzer._load_and_build_network (Some rows) = Ok na ->
  NetworkAnalyzer.graph_truthy na = true.
Proof.
  intros Hb. pose proof (build_wf _ _ Hb) as Hwf.
  destruct (build_graph _ _ Hb) as [G HG].
  unfold NetworkAnalyzer.graph_truthy, Built.wf in *. rewrite HG in *.
  destruct Hwf as (_ & _ & _ & _ & Hne). by apply bool_decide_eq_true.
Qed.

End FarTrack.

(** X17: with a built network, when every node is 500 m or more from
    every sample point of the track, [detect] falls back to the buffer
    detection: it returns what [_detect_euclidean] returns on the track
    buffered by the walking distance in degrees, marked as not being a
    network analysis. *)
Theorem detect_far_track_falls_back `{GeoKernel}
    (self : LocalityDetector.t) rows na (gpx : Geometry) :
  NetworkAnalyzer._load_and_build_network (Some rows) = Ok na ->
  LocalityDetector.network_analyzer self = Some na ->
  (forall p n c,
     p ∈ NetworkAnalyzer.sample_points (NetworkAnalyzer.route_line gpx) 100 ->
     (n, c) ∈ NetworkAnalyzer.node_coords na -> 500 <= norm p c) ->
  LocalityDetector.detect self gpx true
  = Ok (LocalityDetector._detect_euclidean self
          (buffer gpx (LocalityDetector.buffer_deg self))) /\
  LocalityDetector.network_analysis
    (LocalityDetector._detect_euclidean self
       (buffer gpx (LocalityDetector.buffer_deg self))) = Some false.
Proof.
  intros Hb Hna Hfar. split; [|done].
  unfold LocalityDetector.detect. rewrite Hna.
  rewrite (built_graph_truthy rows na Hb). simpl.
  unfold LocalityDetector._detect_with_network. rewrite Hna. simpl.
  rewrite (far_track_no_service_area (Some rows) na gpx _ Hb Hfar). simpl.
  by rewrite decide_True.
Qed.

Lemma detect_case_detection :
  LocalityDetector.detect DetectCase.detector Cases.track false
  = Ok DetectCase.detection.
Proof. apply ok_value. vm_cast_no_check (eq_refl true). Defined.

Lemma detect_municipios_sorted_witness :
  LocalityDetector.detect DetectCase.detector Cases.track false
  = Ok DetectCase.detection /\
  RefDetect.sorted_by_name (LocalityDetector.municipios DetectCase.detection).
Proof.
  split; [exact detect_case_detection|].
  exact (detect_municipios_sorted DetectCase.detector Cases.track false
           DetectCase.detection detect_case_detection).
Defined.

Lemma detect_localities_filed_witness :
  LocalityDetector.detect DetectCase.detector Cases.track false
  = Ok DetectCase.detection /\
  NoDup (LocalityDetector.e_cve_mun
           <$> LocalityDetector.municipios DetectCase.detection).
Proof.
  split; [exact detect_case_detection|].
  exact (proj1 (detect_localities_filed DetectCase.detector Cases.track false
                  DetectCase.detection detect_case_detection)).
Defined.

Lemma detect_without_network_witness :
  (false = false \/
   LocalityDetector.network_analyzer DetectCase.detector = None) /\
  LocalityDetector.detect DetectCase.detector Cases.track false
  = Ok (RefDetect.with_network_analysis
          (LocalityDetector._detect_euclidean DetectCase.detector
             (buffer Cases.track (LocalityDetector.buffer_deg DetectCase.detector)))
          None).
Proof.
  split; [left; reflexivity|].
  exact (detect_without_network DetectCase.detector Cases.track false
           (or_introl eq_refl)).
Defined.

Lemma detect_far_track_falls_back_witness :
  NetworkAnalyzer._load_and_build_network (Some Cases.rows) = Ok Cases.analyzer /\
  LocalityDetector.network_analyzer DetectCase.detector = Some Cases.analyzer /\
  (forall p n c,
     p ∈ NetworkAnalyzer.sample_points
           (NetworkAnalyzer.route_line Cases.far_track) 100 ->
     (n, c) ∈ NetworkAnalyzer.node_coords Cases.analyzer -> 500 <= norm p c) /\
  LocalityDetector.detect DetectCase.detector Cases.far_track true
  = Ok (LocalityDetector._detect_euclidean DetectCase.detector
          (buffer Cases.far_track
             (LocalityDetector.buffer_deg DetectCase.detector))).
Proof.
  assert (Hfar : forall p n c,
     p ∈ NetworkAnalyzer.sample_points
           (NetworkAnalyzer.route_line Cases.far_track) 100 ->
     (n, c) ∈ NetworkAnalyzer.node_coords Cases.analyzer -> 500 <= norm p c).
  { apply all_far_sound. vm_compute. reflexivity. }
  split_and!; [exact cases_analyzer_built|reflexivity|exact Hfar|].
  exact (proj1 (detect_far_track_falls_back DetectCase.detector Cases.rows
                  Cases.analyzer Cases.far_track cases_analyzer_built eq_refl
                  Hfar)).
Defined.

(** ** More on the map matcher *)

Section Rounding.

(** Rounding keeps a value between two integers. *)
Lemma py_round_between (a b : Z) (x : Q) (n : nat) :
  inject_Z a <= x -> x <= inject_Z b ->
  inject_Z a <= py_round x n /\ py_round x n <= inject_Z b.
Proof.
  intros Ha Hb. unfold py_round.
  set (p := (10 ^ Z.of_nat n)%Z).
  assert (0 < p)%Z as Hp by (subst p; apply Z.pow_pos_nonneg; lia).
  assert (0 < inject_Z p) as Hp'.
  { change 0 with (inject_Z 0). by rewrite <- Zlt_Qlt. }
  destruct (round_half_even_between (a * p) (b * p) (x * inject_Z p)) as [H1 H2].
  { rewrite inject_Z_mult. by apply Qmult_le_compat_r; [|apply Qlt_le_weak]. }
  { rewrite inject_Z_mult. by apply Qmult_le_compat_r; [|apply Qlt_le_weak]. }
  rewrite Zle_Qle in H1, H2. rewrite inject_Z_mult in H1, H2.
  split.
  - apply Qle_shift_div_l; [done|]. done.
  - apply Qle_shift_div_r; [done|]. done.
Qed.

End Rounding.

Section MatchLists.
Context `{GeoKernel}.
Import MapMatcher.

(** What the candidate loop keeps: nothing yet, or a row of the frame
    with its distance to the point. *)
Lemma nearest_candidate_row self point positions : forall min_dist best md' best',
  nearest_candidate self point positions min_dist best = Ok (md', best') ->
  (forall m b, min_dist = Fin m -> best = Some b ->
     exists row geom, rnc_gdf self !! b = Some row /\ geometry row = Some geom /\
                      m = distance point geom) ->
  forall m b, md' = Fin m -> best' = Some b ->
    exists row geom, rnc_gdf self !! b = Some row /\ geometry row = Some geom /\
                     m = distance point geom.
Proof.
  induction positions as [|idx positions IH];
    intros min_dist best md' best' Hn Hinv; simpl in Hn.
  - injection Hn as <- <-. done.
  - destruct (rnc_gdf self !! idx) as [row|] eqn:Hrow; [|done].
    destruct (geometry row) as [geom|] eqn:Hgeom; [|done].
    destruct (match min_dist with Inf => true | Fin m => Qltb _ m end).
    + apply (IH _ _ _ _ Hn). intros m b [= <-] [= <-]. by exists row, geom.
    + by apply (IH _ _ _ _ Hn).
Qed.

Lemma match_point_Some self i point m :
  match_point self i point = Ok (Some m) ->
  orden m = i /\ distance_m m <= buffer_m self /\
  exists row geom,
    rnc_gdf self !! index m = Some row /\ geometry row = Some geom /\
    distance_m m = distance point geom * 111000.
Proof.
  unfold match_point. destruct (candidates_of self point) as [|j js]; [done|].
  destruct (nearest_candidate self point (j :: js) Inf None)
    as [[md best]| |] eqn:Hn; simpl; try done.
  destruct md as [d|]; [|done]. destruct best as [b|]; [|done].
  destruct (Qle_bool (d * 111000) (buffer_m self)) eqn:Hle; [|done].
  intros [= <-]. simpl. apply Qle_bool_iff in Hle.
  split_and!; [done|done|].
  destruct (nearest_candidate_row self point _ _ _ _ _ Hn) with (m := d) (b := b)
    as (row & geom & Hrow & Hgeom & ->); [done|done|done|].
  by exists row, geom.
Qed.

Lemma match_points_lookup self points : forall i0 per,
  match_points self i0 points = Ok per ->
  length per = length points /\
  forall k r, per !! k = Some r ->
    exists point, points !! k = Some point /\
                  match_point self (i0 + k) point = Ok r.
Proof.
  induction points as [|point points IH]; intros i0 per Hm; simpl in Hm.
  - injection Hm as <-. split; [done|]. intros k r Hk. by destruct k.
  - destruct (match_point self i0 point) as [r0| |] eqn:Hp; simpl in Hm; try done.
    destruct (match_points self (S i0) points) as [per'| |] eqn:Hps;
      simpl in Hm; try done.
    injection Hm as <-. destruct (IH _ _ Hps) as [Hlen Hk]. split.
    + simpl. by rewrite Hlen.
    + intros [|k] r Hr; simpl in Hr.
      * injection Hr as <-. exists point. split; [done|].
        by rewrite Nat.add_0_r.
      * destruct (Hk k r Hr) as (pt & Hpt & Hmp). exists pt. split; [done|].
        by rewrite Nat.add_succ_r.
Qed.

Lemma omap_id_split {A} (l : list (option A)) :
  (length (filter (fun m => m = None) l) + length (omap id l))%nat = length l.
Proof.
  induction l as [|[a|] l IH]; [done|..].
  - rewrite filter_cons, decide_False by done.
    change (omap id (Some a :: l)) with (a :: omap id l).
    rewrite !length_cons. lia.
  - rewrite filter_cons, decide_True by done.
    change (omap id (None :: l)) with (omap id l).
    rewrite !length_cons. lia.
Qed.

(** The matched entries of a track, in the order of the track. *)
Lemma matched_in_order self points : forall i0 per,
  match_points self i0 points = Ok per ->
  (forall m, m ∈ omap id per ->
     (i0 <= orden m)%nat /\
     exists point, points !! (orden m - i0)%nat = Some point /\
                   match_point self (orden m) point = Ok (Some m)) /\
  (forall i j a b, (i < j)%nat ->
     omap id per !! i = Some a -> omap id per !! j = Some b ->
     (orden a < orden b)%nat).
Proof.
  induction points as [|point points IH]; intros i0 per Hm; simpl in Hm.
  - injection Hm as <-. split.
    + intros m Hin. by apply elem_of_nil in Hin.
    + intros i j a b _ Ha. by destruct i.
  - destruct (match_point self i0 point) as [r0| |] eqn:Hp; simpl in Hm; try done.
    destruct (match_points self (S i0) points) as [per'| |] eqn:Hps;
      simpl in Hm; try done.
    injection Hm as <-. destruct (IH _ _ Hps) as [Hin Hord].
    assert (forall m, m ∈ omap id per' ->
      (i0 <= orden m)%nat /\
      exists pt, (point :: points) !! (orden m - i0)%nat = Some pt /\
                 match_point self (orden m) pt = Ok (Some m)) as Hin'.
    { intros m Hm. destruct (Hin m Hm) as (Hle & pt & Hpt & Hmp).
      split; [lia|]. exists pt. split; [|done].
      replace (orden m - i0)%nat with (S (orden m - S i0)) by lia. done. }
    destruct r0 as [m0|]; simpl.
    + pose proof (match_point_Some _ _ _ _ Hp) as (Ho & _).
      split.
      * intros m Hm. apply elem_of_cons in Hm as [->|Hm]; [|by apply Hin'].
        split; [lia|]. exists point. rewrite Ho, Nat.sub_diag. done.
      * intros [|i] [|j] a b Hlt Ha Hb; simpl in *; try lia.
        -- injection Ha as <-.
           assert (b ∈ omap id per') as Hb' by (by eapply list_elem_of_lookup_2).
           destruct (Hin b Hb') as [Hle _]. lia.
        -- apply (Hord i j a b); [lia|done|done].
    + split; [done|]. intros i j a b. apply Hord.
Qed.

End MatchLists.

Section MatchResults.
Context `{GeoKernel}.
Import MapMatcher.

(** The parts of a result of [match]. *)
Lemma match_inv self res :
  match_ self = Ok res ->
  exists per,
    match_points self 0 (gpx self) = Ok per /\
    matched_segments res = omap id per /\
    unmatched_points res = length (filter (fun m => m = None) per) /\
    total_points res = length (gpx self).
Proof.
  unfold match_.
  destruct (match_points self 0 (gpx self)) as [per| |]; simpl; try done.
  intros [= <-]. by exists per.
Qed.

Lemma matched_spec self res m :
  match_ self = Ok res -> m ∈ matched_segments res ->
  (orden m < total_points res)%nat /\
  distance_m m <= buffer_m self /\
  exists point row geom,
    gpx self !! orden m = Some point /\
    rnc_gdf self !! index m = Some row /\ geometry row = Some geom /\
    distance_m m = distance point geom * 111000.
Proof.
  intros Hres Hm. destruct (match_inv self res Hres) as (per & Hper & Hms & _ & Ht).
  rewrite Hms in Hm.
  destruct (matched_in_order self _ _ _ Hper) as [Hin _].
  destruct (Hin m Hm) as (_ & point & Hpoint & Hmp).
  rewrite Nat.sub_0_r in Hpoint.
  destruct (match_point_Some _ _ _ _ Hmp) as (_ & Hle & row & geom & Hrow & Hg & Hd).
  split_and!; [|done|by exists point, row, geom].
  rewrite Ht. by eapply lookup_lt_Some.
Qed.

Lemma Qsum_nonneg (l : list Q) : Forall (fun x => 0 <= x) l -> 0 <= Qsum l.
Proof.
  unfold Qsum. induction 1 as [|x l Hx Hl IH]; simpl; [done|]. lra.
Qed.

End MatchResults.

(** X18: the counts of [match] add up: every track point is either in the
    matched list or counted as unmatched, and the total is the number of
    points of the track. *)
Theorem match_counts_add_up `{GeoKernel} (self : MapMatcher.t) res :
  MapMatcher.match_ self = Ok res ->
  (MapMatcher.unmatched_points res + length (MapMatcher.matched_segments res))%nat
  = MapMatcher.total_points res /\
  MapMatcher.total_points res = length (MapMatcher.gpx self).
Proof.
  intros Hres. destruct (match_inv self res Hres) as (per & Hper & -> & -> & ->).
  split; [|done]. rewrite omap_id_split.
  by destruct (match_points_lookup self _ _ _ Hper) as [-> _].
Qed.


(** X20: with distances that are not negative, the confidence and the
    match rate [match] reports lie between 0 and 100, and when no point is
    matched the confidence is 0 and there is no average distance. *)
Theorem match_scores_in_range `{GeoKernel} (self : MapMatcher.t) res :
  (forall point geom, 0 <= distance point geom) ->
  MapMatcher.match_ self = Ok res ->
  (0 <= MapMatcher.confidence res /\ MapMatcher.confidence res <= 100) /\
  (0 <= MapMatcher.match_rate_pct res /\ MapMatcher.match_rate_pct res <= 100) /\
  (MapMatcher.matched_segments res = [] ->
   MapMatcher.confidence res == 0 /\ MapMatcher.distance_avg_m res = None).
Proof.
  intros Hdist Hres.
  assert (forall m, m ∈ MapMatcher.matched_segments res ->
            0 <= MapMatcher.distance_m m /\
            MapMatcher.distance_m m <= MapMatcher.buffer_m self) as Hm.
  { intros m Hin.
    destruct (matched_spec self res m Hres Hin)
      as (_ & Hle & point & row & geom & _ & _ & _ & Hd).
    split; [|done]. rewrite Hd. specialize (Hdist point geom). nra. }
  pose proof (match_counts_add_up self res Hres) as [Hcount Htotal].
  unfold MapMatcher.match_ in Hres.
  destruct (MapMatcher.match_points self 0 (MapMatcher.gpx self))
    as [per| |]; simpl in Hres; try done.
  injection Hres as <-. simpl in *.
  set (matched := omap id per) in *.
  set (unmatched := length (filter (fun m => m = None) per)) in *.
  match goal with
  | |- (0 <= py_round ?c 1 /\ _) /\ _ =>
      assert (inject_Z 0 <= c /\ c <= inject_Z 100) as [Hc0 Hc1]
  end.
  { change (inject_Z 0) with 0. change (inject_Z 100) with 100.
    destruct matched as [|m0 ms] eqn:Hmatched; [done|].
    destruct (Qeq_bool (MapMatcher.buffer_m self) 0) eqn:Hz; [done|].
    change (MapMatcher.distance_m <$> m0 :: ms)
      with (MapMatcher.distance_m m0 :: (MapMatcher.distance_m <$> ms)).
    cbv iota.
    set (ds := MapMatcher.distance_m m0 :: (MapMatcher.distance_m <$> ms)).
    assert (0 < MapMatcher.buffer_m self) as Hpos.
    { destruct (Hm m0) as [H0 Hb]; [left|].
      assert (~ MapMatcher.buffer_m self == 0) as Hne.
      { intros He. apply Qeq_bool_iff in He. congruence. }
      lra. }
    assert (0 <= Qsum ds) as Hsum.
    { apply Qsum_nonneg. subst ds. apply Forall_cons. split.
      - by destruct (Hm m0); [left|].
      - apply Forall_fmap, Forall_forall. intros m Hin. simpl.
        destruct (Hm m); [by right|done]. }
    assert (0 < inject_Z (Z.of_nat (length ds))) as Hn.
    { change 0 with (inject_Z 0). rewrite <- Zlt_Qlt. subst ds. simpl. lia. }
    assert (0 <= Qsum ds / inject_Z (Z.of_nat (length ds))) as Havg.
    { apply Qle_shift_div_l; [done|]. lra. }
    assert (0 <= Qsum ds / inject_Z (Z.of_nat (length ds))
                 / MapMatcher.buffer_m self) as Hq.
    { apply Qle_shift_div_l; [done|]. lra. }
    unfold MapMatcher.Qmax. destruct (Qltb 0 _) eqn:Hlt.
    - apply Qltb_true in Hlt. lra.
    - lra. }
  match goal with
  | |- _ /\ (0 <= ?r /\ _) /\ _ => assert (0 <= r /\ r <= 100) as Hrate
  end.
  { destruct (0 <? length (MapMatcher.gpx self))%nat eqn:Hpos; [|lra].
    apply Nat.ltb_lt in Hpos. apply (py_round_between 0 100).
    all: assert (0 < inject_Z (Z.of_nat (length (MapMatcher.gpx self)))) as Hn
      by (change 0 with (inject_Z 0); rewrite <- Zlt_Qlt; lia).
    all: assert (inject_Z (Z.of_nat unmatched)
                 <= inject_Z (Z.of_nat (length (MapMatcher.gpx self)))) as Hle
      by (rewrite <- Zle_Qle; lia).
    all: assert (0 <= inject_Z (Z.of_nat unmatched)) as Hu
      by (change 0 with (inject_Z 0); rewrite <- Zle_Qle; lia).
    all: set (u := inject_Z (Z.of_nat unmatched)) in *.
    all: set (t := inject_Z (Z.of_nat (length (MapMatcher.gpx self)))) in *.
    all: assert (0 <= u / t) as H0 by (apply Qle_shift_div_l; [done|lra]).
    all: assert (u / t <= 1) as H1 by (apply Qle_shift_div_r; [done|lra]).
    all: change (inject_Z 0) with 0; change (inject_Z 100) with 100; lra. }
  split; [exact (py_round_between 0 100 _ 1 Hc0 Hc1)|].
  split; [exact Hrate|].
  intros ->. done.
Qed.


Section Aligned.
Context `{SnapKernel}.
Import MapMatcher.

Lemma drop_repeats_spec coords : forall last,
  (length (drop_repeats last coords) <= length coords)%nat /\
  (forall c, c ∈ drop_repeats last coords -> c ∈ coords) /\
  (forall i a b,
     (last :: drop_repeats last coords) !! i = Some a ->
     (last :: drop_repeats last coords) !! S i = Some b ->
     coord_eqb b a = false).
Proof.
  induction coords as [|coord coords IH]; intros last; simpl.
  - split_and!; [done|done|]. intros [|i] a b Ha Hb; done.
  - destruct (coord_eqb coord last) eqn:He.
    + destruct (IH last) as (Hlen & Hin & Hadj). split_and!; [lia| |done].
      intros c Hc. right. by apply Hin.
    + destruct (IH coord) as (Hlen & Hin & Hadj). split_and!; [simpl; lia| |].
      * intros c Hc. apply elem_of_cons in Hc as [->|Hc]; [left|].
        right. by apply Hin.
      * intros [|i] a b Ha Hb; simpl in *.
        -- injection Ha as <-. injection Hb as <-. done.
        -- by apply (Hadj i).
Qed.

Lemma align_segments_spec self segs : forall coords,
  align_segments self segs = Ok coords ->
  (length coords <= length segs)%nat /\
  forall c, c ∈ coords ->
    exists seg, seg ∈ segs /\ align_segment self seg = Ok (Some c).
Proof.
  induction segs as [|seg segs IH]; intros coords Ha; simpl in Ha.
  - injection Ha as <-. split; [done|]. intros c Hc. by apply elem_of_nil in Hc.
  - destruct (align_segment self seg) as [c0| |] eqn:Hseg; simpl in Ha; try done.
    destruct (align_segments self segs) as [cs| |] eqn:Hsegs; simpl in Ha;
      try done.
    injection Ha as <-. destruct (IH cs eq_refl) as [Hlen Hin].
    assert (forall c, c ∈ cs ->
      exists seg', seg' ∈ seg :: segs /\ align_segment self seg' = Ok (Some c))
      as Hin'.
    { intros c Hc. destruct (Hin c Hc) as (seg' & Hs & Hal).
      exists seg'. split; [by right|done]. }
    destruct c0 as [c0|]; simpl.
    + split; [lia|]. intros c Hc. apply elem_of_cons in Hc as [->|Hc].
      * exists seg. split; [left|done].
      * by apply Hin'.
    + split; [lia|done].
Qed.

Lemma align_segments_ok self segs :
  (forall seg, seg ∈ segs -> is_Some (rnc_gdf self !! index seg)) ->
  exists coords, align_segments self segs = Ok coords.
Proof.
  induction segs as [|seg segs IH]; intros Hrows; simpl; [by eexists|].
  assert (exists c, align_segment self seg = Ok c) as [c ->].
  { unfold align_segment. destruct (gpx self !! orden seg); [|by eexists].
    destruct (Hrows seg) as [row ->]; [left|]. by eexists. }
  destruct IH as [cs ->]; [intros s Hs; apply Hrows; by right|].
  simpl. by eexists.
Qed.

End Aligned.

(** X21: the aligned geometry is the track itself when nothing is
    matched; when it is a new line, the line has at least two coordinates
    and at most one per matched point, no two consecutive coordinates of
    it are equal, and each is what the alignment of some matched point
    gives (its nearest point on the road, or the track point itself). *)
Theorem aligned_geometry_shape `{SnapKernel}
    (self : MapMatcher.t) (matched : list MapMatcher.Match) :
  (matched = [] ->
   MapMatcher._build_aligned_geometry self matched = Ok MapMatcher.Original) /\
  forall coords,
    MapMatcher._build_aligned_geometry self matched
    = Ok (MapMatcher.Snapped coords) ->
    (2 <= length coords <= length matched)%nat /\
    (forall i a b, coords !! i = Some a -> coords !! S i = Some b ->
                   MapMatcher.coord_eqb b a = false) /\
    (forall c, c ∈ coords ->
       exists seg, seg ∈ matched /\
                   MapMatcher.align_segment self seg = Ok (Some c)).
Proof.
  split; [by intros ->|].
  intros coords. unfold MapMatcher._build_aligned_geometry.
  destruct matched as [|seg0 segs]; [done|].
  destruct (MapMatcher.align_segments self (seg0 :: segs)) as [cs| |] eqn:Ha;
    simpl; try done.
  destruct (align_segments_spec self _ _ Ha) as [Hlen Hin].
  destruct cs as [|first [|second others]]; try done.
  destruct (drop_repeats_spec (second :: others) first) as (Hl & Hsub & Hadj).
  intros Hb.
  assert (match first :: MapMatcher.drop_repeats first (second :: others) with
          | c0 :: c1 :: cs => Ok (MapMatcher.Snapped (c0 :: c1 :: cs))
          | _ => Ok MapMatcher.Original
          end = Ok (MapMatcher.Snapped coords)) as Hb' by exact Hb.
  clear Hb.
  destruct (MapMatcher.drop_repeats first (second :: others)) as [|c1 cs'] eqn:Hd;
    [discriminate Hb'|].
  injection Hb' as <-. split_and!.
  - simpl. lia.
  - simpl in *. lia.
  - exact Hadj.
  - intros c Hc. apply Hin. apply elem_of_cons in Hc as [->|Hc]; [left|].
    right. by apply Hsub.
Qed.

(** X22: for a track whose candidate rows all have a geometry, [match]
    returns together with its aligned geometry: the alignment finds every
    matched row, so it raises no [KeyError]; and a track without any match
    keeps its own geometry. *)
Theorem match_with_geometry_returns `{SnapKernel} (self : MapMatcher.t) :
  (forall point j,
     point ∈ MapMatcher.gpx self -> j ∈ MapMatcher.candidates_of self point ->
     is_Some (Ref.seg_distance self point j)) ->
  exists res aligned,
    MapMatcher.match_with_geometry self = Ok (res, aligned) /\
    MapMatcher.match_ self = Ok res /\
    (MapMatcher.matched_segments res = [] -> aligned = MapMatcher.Original).
Proof.
  intros Hrows.
  destruct (match_points_spec self (MapMatcher.gpx self) 0 Hrows)
    as (per & Hper & _).
  assert (exists res, MapMatcher.match_ self = Ok res) as [res Hres].
  { unfold MapMatcher.match_. rewrite Hper. simpl. by eexists. }
  destruct (align_segments_ok self (MapMatcher.matched_segments res))
    as [coords Hcoords].
  { intros seg Hseg.
    destruct (matched_spec self res seg Hres Hseg)
      as (_ & _ & _ & row & _ & _ & Hrow & _). by exists row. }
  assert (exists aligned,
    MapMatcher._build_aligned_geometry self (MapMatcher.matched_segments res)
    = Ok aligned /\
    (MapMatcher.matched_segments res = [] -> aligned = MapMatcher.Original))
    as (aligned & Hal & Hempty).
  { unfold MapMatcher._build_aligned_geometry.
    destruct (MapMatcher.matched_segments res) as [|seg0 segs];
      [by eexists|].
    rewrite Hcoords. simpl.
    destruct coords as [|first [|second others]];
      try (eexists; split; [reflexivity|intros [=]]).
    destruct (if MapMatcher.coord_eqb second first then _ else _);
      eexists; (split; [reflexivity|intros [=]]). }
  exists res, aligned. split_and!; [|done|done].
  unfold MapMatcher.match_with_geometry. rewrite Hres. simpl.
  by rewrite Hal.
Qed.

(** ** The kernel of boxes *)

Lemma box_distance_nonneg (c : Coord) (g : BoxKernel.geom) :
  0 <= BoxKernel.to_geom c g.
Proof.
  assert (forall lo hi x, 0 <= BoxKernel.along lo hi x) as Halong.
  { intros lo hi x. unfold BoxKernel.along.
    destruct (Qltb x lo) eqn:H1; [apply Qltb_true in H1; lra|].
    destruct (Qltb hi x) eqn:H2; [apply Qltb_true in H2; lra|]. lra. }
  assert (forall b, 0 <= BoxKernel.to_box c b) as Hbox.
  { intros b. unfold BoxKernel.to_box.
    pose proof (Halong (BoxKernel.xmin b) (BoxKernel.xmax b) c.1).
    pose proof (Halong (BoxKernel.ymin b) (BoxKernel.ymax b) c.2). lra. }
  unfold BoxKernel.to_geom. destruct (BoxKernel.g_boxes g) as [|b bs]; [lra|].
  generalize (BoxKernel.to_box c b) (Hbox b).
  induction bs as [|b' bs IH]; intros m Hm; simpl; [done|].
  apply IH. unfold BoxKernel.qmin. by destruct (Qle_bool m _).
Qed.

Lemma box_candidates_have_geometry (self : MapMatcher.t) (point : Coord) j :
  j ∈ MapMatcher.candidates_of self point ->
  is_Some (Ref.seg_distance self point j).
Proof.
  unfold MapMatcher.candidates_of. simpl. unfold BoxKernel.near_rows.
  intros Hj. apply list_elem_of_omap in Hj as ([i0 r0] & Hin & Hr).
  apply elem_of_lookup_imap in Hin as (i & r & Heq & Hi).
  injection Heq as -> ->.
  simpl in Hr. destruct r as [rg|]; [|done].
  assert (j = i) as ->.
  { repeat match type of Hr with
           | context [match ?x with _ => _ end] => destruct x; try done
           end.
    by injection Hr. }
  rewrite list_lookup_fmap in Hi. unfold Ref.seg_distance.
  destruct (MapMatcher.rnc_gdf self !! i) as [row|]; [|done].
  simpl in *. injection Hi as Hg. rewrite Hg. simpl. by eexists.
Qed.

Lemma align_case_matched :
  MapMatcher.match_ AlignCase.matcher = Ok AlignCase.matched.
Proof. apply ok_value. vm_cast_no_check (eq_refl true). Defined.

Lemma align_case_partly_matched :
  MapMatcher.match_ MatcherCase.matcher = Ok AlignCase.partly_matched.
Proof. apply ok_value. vm_cast_no_check (eq_refl true). Defined.

Lemma match_counts_add_up_witness :
  MapMatcher.match_ MatcherCase.matcher = Ok AlignCase.partly_matched /\
  (MapMatcher.unmatched_points AlignCase.partly_matched
   + length (MapMatcher.matched_segments AlignCase.partly_matched))%nat
  = MapMatcher.total_points AlignCase.partly_matched /\
  MapMatcher.total_points AlignCase.partly_matched
  = length (MapMatcher.gpx MatcherCase.matcher).
Proof.
  split; [exact align_case_partly_matched|].
  exact (match_counts_add_up MatcherCase.matcher AlignCase.partly_matched
           align_case_partly_matched).
Defined.


Lemma match_scores_in_range_witness :
  (forall point geom, 0 <= distance point geom) /\
  MapMatcher.match_ AlignCase.matcher = Ok AlignCase.matched /\
  (0 <= MapMatcher.confidence AlignCase.matched /\
   MapMatcher.confidence AlignCase.matched <= 100) /\
  (0 <= MapMatcher.match_rate_pct AlignCase.matched /\
   MapMatcher.match_rate_pct AlignCase.matched <= 100).
Proof.
  split; [exact box_distance_nonneg|]. split; [exact align_case_matched|].
  destruct (match_scores_in_range AlignCase.matcher AlignCase.matched
              box_distance_nonneg align_case_matched) as (Hc & Hr & _).
  split; [exact Hc|exact Hr].
Defined.

Lemma aligned_geometry_shape_witness :
  MapMatcher._build_aligned_geometry AlignCase.matcher
    (MapMatcher.matched_segments AlignCase.matched)
  = Ok (MapMatcher.Snapped AlignCase.snapped_coords) /\
  (2 <= length AlignCase.snapped_coords
   <= length (MapMatcher.matched_segments AlignCase.matched))%nat.
Proof.
  assert (MapMatcher._build_aligned_geometry AlignCase.matcher
            (MapMatcher.matched_segments AlignCase.matched)
          = Ok (MapMatcher.Snapped AlignCase.snapped_coords)) as Hb
    by (vm_compute; reflexivity).
  split; [exact Hb|].
  exact (proj1 (proj2 (aligned_geometry_shape AlignCase.matcher
                         (MapMatcher.matched_segments AlignCase.matched))
                  _ Hb)).
Defined.

Lemma match_with_geometry_returns_witness :
  (forall point j,
     point ∈ MapMatcher.gpx AlignCase.matcher ->
     j ∈ MapMatcher.candidates_of AlignCase.matcher point ->
     is_Some (Ref.seg_distance AlignCase.matcher point j)) /\
  exists res aligned,
    MapMatcher.match_with_geometry AlignCase.matcher = Ok (res, aligned).
Proof.
  assert (forall point j,
     point ∈ MapMatcher.gpx AlignCase.matcher ->
     j ∈ MapMatcher.candidates_of AlignCase.matcher point ->
     is_Some (Ref.seg_distance AlignCase.matcher point j)) as Hrows.
  { intros point j _. apply box_candidates_have_geometry. }
  split; [exact Hrows|].
  destruct (match_with_geometry_returns AlignCase.matcher Hrows)
    as (res & aligned & Hm & _).
  by exists res, aligned.
Defined.

(** ** More on the road attribute summary *)

Section Counters.
Context `{GeoKernel}.
Import RoadAnalyzer.

Lemma dict_get_round_values (d : list (string * Q)) k :
  dict_get (round_values d) k = (fun v => py_round v 3) <$> dict_get d k.
Proof.
  unfold round_values. induction d as [|[k' v] d IH]; simpl; [done|].
  destruct (decide (k' = k)); [done|]. exact IH.
Qed.

Lemma dict_set_keys_existing {K V} `{EqDecision K} (d : list (K * V)) k v :
  is_Some (dict_get d k) -> dict_keys (dict_set d k v) = dict_keys d.
Proof.
  unfold dict_keys. induction d as [|[k' v'] d IH]; simpl.
  - by intros [? ?].
  - destruct (decide (k' = k)) as [->|Hk]; [done|].
    intros Hs. simpl. f_equal. by apply IH.
Qed.

End Counters.

Section Loops.
Context `{GeoKernel} {arith : Arith}.
Import RoadAnalyzer.

Lemma segment_length_km_inv rnc_gdf idx km :
  segment_length_km rnc_gdf idx = Ok km -> Ref.segment_km rnc_gdf idx = Some km.
Proof.
  unfold segment_length_km, Ref.segment_km.
  destruct (rnc_gdf !! idx) as [row|]; [|done]. simpl.
  destruct (geometry row); [|done]. simpl. by intros [= <-].
Qed.

Lemma total_length_valid rnc_gdf keys : forall acc total,
  total_length rnc_gdf keys acc = Ok total ->
  forall i, i ∈ keys -> is_Some (Ref.segment_km rnc_gdf i).
Proof.
  induction keys as [|idx keys IH]; intros acc total Ht i Hi; simpl in Ht.
  - by apply elem_of_nil in Hi.
  - destruct (segment_length_km rnc_gdf idx) as [km| |] eqn:Hkm; simpl in Ht;
      try done.
    apply elem_of_cons in Hi as [->|Hi].
    + apply segment_length_km_inv in Hkm. by eexists.
    + by eapply IH.
Qed.

Lemma total_length_raises rnc_gdf keys : forall acc i,
  i ∈ keys -> Ref.segment_km rnc_gdf i = None ->
  exists e, total_length rnc_gdf keys acc = Raise e /\
            (e = KeyError \/ e = AttributeError) /\
            ((forall row, row ∈ rnc_gdf -> is_Some (geometry row)) ->
             e = KeyError).
Proof.
  induction keys as [|idx keys IH]; intros acc i Hi Hnone; simpl.
  - by apply elem_of_nil in Hi.
  - unfold segment_length_km at 1.
    destruct (rnc_gdf !! idx) as [row|] eqn:Hrow; simpl.
    2: { exists KeyError. split_and!; [done|by left|done]. }
    destruct (geometry row) as [geom|] eqn:Hg; simpl.
    2: { exists AttributeError. split_and!; [done|by right|].
         intros Hall. apply list_elem_of_lookup_2 in Hrow.
         destruct (Hall row Hrow) as [? ?]. congruence. }
    apply elem_of_cons in Hi as [->|Hi]; [|by apply (IH _ i)].
    unfold Ref.segment_km in Hnone. rewrite Hrow in Hnone. simpl in Hnone.
    by rewrite Hg in Hnone.
Qed.

(** The parts of a run of both loops. *)
Lemma accumulate_inv rnc_gdf matched total counters :
  accumulate rnc_gdf matched = Ok (total, counters) ->
  (forall i, i ∈ dict_keys (segment_usage matched) ->
             is_Some (Ref.segment_km rnc_gdf i)) /\
  total_length rnc_gdf (dict_keys (segment_usage matched)) 0 = Ok total /\
  classify_all rnc_gdf empty_counters (dict_keys (segment_usage matched))
  = Ok counters.
Proof.
  unfold accumulate. intros Ha.
  destruct (total_length rnc_gdf _ 0) as [t| |] eqn:Ht; simpl in Ha; try done.
  destruct (classify_all rnc_gdf empty_counters _) as [c| |] eqn:Hc;
    simpl in Ha; try done.
  injection Ha as <- <-. split_and!; [|done|done].
  by eapply total_length_valid.
Qed.

End Loops.

Section Accumulate.
Context `{GeoKernel}.
Import RoadAnalyzer.

Lemma segment_km_nonneg rnc_gdf idx km :
  RefRoads.lengths_nonneg rnc_gdf ->
  Ref.segment_km rnc_gdf idx = Some km -> 0 <= km.
Proof.
  unfold Ref.segment_km. intros Hl.
  destruct (rnc_gdf !! idx) as [row|] eqn:Hrow; [|done]. simpl.
  destruct (geometry row) as [geom|] eqn:Hg; [|done]. simpl.
  intros [= <-]. apply list_elem_of_lookup_2 in Hrow.
  specialize (Hl row geom Hrow Hg). lra.
Qed.

Lemma dict_add_nonneg (d : list (string * Q)) k x :
  0 <= x -> Forall (fun v => 0 <= v) (dict_values d) ->
  Forall (fun v => 0 <= v) (dict_values (dict_add d k x)).
Proof.
  intros Hx Hd. apply Forall_forall. intros v Hv. unfold dict_add in Hv.
  apply elem_of_dict_set_values in Hv as [->|Hv].
  - destruct (dict_get d k) as [v0|] eqn:Hget; simpl; [|lra].
    apply dict_get_values in Hget. rewrite Forall_forall in Hd.
    specialize (Hd v0 Hget). simpl in Hd. lra.
  - rewrite Forall_forall in Hd. by apply Hd.
Qed.

(** What one segment keeps of the invariants of the counters. *)
Lemma classify_inv rnc_gdf acc idx acc' :
  RefRoads.lengths_nonneg rnc_gdf ->
  classify rnc_gdf acc idx = Ok acc' ->
  (Forall (fun v => 0 <= v) (dict_values (c_superficie acc)) ->
   Forall (fun v => 0 <= v) (dict_values (c_superficie acc'))) /\
  (Forall (fun v => 0 <= v) (dict_values (c_administracion acc)) ->
   Forall (fun v => 0 <= v) (dict_values (c_administracion acc'))) /\
  (Forall (fun v => 0 <= v) (dict_values (c_tipo_vialidad acc)) ->
   Forall (fun v => 0 <= v) (dict_values (c_tipo_vialidad acc'))) /\
  (RefRoads.na_within acc -> RefRoads.na_within acc').
Proof.
  intros Hl. unfold classify.
  destruct (rnc_gdf !! idx) as [row|] eqn:Hrow; [|done].
  destruct (segment_length_km rnc_gdf idx) as [km| |] eqn:Hkm; simpl; try done.
  intros [= <-]. simpl.
  assert (0 <= km) as Hkm0.
  { apply segment_length_km_inv in Hkm. by eapply segment_km_nonneg. }
  split_and!; try (by apply dict_add_nonneg).
  unfold RefRoads.na_within. simpl. intros (H1 & H2 & H3 & H4).
  rewrite !dict_get_dict_add.
  split_and!.
  - destruct (is_na (COND_PAV row)); lra.
  - destruct (is_na (COND_PAV row)).
    + rewrite decide_True by done. simpl. lra.
    + destruct (decide (_ = _)) as [He|He]; simpl; [|done].
      rewrite <- He. lra.
  - destruct (is_na (ADMINISTRA row)); lra.
  - destruct (is_na (ADMINISTRA row)).
    + rewrite decide_True by done. simpl. lra.
    + destruct (decide (_ = _)) as [He|He]; simpl; [|done].
      rewrite <- He. lra.
Qed.

Lemma classify_all_inv rnc_gdf keys : forall acc acc',
  RefRoads.lengths_nonneg rnc_gdf ->
  classify_all rnc_gdf acc keys = Ok acc' ->
  (Forall (fun v => 0 <= v) (dict_values (c_superficie acc)) ->
   Forall (fun v => 0 <= v) (dict_values (c_superficie acc'))) /\
  (Forall (fun v => 0 <= v) (dict_values (c_administracion acc)) ->
   Forall (fun v => 0 <= v) (dict_values (c_administracion acc'))) /\
  (Forall (fun v => 0 <= v) (dict_values (c_tipo_vialidad acc)) ->
   Forall (fun v => 0 <= v) (dict_values (c_tipo_vialidad acc'))) /\
  (RefRoads.na_within acc -> RefRoads.na_within acc').
Proof.
  induction keys as [|idx keys IH]; intros acc acc' Hl Hc; simpl in Hc.
  - by injection Hc as <-.
  - destruct (classify rnc_gdf acc idx) as [acc1| |] eqn:H1; simpl in Hc;
      try done.
    destruct (classify_inv _ _ _ _ Hl H1) as (A1 & A2 & A3 & A4).
    destruct (IH _ _ Hl Hc) as (B1 & B2 & B3 & B4).
    split_and!; auto.
Qed.

End Accumulate.

Section Within.
Context `{GeoKernel} {arith : Arith}.
Hypothesis Hlaws : AddLaws arith.
Import RoadAnalyzer.

(** What a loop holds in an accumulator: zero, or a sum. *)
#[local] Abbreviation summed t := (t = 0 \/ exists a b, t = fadd a b).

Lemma summed_le t w : summed t -> 0 <= w -> t <= fadd t w.
Proof.
  intros [->|(a & b & ->)] Hw.
  - by apply (fadd_zero_le Hlaws).
  - by apply (fadd_sum_le Hlaws).
Qed.

Lemma fold_nonneg (l : list Q) : forall acc,
  Forall (fun v => 0 <= v) l -> summed acc -> 0 <= acc ->
  0 <= foldl fadd acc l.
Proof.
  induction l as [|v l IH]; intros acc Hl Hs Hacc; simpl; [done|].
  apply Forall_cons in Hl as [Hv Hl]. apply IH; [done|right; eauto|].
  pose proof (summed_le acc v Hs Hv). lra.
Qed.

Lemma lengths_in_nonneg bucket rnc_gdf keys k :
  RefRoads.km_nonneg rnc_gdf ->
  Forall (fun v => 0 <= v) (RefRoads.lengths_in bucket rnc_gdf keys k).
Proof.
  intros Hkm. apply Forall_forall. intros v Hv. unfold RefRoads.lengths_in in Hv.
  apply list_elem_of_omap in Hv as (idx & _ & Hv).
  destruct (rnc_gdf !! idx) as [row|]; [|done]. simpl in Hv.
  destruct (decide (bucket row = k)); [|done]. by apply (Hkm idx).
Qed.

(** A bucket holds some of the lengths the total holds, added in the
    same order, so it is not larger. *)
Lemma bucket_le_total bucket rnc_gdf k keys : forall c t,
  RefRoads.km_nonneg rnc_gdf ->
  (forall i, i ∈ keys -> is_Some (Ref.segment_km rnc_gdf i)) ->
  c <= t -> summed t ->
  foldl fadd c (RefRoads.lengths_in bucket rnc_gdf keys k)
  <= foldl fadd t (omap (Ref.segment_km rnc_gdf) keys).
Proof.
  induction keys as [|idx keys IH]; intros c t Hnn Hvalid Hct Ht; [done|].
  destruct (Hvalid idx) as [km Hkm]; [apply elem_of_cons; by left|].
  assert (exists row, rnc_gdf !! idx = Some row) as [row Hrow].
  { unfold Ref.segment_km in Hkm.
    destruct (rnc_gdf !! idx) as [row|]; [by exists row|done]. }
  assert (forall i, i ∈ keys -> is_Some (Ref.segment_km rnc_gdf i)) as Hvalid'.
  { intros i Hi. apply Hvalid. apply elem_of_cons. by right. }
  pose proof (Hnn idx km Hkm) as Hkm0.
  rewrite (lengths_in_cons _ _ _ _ _ _ _ Hrow Hkm).
  cbn [omap list_omap]. rewrite Hkm. cbn [foldl].
  destruct (decide (bucket row = k)).
  - cbn [foldl]. apply IH; [done|done| |right; eauto].
    by apply (fadd_mono Hlaws).
  - apply IH; [done|done| |right; eauto].
    pose proof (summed_le t km Ht Hkm0). lra.
Qed.

Lemma bucket_within bucket rnc_gdf keys (d : list (string * Q)) :
  RefRoads.km_nonneg rnc_gdf ->
  (forall i, i ∈ keys -> is_Some (Ref.segment_km rnc_gdf i)) ->
  (forall k, dict_get d k
     = match RefRoads.lengths_in bucket rnc_gdf keys k with
       | [] => None
       | l => Some (foldl fadd 0 l)
       end) ->
  RefRoads.entries_within
    (foldl fadd 0 (omap (Ref.segment_km rnc_gdf) keys)) d.
Proof.
  intros Hnn Hvalid Hd k v Hget. rewrite Hd in Hget.
  pose proof (lengths_in_nonneg bucket rnc_gdf keys k Hnn) as Hl.
  pose proof (bucket_le_total bucket rnc_gdf k keys 0 0 Hnn Hvalid) as Hle.
  destruct (RefRoads.lengths_in bucket rnc_gdf keys k) as [|x l]; [done|].
  injection Hget as <-. split.
  - apply (fold_nonneg (x :: l) 0); [done|by left|lra].
  - apply Hle; [lra|by left].
Qed.

End Within.

(** X23: for an addition with the laws of a rounded sum, and roads whose
    lengths in kilometres are not negative, every entry of the three maps
    of [analyze] lies, before rounding, between 0 and the total length:
    no bucket of the surface, administration or road type map exceeds the
    total. *)
Theorem counters_within_total `{GeoKernel} (arith : Arith)
    (rnc_gdf : list RoadRow) (matched : list MapMatcher.Match) total counters :
  AddLaws arith ->
  RefRoads.km_nonneg (arith := arith) rnc_gdf ->
  RoadAnalyzer.accumulate (arith := arith) rnc_gdf matched
  = Ok (total, counters) ->
  RefRoads.entries_within total (RoadAnalyzer.c_superficie counters) /\
  RefRoads.entries_within total (RoadAnalyzer.c_administracion counters) /\
  RefRoads.entries_within total (RoadAnalyzer.c_tipo_vialidad counters).
Proof.
  intros Hlaws Hnn Ha.
  destruct (accumulate_inv _ _ _ _ Ha) as (Hvalid & Ht & Hc).
  rewrite (total_length_fold rnc_gdf _ 0 Hvalid) in Ht. injection Ht as <-.
  destruct (classify_all_buckets rnc_gdf _ RoadAnalyzer.empty_counters Hvalid)
    as (c & Hc' & H1 & H2 & H3).
  rewrite Hc in Hc'. injection Hc' as <-.
  split_and!; eapply (bucket_within Hlaws); eauto.
Qed.

(** X24: the N/A audit values [analyze] reports are included in the
    buckets the defaulted segments are added to: with lengths that are not
    negative, the kilometres reported without a surface are at most the
    kilometres reported under "Con pavimento", and the kilometres reported
    without an administration are at most those reported under
    "Municipal"; neither is negative. *)
Theorem na_kilometres_within_buckets `{GeoKernel}
    (rnc_gdf : list RoadRow) (matched : list MapMatcher.Match) stats :
  RefRoads.lengths_nonneg rnc_gdf ->
  matched <> [] ->
  RoadAnalyzer.analyze rnc_gdf matched = Ok stats ->
  0 <= RoadAnalyzer.superficie_na_km stats /\
  RoadAnalyzer.superficie_na_km stats
  <= default 0 (dict_get (RoadAnalyzer.superficie stats) "Con pavimento"%string) /\
  0 <= RoadAnalyzer.administracion_na_km stats /\
  RoadAnalyzer.administracion_na_km stats
  <= default 0 (dict_get (RoadAnalyzer.administracion stats) "Municipal"%string).
Proof.
  intros Hl Hne Ha. unfold RoadAnalyzer.analyze in Ha.
  destruct matched as [|m0 ms]; [done|].
  destruct (RoadAnalyzer.accumulate rnc_gdf (m0 :: ms)) as [[total counters]| |]
    eqn:Hacc; simpl in Ha; try done.
  injection Ha as <-. simpl.
  destruct (accumulate_inv _ _ _ _ Hacc) as (_ & _ & Hc).
  destruct (classify_all_inv _ _ _ _ Hl Hc) as (_ & _ & _ & Hna).
  destruct Hna as (H1 & H2 & H3 & H4).
  { unfold RefRoads.na_within. simpl. lra. }
  rewrite !dict_get_round_values.
  assert (py_round 0 3 == 0) as Hr0 by reflexivity.
  split_and!.
  - rewrite <- Hr0. by apply py_round_mono.
  - destruct (dict_get (RoadAnalyzer.c_superficie counters) "Con pavimento")
      as [v|]; simpl in *.
    + by apply py_round_mono.
    + rewrite <- Hr0. by apply py_round_mono.
  - rewrite <- Hr0. by apply py_round_mono.
  - destruct (dict_get (RoadAnalyzer.c_administracion counters) "Municipal")
      as [v|]; simpl in *.
    + by apply py_round_mono.
    + rewrite <- Hr0. by apply py_round_mono.
Qed.

(** X25: a track point matched to a segment that an earlier point already
    used changes nothing: [analyze] returns the same result, value or
    exception, with or without that entry at the end of the matched
    list. *)
Theorem repeated_match_changes_nothing `{GeoKernel}
    (rnc_gdf : list RoadRow) (matched : list MapMatcher.Match)
    (m : MapMatcher.Match) :
  MapMatcher.index m ∈ MapMatcher.index <$> matched ->
  RoadAnalyzer.analyze rnc_gdf (matched ++ [m])
  = RoadAnalyzer.analyze rnc_gdf matched.
Proof.
  intros Hin.
  assert (dict_keys (RoadAnalyzer.segment_usage (matched ++ [m]))
          = dict_keys (RoadAnalyzer.segment_usage matched)) as Hkeys.
  { unfold RoadAnalyzer.segment_usage. rewrite foldl_app. simpl.
    apply dict_set_keys_existing.
    destruct (dict_get _ (MapMatcher.index m)) eqn:Hget; [by eexists|].
    apply dict_get_None in Hget. destruct Hget.
    apply (segment_usage_keys matched).
    apply list_elem_of_fmap in Hin as (m' & Hm' & Hin). by exists m'. }
  unfold RoadAnalyzer.analyze, RoadAnalyzer.accumulate. rewrite Hkeys.
  destruct matched as [|m0 ms]; [|done].
  by apply elem_of_nil in Hin.
Qed.

(** X26: when a matched entry names a row that the frame lacks, or a row
    without geometry, [analyze] returns no statistics: it raises, with
    [KeyError] or [AttributeError], and with [KeyError] when every row of
    the frame has a geometry. *)
Theorem analyze_missing_segment_raises `{GeoKernel}
    (rnc_gdf : list RoadRow) (matched : list MapMatcher.Match)
    (m : MapMatcher.Match) :
  m ∈ matched ->
  Ref.segment_km rnc_gdf (MapMatcher.index m) = None ->
  exists e,
    RoadAnalyzer.analyze rnc_gdf matched = Raise e /\
    (e = KeyError \/ e = AttributeError) /\
    ((forall row, row ∈ rnc_gdf -> is_Some (geometry row)) -> e = KeyError).
Proof.
  intros Hm Hnone.
  assert (MapMatcher.index m ∈ dict_keys (RoadAnalyzer.segment_usage matched))
    as Hkey by (apply (segment_usage_keys matched); by exists m).
  destruct (total_length_raises rnc_gdf _ 0 _ Hkey Hnone) as (e & He & Hkind).
  exists e. split; [|done].
  unfold RoadAnalyzer.analyze. destruct matched as [|m0 ms].
  { by apply elem_of_nil in Hm. }
  unfold RoadAnalyzer.accumulate. by rewrite He.
Qed.

(** X27: the summary composes with the matcher: whatever [match] returns
    can be given to [analyze] over the same frame, which then returns
    statistics with a total length, since every matched entry names a row
    with a geometry. *)
Theorem analyze_of_match_returns `{GeoKernel} (self : MapMatcher.t) res :
  MapMatcher.match_ self = Ok res ->
  MapMatcher.matched_segments res <> [] ->
  exists stats total,
    RoadAnalyzer.analyze (MapMatcher.rnc_gdf self)
      (MapMatcher.matched_segments res) = Ok stats /\
    RoadAnalyzer.distancia_rnc_km stats = Some total.
Proof.
  intros Hres Hne.
  set (matched := MapMatcher.matched_segments res) in *.
  assert (forall i, i ∈ dict_keys (RoadAnalyzer.segment_usage matched) ->
            is_Some (Ref.segment_km (MapMatcher.rnc_gdf self) i)) as Hvalid.
  { intros i Hi. apply (segment_usage_keys matched) in Hi as (m & Hm & <-).
    destruct (matched_spec self res m Hres Hm)
      as (_ & _ & point & row & geom & _ & Hrow & Hg & _).
    unfold Ref.segment_km. rewrite Hrow. simpl. rewrite Hg. simpl. by eexists. }
  destruct (total_length_spec exact_add (MapMatcher.rnc_gdf self) _ 0 Hvalid)
    as (t & Ht & _).
  destruct (classify_all_spec exact_add (MapMatcher.rnc_gdf self) _
              RoadAnalyzer.empty_counters Hvalid) as (c & Hc & _).
  unfold RoadAnalyzer.analyze, RoadAnalyzer.accumulate.
  destruct matched as [|m0 ms]; [done|].
  rewrite Ht. simpl. rewrite Hc. simpl. by eexists _, _.
Qed.

Lemma cases_lengths_nonneg : RefRoads.lengths_nonneg Cases.rows.
Proof.
  intros row geom Hrow Hg. unfold Cases.rows in Hrow.
  apply elem_of_cons in Hrow as [->|Hrow].
  { injection Hg as <-. vm_compute. discriminate. }
  apply list_elem_of_singleton in Hrow as ->.
  injection Hg as <-. vm_compute. discriminate.
Defined.

Lemma roads_case_stats :
  RoadAnalyzer.analyze Cases.rows ShortRoadsCase.short_matches
  = Ok RoadsCase.stats.
Proof. apply ok_value. vm_cast_no_check (eq_refl true). Defined.

Lemma float_roads_km_nonneg :
  RefRoads.km_nonneg (arith := Binary64.arith) FloatRoadsCase.rows.
Proof.
  intros idx km Hkm.
  do 3 (destruct idx as [|idx];
        [vm_compute in Hkm; injection Hkm as <-;
         apply Qle_bool_iff; vm_compute; reflexivity|]).
  discriminate Hkm.
Qed.

Lemma counters_within_total_witness :
  AddLaws Binary64.arith /\
  RefRoads.km_nonneg (arith := Binary64.arith) FloatRoadsCase.rows /\
  RoadAnalyzer.accumulate (arith := Binary64.arith)
    FloatRoadsCase.rows FloatRoadsCase.matches
  = Ok (FloatRoadsCase.totals.1, FloatRoadsCase.totals.2) /\
  RefRoads.entries_within FloatRoadsCase.totals.1
    (RoadAnalyzer.c_superficie FloatRoadsCase.totals.2) /\
  RefRoads.entries_within FloatRoadsCase.totals.1
    (RoadAnalyzer.c_administracion FloatRoadsCase.totals.2) /\
  RefRoads.entries_within FloatRoadsCase.totals.1
    (RoadAnalyzer.c_tipo_vialidad FloatRoadsCase.totals.2).
Proof.
  split; [exact binary64_laws|]. split; [exact float_roads_km_nonneg|].
  split; [exact float_roads_totals|].
  exact (counters_within_total Binary64.arith FloatRoadsCase.rows
           FloatRoadsCase.matches _ _ binary64_laws float_roads_km_nonneg
           float_roads_totals).
Defined.

Lemma na_kilometres_within_buckets_witness :
  RefRoads.lengths_nonneg Cases.rows /\
  ShortRoadsCase.short_matches <> [] /\
  RoadAnalyzer.analyze Cases.rows ShortRoadsCase.short_matches
  = Ok RoadsCase.stats /\
  RoadAnalyzer.administracion_na_km RoadsCase.stats
  <= default 0 (dict_get (RoadAnalyzer.administracion RoadsCase.stats)
                  "Municipal"%string).
Proof.
  assert (ShortRoadsCase.short_matches <> []) as Hne by discriminate.
  split; [exact cases_lengths_nonneg|]. split; [exact Hne|].
  split; [exact roads_case_stats|].
  exact (proj2 (proj2 (proj2
           (na_kilometres_within_buckets Cases.rows ShortRoadsCase.short_matches
              RoadsCase.stats cases_lengths_nonneg Hne roads_case_stats)))).
Defined.

Lemma repeated_match_changes_nothing_witness :
  MapMatcher.index {| MapMatcher.index := 1; MapMatcher.distance_m := 0;
                      MapMatcher.orden := 3 |}
  ∈ MapMatcher.index <$> ShortRoadsCase.short_matches /\
  RoadAnalyzer.analyze Cases.rows
    (ShortRoadsCase.short_matches
     ++ [{| MapMatcher.index := 1; MapMatcher.distance_m := 0;
            MapMatcher.orden := 3 |}])
  = RoadAnalyzer.analyze Cases.rows ShortRoadsCase.short_matches.
Proof.
  assert (MapMatcher.index {| MapMatcher.index := 1; MapMatcher.distance_m := 0;
                              MapMatcher.orden := 3 |}
          ∈ MapMatcher.index <$> ShortRoadsCase.short_matches) as Hin.
  { simpl. right. right. left. }
  split; [exact Hin|].
  exact (repeated_match_changes_nothing Cases.rows ShortRoadsCase.short_matches
           _ Hin).
Defined.

Lemma analyze_missing_segment_raises_witness :
  {| MapMatcher.index := 5; MapMatcher.distance_m := 0; MapMatcher.orden := 0 |}
  ∈ RoadsCase.stray_match /\
  Ref.segment_km Cases.rows 5 = None /\
  exists e, RoadAnalyzer.analyze Cases.rows RoadsCase.stray_match = Raise e.
Proof.
  assert ({| MapMatcher.index := 5; MapMatcher.distance_m := 0;
             MapMatcher.orden := 0 |} ∈ RoadsCase.stray_match) as Hin by left.
  split; [exact Hin|]. split; [reflexivity|].
  destruct (analyze_missing_segment_raises Cases.rows RoadsCase.stray_match
              _ Hin eq_refl) as (e & He & _).
  by exists e.
Defined.

Lemma analyze_of_match_returns_witness :
  MapMatcher.match_ AlignCase.matcher = Ok AlignCase.matched /\
  MapMatcher.matched_segments AlignCase.matched <> [] /\
  exists stats total,
    RoadAnalyzer.analyze (MapMatcher.rnc_gdf AlignCase.matcher)
      (MapMatcher.matched_segments AlignCase.matched) = Ok stats /\
    RoadAnalyzer.distancia_rnc_km stats = Some total.
Proof.
  assert (MapMatcher.matched_segments AlignCase.matched <> []) as Hne.
  { assert (length (MapMatcher.matched_segments AlignCase.matched) = 3%nat)
      as Hlen by (vm_compute; reflexivity).
    intros He. rewrite He in Hlen. discriminate Hlen. }
  split; [exact align_case_matched|]. split; [exact Hne|].
  exact (analyze_of_match_returns AlignCase.matcher AlignCase.matched
           align_case_matched Hne).
Defined.

(** * The metrics of a GPX track *)

Lemma py_max_ge (l : list Q) (x : Q) : x <= GPXExtractor.py_max x l.
Proof.
  revert x. induction l as [|y l IH]; intros x; simpl; [lra|].
  destruct (Qltb x y) eqn:E; [|apply IH].
  apply Qltb_true in E. specialize (IH y). lra.
Qed.

Lemma py_max_elem (l : list Q) (x y : Q) :
  y ∈ l -> y <= GPXExtractor.py_max x l.
Proof.
  revert x. induction l as [|z l IH]; intros x Hy; [by apply elem_of_nil in Hy|].
  apply elem_of_cons in Hy as [->|Hy]; simpl.
  - destruct (Qltb x z) eqn:E.
    + apply py_max_ge.
    + apply Qltb_false in E. pose proof (py_max_ge l x). lra.
  - by apply IH.
Qed.

Lemma py_max_bound (l : list Q) (x b : Q) :
  x <= b -> Forall (fun y => y <= b) l -> GPXExtractor.py_max x l <= b.
Proof.
  intros Hx Hl. revert x Hx.
  induction Hl as [|y l Hy Hl IH]; intros x Hx; simpl; [done|].
  destruct (Qltb x y); by apply IH.
Qed.









Lemma py_round_nonneg (x : Q) (n : nat) : 0 <= x -> 0 <= py_round x n.
Proof.
  intros Hx. assert (py_round 0 n == 0) as H0.
  { unfold py_round.
    rewrite (round_half_even_proper (0 * inject_Z (10 ^ Z.of_nat n)) 0)
      by apply Qmult_0_l.
    change (inject_Z (round_half_even 0)) with 0.
    unfold Qdiv. apply Qmult_0_l. }
  rewrite <- H0. by apply py_round_mono.
Qed.



Lemma slope_range (hav : Q -> Q -> Q -> Q -> Q)
    (p1 p2 : GPXExtractor.TrackPoint) (s : Q) :
  GPXExtractor.slope hav p1 p2 = Some s -> Qabs s <= 25.
Proof.
  unfold GPXExtractor.slope. intros Hs.
  destruct (GPXExtractor.ele p1), (GPXExtractor.ele p2); try done.
  destruct (Qltb _ 5); [done|].
  destruct (Qltb 25 _) eqn:E; [done|].
  injection Hs as <-. by apply Qltb_false in E.
Qed.

Lemma slopes_range (hav : Q -> Q -> Q -> Q -> Q)
    (ps : list (GPXExtractor.TrackPoint * GPXExtractor.TrackPoint)) :
  Forall (fun s => Qabs s <= 25)
         (omap (fun p => GPXExtractor.slope hav p.1 p.2) ps).
Proof.
  apply Forall_forall. intros s Hs.
  apply list_elem_of_omap in Hs as (p & _ & Hp). by eapply slope_range.
Qed.

(** X29 ([_analizar_inclinacion]): whatever the distance function and
    however the sum of an average is rounded, the steepest slope reported
    lies between 0 and 25 percent; it is the larger of the steepest climb and
    the steepest descent among the steps counted, so no step that is
    counted (a slope above 0.5 or below -0.5 percent, of a step that
    passes the filters) has a slope that rounds to more; it is 0 when no
    step is counted. An average of the climbs is reported exactly when
    some step has a slope above 0.5 percent, an average of the descents
    exactly when some step has a slope below -0.5 percent. *)
Theorem slope_summary (_haversine : Q -> Q -> Q -> Q -> Q)
    (py_sum : list Q -> Q) (track_points : list GPXExtractor.TrackPoint) :
  let r := GPXExtractor._analizar_inclinacion _haversine py_sum track_points in
  let slopes :=
    omap (fun p => GPXExtractor.slope _haversine p.1 p.2)
         (GPXExtractor.pairs track_points) in
  exists m,
    GPXExtractor.maxima_pct r = Some m /\ 0 <= m /\ m <= 25 /\
    (forall s, s ∈ slopes -> (1 # 2) < s \/ s < - (1 # 2) ->
               py_round (Qabs s) 2 <= m) /\
    ((forall s, s ∈ slopes -> - (1 # 2) <= s /\ s <= (1 # 2)) -> m == 0) /\
    (is_Some (GPXExtractor.promedio_positiva_pct r)
     <-> exists s, s ∈ slopes /\ (1 # 2) < s) /\
    (is_Some (GPXExtractor.promedio_negativa_pct r)
     <-> exists s, s ∈ slopes /\ s < - (1 # 2)).
Proof.
  cbv zeta. unfold GPXExtractor._analizar_inclinacion.
  set (slopes := omap _ _).
  assert (Forall (fun s => Qabs s <= 25) slopes) as Hr
    by apply slopes_range.
  set (pos := filter (fun s => Qltb (1 # 2) s) slopes).
  set (neg := filter (fun s => Qltb s (-(1 # 2))) slopes).
  assert (Hinpos : forall s, s ∈ pos <-> (1 # 2) < s /\ s ∈ slopes).
  { intros s. unfold pos. rewrite list_elem_of_filter.
    by rewrite Is_true_true, Qltb_true. }
  assert (Hinneg : forall s, s ∈ neg <-> s < - (1 # 2) /\ s ∈ slopes).
  { intros s. unfold neg. rewrite list_elem_of_filter.
    by rewrite Is_true_true, Qltb_true. }
  assert (Forall (fun s => 0 <= s /\ s <= 25) (pos ++ (Qabs <$> neg)))
    as Hall.
  { rewrite Forall_forall in Hr. apply Forall_app. split.
    - apply Forall_forall. intros s Hs. apply Hinpos in Hs as [Hs Hin].
      specialize (Hr s Hin). apply Qabs_Qle_condition in Hr. lra.
    - apply Forall_fmap, Forall_forall. intros s Hs.
      apply Hinneg in Hs as [Hs Hin]. specialize (Hr s Hin). simpl.
      split; [apply Qabs_nonneg|done]. }
  cbn [GPXExtractor.maxima_pct GPXExtractor.promedio_positiva_pct
       GPXExtractor.promedio_negativa_pct].
  eexists. split; [reflexivity|].
  assert (py_round 25 2 == 25) as H25 by (by vm_compute).
  split_and!.
  - apply py_round_nonneg. destruct (pos ++ _) as [|x l] eqn:E; [lra|].
    apply Forall_cons in Hall as [[Hx _] _].
    pose proof (py_max_ge l x). lra.
  - rewrite <- H25. apply py_round_mono.
    destruct (pos ++ _) as [|x l] eqn:E; [lra|].
    apply Forall_cons in Hall as [[_ Hx] Hl].
    apply py_max_bound; [done|].
    eapply Forall_impl; [exact Hl|]. simpl. intros s ?. lra.
  - intros s Hs Hcounted. apply py_round_mono.
    assert (exists a, a ∈ pos ++ (Qabs <$> neg) /\ Qabs s <= a)
      as (a & Ha & Hle).
    { destruct Hcounted as [Hup|Hdown].
      - exists s. split.
        + apply elem_of_app. left. by apply Hinpos.
        + rewrite Qabs_pos; lra.
      - exists (Qabs s). split; [|lra].
        apply elem_of_app. right. apply list_elem_of_fmap.
        exists s. split; [done|]. by apply Hinneg. }
    destruct (pos ++ _) as [|x l]; [by apply elem_of_nil in Ha|].
    apply elem_of_cons in Ha as [->|Ha].
    + pose proof (py_max_ge l x). lra.
    + pose proof (py_max_elem l x a Ha). lra.
  - intros Hflat.
    assert (pos = []) as ->.
    { destruct pos as [|x l] eqn:E; [done|].
      assert (x ∈ x :: l) as Hx by left.
      apply Hinpos in Hx as [Hx Hin]. destruct (Hflat x Hin). lra. }
    assert (neg = []) as ->.
    { destruct neg as [|x l] eqn:E; [done|].
      assert (x ∈ x :: l) as Hx by left.
      apply Hinneg in Hx as [Hx Hin]. destruct (Hflat x Hin). lra. }
    by vm_compute.
  - split.
    + intros Hsome. destruct pos as [|x l] eqn:E; [by destruct Hsome|].
      assert (x ∈ x :: l) as Hx by left.
      apply Hinpos in Hx as [Hx Hin]. by exists x.
    + intros (s & Hin & Hs).
      assert (s ∈ pos) as Hp by (by apply Hinpos).
      destruct pos; [by apply elem_of_nil in Hp|]. by eexists.
  - split.
    + intros Hsome. destruct neg as [|x l] eqn:E; [by destruct Hsome|].
      assert (x ∈ x :: l) as Hx by left.
      apply Hinneg in Hx as [Hx Hin]. by exists x.
    + intros (s & Hin & Hs).
      assert (s ∈ neg) as Hp by (by apply Hinneg).
      destruct neg; [by apply elem_of_nil in Hp|]. by eexists.
Qed.

Lemma speed_range (hav : Q -> Q -> Q -> Q -> Q)
    (p1 p2 : GPXExtractor.TrackPoint) (v : Q) :
  GPXExtractor.speed hav p1 p2 = Some v -> (1 # 2) <= v /\ v <= 150.
Proof.
  unfold GPXExtractor.speed. intros Hv.
  destruct (GPXExtractor.p_time p1), (GPXExtractor.p_time p2); try done.
  destruct (Qltb _ (1 # 10000)); [done|].
  destruct (Qltb (1 # 2) _) eqn:E1; [|done].
  destruct (Qltb _ 150) eqn:E2; [|done].
  injection Hv as <-. apply Qltb_true in E1, E2. lra.
Qed.

Lemma py_max_in (l : list Q) (x : Q) : GPXExtractor.py_max x l ∈ x :: l.
Proof.
  revert x. induction l as [|y l IH]; intros x; simpl; [left|].
  destruct (Qltb x y).
  - right. apply IH.
  - specialize (IH x). apply elem_of_cons in IH as [->|IH]; [left|].
    right. by right.
Qed.

(** X30 ([_analizar_velocidad]): whatever the distance function and
    however the sum of the average is rounded, the average and the
    maximum speed are both given or both missing, and they are missing exactly when no step
    of the track passes the filters (both times known, at least 0.0001 h
    apart, a speed above 0.5 and below 150 km/h). The maximum reported is
    the speed of one of these steps rounded to one decimal, lies between
    0.5 and 150 km/h, and no step that passes the filters has a speed
    that rounds to more. *)
Theorem speed_summary (_haversine : Q -> Q -> Q -> Q -> Q)
    (py_sum : list Q -> Q) (track_points : list GPXExtractor.TrackPoint) :
  let r := GPXExtractor._analizar_velocidad _haversine py_sum track_points in
  let velocidades :=
    omap (fun p => GPXExtractor.speed _haversine p.1 p.2)
         (GPXExtractor.pairs track_points) in
  match GPXExtractor.promedio_kmh r, GPXExtractor.maxima_kmh r with
  | Some a, Some m =>
      (exists v, v ∈ velocidades /\ m = py_round v 1) /\
      (1 # 2) <= m /\ m <= 150 /\
      forall v, v ∈ velocidades -> py_round v 1 <= m
  | None, None => velocidades = []
  | _, _ => False
  end.
Proof.
  cbv zeta. unfold GPXExtractor._analizar_velocidad.
  set (velocidades := omap _ _).
  assert (Forall (fun v => (1 # 2) <= v /\ v <= 150) velocidades) as Hr.
  { apply Forall_forall. intros v Hv.
    apply list_elem_of_omap in Hv as (p & _ & Hp). by eapply speed_range. }
  destruct velocidades as [|v vs]; [done|].
  cbn [GPXExtractor.promedio_kmh GPXExtractor.maxima_kmh].
  assert (py_round (1 # 2) 1 == 1 # 2) as H12 by (by vm_compute).
  assert (py_round 150 1 == 150) as H150 by (by vm_compute).
  pose proof (py_max_in vs v) as Hin.
  rewrite Forall_forall in Hr. destruct (Hr _ Hin) as [Hlo Hhi].
  split_and!.
  - by eexists.
  - rewrite <- H12. by apply py_round_mono.
  - rewrite <- H150. by apply py_round_mono.
  - intros x Hx. apply py_round_mono.
    apply elem_of_cons in Hx as [->|Hx];
      [apply py_max_ge|by apply py_max_elem].
Qed.
